(* ===== verification/_CoqProject ===== *)
-Q . S2P
Prelude.v
ListH.v
RbNode.v
RbTree.v
RbZip.v
RbInv.v
RbInsert.v
RbErase.v
RbIter.v
EvTime.v
Rings.v
EvLoop.v
EvInv.v
EvOps.v
EvTree.v
EvApi.v
EvRun.v
EvTurn.v
EvAlloc.v
EvSpec.v
EvFree.v
EvClient.v
EvModel.v
CAlloc.v
WbaStr.v
WbaStrSpec.v
WbaTok.v
Chain.v
SkipList.v
SkipRep.v
SkipSpec.v
SkipInsert.v
SkipOps.v
SkipDelete.v
SkipFree.v
SkipListR.v
SkipRSpec.v
SkipRUpd.v
SkipROps.v
StdText.v
StdMap.v
SString.v
STime.v
SrcFile.v
SList.v
STree.v
STreeWalk.v
STreeBuild.v
STreeMake.v
STreeTop.v
EvDebug.v
Http.v
HttpSpec.v
Mre.v
MreMain.v
Console.v
Logger.v
Maze.v
MazeSpec.v
Visitors.v
Icu.v
ProgOpt.v
InetServer.v
InetSpec.v
Echo.v
Sock.v
SockSpec.v
PropsRb.v
PropsEv.v
PropsStr.v
PropsSkip.v
PropsSkipR.v
PropsCpp.v
PropsTree.v
PropsHttp.v
PropsMre.v
PropsText.v
PropsMaze.v
PropsNet.v
PropsSock.v
