(* ===== verification/Prelude.v ===== *)
(** * Verification of the components of the repository

    The repository is a collection of small C and C++ programs and libraries.
    This development models its algorithmic core in Rocq and proves the
    components correct.  Definitions keep the names of the source; a comment in
    front of each file names the files under src/ it translates.

    ** Components, files and correspondence

    Every stateful component is a state-passing program in the monad [cmd]
    below: memory is a finite map from addresses to objects, a load or a store
    through NULL or a dead pointer is [Fault] (undefined behaviour in C), and a
    loop that is not structurally recursive takes fuel and returns [OutOfFuel]
    when it runs out.  [wp m Q s] says that [m] run from [s] returns, neither
    faulting nor running out of fuel, in a state that satisfies [Q].  Machine
    integers are [Z] with wrap-around ([s32] and friends) or with overflow as a
    fault where the C standard makes it undefined ([s32_value], [ck_int]).

    - Event loop, src/network/wba_event/wba_evloop.{c,h}.  [EvTime] (struct
      timeval arithmetic), [EvLoop] (state, every function up to
      [wba_event_loop]; the clock, epoll, malloc and the client's callbacks are
      the parameter class of the file).  [EvInv] is the data invariant: the
      slots of the descriptor map, the active list, the timeout tree and the
      counters agree with the flags of the events.  [EvOps] states abstract
      operations and that the code implements them, [EvTree] the timeout tree,
      [EvApi]/[EvAlloc] adding, deleting, creating and freeing events, [EvRun]
      and [EvTurn] the abstract loop ([drained]: the active events run one after the
      other, [turn], [turns]), that the code implements it, and what it asks of
      callbacks (the class [Client] is the invariant a client keeps of its events and
      its own data, [callback_ok] the contract of a callback), [EvSpec] what the abstract
      operations mean, [EvFree] assigning events again and freeing a base,
      [EvClient] a client, the callbacks and timers of
      src/network/wba_event/test.c with the 1024-byte buffers they read into and
      print, that keeps its side of that interface,
      [EvModel] a concrete system for the instances, [EvDebug] the debug text of
      an event.
    - Intrusive list, src/network/wba_event/list.h: [ListH]; [Rings] is the
      interface through which the event loop uses it (families of disjoint
      circular lists).
    - Red-black tree, src/network/wba_event/rbtree.{c,h}: [RbNode] (nodes with
      parent and colour packed in one word), [RbTree] (the algorithms), [RbZip]
      (trees and zippers in memory), [RbInv] (the red-black invariant and the
      height bound), [RbInsert], [RbErase], [RbIter].
    - Dynamic strings, src/c_data_structure/wba_str: [WbaStr] (operations),
      [WbaStrSpec] and [WbaTok] (representation, growth, tokenizer).
    - Skip list, src/c_data_structure/skiplist/skiplist.{c,h}: [SkipList],
      [Chain] (linked chains), [SkipRep], [SkipSpec] (levels and search),
      [SkipInsert], [SkipOps], [SkipDelete], [SkipFree]; and its recursive
      predecessor skiplist.r.{c,h}: [SkipListR], [SkipRSpec], [SkipRUpd],
      [SkipROps] (with what a failing malloc leads to).  [CAlloc] is the interface to malloc, realloc, free
      and rand that these, the strings and the singly linked list are proved
      against, with a concrete allocator that discharges it and the interface to
      operator new.
    - Singly linked list, src/c_data_structure/slist.c: [SList].
    - String and number helpers, src/cpp_console/sstring.h and
      numeric_traits.h: [SString], with the grammar of the integers read.  Times and accumulator, stime.h and
      time_accumulator.h: [STime].  [StdText] and [StdMap] model what these use
      of the C++ library (character classes, integer input and output, streams,
      ordered maps).
    - Named tree, src/cpp_console/stree.h: [STree], [STreeWalk] (traversals
      against recursive orders), [STreeBuild] (what a description says),
      [STreeMake] (the invariant of build), [STreeTop] (build, print, destroy);
      [STree] also holds the program cpp_console/main.cpp.
    - Stop watch and console logs, src/cpp_console/{stop_watch,slog,log_printer}.h:
      [Console].  Boost loggers with format strings, src/my_lib/boost_log:
      [Logger].  Program options, src/my_lib/ProgramOptions: [ProgOpt].  Text
      encodings, src/my_lib/icu_encoding: [Icu], with the arrays it allocates and
      concrete converters.  Boost.ProgramOptions and ICU are classes of operations with
      their documented laws; the theorems hold for every instance.
    - Creational patterns, src/design_patterns/creational: [Maze] (objects with
      virtual functions, factories and builders as records of methods) and
      [MazeSpec] ([MazeFactoryOk] is the interface between a factory and the
      game).  Visitors, src/design_patterns/visitors: [Visitors].
    - TCP server, src/network/tcp/inet_server.c: [InetServer] (the actions of its
      threads and all interleavings), [InetSpec] (the invariant, a whole sweep).
      libevent server, src/network/libevent: [Echo], for any library with the
      documented buffers.  The other socket programs, src/network/{tcp,udp,
      unixsock}: [Sock], interaction trees of system calls with the uninitialised
      arrays as arguments, and [SockSpec], their runs against scripted systems.
    - Word files, src/preprocess (SrcLine, SrcFile, SrcIter, SrcCIter, Main):
      [SrcFile].
    - HTTP client, src/my_lib/http_client/HttpClient.{cpp,h}: [Http] (handlers
      as functions on the client's state, the machine as the relation [step]),
      [HttpSpec] (invariant, the chunked exchange and the program Source.cpp).
    - Manual reset event, src/my_lib/ManualResetEvent: [Mre] (the atomic actions
      of every function, and all interleavings of threads as a step relation),
      [MreMain] the program Source.cpp composed with them.

    ** What the theorems show

    The files [Props*] hold the properties, each with a concrete instance.
    - [PropsEv]: a turn of the loop terminates, implements the abstract turn and keeps the
      invariant, and any number of turns never faults and ends only on an idle base or a
      failing epoll_wait, for any callbacks that keep their contract and for
      the test program in particular; exactly the due timers fire, in order; the callback
      of every active event is called once; the outcomes of add, delete and assign, which
      leave other events alone; freeing a base releases its events and memory
      once; readiness reports, waiting times and periodic deadlines.
    - [PropsRb]: insertion and removal change the in-order sequence by one node
      and keep the red-black invariant; traversal order; logarithmic height; the
      packed word; replacement and augmentation; list operations and the safe
      iteration.
    - [PropsSkip], [PropsSkipR]: search, insert, delete, init, free and the
      traversals of both skip lists, for any allocator and random numbers.
    - [PropsStr]: growth, copy, append, the tokenizer and its release.
    - [PropsCpp]: split, trim, exact number conversion and its round trip,
      ordinals, printing and parsing times, totals and their report, words.
    - [PropsTree]: a described tree is built and printed as described, both
      traversals, the destructor, the singly linked list.
    - [PropsHttp]: one report per request under every schedule of completions and
      timeouts; chunked responses are decoded however the network cuts them; what
      the program asks of the network and prints.
    - [PropsMre]: mutual exclusion, what a wait has seen when it returns, absence of
      deadlock, that a single waiter never misses a notification, and that the
      program prints its line under every schedule.
    - [PropsText]: what a stop watch measures, the lines of a log file, format
      strings against their pieces, every outcome of a conversion between
      encodings and its round trip, options after a configuration was stored.
    - [PropsMaze]: the maze every factory makes, the life of the singleton, the
      builder that cannot build.
    - [PropsNet]: the connections of the TCP server under every interleaving, a
      complete sweep, the echo of the libevent callback.
    - [PropsSock]: client and server together for UDP and the Unix socket, the
      descriptors the TCP client loses.
    Theorems about code that is wrong (wrong descriptor activated, waiting time
    overflow, leaked descriptors, dropped lines, accepted short responses, a
    forgotten waiter, unterminated arrays printed, a NULL from malloc used, a search that ends in
    undefined behaviour) are stated beside them.

    ** Fuel and bounds

    Fuel bounds are hypotheses of the theorems or fixed in the definition: a
    walk over a list of [n] nodes needs more than [n]; rebalancing the height of
    the tree; the skip lists [n] per level; the HTTP header loop and the file
    reader one per character of input.  Each theorem shows the result is [Done],
    except for the event loop, which may run for ever: its theorem holds for every
    number of turns.  Socket programs are run with as much fuel as they need
    ([runs]).
    Skip lists have at most 30 levels because rand_level doubles an [int].

    ** Not modelled

    The conversions of floating types in to_string; exceptions of new outside
    the text encodings; addresses and flags passed to socket calls; the
    delivery of log records to sinks; the samples of std::pair and std::tuple;
    the unfinished classes of src/preprocess (CGeneric includes a header that
    does not exist, Preprocessor and SrcProcessor have no bodies); the test drivers,
    except for the parts of the event loop's that [EvClient] names (its callbacks that
    create events, the functions that only start them, and its socket set-up are left out).

    ** This file

    Outcomes, the command monad and its [wp] rules, loops with fuel and their
    rules, heap access and lenses between memories, and shared lemmas. *)

From stdpp Require Import gmap numbers list.

(** ** Outcomes of running C code

    A command either returns a value and a new state, faults (a load or a store
    through NULL or through a pointer to no live object: undefined behaviour in
    C), or exhausts the fuel given to one of its loops. *)

Inductive outcome (A : Type) : Type :=
| Done (a : A)
| Fault
| OutOfFuel.

Arguments Done {A} a.
Arguments Fault {A}.
Arguments OutOfFuel {A}.

(** Stateful, fallible commands over a state [S]. *)
Definition cmd (S A : Type) : Type := S → outcome (A * S).

#[global] Instance cmd_ret (S : Type) : MRet (cmd S) :=
  λ A a s, Done (a, s).

#[global] Instance cmd_bind (S : Type) : MBind (cmd S) :=
  λ A B k m s,
    match m s with
    | Done (a, s') => k a s'
    | Fault => Fault
    | OutOfFuel => OutOfFuel
    end.

Definition fault {S A} : cmd S A := λ _, Fault.
Definition out_of_fuel {S A} : cmd S A := λ _, OutOfFuel.
Definition get_state {S} : cmd S S := λ s, Done (s, s).
Definition put_state {S} (s : S) : cmd S () := λ _, Done ((), s).

(** Reading an optional value: [None] is a fault. *)
Definition of_option {S A} (o : option A) : cmd S A :=
  match o with Some a => mret a | None => fault end.

(** A while loop with fuel: [body] returns [inl] of the next loop state, or
    [inr] of the loop's result. *)
Fixpoint loop {S L R} (fuel : nat) (body : L → cmd S (L + R)) (l : L) : cmd S R :=
  match fuel with
  | O => out_of_fuel
  | Datatypes.S fuel =>
      r ← body l;
      match r with
      | inl l' => loop fuel body l'
      | inr res => mret res
      end
  end.

(** ** Total-correctness reasoning

    [wp m Q s]: from [s] the command [m] returns (it neither faults nor runs
    out of fuel), and its result and final state satisfy [Q]. *)
Definition wp {S A} (m : cmd S A) (Q : A → S → Prop) (s : S) : Prop :=
  ∃ a s', m s = Done (a, s') ∧ Q a s'.

Section wp_rules.
Context {S : Type}.

Lemma wp_ret {A} (a : A) Q (s : S) : Q a s → wp (mret a) Q s.
Proof. intros HQ. by exists a, s. Qed.

Lemma wp_bind {A B} (m : cmd S A) (k : A → cmd S B) Q s :
  wp m (λ a, wp (k a) Q) s → wp (m ≫= k) Q s.
Proof.
  intros (a & s' & Hm & b & s'' & Hk & HQ). exists b, s''. split; [|done].
  unfold mbind, cmd_bind. by rewrite Hm.
Qed.

Lemma bind_done {A B} (m : cmd S A) (k : A → cmd S B) s a s' : m s = Done (a, s') → (m ≫= k) s = k a s'.
Proof. intros Hm. unfold mbind, cmd_bind. by rewrite Hm. Qed.

Lemma bind_fault {A B} (m : cmd S A) (k : A → cmd S B) s : m s = Fault → (m ≫= k) s = Fault.
Proof. intros Hm. unfold mbind, cmd_bind. by rewrite Hm. Qed.

Lemma wp_bind_assoc {A B C} (m : cmd S A) (k : A → cmd S B) (k' : B → cmd S C) Q s :
  wp ((m ≫= k) ≫= k') Q s → wp (m ≫= λ a, k a ≫= k') Q s.
Proof.
  intros (c & s' & Hm & HQ). exists c, s'. split; [|done]. rewrite <-Hm.
  unfold mbind, cmd_bind. by destruct (m s) as [[? ?]| |].
Qed.

Lemma wp_mono {A} (m : cmd S A) (Q Q' : A → S → Prop) s :
  wp m Q s → (∀ a s', Q a s' → Q' a s') → wp m Q' s.
Proof. intros (a & s' & Hm & HQ) HQQ'. exists a, s'. auto. Qed.

Lemma wp_done {A} (m : cmd S A) Q s a s' :
  m s = Done (a, s') → Q a s' → wp m Q s.
Proof. intros Hm HQ. by exists a, s'. Qed.

Lemma wp_get_state Q (s : S) : Q s s → wp get_state Q s.
Proof. intros HQ. by exists s, s. Qed.

Lemma wp_put_state Q (s s' : S) : Q () s' → wp (put_state s') Q s.
Proof. intros HQ. by exists (), s'. Qed.

Lemma wp_of_option {A} (o : option A) a Q (s : S) :
  o = Some a → Q a s → wp (of_option o) Q s.
Proof. intros -> HQ. by apply wp_ret. Qed.

(** One more unit of fuel unrolls the loop once. *)
Lemma wp_loop {L R} n (body : L → cmd S (L + R)) l Q s :
  wp (body l) (λ r, wp (match r with
                        | inl l' => loop n body l'
                        | inr res => mret res
                        end) Q) s →
  wp (loop (Datatypes.S n) body l) Q s.
Proof. intros H. simpl. by apply wp_bind. Qed.

(** Total-correctness rule for loops: an invariant [I] indexed by a variant
    [m] that bounds the remaining number of iterations. *)
Lemma wp_loop_variant {L R} (I : nat → L → S → Prop) (body : L → cmd S (L + R)) Q :
  (∀ m l s, I m l s →
     wp (body l) (λ r s', match r with
                          | inl l' => ∃ m', m' < m ∧ I m' l' s'
                          | inr res => Q res s'
                          end) s) →
  ∀ fuel m l s, m < fuel → I m l s → wp (loop fuel body l) Q s.
Proof.
  intros Hbody fuel. induction fuel as [|fuel IH]; intros m l s Hm HI; [lia|].
  apply wp_loop. eapply wp_mono; [by apply Hbody|].
  intros [l'|res] s'; simpl.
  - intros (m' & ? & ?). eapply IH; [|done]. lia.
  - intros HQ. by apply wp_ret.
Qed.

(** A loop that may run for ever, observed for [n] turns: while the body keeps the invariant
    it does not fault, and if it has ended its result satisfies [Q]. *)
Lemma loop_turns {L R} (I : L → S → Prop) (body : L → cmd S (L + R)) (Q : R → S → Prop) :
  (∀ l s, I l s → wp (body l) (λ r s', match r with inl l' => I l' s' | inr res => Q res s' end) s) →
  ∀ n l s, I l s →
    match loop n body l s with
    | Done (r, s') => Q r s'
    | Fault => False
    | OutOfFuel => True
    end.
Proof.
  intros Hbody n. induction n as [|n IH]; intros l s HI; [done|].
  destruct (Hbody l s HI) as ([l'|r] & s' & Hb & HQ); simpl; unfold mbind, cmd_bind; rewrite Hb; [by apply IH|done].
Qed.

End wp_rules.

#[global] Arguments wp : simpl never.

(** ** Lenses: a component's memory inside a larger state *)

Class Lens (S T : Type) : Type := {
  view : S → T;
  update : T → S → S;
  view_update : ∀ t s, view (update t s) = t;
  update_view : ∀ s, update (view s) s = s;
  update_update : ∀ t t' s, update t (update t' s) = update t s;
}.

#[global] Instance lens_id (S : Type) : Lens S S.
Proof. by refine {| view := id; update := λ t _, t |}. Defined.

(** Run a component's command on the part of the state it owns. *)
Definition zoom {S T A} `{!Lens S T} (m : cmd T A) : cmd S A :=
  λ s, match m (view s) with
       | Done (a, t) => Done (a, update t s)
       | Fault => Fault
       | OutOfFuel => OutOfFuel
       end.

Lemma wp_zoom {S T A} `{!Lens S T} (m : cmd T A) Q (s : S) :
  wp m (λ a t, Q a (update t s)) (view s) → wp (zoom m) Q s.
Proof.
  intros (a & t & Hm & HQ). exists a, (update t s). split; [|done].
  unfold zoom. by rewrite Hm.
Qed.

(** ** Typed memories

    A memory holds the live objects of one C struct type, keyed by address.
    NULL is address 0, which no memory contains; loading or storing through a
    pointer to no live object faults. *)

Definition NULL : Z := 0.

Section memory.
Context {T : Type}.
Implicit Types (h : gmap Z T) (p : Z) (v : T).

Definition load p : cmd (gmap Z T) T :=
  λ h, match h !! p with Some v => Done (v, h) | None => Fault end.

Definition store p v : cmd (gmap Z T) () :=
  λ h, match h !! p with Some _ => Done ((), <[p:=v]> h) | None => Fault end.

(** [modify p f] models an assignment to one field of the object at [p]. *)
Definition modify p (f : T → T) : cmd (gmap Z T) () :=
  λ h, match h !! p with Some v => Done ((), <[p:=f v]> h) | None => Fault end.

Lemma wp_load p v Q h : h !! p = Some v → Q v h → wp (load p) Q h.
Proof. intros Hp HQ. exists v, h. unfold load. by rewrite Hp. Qed.

Lemma wp_store p v Q h :
  is_Some (h !! p) → Q () (<[p:=v]> h) → wp (store p v) Q h.
Proof. intros [w Hp] HQ. exists (), (<[p:=v]> h). unfold store. by rewrite Hp. Qed.

Lemma wp_modify p f v Q h :
  h !! p = Some v → Q () (<[p:=f v]> h) → wp (modify p f) Q h.
Proof. intros Hp HQ. eexists (), _. unfold modify. by rewrite Hp. Qed.

(** [h'] differs from [h] at most at the addresses in [X]. *)
Definition agree_off (X : list Z) h h' : Prop :=
  ∀ x, x ∉ X → h' !! x = h !! x.

Lemma agree_off_refl X h : agree_off X h h.
Proof. by intros x. Qed.

Lemma agree_off_trans X h1 h2 h3 :
  agree_off X h1 h2 → agree_off X h2 h3 → agree_off X h1 h3.
Proof. intros H12 H23 x Hx. by rewrite H23, H12. Qed.

Lemma agree_off_weaken X Y h h' : agree_off X h h' → X ⊆ Y → agree_off Y h h'.
Proof. intros H HXY x Hx. apply H. set_solver. Qed.

Lemma agree_off_app {X Y h1 h2 h3} :
  agree_off X h1 h2 → agree_off Y h2 h3 → agree_off (X ++ Y) h1 h3.
Proof. intros H12 H23 x Hx. rewrite H23, H12; [done|set_solver..]. Qed.

Lemma agree_off_insert X h p v : p ∈ X → agree_off X h (<[p:=v]> h).
Proof. intros Hp x Hx. apply lookup_insert_ne. set_solver. Qed.

Lemma agree_off_alter X h p f : p ∈ X → agree_off X h (alter f p h).
Proof. intros Hp x Hx. apply lookup_alter_ne. set_solver. Qed.

End memory.

(** ** Lists *)

Lemma filter_all {A} (P : A → Prop) `{!∀ x, Decision (P x)} (l : list A) :
  (∀ x, x ∈ l → P x) → filter P l = l.
Proof.
  induction l as [|x l IH]; intros HP; [done|]. rewrite filter_cons_True by (apply HP; set_solver).
  f_equal. apply IH. set_solver.
Qed.

Lemma filter_ext_in {A} (P Q : A → Prop) `{!∀ x, Decision (P x), !∀ x, Decision (Q x)} (l : list A) :
  (∀ x, x ∈ l → P x ↔ Q x) → filter P l = filter Q l.
Proof.
  induction l as [|x l IH]; intros HPQ; [done|]. rewrite !filter_cons, IH by set_solver.
  repeat case_decide; naive_solver set_solver.
Qed.
