(* ===== verification/ListH.v ===== *)
(** * The intrusive doubly linked list (network/wba_event/list.h)

    [list_head] is the struct, [lheap] the memory of all live list heads, and
    each operation of the header is the command of the same name.  A ring is
    described by [ring h head xs]: starting at the sentinel [head] the [next]
    pointers visit exactly [xs] and return to [head], and the [prev] pointers
    run backwards along the same cycle. *)

From stdpp Require Import gmap numbers list.
From S2P Require Import Prelude.

Local Open Scope Z_scope.

(** ** Data *)

Record list_head := ListHead { next : Z; prev : Z }.

Abbreviation lheap := (gmap Z list_head).

#[global] Instance list_head_eq_dec : EqDecision list_head.
Proof. solve_decision. Defined.

Definition get_next (p : Z) : cmd lheap Z := n ← load p; mret (next n).
Definition get_prev (p : Z) : cmd lheap Z := n ← load p; mret (prev n).
Definition set_next (p q : Z) : cmd lheap () :=
  modify p (λ n, ListHead q (prev n)).
Definition set_prev (p q : Z) : cmd lheap () :=
  modify p (λ n, ListHead (next n) q).

(** ** Operations *)

Definition INIT_LIST_HEAD (ptr : Z) : cmd lheap () :=
  set_next ptr ptr;;
  set_prev ptr ptr.

Definition __list_add (new prev next : Z) : cmd lheap () :=
  set_prev next new;;
  set_next new next;;
  set_prev new prev;;
  set_next prev new.

Definition list_add (new head : Z) : cmd lheap () :=
  n ← get_next head;
  __list_add new head n.

Definition list_add_tail (new head : Z) : cmd lheap () :=
  p ← get_prev head;
  __list_add new p head.

Definition __list_del (prev next : Z) : cmd lheap () :=
  set_prev next prev;;
  set_next prev next.

Definition list_del (entry : Z) : cmd lheap () :=
  p ← get_prev entry;
  n ← get_next entry;
  __list_del p n;;
  set_next entry NULL;;
  set_prev entry NULL.

Definition list_del_init (entry : Z) : cmd lheap () :=
  p ← get_prev entry;
  n ← get_next entry;
  __list_del p n;;
  INIT_LIST_HEAD entry.

Definition list_move (list head : Z) : cmd lheap () :=
  p ← get_prev list;
  n ← get_next list;
  __list_del p n;;
  list_add list head.

Definition list_move_tail (list head : Z) : cmd lheap () :=
  p ← get_prev list;
  n ← get_next list;
  __list_del p n;;
  list_add_tail list head.

Definition list_empty (head : Z) : cmd lheap bool :=
  n ← get_next head;
  mret (bool_decide (n = head)).

Definition __list_splice (list head : Z) : cmd lheap () :=
  first ← get_next list;
  last ← get_prev list;
  at_ ← get_next head;
  set_prev first head;;
  set_next head first;;
  set_next last at_;;
  set_prev at_ last.

Definition list_splice (list head : Z) : cmd lheap () :=
  e ← list_empty list;
  if (e : bool) then mret () else __list_splice list head.

Definition list_splice_init (list head : Z) : cmd lheap () :=
  e ← list_empty list;
  if (e : bool) then mret ()
  else __list_splice list head;; INIT_LIST_HEAD list.

(** [list_entry]: from a member's address to that of the struct around it. *)
Definition list_entry (ptr offset : Z) : Z := ptr - offset.

(** The iteration macros.  The loop body is a command of the client's state
    [S], which contains the list memory, and threads an accumulator [A]. *)
Section iteration.
Context {S : Type} `{!Lens S lheap} {A : Type}.

Definition list_for_each (fuel : nat) (body : Z → A → cmd S A) (head : Z) (a : A) : cmd S A :=
  pos ← zoom (get_next head);
  loop fuel (λ '(pos, a),
    if bool_decide (pos = head) then mret (inr a) else
    a ← body pos a;
    pos ← zoom (get_next pos);
    mret (inl (pos, a))) (pos, a).

Definition list_for_each_prev (fuel : nat) (body : Z → A → cmd S A) (head : Z) (a : A) : cmd S A :=
  pos ← zoom (get_prev head);
  loop fuel (λ '(pos, a),
    if bool_decide (pos = head) then mret (inr a) else
    a ← body pos a;
    pos ← zoom (get_prev pos);
    mret (inl (pos, a))) (pos, a).

Definition list_for_each_safe (fuel : nat) (body : Z → A → cmd S A) (head : Z) (a : A) : cmd S A :=
  pos ← zoom (get_next head);
  n ← zoom (get_next pos);
  loop fuel (λ '(pos, n, a),
    if bool_decide (pos = head) then mret (inr a) else
    a ← body pos a;
    n' ← zoom (get_next n);
    mret (inl (n, n', a))) (pos, n, a).

Definition list_for_each_entry (fuel : nat) (member : Z) (body : Z → A → cmd S A)
    (head : Z) (a : A) : cmd S A :=
  n ← zoom (get_next head);
  loop fuel (λ '(pos, a),
    if bool_decide (pos + member = head) then mret (inr a) else
    a ← body pos a;
    n ← zoom (get_next (pos + member));
    mret (inl (list_entry n member, a))) (list_entry n member, a).

Definition list_for_each_entry_safe (fuel : nat) (member : Z) (body : Z → A → cmd S A)
    (head : Z) (a : A) : cmd S A :=
  f ← zoom (get_next head);
  n ← zoom (get_next (list_entry f member + member));
  loop fuel (λ '(pos, n, a),
    if bool_decide (pos + member = head) then mret (inr a) else
    a ← body pos a;
    n' ← zoom (get_next (n + member));
    mret (inl (n, list_entry n' member, a))) (list_entry f member, list_entry n member, a).

End iteration.

(** ** Rings *)

Definition nxt (h : lheap) (a : Z) : option Z := next <$> h !! a.
Definition prv (h : lheap) (a : Z) : option Z := prev <$> h !! a.

(** Consecutive elements of [l] point at each other. *)
Fixpoint chain (h : lheap) (l : list Z) : Prop :=
  match l with
  | a :: l' =>
      match l' with
      | b :: _ => nxt h a = Some b ∧ prv h b = Some a ∧ chain h l'
      | [] => True
      end
  | [] => True
  end.

Definition ring (h : lheap) (head : Z) (xs : list Z) : Prop :=
  chain h (head :: xs ++ [head]) ∧ NoDup (head :: xs).

(** ** Pointer updates, field by field *)

Definition upd_next (p q : Z) (h : lheap) : lheap :=
  alter (λ n, ListHead q (prev n)) p h.
Definition upd_prev (p q : Z) (h : lheap) : lheap :=
  alter (λ n, ListHead (next n) q) p h.

Create HintDb rings.
Create Rewrite HintDb rings.

Lemma nxt_upd_prev p q h x : nxt (upd_prev p q h) x = nxt h x.
Proof.
  unfold nxt, upd_prev. rewrite lookup_alter. case_decide; [|done].
  subst. by destruct (h !! x).
Qed.

Lemma prv_upd_next p q h x : prv (upd_next p q h) x = prv h x.
Proof.
  unfold prv, upd_next. rewrite lookup_alter. case_decide; [|done].
  subst. by destruct (h !! x).
Qed.

Lemma nxt_upd_next_ne p q h x : p ≠ x → nxt (upd_next p q h) x = nxt h x.
Proof. intros. unfold nxt, upd_next. by rewrite lookup_alter_ne. Qed.

Lemma prv_upd_prev_ne p q h x : p ≠ x → prv (upd_prev p q h) x = prv h x.
Proof. intros. unfold prv, upd_prev. by rewrite lookup_alter_ne. Qed.

Lemma live_upd_next p q h x : is_Some (upd_next p q h !! x) ↔ is_Some (h !! x).
Proof. unfold upd_next. apply lookup_alter_is_Some. Qed.

Lemma live_upd_prev p q h x : is_Some (upd_prev p q h !! x) ↔ is_Some (h !! x).
Proof. unfold upd_prev. apply lookup_alter_is_Some. Qed.

Lemma nxt_upd_next p q h : is_Some (h !! p) → nxt (upd_next p q h) p = Some q.
Proof. intros [n Hn]. unfold nxt, upd_next. by rewrite lookup_alter_eq, Hn. Qed.

Lemma prv_upd_prev p q h : is_Some (h !! p) → prv (upd_prev p q h) p = Some q.
Proof. intros [n Hn]. unfold prv, upd_prev. by rewrite lookup_alter_eq, Hn. Qed.

Lemma nxt_live h a b : nxt h a = Some b → is_Some (h !! a).
Proof. unfold nxt. destruct (h !! a); naive_solver. Qed.

Lemma prv_live h a b : prv h a = Some b → is_Some (h !! a).
Proof. unfold prv. destruct (h !! a); naive_solver. Qed.

#[export] Hint Rewrite nxt_upd_prev prv_upd_next : rings.
#[export] Hint Rewrite nxt_upd_next_ne prv_upd_prev_ne using congruence : rings.
#[export] Hint Rewrite live_upd_next live_upd_prev : rings.
#[export] Hint Rewrite nxt_upd_next prv_upd_prev
  using (autorewrite with rings; eauto using nxt_live, prv_live) : rings.
#[export] Hint Resolve nxt_live prv_live : rings.

(** ** Rules for the field accesses *)

Lemma wp_get_next p q Q h : nxt h p = Some q → Q q h → wp (get_next p) Q h.
Proof.
  unfold nxt. intros [n [? Hn]]%fmap_Some HQ. subst.
  apply wp_bind. eapply wp_load; [done|]. by apply wp_ret.
Qed.

Lemma wp_get_prev p q Q h : prv h p = Some q → Q q h → wp (get_prev p) Q h.
Proof.
  unfold prv. intros [n [? Hn]]%fmap_Some HQ. subst.
  apply wp_bind. eapply wp_load; [done|]. by apply wp_ret.
Qed.

Lemma insert_alter {T} (h : gmap Z T) p f v :
  h !! p = Some v → <[p:=f v]> h = alter f p h.
Proof.
  intros Hp. apply map_eq. intros x. rewrite lookup_insert, lookup_alter.
  case_decide; [|done]. subst. by rewrite Hp.
Qed.

Lemma wp_set_next p q Q h :
  is_Some (h !! p) → Q () (upd_next p q h) → wp (set_next p q) Q h.
Proof.
  intros [n Hn] HQ. eapply wp_modify; [done|].
  by rewrite (insert_alter h p (λ n, ListHead q (prev n)) n).
Qed.

Lemma wp_set_prev p q Q h :
  is_Some (h !! p) → Q () (upd_prev p q h) → wp (set_prev p q) Q h.
Proof.
  intros [n Hn] HQ. eapply wp_modify; [done|].
  by rewrite (insert_alter h p (λ n, ListHead (next n) q) n).
Qed.

(** Symbolic execution of straight-line list code. *)
Ltac list_live := autorewrite with rings; eauto with rings.
Ltac list_step :=
  lazymatch goal with
  | |- wp (mbind _ _) _ _ => apply wp_bind
  | |- wp (mret _) _ _ => apply wp_ret
  | |- wp (get_next _) _ _ => eapply wp_get_next; [by autorewrite with rings|]
  | |- wp (get_prev _) _ _ => eapply wp_get_prev; [by autorewrite with rings|]
  | |- wp (set_next _ _) _ _ => apply wp_set_next; [by list_live|]
  | |- wp (set_prev _ _) _ _ => apply wp_set_prev; [by list_live|]
  end.
Ltac list_steps := repeat list_step; cbn beta.

(** ** Chains *)

Lemma chain_app h l1 a l2 :
  chain h (l1 ++ a :: l2) ↔ chain h (l1 ++ [a]) ∧ chain h (a :: l2).
Proof.
  induction l1 as [|x l1 IH]; [simpl; tauto|].
  destruct l1 as [|y l1]; simpl in *; naive_solver.
Qed.

Lemma chain_frame h h' l :
  chain h l →
  (∀ x, x ∈ removelast l → nxt h' x = nxt h x) →
  (∀ x, x ∈ tail l → prv h' x = prv h x) →
  chain h' l.
Proof.
  induction l as [|a [|b l] IH]; [done|done|].
  intros (Hn & Hp & Hc) HN HP. change (chain h' (a :: b :: l)) with
    (nxt h' a = Some b ∧ prv h' b = Some a ∧ chain h' (b :: l)).
  rewrite HN, HP by (simpl; set_solver). split_and!; [done..|].
  apply IH; [done| |]; intros x Hx; [apply HN|apply HP]; simpl in *; set_solver.
Qed.

(** The neighbours of the cut between [ys] and [zs] in the ring
    [head :: ys ++ zs]. *)
Definition cut_prev (head : Z) (ys : list Z) : Z := List.last ys head.
Definition cut_next (head : Z) (zs : list Z) : Z := hd head zs.

Lemma cut_prev_snoc head ys :
  head :: ys = removelast (head :: ys) ++ [cut_prev head ys].
Proof.
  unfold cut_prev. rewrite (app_removelast_last head (l:=head :: ys)) at 1 by done.
  f_equal. f_equal. by destruct ys.
Qed.

Lemma cut_next_cons head zs :
  zs ++ [head] = cut_next head zs :: tail (zs ++ [head]).
Proof. by destruct zs. Qed.

Lemma cut_prev_in head ys : cut_prev head ys ∈ head :: ys.
Proof. rewrite (cut_prev_snoc head ys). set_solver. Qed.

Lemma cut_next_in head zs : cut_next head zs ∈ head :: zs.
Proof. destruct zs; simpl; set_solver. Qed.

Lemma chain_cut h head ys zs :
  chain h (head :: (ys ++ zs) ++ [head]) ↔
  chain h (head :: ys) ∧ chain h (zs ++ [head]) ∧
  nxt h (cut_prev head ys) = Some (cut_next head zs) ∧
  prv h (cut_next head zs) = Some (cut_prev head ys).
Proof.
  replace (head :: (ys ++ zs) ++ [head]) with ((head :: ys) ++ zs ++ [head])
    by (simpl; by rewrite <-app_assoc).
  pose proof (cut_prev_snoc head ys) as Hys. pose proof (cut_next_cons head zs) as Hzs.
  revert Hys Hzs. generalize (removelast (head :: ys)), (tail (zs ++ [head])).
  intros l1 l2 -> ->. rewrite <-app_assoc. cbn [app].
  rewrite (chain_app h l1 _ (_ :: l2)). cbn [chain app]. tauto.
Qed.

(** A ring is a chain from the head to the cut, one from the cut back to the
    head, and the two pointers across the cut. *)
Lemma ring_cut h head ys zs :
  ring h head (ys ++ zs) ↔
  NoDup (head :: ys ++ zs) ∧
  chain h (head :: ys) ∧ chain h (zs ++ [head]) ∧
  nxt h (cut_prev head ys) = Some (cut_next head zs) ∧
  prv h (cut_next head zs) = Some (cut_prev head ys).
Proof. unfold ring. rewrite chain_cut. tauto. Qed.

(** Only the pointers across the cut change: both half chains survive. *)
Lemma chains_frame h h' head ys zs :
  NoDup (head :: ys ++ zs) →
  chain h (head :: ys) → chain h (zs ++ [head]) →
  (∀ x, x ∈ head :: ys ++ zs → x ≠ cut_prev head ys → nxt h' x = nxt h x) →
  (∀ x, x ∈ head :: ys ++ zs → x ≠ cut_next head zs → prv h' x = prv h x) →
  chain h' (head :: ys) ∧ chain h' (zs ++ [head]).
Proof.
  intros Hnd Hys Hzs HN HP.
  assert (NoDup (head :: ys) ∧ NoDup (zs ++ [head])) as [Hnd1 Hnd2].
  { apply NoDup_cons in Hnd as [? [? [? ?]]%NoDup_app].
    split; [apply NoDup_cons|apply NoDup_app]; split_and!; try done;
      [set_solver..|apply NoDup_singleton]. }
  split; (eapply chain_frame; [done|..]); intros x Hx.
  - rewrite (cut_prev_snoc head ys) in Hnd1. apply NoDup_app in Hnd1 as (_ & Hd & _).
    apply HN; [|set_solver].
    assert (x ∈ head :: ys) by (rewrite (cut_prev_snoc head ys); set_solver). set_solver.
  - simpl in Hx. apply HP; [set_solver|]. unfold cut_next. intros ->. clear Hys Hzs HN HP.
    apply NoDup_cons in Hnd as [Hh [_ [Hd _]]%NoDup_app]. destruct zs; cbn in *; set_solver.
  - rewrite removelast_last in Hx. apply HN; [set_solver|]. intros ->. clear Hys Hzs HN HP.
    pose proof (cut_prev_in head ys) as Hp. revert Hx Hp. generalize (cut_prev head ys).
    apply NoDup_cons in Hnd as [Hh [_ [Hd _]]%NoDup_app]. set_solver.
  - rewrite (cut_next_cons head zs) in Hnd2. apply NoDup_cons in Hnd2 as [Hd _].
    apply HP; [|set_solver].
    assert (x ∈ zs ++ [head]) by (rewrite (cut_next_cons head zs); set_solver). set_solver.
Qed.

Lemma ring_live h head xs x : ring h head xs → x ∈ head :: xs → is_Some (h !! x).
Proof.
  intros [Hc _] Hx. apply list_elem_of_split in Hx as (l1 & l2 & Heq).
  assert (chain h (l1 ++ x :: l2 ++ [head])) as Hc'.
  { by rewrite app_comm_cons, app_assoc, <-Heq. }
  apply chain_app in Hc' as [_ Hc']. destruct l2; simpl in Hc'; naive_solver eauto with rings.
Qed.

Lemma ring_NoDup h head xs : ring h head xs → NoDup (head :: xs).
Proof. by intros [_ ?]. Qed.

(** A ring only depends on its own cells. *)
Lemma ring_frame h h' head xs :
  ring h head xs → (∀ x, x ∈ head :: xs → h' !! x = h !! x) → ring h' head xs.
Proof.
  intros [Hc Hnd] Heq. split; [|done]. eapply chain_frame; [done|..]; intros x Hx;
    unfold nxt, prv; rewrite Heq; try done.
  - rewrite app_comm_cons, removelast_last in Hx. done.
  - simpl in Hx. set_solver.
Qed.

Lemma ring_agree_off h h' X head xs :
  ring h head xs → agree_off X h h' → (∀ x, x ∈ head :: xs → x ∉ X) → ring h' head xs.
Proof. intros Hr Ha Hd. eapply ring_frame; [done|]. auto. Qed.

(** ** Insertion and removal at a cut *)

Definition add_between (new p n : Z) (h : lheap) : lheap :=
  upd_next p new (upd_prev new p (upd_next new n (upd_prev n new h))).

Definition unlink (p n : Z) (h : lheap) : lheap := upd_next p n (upd_prev n p h).

Lemma wp___list_add new p n Q h :
  is_Some (h !! new) → is_Some (h !! p) → is_Some (h !! n) →
  Q () (add_between new p n h) → wp (__list_add new p n) Q h.
Proof. intros. unfold __list_add. by list_steps. Qed.

Lemma wp___list_del p n Q h :
  is_Some (h !! p) → is_Some (h !! n) →
  Q () (unlink p n h) → wp (__list_del p n) Q h.
Proof. intros. unfold __list_del. by list_steps. Qed.

Lemma ring_insert h head ys zs new :
  ring h head (ys ++ zs) → new ∉ head :: ys ++ zs → is_Some (h !! new) →
  ring (add_between new (cut_prev head ys) (cut_next head zs) h) head (ys ++ new :: zs).
Proof.
  intros (Hnd & Hys & Hzs & Hn & Hp)%ring_cut Hnew Hlive.
  pose proof (cut_prev_in head ys). pose proof (cut_next_in head zs).
  set (p := cut_prev head ys) in *. set (n := cut_next head zs) in *.
  assert (p ≠ new ∧ n ≠ new) as [Hpn Hnn] by (clearbody p n; set_solver).
  set (h' := add_between new p n h).
  destruct (chains_frame h h' head ys zs) as [Hys' Hzs']; [done..| | |].
  1,2: intros x Hx Hne; assert (x ≠ new) by (clear -Hx Hnew; set_solver);
    unfold h', add_between; fold p n in Hne |- *; by autorewrite with rings.
  rewrite ring_cut. split_and!; [|done|..]; [|unfold h', add_between..].
  - clear -Hnd Hnew. apply NoDup_cons in Hnd as [Hh [? [? ?]]%NoDup_app].
    rewrite NoDup_cons. split; [set_solver|].
    rewrite NoDup_app. split_and!; [done|set_solver|]. apply NoDup_cons. set_solver.
  - cbn [app]. pose proof (cut_next_cons head zs) as Hcut. fold n in Hcut.
    rewrite Hcut in *. cbn [chain]. split_and!; [..|done].
    + by autorewrite with rings.
    + by autorewrite with rings.
  - change (cut_next head (new :: zs)) with new. by autorewrite with rings.
  - change (cut_next head (new :: zs)) with new. fold p. by autorewrite with rings.
Qed.

Lemma ring_remove h head ys zs e :
  ring h head (ys ++ e :: zs) →
  nxt h e = Some (cut_next head zs) ∧ prv h e = Some (cut_prev head ys) ∧
  ring (unlink (cut_prev head ys) (cut_next head zs) h) head (ys ++ zs).
Proof.
  intros (Hnd & Hys & Hzs & Hn & Hp)%ring_cut.
  change (cut_next head (e :: zs)) with e in *. cbn [app] in Hzs.
  assert (nxt h e = Some (cut_next head zs) ∧ prv h (cut_next head zs) = Some e ∧
          chain h (zs ++ [head])) as (Hne & Hpe & Hzs').
  { rewrite (cut_next_cons head zs) in *. exact Hzs. }
  split_and!; [done..|].
  assert (NoDup (head :: ys ++ zs)) as Hnd'.
  { clear -Hnd. apply NoDup_cons in Hnd as [? [? [? [? ?]%NoDup_cons]]%NoDup_app].
    rewrite NoDup_cons, NoDup_app. set_solver. }
  destruct (chains_frame h (unlink (cut_prev head ys) (cut_next head zs) h) head ys zs)
    as [Hc1 Hc2]; [done..| | |].
  1,2: intros x _ Hx; unfold unlink; by autorewrite with rings.
  rewrite ring_cut. split_and!; [done..| |]; unfold unlink; by autorewrite with rings.
Qed.

Lemma agree_off_upd_next X p q h : p ∈ X → agree_off X h (upd_next p q h).
Proof. apply agree_off_alter. Qed.

Lemma agree_off_upd_prev X p q h : p ∈ X → agree_off X h (upd_prev p q h).
Proof. apply agree_off_alter. Qed.

Lemma agree_off_add_between X new p n h :
  new ∈ X → p ∈ X → n ∈ X → agree_off X h (add_between new p n h).
Proof.
  intros. unfold add_between.
  repeat (eapply agree_off_trans; [|by (apply agree_off_upd_next || apply agree_off_upd_prev)]).
  apply agree_off_refl.
Qed.

Lemma agree_off_unlink X p n h : p ∈ X → n ∈ X → agree_off X h (unlink p n h).
Proof.
  intros. unfold unlink.
  repeat (eapply agree_off_trans; [|by (apply agree_off_upd_next || apply agree_off_upd_prev)]).
  apply agree_off_refl.
Qed.

Lemma live_add_between new p n h x :
  is_Some (add_between new p n h !! x) ↔ is_Some (h !! x).
Proof. unfold add_between. by autorewrite with rings. Qed.

Lemma live_unlink p n h x : is_Some (unlink p n h !! x) ↔ is_Some (h !! x).
Proof. unfold unlink. by autorewrite with rings. Qed.

#[export] Hint Rewrite live_add_between live_unlink : rings.
#[export] Hint Resolve cut_prev_in cut_next_in : rings.

Lemma cut_prev_in_app head ys zs : cut_prev head ys ∈ head :: ys ++ zs.
Proof. pose proof (cut_prev_in head ys). revert H. generalize (cut_prev head ys). set_solver. Qed.

Lemma cut_next_in_app head ys zs : cut_next head zs ∈ head :: ys ++ zs.
Proof. pose proof (cut_next_in head zs). revert H. generalize (cut_next head zs). set_solver. Qed.

(** ** Specifications of the operations *)

Theorem INIT_LIST_HEAD_spec h p :
  is_Some (h !! p) →
  wp (INIT_LIST_HEAD p) (λ _ h', ring h' p [] ∧ agree_off [p] h h') h.
Proof.
  intros Hp. unfold INIT_LIST_HEAD. list_steps. split.
  - split; [|apply NoDup_singleton]. simpl. by autorewrite with rings.
  - eapply agree_off_trans; [apply agree_off_upd_next|apply agree_off_upd_prev]; set_solver.
Qed.

(** The common part of [list_add] and [list_add_tail]: linking [new] into a
    cut of the ring. *)
Lemma wp___list_add_ring h head ys zs new Q :
  ring h head (ys ++ zs) → new ∉ head :: ys ++ zs → is_Some (h !! new) →
  (∀ h', ring h' head (ys ++ new :: zs) → agree_off (new :: head :: ys ++ zs) h h' → Q () h') →
  wp (__list_add new (cut_prev head ys) (cut_next head zs)) Q h.
Proof.
  intros Hr Hnew Hlive HQ.
  apply wp___list_add; eauto using ring_live, cut_prev_in_app, cut_next_in_app.
  apply HQ; [by apply ring_insert|].
  apply agree_off_add_between; [set_solver|..];
    apply elem_of_cons; right; auto using cut_prev_in_app, cut_next_in_app.
Qed.

Lemma ring_first h head xs : ring h head xs → nxt h head = Some (cut_next head xs).
Proof. intros Hr. by apply (ring_cut h head [] xs) in Hr as (_ & _ & _ & ? & _). Qed.

Lemma ring_last h head xs : ring h head xs → prv h head = Some (cut_prev head xs).
Proof.
  intros Hr. rewrite <-(app_nil_r xs) in Hr.
  by apply (ring_cut h head xs []) in Hr as (_ & _ & _ & _ & ?).
Qed.

Theorem list_add_spec h head xs new :
  ring h head xs → new ∉ head :: xs → is_Some (h !! new) →
  wp (list_add new head)
    (λ _ h', ring h' head (new :: xs) ∧ agree_off (new :: head :: xs) h h') h.
Proof.
  intros Hr Hnew Hlive. unfold list_add. apply wp_bind.
  eapply wp_get_next; [by apply ring_first|].
  by apply (wp___list_add_ring h head [] xs).
Qed.

Theorem list_add_tail_spec h head xs new :
  ring h head xs → new ∉ head :: xs → is_Some (h !! new) →
  wp (list_add_tail new head)
    (λ _ h', ring h' head (xs ++ [new]) ∧ agree_off (new :: head :: xs) h h') h.
Proof.
  intros Hr Hnew Hlive. unfold list_add_tail. apply wp_bind.
  eapply wp_get_prev; [by apply ring_last|].
  apply (wp___list_add_ring h head xs []); rewrite ?app_nil_r; auto.
Qed.

Lemma ring_mid_fresh h head ys zs e : ring h head (ys ++ e :: zs) → e ∉ head :: ys ++ zs.
Proof.
  intros Hr%ring_NoDup.
  apply NoDup_cons in Hr as [? [? [? [? ?]%NoDup_cons]]%NoDup_app]. set_solver.
Qed.

(** Unlinking an entry, the common part of the deletions and the moves. *)
Lemma wp_unlink_ring {A} h head ys zs e (k : cmd lheap A) Q :
  ring h head (ys ++ e :: zs) →
  (∀ h', ring h' head (ys ++ zs) → is_Some (h' !! e) →
     agree_off (head :: ys ++ zs) h h' → wp k Q h') →
  wp (p ← get_prev e; n ← get_next e; __list_del p n;; k) Q h.
Proof.
  intros Hr HQ. pose proof (ring_live h head _ e Hr) as Hlive.
  destruct (ring_remove h head ys zs e Hr) as (Hn & Hp & Hr').
  list_steps. apply wp___list_del.
  1,2: rewrite <-(live_unlink (cut_prev head ys) (cut_next head zs));
    eauto using ring_live, cut_prev_in_app, cut_next_in_app.
  apply HQ; [done|..].
  - rewrite live_unlink. set_solver.
  - apply agree_off_unlink; auto using cut_prev_in_app, cut_next_in_app.
Qed.

Theorem list_del_init_spec h head ys zs e :
  ring h head (ys ++ e :: zs) →
  wp (list_del_init e)
    (λ _ h', ring h' head (ys ++ zs) ∧ ring h' e [] ∧
             agree_off (head :: ys ++ e :: zs) h h') h.
Proof.
  intros Hr. unfold list_del_init.
  pose proof (ring_mid_fresh h head ys zs e Hr) as He.
  eapply wp_unlink_ring; [done|]. intros h1 Hr1 He1 Ha1.
  eapply wp_mono; [by apply INIT_LIST_HEAD_spec|]. intros [] h' [Hre Ha].
  split_and!; [|done|].
  - eapply ring_agree_off; [done..|set_solver].
  - eapply agree_off_trans; eapply agree_off_weaken; [done| |done|]; set_solver.
Qed.

Theorem list_del_spec h head ys zs e :
  ring h head (ys ++ e :: zs) →
  wp (list_del e)
    (λ _ h', ring h' head (ys ++ zs) ∧ h' !! e = Some (ListHead NULL NULL) ∧
             agree_off (head :: ys ++ e :: zs) h h') h.
Proof.
  intros Hr. unfold list_del.
  pose proof (ring_mid_fresh h head ys zs e Hr) as He.
  eapply wp_unlink_ring; [done|]. intros h1 Hr1 He1 Ha1. list_steps.
  assert (agree_off [e] h1 (upd_prev e NULL (upd_next e NULL h1))) as Ha2.
  { eapply agree_off_trans; [apply agree_off_upd_next|apply agree_off_upd_prev]; set_solver. }
  split_and!.
  - eapply ring_agree_off; [done..|set_solver].
  - destruct He1 as [n Hn]. unfold upd_prev, upd_next. by rewrite !lookup_alter_eq, Hn.
  - eapply agree_off_trans; eapply agree_off_weaken; [done| |done|]; set_solver.
Qed.

(** Moving an entry to the front of another ring, or of its own. *)
Theorem list_move_spec h head ys zs e head2 ws :
  ring h head (ys ++ e :: zs) → ring h head2 ws →
  (∀ x, x ∈ head2 :: ws → x ∉ head :: ys ++ e :: zs) →
  wp (list_move e head2)
    (λ _ h', ring h' head (ys ++ zs) ∧ ring h' head2 (e :: ws) ∧
             agree_off ((head :: ys ++ e :: zs) ++ head2 :: ws) h h') h.
Proof.
  intros Hr Hr2 Hdisj. unfold list_move.
  pose proof (ring_mid_fresh h head ys zs e Hr) as He.
  eapply wp_unlink_ring; [done|]. intros h1 Hr1 He1 Ha1.
  assert (ring h1 head2 ws) as Hr2' by (eapply ring_agree_off; [done..|set_solver]).
  eapply wp_mono; [apply list_add_spec; [done|set_solver|done]|].
  intros [] h' [Hr' Ha]. split_and!; [|done|].
  - eapply ring_agree_off; [done..|set_solver].
  - eapply agree_off_trans; eapply agree_off_weaken; [done| |done|]; set_solver.
Qed.

Theorem list_move_same_spec h head ys zs e :
  ring h head (ys ++ e :: zs) →
  wp (list_move e head)
    (λ _ h', ring h' head (e :: ys ++ zs) ∧ agree_off (head :: ys ++ e :: zs) h h') h.
Proof.
  intros Hr. unfold list_move. pose proof (ring_mid_fresh h head ys zs e Hr) as He.
  eapply wp_unlink_ring; [done|]. intros h1 Hr1 He1 Ha1.
  eapply wp_mono; [by apply list_add_spec|]. intros [] h' [Hr' Ha]. split; [done|].
  eapply agree_off_trans; eapply agree_off_weaken; [done| |done|]; set_solver.
Qed.

Theorem list_move_tail_spec h head ys zs e head2 ws :
  ring h head (ys ++ e :: zs) → ring h head2 ws →
  (∀ x, x ∈ head2 :: ws → x ∉ head :: ys ++ e :: zs) →
  wp (list_move_tail e head2)
    (λ _ h', ring h' head (ys ++ zs) ∧ ring h' head2 (ws ++ [e]) ∧
             agree_off ((head :: ys ++ e :: zs) ++ head2 :: ws) h h') h.
Proof.
  intros Hr Hr2 Hdisj. unfold list_move_tail.
  pose proof (ring_mid_fresh h head ys zs e Hr) as He.
  eapply wp_unlink_ring; [done|]. intros h1 Hr1 He1 Ha1.
  assert (ring h1 head2 ws) as Hr2' by (eapply ring_agree_off; [done..|set_solver]).
  eapply wp_mono; [apply list_add_tail_spec; [done|set_solver|done]|].
  intros [] h' [Hr' Ha]. split_and!; [|done|].
  - eapply ring_agree_off; [done..|set_solver].
  - eapply agree_off_trans; eapply agree_off_weaken; [done| |done|]; set_solver.
Qed.

Theorem list_empty_spec h head xs :
  ring h head xs → list_empty head h = Done (bool_decide (xs = []), h).
Proof.
  intros Hr. pose proof (ring_first h head xs Hr) as Hn. apply ring_NoDup in Hr.
  unfold list_empty, get_next, load, nxt in *. apply fmap_Some in Hn as (n & Hn & Heq).
  unfold mbind, cmd_bind, mret, cmd_ret. rewrite Hn. do 2 f_equal.
  apply bool_decide_ext. rewrite <-Heq. destruct xs as [|x xs]; [done|].
  apply NoDup_cons in Hr as [Hx _]. unfold cut_next. simpl. split; [|done].
  intros ->. set_solver.
Qed.

(** ** Splicing

    The pointer surgery of [__list_splice]: the first and the last element of
    one ring are linked between another ring's head and its first element. *)
Lemma chain_splice_middle h h' xs :
  NoDup xs → chain h xs →
  (∀ x, x ∈ xs → Some x ≠ last xs → nxt h' x = nxt h x) →
  (∀ x, x ∈ xs → Some x ≠ head xs → prv h' x = prv h x) →
  chain h' xs.
Proof.
  intros Hnd Hc HN HP. eapply chain_frame; [done|..]; intros x Hx.
  - destruct (decide (xs = [])) as [->|Hne]; [cbn in Hx; set_solver|].
    pose proof (app_removelast_last 0 Hne) as Heq. rewrite Heq in Hnd, HN.
    rewrite last_snoc in HN. apply NoDup_app in Hnd as (_ & Hd & _).
    apply HN; [set_solver|]. intros [= ->]. set_solver.
  - destruct xs as [|y xs]; [cbn in Hx; set_solver|]. apply NoDup_cons in Hnd as [? _]. simpl in *.
    apply HP; [set_solver|]. intros [= ->]. done.
Qed.

Definition splice_links (first last at_ head : Z) (h : lheap) : lheap :=
  upd_prev at_ last (upd_next last at_ (upd_next head first (upd_prev first head h))).

Lemma cut_prev_cons head list x xs : cut_prev head (x :: xs) = cut_prev list (x :: xs).
Proof. unfold cut_prev. revert x. induction xs as [|y xs IH]; [done|]. intros x. apply (IH y). Qed.

Lemma last_cut_prev list x xs : last (x :: xs) = Some (cut_prev list (x :: xs)).
Proof.
  unfold cut_prev. revert x. induction xs as [|y xs IH]; [done|]. intros x.
  rewrite last_cons_cons. apply IH.
Qed.

Lemma ring_splice h list x xs head ys :
  ring h list (x :: xs) → ring h head ys →
  (∀ z, z ∈ list :: x :: xs → z ∉ head :: ys) →
  ring (splice_links x (cut_prev list (x :: xs)) (cut_next head ys) head h) head ((x :: xs) ++ ys).
Proof.
  intros Hl Hh Hdisj.
  pose proof (λ z, ring_live h head ys z Hh) as Hlive.
  pose proof (λ z, ring_live h list (x :: xs) z Hl) as Hlive'.
  pose proof (ring_NoDup h list _ Hl) as Hndl. pose proof (ring_NoDup h head _ Hh) as Hndh.
  pose proof (cut_next_in head ys) as Hat. pose proof (cut_prev_in list (x :: xs)) as Hla.
  pose proof (last_cut_prev list x xs) as Hlast.
  rewrite <-(app_nil_r (x :: xs)) in Hl. apply ring_cut in Hl as (_ & (_ & _ & Hcx) & _).
  apply (ring_cut h head [] ys) in Hh as (_ & _ & Hcy & _ & _).
  assert (cut_prev list (x :: xs) ∈ x :: xs) as Hla'.
  { apply list_elem_of_lookup. rewrite last_lookup in Hlast. eauto. }
  set (la := cut_prev list (x :: xs)) in *. set (at_ := cut_next head ys) in *.
  set (h' := splice_links x la at_ head h).
  assert (la ≠ head ∧ at_ ≠ x) as [Hlh Hax] by (clearbody la at_; set_solver).
  assert (is_Some (h !! la) ∧ is_Some (h !! head) ∧ is_Some (h !! at_) ∧ is_Some (h !! x))
    as (?&?&?&?) by (split_and!; [by apply Hlive'|apply Hlive|by apply Hlive|apply Hlive'];
                     clear; set_solver).
  assert (chain h' (x :: xs)) as Hcx'.
  { apply (chain_splice_middle h); [by apply NoDup_cons in Hndl as []|done|..]; intros z Hz Hne;
      assert (z ≠ head ∧ z ≠ at_) as [??] by (clearbody la at_; set_solver);
      rewrite ?Hlast in Hne; unfold h', splice_links;
      first [assert (z ≠ la) by congruence|assert (z ≠ x) by (simpl in Hne; congruence)];
      by autorewrite with rings. }
  assert (chain h' (ys ++ [head])) as Hcy'.
  { eapply chain_frame; [done|..]; intros z Hz.
    - rewrite removelast_last in Hz. apply NoDup_cons in Hndh as [Hhy _].
      assert (z ≠ la ∧ z ≠ head) as [??] by (clearbody la at_; set_solver).
      unfold h', splice_links. by autorewrite with rings.
    - assert (z ∈ head :: ys) as Hz' by (destruct ys; simpl in Hz; set_solver).
      assert (z ≠ at_) as Hzat.
      { intros ->. assert (NoDup (ys ++ [head])) as Hnd'.
        { rewrite <-(Permutation_cons_append ys head). done. }
        rewrite (cut_next_cons head ys) in Hnd'. by apply NoDup_cons in Hnd' as []. }
      assert (z ≠ x) by (clearbody la at_; set_solver).
      unfold h', splice_links. by autorewrite with rings. }
  rewrite ring_cut, (cut_prev_cons head list). fold la at_.
  split_and!; [|cbn [chain]|done|..]; [..|unfold h', splice_links; by autorewrite with rings].
  - clear -Hndl Hndh Hdisj. apply NoDup_cons in Hndl as [? ?], Hndh as [? ?].
    rewrite NoDup_cons, NoDup_app. set_solver.
  - split_and!; [..|done]; unfold h', splice_links; by autorewrite with rings.
  - unfold h', splice_links; by autorewrite with rings.
Qed.

Lemma wp___list_splice h list x xs head ys Q :
  ring h list (x :: xs) → ring h head ys →
  (∀ z, z ∈ list :: x :: xs → z ∉ head :: ys) →
  (∀ h', ring h' head ((x :: xs) ++ ys) → agree_off ((x :: xs) ++ head :: ys) h h' → Q () h') →
  wp (__list_splice list head) Q h.
Proof.
  intros Hl Hh Hdisj HQ.
  pose proof (ring_first _ _ _ Hl) as Hf. pose proof (ring_last _ _ _ Hl) as Hla.
  pose proof (ring_first _ _ _ Hh) as Hat. cbn [cut_next hd] in Hf.
  pose proof (ring_live h head ys (cut_next head ys) Hh (cut_next_in head ys)).
  pose proof (ring_live h list _ x Hl ltac:(set_solver)).
  pose proof (ring_live h list _ _ Hl (cut_prev_in list (x :: xs))).
  unfold __list_splice. list_steps. apply HQ; [by apply ring_splice|].
  assert (cut_prev list (x :: xs) ∈ x :: xs) as Hla'.
  { apply list_elem_of_lookup. pose proof (last_cut_prev list x xs) as Hlast.
    rewrite last_lookup in Hlast. eauto. }
  pose proof (cut_next_in head ys).
  repeat (eapply agree_off_trans; [|by ((apply agree_off_upd_next || apply agree_off_upd_prev);
    first [apply elem_of_app; by left; try set_solver|apply elem_of_app; right; set_solver])]).
  apply agree_off_refl.
Qed.

Theorem list_splice_spec h list xs head ys :
  ring h list xs → ring h head ys → (∀ z, z ∈ list :: xs → z ∉ head :: ys) →
  wp (list_splice list head)
    (λ _ h', ring h' head (xs ++ ys) ∧ agree_off (xs ++ head :: ys) h h') h.
Proof.
  intros Hl Hh Hdisj. unfold list_splice. apply wp_bind.
  eapply wp_done; [by apply list_empty_spec|]. destruct xs as [|x xs].
  - rewrite bool_decide_true by done. apply wp_ret. split; [done|apply agree_off_refl].
  - rewrite bool_decide_false by done. by eapply wp___list_splice.
Qed.

Theorem list_splice_init_spec h list xs head ys :
  ring h list xs → ring h head ys → (∀ z, z ∈ list :: xs → z ∉ head :: ys) →
  wp (list_splice_init list head)
    (λ _ h', ring h' head (xs ++ ys) ∧ ring h' list [] ∧
             agree_off (list :: xs ++ head :: ys) h h') h.
Proof.
  intros Hl Hh Hdisj. unfold list_splice_init. apply wp_bind.
  eapply wp_done; [by apply list_empty_spec|]. destruct xs as [|x xs].
  - rewrite bool_decide_true by done. apply wp_ret. split_and!; [done..|apply agree_off_refl].
  - rewrite bool_decide_false by done. apply wp_bind.
    pose proof (ring_NoDup _ _ _ Hl) as [Hlx _]%NoDup_cons.
    pose proof (ring_live _ _ _ list Hl ltac:(set_solver)) as Hlive.
    eapply wp___list_splice; [done..|]. intros h1 Hr1 Ha1.
    eapply wp_mono; [apply INIT_LIST_HEAD_spec; rewrite Ha1; [done|set_solver]|].
    intros [] h' [Hr' Ha]. split_and!; [|done|].
    + eapply ring_agree_off; [done..|set_solver].
    + eapply agree_off_trans; eapply agree_off_weaken; [done| |done|]; set_solver.
Qed.

(** ** Iteration

    The loops of the [list_for_each] family, run over a client state that
    contains the list memory. *)
Section iteration_spec.
Context {S : Type} `{!Lens S lheap} {A : Type}.
Implicit Types (s : S) (a : A).

Lemma wp_zoom_get_next p q Q s :
  nxt (view s) p = Some q → Q q s → wp (zoom (get_next p)) Q s.
Proof.
  intros Hp HQ. apply wp_zoom. eapply wp_get_next; [done|]. by rewrite update_view.
Qed.

(** A body that keeps the ring intact is run once on every entry, in order. *)
Lemma wp_list_for_each_entry (I : list Z → list Z → A → S → Prop) fuel member body head xs a s :
  (∀ ys zs a s, I ys zs a s → ring (view s) head (ys ++ zs)) →
  (∀ ys x zs a s, I ys (x :: zs) a s →
     wp (body (x - member) a) (λ a' s', I (ys ++ [x]) zs a' s') s) →
  (length xs < fuel)%nat → I [] xs a s →
  wp (list_for_each_entry fuel member body head a) (λ a' s', I xs [] a' s') s.
Proof.
  intros Hring Hbody Hfuel HI. unfold list_for_each_entry. apply wp_bind.
  eapply wp_zoom_get_next; [by apply ring_first; eauto|].
  apply (wp_loop_variant (λ m '(pos, a) s, ∃ ys zs, xs = ys ++ zs ∧ m = length zs ∧
    pos = cut_next head zs - member ∧ I ys zs a s)) with (m := length xs); [|done|by exists [], xs].
  intros m [pos a'] s' (ys & zs & -> & -> & -> & HI'). rewrite Z.sub_add.
  pose proof (Hring _ _ _ _ HI') as Hr. destruct zs as [|x zs].
  - rewrite bool_decide_true by done. apply wp_ret. by rewrite app_nil_r.
  - rewrite bool_decide_false
      by (apply ring_mid_fresh in Hr; simpl; set_solver).
    apply wp_bind. eapply wp_mono; [by apply Hbody|]. intros a'' s'' HI''. simpl.
    cbn [cut_next hd] in HI''. pose proof (Hring _ _ _ _ HI'') as Hr''. rewrite <-app_assoc in Hr''.
    apply wp_bind. eapply wp_zoom_get_next; [by apply (ring_remove (view s'') head ys zs x)|].
    apply wp_ret. exists (length zs). split; [simpl; lia|].
    exists (ys ++ [x]), zs. by rewrite <-app_assoc.
Qed.

(** The removal-safe loop: the body may change the ring, even unlink the
    current entry, as long as the entries still to be visited stay linked. *)
Lemma wp_list_for_each_entry_safe (I : list Z → A → S → Prop) fuel member body head xs a s :
  (∀ zs a s, I zs a s → is_Some (view s !! head)) →
  (∀ x zs a s, I (x :: zs) a s → x ≠ head ∧ nxt (view s) x = Some (cut_next head zs)) →
  (∀ x zs a s, I (x :: zs) a s → wp (body (x - member) a) (λ a' s', I zs a' s') s) →
  nxt (view s) head = Some (cut_next head xs) →
  (length xs < fuel)%nat → I xs a s →
  wp (list_for_each_entry_safe fuel member body head a) (λ a' s', I [] a' s') s.
Proof.
  intros Hhead Hnext Hbody Hfirst Hfuel HI. unfold list_for_each_entry_safe.
  assert (∀ zs a s, I zs a s → ∃ n, nxt (view s) (cut_next head zs) = Some n ∧
            (∀ z zs', zs = z :: zs' → n = cut_next head zs')) as Hn.
  { intros [|z zs] a' s' HI'.
    - destruct (Hhead _ _ _ HI') as [n Hn]. exists (next n). split; [|done].
      unfold nxt, cut_next. simpl. by rewrite Hn.
    - destruct (Hnext _ _ _ _ HI') as [_ Hz]. exists (cut_next head zs). naive_solver. }
  apply wp_bind. eapply wp_zoom_get_next; [done|].
  unfold list_entry at 1. rewrite Z.sub_add.
  destruct (Hn _ _ _ HI) as (n & Hxs & Hn').
  apply wp_bind. eapply wp_zoom_get_next; [done|].
  apply (wp_loop_variant (λ m '(pos, n, a) s, ∃ zs, m = length zs ∧
    pos = cut_next head zs - member ∧
    (∀ z zs', zs = z :: zs' → n = cut_next head zs' - member) ∧ I zs a s))
    with (m := length xs); [|done|].
  2: { exists xs. split_and!; [done..| |done]. intros z zs' Hz. unfold list_entry.
       by rewrite (Hn' z zs'). }
  clear s a xs n HI Hfirst Hfuel Hxs Hn'.
  intros m [[pos n] a] s (zs & -> & -> & Hpn & HI). rewrite Z.sub_add.
  destruct zs as [|z zs].
  - rewrite bool_decide_true by done. by apply wp_ret.
  - destruct (Hnext _ _ _ _ HI) as [Hz _]. rewrite bool_decide_false by done.
    rewrite (Hpn z zs eq_refl). apply wp_bind.
    eapply wp_mono; [by apply Hbody|]. intros a' s' HI'. simpl. rewrite Z.sub_add.
    destruct (Hn _ _ _ HI') as (n' & Hn1 & Hn2). apply wp_bind.
    eapply wp_zoom_get_next; [done|]. apply wp_ret. exists (length zs). split; [simpl; lia|].
    exists zs. split_and!; [done..| |done]. intros z' zs' Hz'. unfold list_entry.
    by rewrite (Hn2 z' zs').
Qed.

End iteration_spec.

(** ** What the loops visit *)

(** [list_for_each_entry] hands every entry of the ring to its body, exactly
    once and in ring order. *)
Theorem list_for_each_entry_visits h head xs member fuel :
  ring h head xs → (length xs < fuel)%nat →
  list_for_each_entry fuel member (λ pos acc, mret (acc ++ [pos])) head [] h =
    Done ((λ x, list_entry x member) <$> xs, h).
Proof.
  intros Hr Hfuel.
  destruct (wp_list_for_each_entry (S:=lheap)
    (λ ys zs acc s, s = h ∧ xs = ys ++ zs ∧ acc = (λ x, list_entry x member) <$> ys)
    fuel member (λ pos acc, mret (acc ++ [pos])) head xs [] h)
    as (acc & h' & -> & -> & _ & ->); [..|done].
  - by intros ys zs acc s (-> & -> & _).
  - intros ys x zs acc s (-> & -> & ->). apply wp_ret. by rewrite fmap_app, <-app_assoc.
  - done.
  - done.
Qed.

(** [list_for_each_prev] visits the ring backwards. *)
Theorem list_for_each_prev_visits h head xs fuel :
  ring h head xs → (length xs < fuel)%nat →
  list_for_each_prev fuel (λ pos acc, mret (acc ++ [pos])) head [] h = Done (reverse xs, h).
Proof.
  intros Hr Hfuel.
  assert (wp (list_for_each_prev fuel (λ pos acc, mret (acc ++ [pos])) head [])
            (λ acc h', acc = reverse xs ∧ h' = h) h) as (acc & h' & -> & -> & ->); [|done].
  unfold list_for_each_prev. apply wp_bind, wp_zoom.
  eapply wp_get_prev; [by apply ring_last|].
  apply (wp_loop_variant (λ m '(pos, acc) s, s = h ∧ ∃ ys zs, xs = ys ++ zs ∧ m = length ys ∧
    pos = cut_prev head ys ∧ acc = reverse zs)) with (m := length xs); [|done|].
  - intros m [pos acc] s (-> & ys & zs & -> & -> & -> & ->).
    destruct ys as [|y ys _] using rev_ind.
    + rewrite bool_decide_true by done. by apply wp_ret.
    + rewrite <-app_assoc in Hr. cbn [app] in Hr.
      pose proof (ring_mid_fresh _ _ _ _ _ Hr) as Hy.
      destruct (ring_remove _ _ _ _ _ Hr) as (_ & Hp & _).
      replace (cut_prev head (ys ++ [y])) with y by (unfold cut_prev; by rewrite last_last).
      rewrite bool_decide_false by set_solver.
      apply wp_bind, wp_ret, wp_bind, wp_zoom. eapply wp_get_prev; [done|]. apply wp_ret.
      exists (length ys). rewrite length_app. split; [simpl; lia|]. split; [done|].
      exists ys, (y :: zs). rewrite reverse_cons, <-app_assoc. done.
  - split; [done|]. exists xs, []. by rewrite app_nil_r.
Qed.

(** Deleting every entry inside the removal-safe loop empties the ring and
    leaves each entry a ring of its own. *)
Theorem list_for_each_entry_safe_drains h head xs member fuel :
  ring h head xs → (length xs < fuel)%nat →
  wp (list_for_each_entry_safe fuel member
        (λ pos cnt, list_del_init (pos + member);; mret (Datatypes.S cnt)) head 0%nat)
    (λ cnt h', cnt = length xs ∧ ring h' head [] ∧ (∀ x, x ∈ xs → ring h' x []) ∧
               agree_off (head :: xs) h h') h.
Proof.
  intros Hr Hfuel.
  set (I := λ zs (cnt : nat) h', ring h' head zs ∧ agree_off (head :: xs) h h' ∧
    ∃ ys, xs = ys ++ zs ∧ cnt = length ys ∧ ∀ x, x ∈ ys → ring h' x []).
  eapply wp_mono; [apply (wp_list_for_each_entry_safe I) with (xs := xs)|].
  - intros zs cnt h' [Hr' _]. apply (ring_live _ _ _ _ Hr'). set_solver.
  - intros x zs cnt h' [Hr' _]. pose proof (ring_mid_fresh h' head [] zs x Hr').
    split; [set_solver|]. by apply (ring_remove h' head [] zs x).
  - intros x zs cnt h' (Hr' & Ha & ys & -> & -> & Hys). rewrite Z.sub_add.
    apply wp_bind. eapply wp_mono; [by apply (list_del_init_spec h' head [] zs x)|].
    intros [] h'' (Hr'' & Hx & Ha'). apply wp_ret. split_and!; [done|..].
    + eapply agree_off_trans; [done|]. eapply agree_off_weaken; [done|]. set_solver.
    + exists (ys ++ [x]). rewrite <-app_assoc, length_app. simpl. split_and!; [done|lia|].
      apply ring_NoDup in Hr. rewrite NoDup_cons, NoDup_app in Hr.
      intros y [Hy| ->%list_elem_of_singleton]%elem_of_app; [|done].
      eapply ring_agree_off; [by apply Hys|done|]. set_solver.
  - by apply ring_first.
  - done.
  - split_and!; [done|apply agree_off_refl|]. exists []. split_and!; [done..|set_solver].
  - intros cnt h' (Hr' & Ha & ys & -> & -> & Hys). rewrite app_nil_r in *. done.
Qed.
