(* ===== verification/RbNode.v ===== *)
(** * Red-black tree nodes (network/wba_event/rbtree.h)

    A node packs its parent's address and its own colour in one machine word,
    [rb_parent_color]: nodes are aligned to [sizeof(long)], so the two low bits
    of an address are zero and bit 0 holds the colour.  The memory [rbmem] holds
    the live nodes and the live root structs; the accessor macros of the header
    are commands on it. *)

From stdpp Require Import gmap numbers list.
From S2P Require Import Prelude.

Local Open Scope Z_scope.

(** ** Data *)

Record rb_node := RbNode {
  rb_parent_color : Z;
  rb_right : Z;
  rb_left : Z;
}.

#[global] Instance rb_node_eq_dec : EqDecision rb_node.
Proof. solve_decision. Defined.

(** [rb_roots] maps the address of a [struct rb_root] to its [rb_node] field. *)
Record rbmem := RbMem {
  rb_nodes : gmap Z rb_node;
  rb_roots : gmap Z Z;
}.

#[global] Instance rb_nodes_lens : Lens rbmem (gmap Z rb_node).
Proof.
  by refine {| view := rb_nodes; update := λ h s, RbMem h (rb_roots s) |}; intros; destruct s.
Defined.

#[global] Instance rb_roots_lens : Lens rbmem (gmap Z Z).
Proof.
  by refine {| view := rb_roots; update := λ r s, RbMem (rb_nodes s) r |}; intros; destruct s.
Defined.

Definition RB_RED : Z := 0.
Definition RB_BLACK : Z := 1.

(** ** The packed word

    [unsigned long] is 64 bits wide; [~ m] is the complement at that width. *)
Definition lnot64 (m : Z) : Z := Z.land (Z.lnot m) (Z.ones 64).

Definition pc_parent (pc : Z) : Z := Z.land pc (lnot64 3).
Definition pc_color (pc : Z) : Z := Z.land pc 1.
Definition pc_set_red (pc : Z) : Z := Z.land pc (lnot64 1).
Definition pc_set_black (pc : Z) : Z := Z.lor pc 1.
Definition pc_set_parent (pc p : Z) : Z := Z.lor (Z.land pc 3) p.
Definition pc_set_color (pc color : Z) : Z := Z.lor (Z.land pc (lnot64 1)) color.

(** ** Accessors *)

Definition load_node (r : Z) : cmd rbmem rb_node := zoom (load r).
Definition modify_node (r : Z) (f : rb_node → rb_node) : cmd rbmem () := zoom (modify r f).

Definition get_left (r : Z) : cmd rbmem Z := n ← load_node r; mret (rb_left n).
Definition get_right (r : Z) : cmd rbmem Z := n ← load_node r; mret (rb_right n).
Definition set_left (r v : Z) : cmd rbmem () :=
  modify_node r (λ n, RbNode (rb_parent_color n) (rb_right n) v).
Definition set_right (r v : Z) : cmd rbmem () :=
  modify_node r (λ n, RbNode (rb_parent_color n) v (rb_left n)).
Definition set_pc (r : Z) (f : Z → Z) : cmd rbmem () :=
  modify_node r (λ n, RbNode (f (rb_parent_color n)) (rb_right n) (rb_left n)).
Definition get_root (root : Z) : cmd rbmem Z := zoom (load root).
Definition set_root (root v : Z) : cmd rbmem () := zoom (store root v).

Definition rb_parent (r : Z) : cmd rbmem Z :=
  n ← load_node r; mret (pc_parent (rb_parent_color n)).
Definition rb_color (r : Z) : cmd rbmem Z :=
  n ← load_node r; mret (pc_color (rb_parent_color n)).
Definition rb_is_red (r : Z) : cmd rbmem bool :=
  c ← rb_color r; mret (bool_decide (c = 0)).
Definition rb_is_black (r : Z) : cmd rbmem bool :=
  c ← rb_color r; mret (negb (bool_decide (c = 0))).
Definition rb_set_red (r : Z) : cmd rbmem () := set_pc r pc_set_red.
Definition rb_set_black (r : Z) : cmd rbmem () := set_pc r pc_set_black.
Definition rb_set_parent (rb p : Z) : cmd rbmem () := set_pc rb (λ pc, pc_set_parent pc p).
Definition rb_set_color (rb color : Z) : cmd rbmem () := set_pc rb (λ pc, pc_set_color pc color).

Definition RB_EMPTY_ROOT (root : Z) : cmd rbmem bool :=
  n ← get_root root; mret (bool_decide (n = NULL)).
Definition RB_EMPTY_NODE (node : Z) : cmd rbmem bool :=
  p ← rb_parent node; mret (bool_decide (p = node)).
Definition RB_CLEAR_NODE (node : Z) : cmd rbmem () := rb_set_parent node node.

Definition rb_init_node (rb : Z) : cmd rbmem () :=
  set_pc rb (λ _, 0);;
  set_right rb NULL;;
  set_left rb NULL;;
  RB_CLEAR_NODE rb.

(** A [struct rb_node **]: the address of a root's, or of a node's child, field. *)
Inductive rb_link :=
| LinkRoot (root : Z)
| LinkLeft (node : Z)
| LinkRight (node : Z).

Definition load_link (l : rb_link) : cmd rbmem Z :=
  match l with
  | LinkRoot root => get_root root
  | LinkLeft n => get_left n
  | LinkRight n => get_right n
  end.

Definition store_link (l : rb_link) (v : Z) : cmd rbmem () :=
  match l with
  | LinkRoot root => set_root root v
  | LinkLeft n => set_left n v
  | LinkRight n => set_right n v
  end.

Definition rb_link_node (node parent : Z) (link : rb_link) : cmd rbmem () :=
  set_pc node (λ _, parent);;
  set_right node NULL;;
  set_left node NULL;;
  store_link link node.

(** ** Colours and well-formed addresses *)

Inductive color := Red | Black.

#[global] Instance color_eq_dec : EqDecision color.
Proof. solve_decision. Defined.

Definition color_bit (c : color) : Z := match c with Red => RB_RED | Black => RB_BLACK end.

(** An address a node can have, or NULL: it fits the word and is aligned. *)
Definition aligned (p : Z) : Prop := 0 ≤ p < 2 ^ 64 ∧ Z.land p 3 = 0.

#[global] Instance aligned_dec p : Decision (aligned p).
Proof. unfold aligned. apply _. Defined.

(** The contents of a node with parent [par], colour [c] and children [l], [r]. *)
Definition mk_node (par : Z) (c : color) (l r : Z) : rb_node :=
  RbNode (Z.lor par (color_bit c)) r l.

(** ** The packed word behaves as a pair of an address and a colour *)

Lemma lnot64_bits m i : 0 ≤ i → Z.testbit (lnot64 m) i = negb (Z.testbit m i) && (i <? 64).
Proof.
  intros Hi. unfold lnot64. rewrite Z.land_spec, Z.lnot_spec by done. f_equal.
  by rewrite Z.testbit_ones_nonneg by lia.
Qed.

Lemma aligned_bits p i : aligned p → 0 ≤ i → i < 2 ∨ 64 ≤ i → Z.testbit p i = false.
Proof.
  intros [[H0 H64] H3] Hi [Hlt|Hge].
  - assert (Z.testbit (Z.land p 3) i = false) as Hz by (rewrite H3; apply Z.bits_0).
    rewrite Z.land_spec in Hz. change 3 with (Z.ones 2) in Hz.
    rewrite Z.testbit_ones_nonneg in Hz by lia.
    by rewrite (proj2 (Z.ltb_lt i 2) Hlt), andb_true_r in Hz.
  - destruct (decide (p = 0)) as [->|Hp]; [apply Z.bits_0|].
    apply Z.bits_above_log2; [done|].
    assert (Z.log2 p < 64) by (apply Z.log2_lt_pow2; lia). lia.
Qed.

Lemma small_bits m k i : 0 ≤ m < 2 ^ k → 0 ≤ k ≤ i → Z.testbit m i = false.
Proof.
  intros Hm Hi. destruct (decide (m = 0)) as [->|]; [apply Z.bits_0|].
  apply Z.bits_above_log2; [lia|].
  assert (Z.log2 m < k) by (apply Z.log2_lt_pow2; lia). lia.
Qed.

Lemma color_bit_range c : 0 ≤ color_bit c < 2 ^ 1.
Proof. destruct c; done. Qed.

(** Bit-level proofs: bits 0 and 1 are computed, and above them only the
    address contributes. *)
Ltac pc_blast :=
  apply Z.bits_inj'; intros i Hi;
  rewrite ?Z.lor_spec, ?Z.land_spec, ?Z.lor_spec, ?lnot64_bits by done;
  let Hcase := fresh in
  assert (i = 0 ∨ i = 1 ∨ 2 ≤ i < 64 ∨ 64 ≤ i) as Hcase by lia;
  destruct Hcase as [->|[->|[Hcase|Hcase]]];
  repeat match goal with
    | H : aligned ?p |- context [Z.testbit ?p ?j] =>
        rewrite (aligned_bits p j H) by lia
    end;
  repeat match goal with c : color |- _ => destruct c end; try reflexivity;
  rewrite ?(small_bits 3 2 i), ?(small_bits 1 1 i), ?(small_bits (color_bit Black) 1 i),
    ?(small_bits (color_bit Red) 1 i) by (apply color_bit_range || lia);
  rewrite ?(proj2 (Z.ltb_lt i 64)) by lia;
  rewrite ?(proj2 (Z.ltb_ge i 64)) by lia;
  rewrite ?orb_false_r, ?orb_false_l, ?andb_true_r, ?andb_false_r; try reflexivity;
  repeat match goal with |- context [Z.testbit ?p ?j] => destruct (Z.testbit p j) end; try reflexivity.

Lemma pc_parent_mk par c : aligned par → pc_parent (Z.lor par (color_bit c)) = par.
Proof. intros Hp. unfold pc_parent. pc_blast. Qed.

Lemma pc_color_mk par c : aligned par → pc_color (Z.lor par (color_bit c)) = color_bit c.
Proof. intros Hp. unfold pc_color. pc_blast. Qed.

Lemma pc_set_parent_mk par c q :
  aligned par → aligned q →
  pc_set_parent (Z.lor par (color_bit c)) q = Z.lor q (color_bit c).
Proof. intros Hp Hq. unfold pc_set_parent. pc_blast. Qed.

Lemma pc_set_red_mk par c :
  aligned par → pc_set_red (Z.lor par (color_bit c)) = Z.lor par (color_bit Red).
Proof. intros Hp. unfold pc_set_red. pc_blast. Qed.

Lemma pc_set_black_mk par c :
  aligned par → pc_set_black (Z.lor par (color_bit c)) = Z.lor par (color_bit Black).
Proof. intros Hp. unfold pc_set_black. pc_blast. Qed.

Lemma pc_set_color_mk par c c' :
  aligned par →
  pc_set_color (Z.lor par (color_bit c)) (color_bit c') = Z.lor par (color_bit c').
Proof. intros Hp. unfold pc_set_color. pc_blast. Qed.

(** ** Rules for the accessors *)

Definition upd_node (p : Z) (n : rb_node) (s : rbmem) : rbmem :=
  RbMem (<[p:=n]> (rb_nodes s)) (rb_roots s).
Definition upd_root (root v : Z) (s : rbmem) : rbmem :=
  RbMem (rb_nodes s) (<[root:=v]> (rb_roots s)).

Section accessor_rules.
Context (s : rbmem) (p par l r : Z) (c : color).
Hypothesis Hnode : rb_nodes s !! p = Some (mk_node par c l r).

Lemma wp_load_node Q : Q (mk_node par c l r) s → wp (load_node p) Q s.
Proof.
  intros HQ. apply wp_zoom. eapply wp_load; [done|]. by rewrite update_view.
Qed.

Lemma wp_modify_node f n Q :
  f (mk_node par c l r) = n → Q () (upd_node p n s) → wp (modify_node p f) Q s.
Proof. intros <- HQ. apply wp_zoom. by eapply wp_modify. Qed.

Lemma wp_get_left Q : Q l s → wp (get_left p) Q s.
Proof. intros HQ. apply wp_bind, wp_load_node. by apply wp_ret. Qed.

Lemma wp_get_right Q : Q r s → wp (get_right p) Q s.
Proof. intros HQ. apply wp_bind, wp_load_node. by apply wp_ret. Qed.

Lemma wp_set_left v Q : Q () (upd_node p (mk_node par c v r) s) → wp (set_left p v) Q s.
Proof. by apply wp_modify_node. Qed.

Lemma wp_set_right v Q : Q () (upd_node p (mk_node par c l v) s) → wp (set_right p v) Q s.
Proof. by apply wp_modify_node. Qed.

Hypothesis Hpar : aligned par.

Lemma wp_rb_parent Q : Q par s → wp (rb_parent p) Q s.
Proof.
  intros HQ. apply wp_bind, wp_load_node, wp_ret. simpl. by rewrite pc_parent_mk.
Qed.

Lemma wp_rb_color Q : Q (color_bit c) s → wp (rb_color p) Q s.
Proof.
  intros HQ. apply wp_bind, wp_load_node, wp_ret. simpl. by rewrite pc_color_mk.
Qed.

Lemma wp_rb_is_red Q : Q (bool_decide (c = Red)) s → wp (rb_is_red p) Q s.
Proof. intros HQ. apply wp_bind, wp_rb_color, wp_ret. by destruct c. Qed.

Lemma wp_rb_is_black Q : Q (bool_decide (c = Black)) s → wp (rb_is_black p) Q s.
Proof. intros HQ. apply wp_bind, wp_rb_color, wp_ret. by destruct c. Qed.

Lemma wp_rb_set_red Q :
  Q () (upd_node p (mk_node par Red l r) s) → wp (rb_set_red p) Q s.
Proof.
  intros HQ. eapply wp_modify_node; [|done]. unfold mk_node. simpl.
  by rewrite pc_set_red_mk.
Qed.

Lemma wp_rb_set_black Q :
  Q () (upd_node p (mk_node par Black l r) s) → wp (rb_set_black p) Q s.
Proof.
  intros HQ. eapply wp_modify_node; [|done]. unfold mk_node. simpl.
  by rewrite pc_set_black_mk.
Qed.

Lemma wp_rb_set_color c' Q :
  Q () (upd_node p (mk_node par c' l r) s) → wp (rb_set_color p (color_bit c')) Q s.
Proof.
  intros HQ. eapply wp_modify_node; [|done]. unfold mk_node. simpl.
  by rewrite pc_set_color_mk.
Qed.

Lemma wp_rb_set_parent q Q :
  aligned q → Q () (upd_node p (mk_node q c l r) s) → wp (rb_set_parent p q) Q s.
Proof.
  intros Hq HQ. eapply wp_modify_node; [|done]. unfold mk_node. simpl.
  by rewrite pc_set_parent_mk.
Qed.

End accessor_rules.

Lemma wp_modify_raw s p n f Q :
  rb_nodes s !! p = Some n → Q () (upd_node p (f n) s) → wp (modify_node p f) Q s.
Proof. intros Hp HQ. apply wp_zoom. by eapply wp_modify. Qed.

Lemma wp_load_raw s p n Q : rb_nodes s !! p = Some n → Q n s → wp (load_node p) Q s.
Proof. intros Hp HQ. apply wp_zoom. eapply wp_load; [done|]. by rewrite update_view. Qed.

Lemma wp_get_root s root v Q : rb_roots s !! root = Some v → Q v s → wp (get_root root) Q s.
Proof. intros Hr HQ. apply wp_zoom. eapply wp_load; [done|]. by rewrite update_view. Qed.

Lemma wp_set_root s root v Q :
  is_Some (rb_roots s !! root) → Q () (upd_root root v s) → wp (set_root root v) Q s.
Proof. intros Hr HQ. apply wp_zoom. by apply wp_store. Qed.
