(* ===== verification/RbTree.v ===== *)
(** * The red-black tree algorithms (network/wba_event/rbtree.c)

    One command per function of the file, statement by statement.  Loops take
    fuel; the theorems of the later files show how much is enough. *)

From stdpp Require Import gmap numbers list.
From S2P Require Import Prelude RbNode.

Local Open Scope Z_scope.

(** [if (p)] on a pointer. *)
Definition nonnull (p : Z) : bool := negb (bool_decide (p = NULL)).

(** ** Rotations *)

Definition __rb_rotate_left (node root : Z) : cmd rbmem () :=
  right ← get_right node;
  parent ← rb_parent node;
  rl ← get_left right;
  set_right node rl;;
  (if nonnull rl then rl ← get_left right; rb_set_parent rl node else mret ());;
  set_left right node;;
  rb_set_parent right parent;;
  (if nonnull parent then
     pl ← get_left parent;
     if bool_decide (node = pl) then set_left parent right
     else set_right parent right
   else set_root root right);;
  rb_set_parent node right.

Definition __rb_rotate_right (node root : Z) : cmd rbmem () :=
  left ← get_left node;
  parent ← rb_parent node;
  lr ← get_right left;
  set_left node lr;;
  (if nonnull lr then lr ← get_right left; rb_set_parent lr node else mret ());;
  set_right left node;;
  rb_set_parent left parent;;
  (if nonnull parent then
     pr ← get_right parent;
     if bool_decide (node = pr) then set_right parent left
     else set_left parent left
   else set_root root left);;
  rb_set_parent node left.

(** ** Rebalancing after an insertion *)

(** [p && rb_is_red(p)] *)
Definition null_or_black (p : Z) : cmd rbmem bool :=
  if nonnull p then rb_is_black p else mret true.
Definition nonnull_and_red (p : Z) : cmd rbmem bool :=
  if nonnull p then rb_is_red p else mret false.

Definition rb_insert_color_body (root node : Z) : cmd rbmem (Z + ()) :=
  parent ← rb_parent node;
  pred ← nonnull_and_red parent;
  if negb pred then mret (inr ()) else
  gparent ← rb_parent parent;
  gl ← get_left gparent;
  if bool_decide (parent = gl) then
    uncle ← get_right gparent;
    ured ← nonnull_and_red uncle;
    if (ured : bool) then
      rb_set_black uncle;;
      rb_set_black parent;;
      rb_set_red gparent;;
      mret (inl gparent)
    else
    pr ← get_right parent;
    '(node, parent) ←
      (if bool_decide (pr = node) then
         __rb_rotate_left parent root;;
         mret (parent, node)
       else mret (node, parent));
    rb_set_black parent;;
    rb_set_red gparent;;
    __rb_rotate_right gparent root;;
    mret (inl node)
  else
    uncle ← get_left gparent;
    ured ← nonnull_and_red uncle;
    if (ured : bool) then
      rb_set_black uncle;;
      rb_set_black parent;;
      rb_set_red gparent;;
      mret (inl gparent)
    else
    pl ← get_left parent;
    '(node, parent) ←
      (if bool_decide (pl = node) then
         __rb_rotate_right parent root;;
         mret (parent, node)
       else mret (node, parent));
    rb_set_black parent;;
    rb_set_red gparent;;
    __rb_rotate_left gparent root;;
    mret (inl node).

Definition rb_insert_color (fuel : nat) (node root : Z) : cmd rbmem () :=
  loop fuel (rb_insert_color_body root) node;;
  r ← get_root root;
  rb_set_black r.

(** ** Rebalancing after a removal

    The loop state is [(node, parent)]; the loop returns the final [node]. *)

Definition __rb_erase_color_body (root : Z) (np : Z * Z) : cmd rbmem (Z * Z + Z) :=
  let '(node, parent) := np in
  nb ← null_or_black node;
  r ← get_root root;
  if negb (nb && negb (bool_decide (node = r))) then mret (inr node) else
  pl ← get_left parent;
  if bool_decide (pl = node) then
    other ← get_right parent;
    ored ← rb_is_red other;
    other ←
      (if (ored : bool) then
         rb_set_black other;;
         rb_set_red parent;;
         __rb_rotate_left parent root;;
         get_right parent
       else mret other);
    ol ← get_left other;
    olb ← null_or_black ol;
    both ← (if (olb : bool) then or ← get_right other; null_or_black or else mret false);
    if (both : bool) then
      rb_set_red other;;
      let node := parent in
      parent ← rb_parent node;
      mret (inl (node, parent))
    else
      or ← get_right other;
      orb ← null_or_black or;
      other ←
        (if (orb : bool) then
           ol ← get_left other;
           rb_set_black ol;;
           rb_set_red other;;
           __rb_rotate_right other root;;
           get_right parent
         else mret other);
      pc ← rb_color parent;
      rb_set_color other pc;;
      rb_set_black parent;;
      or ← get_right other;
      rb_set_black or;;
      __rb_rotate_left parent root;;
      node ← get_root root;
      mret (inr node)
  else
    other ← get_left parent;
    ored ← rb_is_red other;
    other ←
      (if (ored : bool) then
         rb_set_black other;;
         rb_set_red parent;;
         __rb_rotate_right parent root;;
         get_left parent
       else mret other);
    ol ← get_left other;
    olb ← null_or_black ol;
    both ← (if (olb : bool) then or ← get_right other; null_or_black or else mret false);
    if (both : bool) then
      rb_set_red other;;
      let node := parent in
      parent ← rb_parent node;
      mret (inl (node, parent))
    else
      ol ← get_left other;
      olb ← null_or_black ol;
      other ←
        (if (olb : bool) then
           or ← get_right other;
           rb_set_black or;;
           rb_set_red other;;
           __rb_rotate_left other root;;
           get_left parent
         else mret other);
      pc ← rb_color parent;
      rb_set_color other pc;;
      rb_set_black parent;;
      ol ← get_left other;
      rb_set_black ol;;
      __rb_rotate_right parent root;;
      node ← get_root root;
      mret (inr node).

Definition __rb_erase_color (fuel : nat) (node parent root : Z) : cmd rbmem () :=
  node ← loop fuel (__rb_erase_color_body root) (node, parent);
  if nonnull node then rb_set_black node else mret ().

(** [while ((left = node->rb_left) != NULL) node = left;] and its mirror image *)
Definition leftmost (fuel : nat) (node : Z) : cmd rbmem Z :=
  loop fuel (λ node, left ← get_left node;
    if nonnull left then mret (inl left) else mret (inr node)) node.
Definition rightmost (fuel : nat) (node : Z) : cmd rbmem Z :=
  loop fuel (λ node, right ← get_right node;
    if nonnull right then mret (inl right) else mret (inr node)) node.

(** ** Removal *)

(** The part of [rb_erase] before the label [color], which unlinks the node:
    it returns [(child, parent, color)]. *)
Definition rb_erase_unlink (fuel : nat) (node root : Z) : cmd rbmem (Z * Z * Z) :=
  nl ← get_left node;
  nr ← get_right node;
  if nonnull nl && nonnull nr then
    let old := node in
    node ← get_right old;
    node ← leftmost fuel node;
    op ← rb_parent old;
    (if nonnull op then
       opl ← get_left op;
       if bool_decide (opl = old) then set_left op node else set_right op node
     else set_root root node);;
    child ← get_right node;
    parent ← rb_parent node;
    color ← rb_color node;
    parent ←
      (if bool_decide (parent = old) then mret node
       else
         (if nonnull child then rb_set_parent child parent else mret ());;
         set_left parent child;;
         oldr ← get_right old;
         set_right node oldr;;
         oldr ← get_right old;
         rb_set_parent oldr node;;
         mret parent);
    old_node ← load_node old;
    set_pc node (λ _, rb_parent_color old_node);;
    oldl ← get_left old;
    set_left node oldl;;
    oldl ← get_left old;
    rb_set_parent oldl node;;
    mret (child, parent, color)
  else
    let child := if nonnull nl then nl else nr in
    parent ← rb_parent node;
    color ← rb_color node;
    (if nonnull child then rb_set_parent child parent else mret ());;
    (if nonnull parent then
       pl ← get_left parent;
       if bool_decide (pl = node) then set_left parent child else set_right parent child
     else set_root root child);;
    mret (child, parent, color).

Definition rb_erase (fuel : nat) (node root : Z) : cmd rbmem () :=
  '(child, parent, color) ← rb_erase_unlink fuel node root;
  if bool_decide (color = RB_BLACK) then __rb_erase_color fuel child parent root
  else mret ().

(** ** Traversal *)

Definition rb_first (fuel : nat) (root : Z) : cmd rbmem Z :=
  n ← get_root root;
  if nonnull n then leftmost fuel n else mret NULL.

Definition rb_last (fuel : nat) (root : Z) : cmd rbmem Z :=
  n ← get_root root;
  if nonnull n then rightmost fuel n else mret NULL.

Definition rb_next (fuel : nat) (node : Z) : cmd rbmem Z :=
  p ← rb_parent node;
  if bool_decide (p = node) then mret NULL else
  right ← get_right node;
  if nonnull right then
    leftmost fuel right
  else
    loop fuel (λ node,
      parent ← rb_parent node;
      if nonnull parent then
        pr ← get_right parent;
        if bool_decide (node = pr) then mret (inl parent) else mret (inr parent)
      else mret (inr parent)) node.

Definition rb_prev (fuel : nat) (node : Z) : cmd rbmem Z :=
  p ← rb_parent node;
  if bool_decide (p = node) then mret NULL else
  left ← get_left node;
  if nonnull left then
    rightmost fuel left
  else
    loop fuel (λ node,
      parent ← rb_parent node;
      if nonnull parent then
        pl ← get_left parent;
        if bool_decide (node = pl) then mret (inl parent) else mret (inr parent)
      else mret (inr parent)) node.

Definition rb_replace_node (victim new root : Z) : cmd rbmem () :=
  parent ← rb_parent victim;
  (if nonnull parent then
     pl ← get_left parent;
     if bool_decide (victim = pl) then set_left parent new else set_right parent new
   else set_root root new);;
  vl ← get_left victim;
  (if nonnull vl then vl ← get_left victim; rb_set_parent vl new else mret ());;
  vr ← get_right victim;
  (if nonnull vr then vr ← get_right victim; rb_set_parent vr new else mret ());;
  v ← load_node victim;
  modify_node new (λ _, v).

(** ** Augmented trees

    The callback [func] is a command of the client's state [S], which contains
    the tree memory. *)
Section augment.
Context {S : Type} `{!Lens S rbmem} (func : Z → cmd S ()).

Definition rb_augment_path (fuel : nat) (node : Z) : cmd S () :=
  loop fuel (λ node,
    func node;;
    parent ← zoom (rb_parent node);
    if nonnull parent then
      pl ← zoom (get_left parent);
      pr ← zoom (get_right parent);
      (if bool_decide (node = pl) && nonnull pr then
         pr ← zoom (get_right parent); func pr
       else if nonnull pl then
         pl ← zoom (get_left parent); func pl
       else mret ());;
      mret (inl parent)
    else mret (inr ())) node.

Definition rb_augment_insert (fuel : nat) (node : Z) : cmd S () :=
  l ← zoom (get_left node);
  r ← zoom (get_right node);
  rb_augment_path fuel (if nonnull l then l else if nonnull r then r else node).

Definition rb_augment_erase_end (fuel : nat) (node : Z) : cmd S () :=
  if nonnull node then rb_augment_path fuel node else mret ().

End augment.

Definition rb_augment_erase_begin (fuel : nat) (node : Z) : cmd rbmem Z :=
  r ← get_right node;
  l ← get_left node;
  if negb (nonnull r) && negb (nonnull l) then rb_parent node
  else if negb (nonnull r) then get_left node
  else if negb (nonnull l) then get_right node
  else
    deepest ← rb_next fuel node;
    dr ← get_right deepest;
    if nonnull dr then get_right deepest
    else
      dp ← rb_parent deepest;
      if negb (bool_decide (dp = node)) then rb_parent deepest
      else mret deepest.
