(* ===== verification/RbZip.v ===== *)
(** * Trees and zippers in the node memory

    The abstract view of the tree: [tree] carries node addresses and colours,
    a zipper [(k, t)] singles out the subtree [t] below the path [k] to the
    root.  [zip_at s root k t] says that the memory [s] holds exactly that tree:
    every child, parent and root pointer agrees with it.  The pointer-level
    effect of the code is stated on zippers, once for both mirror images: a
    direction [d] is the side of a child. *)

From stdpp Require Import gmap numbers list.
From S2P Require Import Prelude RbNode RbTree.

Local Open Scope Z_scope.

(** ** Directions, trees, contexts *)

Inductive dir := L | R.
Definition opp (d : dir) : dir := match d with L => R | R => L end.

#[global] Instance dir_eq_dec : EqDecision dir.
Proof. solve_decision. Defined.

Inductive tree :=
| E
| T (c : color) (l : tree) (p : Z) (r : tree).

#[global] Instance tree_eq_dec : EqDecision tree.
Proof. solve_decision. Defined.

(** [node d c a x b]: [a] hangs on side [d] of [x], [b] on the other side. *)
Definition node (d : dir) (c : color) (a : tree) (x : Z) (b : tree) : tree :=
  match d with L => T c a x b | R => T c b x a end.

(** One step of the path: the hole is on side [f_dir] of [f_node], whose other
    subtree is [f_sib]. *)
Record frame := Frame { f_dir : dir; f_color : color; f_node : Z; f_sib : tree }.
Abbreviation ctx := (list frame).

#[global] Instance frame_eq_dec : EqDecision frame.
Proof. solve_decision. Defined.

Definition root_of (t : tree) : Z := match t with E => NULL | T _ _ p _ => p end.
Definition ctx_parent (k : ctx) : Z := match k with [] => NULL | f :: _ => f_node f end.

Fixpoint plug (k : ctx) (t : tree) : tree :=
  match k with
  | [] => t
  | Frame d c p s :: k' => plug k' (node d c t p s)
  end.

Fixpoint inorder (t : tree) : list Z :=
  match t with E => [] | T _ l p r => inorder l ++ p :: inorder r end.

(** The nodes before and after the hole in the in-order sequence. *)
Fixpoint ctx_pre (k : ctx) : list Z :=
  match k with
  | [] => []
  | Frame L c p s :: k' => ctx_pre k'
  | Frame R c p s :: k' => ctx_pre k' ++ inorder s ++ [p]
  end.
Fixpoint ctx_post (k : ctx) : list Z :=
  match k with
  | [] => []
  | Frame L c p s :: k' => p :: inorder s ++ ctx_post k'
  | Frame R c p s :: k' => ctx_post k'
  end.

Lemma inorder_plug k t : inorder (plug k t) = ctx_pre k ++ inorder t ++ ctx_post k.
Proof.
  revert t. induction k as [|[[] c p s] k IH]; intros t; simpl.
  - by rewrite app_nil_r.
  - rewrite IH. simpl. by rewrite <-!app_assoc.
  - rewrite IH. simpl. by rewrite <-!app_assoc.
Qed.

Lemma plug_app k1 k2 t : plug (k1 ++ k2) t = plug k2 (plug k1 t).
Proof. revert t. induction k1 as [|[d c p s] k1 IH]; intros t; [done|]. apply IH. Qed.

(** ** Representation in memory *)

(** A node's contents seen from side [d]. *)
Definition mk_dir (d : dir) (par : Z) (c : color) (a b : Z) : rb_node :=
  match d with L => mk_node par c a b | R => mk_node par c b a end.

Fixpoint tree_at (h : gmap Z rb_node) (par : Z) (t : tree) : Prop :=
  match t with
  | E => True
  | T c l p r =>
      h !! p = Some (mk_node par c (root_of l) (root_of r)) ∧
      tree_at h p l ∧ tree_at h p r
  end.

Fixpoint ctx_at (s : rbmem) (root : Z) (k : ctx) (hole : Z) : Prop :=
  match k with
  | [] => rb_roots s !! root = Some hole
  | Frame d c p sib :: k' =>
      rb_nodes s !! p = Some (mk_dir d (ctx_parent k') c hole (root_of sib)) ∧
      tree_at (rb_nodes s) p sib ∧ ctx_at s root k' p
  end.

(** Node addresses are not NULL, aligned, and pairwise different. *)
Definition good_addr (p : Z) : Prop := p ≠ NULL ∧ aligned p.
Definition good_addrs (l : list Z) : Prop := NoDup l ∧ Forall good_addr l.

Definition zip_at (s : rbmem) (root : Z) (k : ctx) (t : tree) : Prop :=
  ctx_at s root k (root_of t) ∧ tree_at (rb_nodes s) (ctx_parent k) t ∧
  good_addrs (inorder (plug k t)).

(** ** Structural facts *)

Lemma tree_at_node h par d c a x b :
  tree_at h par (node d c a x b) ↔
  h !! x = Some (mk_dir d par c (root_of a) (root_of b)) ∧ tree_at h x a ∧ tree_at h x b.
Proof. destruct d; simpl; tauto. Qed.

Lemma root_of_node d c a x b : root_of (node d c a x b) = x.
Proof. by destruct d. Qed.

Lemma tree_node t d : t = E ∨ ∃ c a x b, t = node d c a x b.
Proof.
  destruct t as [|c l p r]; [by left|right].
  destruct d; [by exists c, l, p, r|by exists c, r, p, l].
Qed.

Lemma plug_node_inj d k c t p s : plug (Frame d c p s :: k) t = plug k (node d c t p s).
Proof. done. Qed.

(** Moving the focus of a zipper does not change what it describes. *)
Lemma zip_down s root d c p sib k t :
  zip_at s root (Frame d c p sib :: k) t ↔ zip_at s root k (node d c t p sib).
Proof.
  unfold zip_at. simpl. rewrite tree_at_node, root_of_node. simpl. tauto.
Qed.

Lemma zip_up {s root d c p sib k t} :
  zip_at s root (Frame d c p sib :: k) t → zip_at s root k (node d c t p sib).
Proof. by rewrite zip_down. Qed.

Lemma zip_into {s root d c p sib k t} :
  zip_at s root k (node d c t p sib) → zip_at s root (Frame d c p sib :: k) t.
Proof. by rewrite zip_down. Qed.

Lemma zip_plug s root k t : zip_at s root k t ↔ zip_at s root [] (plug k t).
Proof.
  revert t. induction k as [|[d c p sib] k IH]; intros t; [done|].
  rewrite zip_down. apply IH.
Qed.

Lemma opp_opp d : opp (opp d) = d.
Proof. by destruct d. Qed.

Lemma node_opp d c a x b : node (opp d) c a x b = node d c b x a.
Proof. by destruct d. Qed.

(** The sibling's view: focus on the other child of the same parent. *)
Lemma zip_sibling s root d c p a b k :
  zip_at s root (Frame d c p b :: k) a ↔ zip_at s root (Frame (opp d) c p a :: k) b.
Proof. by rewrite !zip_down, node_opp. Qed.

Lemma zip_other {s root d c p a b k} :
  zip_at s root (Frame d c p b :: k) a → zip_at s root (Frame (opp d) c p a :: k) b.
Proof. by rewrite zip_sibling. Qed.

Lemma zip_into_opp {s root d c p sib k t} :
  zip_at s root k (node d c t p sib) → zip_at s root (Frame (opp d) c p t :: k) sib.
Proof. intros Hz. by apply zip_other, zip_into. Qed.

(** ** Frame properties *)

Lemma tree_at_frame h h' X par t :
  tree_at h par t → agree_off X h h' → (∀ x, x ∈ inorder t → x ∉ X) → tree_at h' par t.
Proof.
  revert par. induction t as [|c l IHl p r IHr]; intros par; [done|].
  simpl. intros (Hp & Hl & Hr) Ha Hd. split_and!.
  - rewrite Ha; [done|]. apply Hd. set_solver.
  - apply IHl; [done..|]. set_solver.
  - apply IHr; [done..|]. set_solver.
Qed.

Definition ctx_addrs (k : ctx) : list Z := ctx_pre k ++ ctx_post k.

Lemma ctx_addrs_cons d c p s k :
  ctx_addrs (Frame d c p s :: k) ≡ₚ p :: inorder s ++ ctx_addrs k.
Proof. unfold ctx_addrs. destruct d; simpl; solve_Permutation. Qed.

Lemma elem_of_ctx_addrs_cons x d c p s k :
  x ∈ ctx_addrs (Frame d c p s :: k) ↔ x = p ∨ x ∈ inorder s ∨ x ∈ ctx_addrs k.
Proof. rewrite ctx_addrs_cons. set_solver. Qed.

Lemma ctx_at_frame s s' X root k hole :
  ctx_at s root k hole → agree_off X (rb_nodes s) (rb_nodes s') →
  rb_roots s' !! root = rb_roots s !! root →
  (∀ x, x ∈ ctx_addrs k → x ∉ X) → ctx_at s' root k hole.
Proof.
  revert hole. induction k as [|[d c p sib] k IH]; intros hole; simpl.
  { by intros Hr _ ->. }
  intros (Hp & Hs & Hk) Ha Hroot Hd.
  assert (∀ x, x = p ∨ x ∈ inorder sib ∨ x ∈ ctx_addrs k → x ∉ X) as Hd'.
  { intros x Hx. by apply Hd, elem_of_ctx_addrs_cons. }
  split_and!.
  - rewrite Ha; [done|]. auto.
  - eapply tree_at_frame; [done..|]. auto.
  - apply IH; auto.
Qed.

Lemma inorder_plug_perm k t : inorder (plug k t) ≡ₚ inorder t ++ ctx_addrs k.
Proof. rewrite inorder_plug. unfold ctx_addrs. solve_Permutation. Qed.

Lemma inorder_node_perm d c a x b : inorder (node d c a x b) ≡ₚ x :: inorder a ++ inorder b.
Proof. destruct d; simpl; solve_Permutation. Qed.

Lemma good_addrs_perm l l' : l ≡ₚ l' → good_addrs l → good_addrs l'.
Proof. intros Hl [? ?]. split; by rewrite <-Hl. Qed.

#[global] Instance good_addrs_proper : Proper ((≡ₚ) ==> iff) good_addrs.
Proof. intros l l' Hl. split; apply good_addrs_perm; [done|by symmetry]. Qed.

Lemma good_null : aligned NULL.
Proof. done. Qed.

Lemma good_addrs_cons x l : good_addrs (x :: l) ↔ good_addr x ∧ (x ∉ l) ∧ good_addrs l.
Proof. unfold good_addrs. rewrite NoDup_cons, Forall_cons. tauto. Qed.

Lemma good_addrs_app l1 l2 :
  good_addrs (l1 ++ l2) ↔ good_addrs l1 ∧ good_addrs l2 ∧ (∀ x, x ∈ l1 → x ∉ l2).
Proof. unfold good_addrs. rewrite NoDup_app, Forall_app. tauto. Qed.

Lemma good_addrs_elem x l : good_addrs l → x ∈ l → good_addr x.
Proof. intros [_ Hg] Hx. rewrite Forall_forall in Hg. auto. Qed.

Lemma root_of_in t : root_of t = NULL ∧ t = E ∨ root_of t ∈ inorder t.
Proof. destruct t; simpl; [by left|right; set_solver]. Qed.

Lemma ctx_parent_in k : ctx_parent k = NULL ∧ k = [] ∨ ctx_parent k ∈ ctx_addrs k.
Proof.
  destruct k as [|[d c p s] k]; [by left|right]. apply elem_of_ctx_addrs_cons. by left.
Qed.

Lemma aligned_root_of t : good_addrs (inorder t) → aligned (root_of t).
Proof.
  intros Hg. destruct (root_of_in t) as [[-> _]|Hin]; [apply good_null|].
  by apply (good_addrs_elem _ _ Hg).
Qed.

Lemma aligned_ctx_parent k : good_addrs (ctx_addrs k) → aligned (ctx_parent k).
Proof.
  intros Hg. destruct (ctx_parent_in k) as [[-> _]|Hin]; [apply good_null|].
  by apply (good_addrs_elem _ _ Hg).
Qed.

Lemma nonnull_true p : p ≠ NULL → nonnull p = true.
Proof. intros. unfold nonnull. by rewrite bool_decide_false. Qed.

Lemma nonnull_root_of t : good_addrs (inorder t) → (nonnull (root_of t) = true) ↔ t ≠ E.
Proof.
  intros Hg. destruct t as [|c l p r]; [naive_solver|]. simpl. split; [done|].
  intros _. apply nonnull_true. eapply (good_addrs_elem p _ Hg). simpl. set_solver.
Qed.

(** ** Direction-generic code

    The mirror-image functions of the C file are instances of one command. *)
Definition get_child (d : dir) : Z → cmd rbmem Z := match d with L => get_left | R => get_right end.
Definition set_child (d : dir) : Z → Z → cmd rbmem () :=
  match d with L => set_left | R => set_right end.

Definition change_child (d : dir) (old new parent root : Z) : cmd rbmem () :=
  if nonnull parent then
    pl ← get_child d parent;
    if bool_decide (old = pl) then set_child d parent new
    else set_child (opp d) parent new
  else set_root root new.

Definition rotate (d : dir) (x root : Z) : cmd rbmem () :=
  y ← get_child (opp d) x;
  parent ← rb_parent x;
  b ← get_child d y;
  set_child (opp d) x b;;
  (if nonnull b then b ← get_child d y; rb_set_parent b x else mret ());;
  set_child d y x;;
  rb_set_parent y parent;;
  change_child d x y parent root;;
  rb_set_parent x y.

Lemma rotate_left_eq x root : __rb_rotate_left x root = rotate L x root.
Proof. done. Qed.

Lemma rotate_right_eq x root : __rb_rotate_right x root = rotate R x root.
Proof. done. Qed.

Section child_rules.
Context (s : rbmem) (d : dir) (p par a b : Z) (c : color).
Hypothesis Hnode : rb_nodes s !! p = Some (mk_dir d par c a b).

Lemma wp_get_child Q : Q a s → wp (get_child d p) Q s.
Proof. destruct d; [eapply wp_get_left|eapply wp_get_right]; done. Qed.

Lemma wp_get_child_opp Q : Q b s → wp (get_child (opp d) p) Q s.
Proof. destruct d; [eapply wp_get_right|eapply wp_get_left]; done. Qed.

Lemma wp_set_child v Q : Q () (upd_node p (mk_dir d par c v b) s) → wp (set_child d p v) Q s.
Proof. destruct d; [eapply wp_set_left|eapply wp_set_right]; done. Qed.

Lemma wp_set_child_opp v Q :
  Q () (upd_node p (mk_dir d par c a v) s) → wp (set_child (opp d) p v) Q s.
Proof. destruct d; [eapply wp_set_right|eapply wp_set_left]; done. Qed.

Hypothesis Hpar : aligned par.

Lemma wp_parent_dir Q : Q par s → wp (rb_parent p) Q s.
Proof. destruct d; eapply wp_rb_parent; done. Qed.

Lemma wp_color_dir Q : Q (color_bit c) s → wp (rb_color p) Q s.
Proof. destruct d; eapply wp_rb_color; done. Qed.

Lemma wp_is_red_dir Q : Q (bool_decide (c = Red)) s → wp (rb_is_red p) Q s.
Proof. destruct d; eapply wp_rb_is_red; done. Qed.

Lemma wp_is_black_dir Q : Q (bool_decide (c = Black)) s → wp (rb_is_black p) Q s.
Proof. destruct d; eapply wp_rb_is_black; done. Qed.

Lemma wp_set_parent_dir q Q :
  aligned q → Q () (upd_node p (mk_dir d q c a b) s) → wp (rb_set_parent p q) Q s.
Proof. destruct d; eapply wp_rb_set_parent; done. Qed.

End child_rules.

(** [if (t) rb_set_parent(t, q)] hangs the subtree below [q]. *)
Lemma wp_reparent s par t q (m : cmd rbmem ()) Q :
  tree_at (rb_nodes s) par t → good_addrs (inorder t) → aligned par → aligned q →
  (∀ Q', wp (rb_set_parent (root_of t) q) Q' s → wp m Q' s) →
  (∀ s', tree_at (rb_nodes s') q t → agree_off (inorder t) (rb_nodes s) (rb_nodes s') →
         rb_roots s' = rb_roots s → Q () s') →
  wp (if nonnull (root_of t) then m else mret ()) Q s.
Proof.
  intros Ht Hg Hpar Hq Hm HQ. pose proof (nonnull_root_of t Hg) as Hnn.
  destruct t as [|c l p r].
  { apply wp_ret, HQ; [done|apply agree_off_refl|done]. }
  rewrite (proj2 Hnn) by done. apply Hm. simpl in Ht, Hg |- *. destruct Ht as (Hp & Hl & Hr).
  rewrite good_addrs_app, good_addrs_cons in Hg.
  eapply wp_rb_set_parent; [done..|]. apply HQ; simpl; [|apply agree_off_insert; set_solver|done].
  split_and!; [by rewrite lookup_insert_eq|..];
    (eapply tree_at_frame; [done|apply (agree_off_insert [p]); set_solver|set_solver]).
Qed.

(** Replacing the subtree pointer in the parent, or in the root struct. *)
Lemma wp_change_child s root k d x y Q :
  ctx_at s root k x → good_addrs (x :: ctx_addrs k) →
  (∀ s', ctx_at s' root k y → agree_off (ctx_addrs k) (rb_nodes s) (rb_nodes s') →
         (∀ r, r ≠ root → rb_roots s' !! r = rb_roots s !! r) → Q () s') →
  wp (change_child d x y (ctx_parent k) root) Q s.
Proof.
  intros Hk Hg HQ. unfold change_child. destruct k as [|[d' c p sib] k]; simpl in *.
  { change (nonnull NULL) with false. cbv iota. eapply wp_set_root; [done|]. apply HQ; simpl.
    - by rewrite lookup_insert_eq.
    - apply agree_off_refl.
    - intros r Hr. by rewrite lookup_insert_ne. }
  destruct Hk as (Hp & Hs & Hk). rewrite ctx_addrs_cons in Hg.
  rewrite good_addrs_cons, good_addrs_cons, good_addrs_app in Hg.
  destruct Hg as (Hx & Hxn & Hpg & Hpn & Hsg & Hkg & Hd).
  rewrite nonnull_true by apply Hpg.
  assert (∀ n, let s' := upd_node p n s in n = mk_dir d' (ctx_parent k) c y (root_of sib) → Q () s')
    as HQ'.
  { intros n s' ->. apply HQ; [split_and!|..]; simpl.
    - by rewrite lookup_insert_eq.
    - eapply tree_at_frame; [done|apply (agree_off_insert [p]); set_solver|set_solver].
    - eapply ctx_at_frame; [done|apply (agree_off_insert [p]); set_solver|done|set_solver].
    - apply agree_off_insert, elem_of_ctx_addrs_cons. by left.
    - done. }
  apply wp_bind. destruct (decide (d = d')) as [->|Hne].
  - eapply wp_get_child; [done|]. rewrite bool_decide_true by done.
    eapply wp_set_child; [done|]. by apply HQ'.
  - assert (d = opp d') as -> by (by destruct d, d'). eapply wp_get_child_opp; [done|].
    rewrite bool_decide_false.
    + rewrite opp_opp. eapply wp_set_child; [done|]. by apply HQ'.
    + destruct (root_of_in sib) as [[-> _]|Hin]; [by destruct Hx|]. intros ->. set_solver.
Qed.

(** The addresses of a zipper whose focus is a node. *)
Lemma zip_good_node s root k d c a x b :
  zip_at s root k (node d c a x b) →
  good_addrs (x :: inorder a ++ inorder b ++ ctx_addrs k).
Proof.
  intros (_ & _ & Hg). by rewrite inorder_plug_perm, inorder_node_perm in Hg;
    simpl in Hg; rewrite <-app_assoc in Hg.
Qed.

(** [s'] has the nodes of [s] outside [X] and the same other roots. *)
Definition same_outside (X : list Z) (root : Z) (s s' : rbmem) : Prop :=
  agree_off X (rb_nodes s) (rb_nodes s') ∧
  ∀ r, r ≠ root → rb_roots s' !! r = rb_roots s !! r.

Lemma same_outside_refl X root s : same_outside X root s s.
Proof. by split; [apply agree_off_refl|]. Qed.

Lemma same_outside_trans X root s1 s2 s3 :
  same_outside X root s1 s2 → same_outside X root s2 s3 → same_outside X root s1 s3.
Proof.
  intros [H1 H1'] [H2 H2']. split; [by eapply agree_off_trans|].
  intros r Hr. by rewrite H2', H1'.
Qed.

Lemma same_outside_step l root s1 s2 s3 l' :
  same_outside l root s1 s2 → same_outside l' root s2 s3 → l' = l →
  same_outside l root s1 s3.
Proof. intros ? ? ->. by eapply same_outside_trans. Qed.

Lemma same_outside_weaken X Y root s s' :
  same_outside X root s s' → X ⊆ Y → same_outside Y root s s'.
Proof. intros [H H'] HXY. split; [|done]. by eapply agree_off_weaken. Qed.

(** Rotating towards [d] lifts the node on the other side. *)
Lemma wp_rotate s root k d c a x c' b y e Q :
  zip_at s root k (node d c a x (node d c' b y e)) →
  (∀ s', zip_at s' root k (node d c' (node d c a x b) y e) →
         same_outside (inorder (plug k (node d c a x (node d c' b y e)))) root s s' → Q () s') →
  wp (rotate d x root) Q s.
Proof.
  intros Hz HQ. pose proof (zip_good_node _ _ _ _ _ _ _ _ Hz) as Hg.
  destruct Hz as (Hk & Ht & Hgall). rewrite root_of_node in Hk.
  rewrite !tree_at_node, root_of_node in Ht. destruct Ht as (Hx & Ha & Hy & Hb & He).
  rewrite (inorder_node_perm d c' b y e) in Hg. cbn [app] in Hg.
  rewrite good_addrs_cons, !good_addrs_app, good_addrs_cons, !good_addrs_app in Hg.
  destruct Hg as (Hxg & Hxn & Hag & (Hyg & Hyn & (Hbg & Heg & Hbe) & Hkg & Hyk) & Hayk).
  assert (x ≠ y) as Hxy by set_solver.
  pose proof (aligned_ctx_parent k Hkg) as Hpar.
  unfold rotate. apply wp_bind. eapply wp_get_child_opp; [done|].
  apply wp_bind. eapply wp_parent_dir; [done..|].
  apply wp_bind. eapply wp_get_child; [done|].
  apply wp_bind. eapply wp_set_child_opp; [done|].
  set (s1 := upd_node x _ s).
  assert (agree_off [x] (rb_nodes s) (rb_nodes s1)) as Ha1
    by (apply agree_off_insert; set_solver).
  assert (rb_nodes s1 !! y = Some (mk_dir d x c' (root_of b) (root_of e))) as Hy1
    by (simpl; by rewrite lookup_insert_ne).
  apply wp_bind. apply (wp_reparent s1 y b x); [|done|apply Hyg|apply Hxg|..].
  { eapply tree_at_frame; [done..|set_solver]. }
  { intros Q' HQ'. apply wp_bind. by eapply wp_get_child. }
  intros s2 Hb2 Ha2 Hr2.
  assert (rb_nodes s2 !! y = Some (mk_dir d x c' (root_of b) (root_of e))) as Hy2
    by (rewrite Ha2; [done|set_solver]).
  apply wp_bind. eapply wp_set_child; [done|].
  apply wp_bind. eapply wp_set_parent_dir; [apply lookup_insert_eq|apply Hxg|done|].
  set (s3 := upd_node y _ (upd_node y _ s2)).
  assert (agree_off [y] (rb_nodes s2) (rb_nodes s3)) as Ha3.
  { eapply agree_off_trans; apply agree_off_insert; set_solver. }
  apply wp_bind. apply (wp_change_child s3 root k).
  { eapply (ctx_at_frame s); [done|exact (agree_off_app (agree_off_app Ha1 Ha2) Ha3)
      |by simpl; rewrite Hr2|set_solver]. }
  { rewrite good_addrs_cons. split_and!; [done|set_solver|done]. }
  intros s4 Hk4 Ha4 Hr4.
  assert (rb_nodes s4 !! x = Some (mk_dir d (ctx_parent k) c (root_of a) (root_of b))) as Hx4.
  { rewrite Ha4, Ha3, Ha2 by set_solver. simpl. by rewrite lookup_insert_eq. }
  eapply wp_set_parent_dir; [done..|apply Hyg|]. set (s5 := upd_node x _ s4).
  assert (agree_off [x] (rb_nodes s4) (rb_nodes s5)) as Ha5
    by (apply agree_off_insert; set_solver).
  pose proof (agree_off_app Ha3 (agree_off_app Ha4 Ha5)) as Ha25.
  pose proof (agree_off_app (agree_off_app Ha1 Ha2) Ha25) as Ha05.
  apply HQ; [unfold zip_at; split_and!|split].
  - rewrite root_of_node. eapply ctx_at_frame; [done..|]. set_solver.
  - rewrite !tree_at_node, !root_of_node. split_and!.
    + rewrite Ha5, Ha4 by set_solver. apply lookup_insert_eq.
    + apply lookup_insert_eq.
    + eapply tree_at_frame; [exact Ha|exact Ha05|]. set_solver.
    + eapply tree_at_frame; [exact Hb2|exact Ha25|]. set_solver.
    + eapply tree_at_frame; [exact He|exact Ha05|]. set_solver.
  - revert Hgall. rewrite !inorder_plug_perm, !inorder_node_perm. apply good_addrs_perm.
    solve_Permutation.
  - eapply agree_off_weaken; [exact Ha05|].
    intros z. rewrite inorder_plug_perm, !inorder_node_perm. set_solver.
  - intros r Hr. rewrite Hr4 by done. simpl. by rewrite Hr2.
Qed.

(** The mirror image, seen from the same side. *)
Lemma wp_rotate_opp s root k d c a x c' b y e Q :
  zip_at s root k (node d c (node d c' e y b) x a) →
  (∀ s', zip_at s' root k (node d c' e y (node d c b x a)) →
         same_outside (inorder (plug k (node d c (node d c' e y b) x a))) root s s' → Q () s') →
  wp (rotate (opp d) x root) Q s.
Proof.
  intros Hz HQ. eapply (wp_rotate s root k (opp d) c a x c' b y e).
  - by rewrite !node_opp.
  - intros s'. rewrite !node_opp. apply HQ.
Qed.

(** ** Reading and recolouring at the focus *)

Definition tcolor (t : tree) : color := match t with E => Black | T c _ _ _ => c end.
Definition paint (c : color) (t : tree) : tree :=
  match t with E => E | T _ l p r => T c l p r end.

Lemma tcolor_node d c a x b : tcolor (node d c a x b) = c.
Proof. by destruct d. Qed.

Lemma paint_node d c c' a x b : paint c' (node d c a x b) = node d c' a x b.
Proof. by destruct d. Qed.

Lemma inorder_paint c t : inorder (paint c t) = inorder t.
Proof. by destruct t. Qed.

Lemma root_of_paint c t : root_of (paint c t) = root_of t.
Proof. by destruct t. Qed.

Lemma inorder_plug_ext k t t' :
  inorder t = inorder t' → inorder (plug k t) = inorder (plug k t').
Proof. intros H. by rewrite !inorder_plug, H. Qed.

Lemma inorder_rotate d c c' a x b y e c1 c2 :
  inorder (node d c a x (node d c' b y e)) = inorder (node d c1 (node d c2 a x b) y e).
Proof. destruct d; simpl; by rewrite <-!app_assoc. Qed.

Lemma zip_good s root k t :
  zip_at s root k t → good_addrs (inorder t) ∧ good_addrs (ctx_addrs k) ∧
                      (∀ x, x ∈ inorder t → x ∉ ctx_addrs k).
Proof. intros (_ & _ & Hg). by rewrite inorder_plug_perm, good_addrs_app in Hg. Qed.

Lemma zip_parent_aligned s root k t : zip_at s root k t → aligned (ctx_parent k).
Proof. intros (_ & Hg & _)%zip_good. by apply aligned_ctx_parent. Qed.

Lemma zip_lookup s root k d c a x b :
  zip_at s root k (node d c a x b) →
  rb_nodes s !! x = Some (mk_dir d (ctx_parent k) c (root_of a) (root_of b)).
Proof. intros (_ & Ht & _). rewrite tree_at_node in Ht. apply Ht. Qed.

Lemma zip_nonnull s root k t : zip_at s root k t → nonnull (root_of t) = bool_decide (t ≠ E).
Proof.
  intros Hz. destruct t as [|c l x r]; [done|]. rewrite bool_decide_true by done.
  apply (nonnull_root_of (T c l x r)); [|done]. by apply zip_good in Hz as [? _].
Qed.

Lemma zip_nonnull_parent s root k t :
  zip_at s root k t → nonnull (ctx_parent k) = bool_decide (k ≠ []).
Proof.
  intros Hz. apply zip_good in Hz as (_ & Hg & _). destruct k as [|f k]; [done|].
  rewrite bool_decide_true by done. apply nonnull_true.
  destruct (ctx_parent_in (f :: k)) as [[_ ?]|Hin]; [done|].
  by apply (good_addrs_elem _ _ Hg).
Qed.

Lemma wp_zip_get_root s root t Q :
  zip_at s root [] t → Q (root_of t) s → wp (get_root root) Q s.
Proof. intros (Hr & _) HQ. by eapply wp_get_root. Qed.

Section zip_rules.
Context {s : rbmem} {root : Z} {k : ctx} {d : dir} {c : color} {a b : tree} {x : Z}.
Hypothesis Hz : zip_at s root k (node d c a x b).

Lemma wp_zip_child Q : Q (root_of a) s → wp (get_child d x) Q s.
Proof using Hz. eapply wp_get_child. by eapply zip_lookup. Qed.

Lemma wp_zip_child_opp Q : Q (root_of b) s → wp (get_child (opp d) x) Q s.
Proof using Hz. eapply wp_get_child_opp. by eapply zip_lookup. Qed.

Lemma wp_zip_parent Q : Q (ctx_parent k) s → wp (rb_parent x) Q s.
Proof using Hz.
  eapply wp_parent_dir; [by eapply zip_lookup|by eapply zip_parent_aligned].
Qed.

Lemma wp_zip_color Q : Q (color_bit c) s → wp (rb_color x) Q s.
Proof using Hz.
  eapply wp_color_dir; [by eapply zip_lookup|by eapply zip_parent_aligned].
Qed.

Lemma wp_zip_is_red Q : Q (bool_decide (c = Red)) s → wp (rb_is_red x) Q s.
Proof using Hz.
  eapply wp_is_red_dir; [by eapply zip_lookup|by eapply zip_parent_aligned].
Qed.

Lemma wp_zip_is_black Q : Q (bool_decide (c = Black)) s → wp (rb_is_black x) Q s.
Proof using Hz.
  eapply wp_is_black_dir; [by eapply zip_lookup|by eapply zip_parent_aligned].
Qed.

Lemma zip_recolor c' :
  let s' := upd_node x (mk_dir d (ctx_parent k) c' (root_of a) (root_of b)) s in
  zip_at s' root k (node d c' a x b) ∧
  same_outside (inorder (plug k (node d c a x b))) root s s'.
Proof using Hz.
  intros s'. pose proof (zip_good_node _ _ _ _ _ _ _ _ Hz) as Hg.
  destruct Hz as (Hk & Ht & Hgall). rewrite tree_at_node in Ht. destruct Ht as (Hx & Ha & Hb).
  rewrite good_addrs_cons, !good_addrs_app in Hg.
  assert (agree_off [x] (rb_nodes s) (rb_nodes s')) as Ha' by (apply agree_off_insert; set_solver).
  unfold zip_at. rewrite root_of_node, tree_at_node in *. split_and!.
  - eapply ctx_at_frame; [done..|]. set_solver.
  - apply lookup_insert_eq.
  - eapply tree_at_frame; [done..|]. set_solver.
  - eapply tree_at_frame; [done..|]. set_solver.
  - revert Hgall. by rewrite !inorder_plug_perm, !inorder_node_perm.
  - split; [|done]. eapply agree_off_weaken; [done|].
    intros z. rewrite inorder_plug_perm, inorder_node_perm. set_solver.
Qed.

Lemma wp_zip_set_color c' Q :
  (∀ s', zip_at s' root k (node d c' a x b) →
         same_outside (inorder (plug k (node d c a x b))) root s s' → Q () s') →
  wp (rb_set_color x (color_bit c')) Q s.
Proof using Hz.
  intros HQ. pose proof (zip_recolor c') as [Hz' Hs']. pose proof (zip_lookup _ _ _ _ _ _ _ _ Hz).
  pose proof (zip_parent_aligned _ _ _ _ Hz).
  destruct d; (eapply wp_rb_set_color; [done..|by apply HQ]).
Qed.

Lemma wp_zip_set_red Q :
  (∀ s', zip_at s' root k (node d Red a x b) →
         same_outside (inorder (plug k (node d c a x b))) root s s' → Q () s') →
  wp (rb_set_red x) Q s.
Proof using Hz.
  intros HQ. pose proof (zip_recolor Red) as [Hz' Hs']. pose proof (zip_lookup _ _ _ _ _ _ _ _ Hz).
  pose proof (zip_parent_aligned _ _ _ _ Hz).
  destruct d; (eapply wp_rb_set_red; [done..|by apply HQ]).
Qed.

Lemma wp_zip_set_black Q :
  (∀ s', zip_at s' root k (node d Black a x b) →
         same_outside (inorder (plug k (node d c a x b))) root s s' → Q () s') →
  wp (rb_set_black x) Q s.
Proof using Hz.
  intros HQ. pose proof (zip_recolor Black) as [Hz' Hs']. pose proof (zip_lookup _ _ _ _ _ _ _ _ Hz).
  pose proof (zip_parent_aligned _ _ _ _ Hz).
  destruct d; (eapply wp_rb_set_black; [done..|by apply HQ]).
Qed.

End zip_rules.

Lemma wp_zip_nonnull_and_red s root k t Q :
  zip_at s root k t → Q (bool_decide (tcolor t = Red)) s → wp (nonnull_and_red (root_of t)) Q s.
Proof.
  intros Hz HQ. unfold nonnull_and_red. rewrite (zip_nonnull _ _ _ _ Hz).
  destruct t as [|c l x r]; [by apply wp_ret|]. rewrite bool_decide_true by done.
  by apply (wp_zip_is_red (d:=L) Hz).
Qed.

Lemma wp_zip_null_or_black s root k t Q :
  zip_at s root k t → Q (bool_decide (tcolor t = Black)) s → wp (null_or_black (root_of t)) Q s.
Proof.
  intros Hz HQ. unfold null_or_black. rewrite (zip_nonnull _ _ _ _ Hz).
  destruct t as [|c l x r]; [by apply wp_ret|]. rewrite bool_decide_true by done.
  by apply (wp_zip_is_black (d:=L) Hz).
Qed.
