(* ===== verification/RbInv.v ===== *)
(** * The red-black invariant, on trees and on zippers

    [rb n t]: no red node of [t] has a red child and every path from its root
    to a leaf meets [n] black nodes.  [rbk n k] is the same statement about
    everything around a hole that expects a subtree of black height [n].
    [valid t] is the invariant the library maintains for a whole tree. *)

From stdpp Require Import gmap numbers list.
From S2P Require Import Prelude RbNode RbTree RbZip.

Fixpoint rb (n : nat) (t : tree) : Prop :=
  match t with
  | E => n = 0
  | T Red l _ r => tcolor l = Black ∧ tcolor r = Black ∧ rb n l ∧ rb n r
  | T Black l _ r => match n with 0 => False | S m => rb m l ∧ rb m r end
  end.

Definition top_black (k : ctx) : Prop :=
  match k with [] => False | f :: _ => f_color f = Black end.

Fixpoint rbk (n : nat) (k : ctx) : Prop :=
  match k with
  | [] => True
  | Frame _ Black _ s :: k' => rb n s ∧ rbk (S n) k'
  | Frame _ Red _ s :: k' => tcolor s = Black ∧ rb n s ∧ top_black k' ∧ rbk n k'
  end.

Definition valid (t : tree) : Prop := tcolor t = Black ∧ ∃ n, rb n t.

Lemma rb_red n d a x b :
  rb n (node d Red a x b) ↔ tcolor a = Black ∧ tcolor b = Black ∧ rb n a ∧ rb n b.
Proof. destruct d; simpl; tauto. Qed.

Lemma rb_black n d a x b : rb (S n) (node d Black a x b) ↔ rb n a ∧ rb n b.
Proof. destruct d; simpl; tauto. Qed.

Lemma rb_black_inv n d a x b :
  rb n (node d Black a x b) → ∃ m, n = S m ∧ rb m a ∧ rb m b.
Proof. destruct n as [|n]; [by destruct d|]. rewrite rb_black. eauto. Qed.

Lemma rb_E n : rb n E ↔ n = 0.
Proof. done. Qed.

Lemma rb_paint_black n t : tcolor t = Red → rb n t → rb (S n) (paint Black t).
Proof. destruct t as [|[] l x r]; simpl; naive_solver. Qed.

Lemma paint_black_id t : tcolor t = Black → paint Black t = t.
Proof. by destruct t as [|[] l x r]. Qed.

Lemma tcolor_paint_black t : tcolor (paint Black t) = Black.
Proof. by destruct t. Qed.

Lemma rb_plug n k t :
  rbk n k → rb n t → (tcolor t = Red → top_black k) → valid (plug k t).
Proof.
  revert n t. induction k as [|[d c p s] k IH]; intros n t Hk Ht Hc; simpl in *.
  - split; [|by exists n]. destruct (tcolor t); naive_solver.
  - destruct c.
    + destruct Hk as (Hs & Hsn & Htop & Hk). apply (IH n); [done| |by rewrite tcolor_node].
      apply rb_red. split_and!; [|done..]. destruct (tcolor t); [|done].
      by specialize (Hc eq_refl).
    + destruct Hk as [Hs Hk]. apply (IH (S n)); [done|by apply rb_black|].
      by rewrite tcolor_node.
Qed.

Lemma plug_rb_inv k t n0 :
  rb n0 (plug k t) → tcolor (plug k t) = Black →
  ∃ n, rbk n k ∧ rb n t ∧ (tcolor t = Red → top_black k).
Proof.
  revert t. induction k as [|[d c p s] k IH]; intros t Hrb Hc; simpl in *.
  { exists n0. split_and!; [done..|]. by rewrite Hc. }
  destruct (IH _ Hrb Hc) as (n & Hk & Ht & Htop). rewrite tcolor_node in Htop. destruct c.
  - apply rb_red in Ht as (? & ? & ? & ?). exists n. split_and!; try done; [naive_solver|].
    congruence.
  - apply rb_black_inv in Ht as (m & -> & ? & ?). exists m. done.
Qed.

Lemma valid_plug_inv k t :
  valid (plug k t) → ∃ n, rbk n k ∧ rb n t ∧ (tcolor t = Red → top_black k).
Proof. intros [Hc [n Hn]]. by eapply plug_rb_inv. Qed.

(** Subtrees of black height at least one have a root node. *)
Lemma rb_S_nonempty n t : rb (S n) t → t ≠ E.
Proof. intros Ht ->. done. Qed.

(** A black tree of positive black height is a black node. *)
Lemma rb_S_black d n t :
  rb (S n) t → tcolor t = Black → ∃ a x b, t = node d Black a x b ∧ rb n a ∧ rb n b.
Proof.
  intros Ht Hc. destruct (tree_node t d) as [->|(c & a & x & b & ->)]; [done|].
  rewrite tcolor_node in Hc. subst c. apply rb_black in Ht as [??]. eauto 8.
Qed.

(** ** Logarithmic height *)

Fixpoint height (t : tree) : nat :=
  match t with E => 0 | T _ l _ r => S (height l `max` height r) end.

Lemma rb_height n t :
  rb n t → height t ≤ 2 * n + (if decide (tcolor t = Red) then 1 else 0).
Proof.
  revert n. induction t as [|[] l IHl x r IHr]; intros n Ht; simpl in *; [lia| |].
  - destruct Ht as (Hl & Hr & Htl & Htr). specialize (IHl _ Htl). specialize (IHr _ Htr).
    rewrite Hl in IHl. rewrite Hr in IHr. simpl in *. lia.
  - destruct n as [|n]; [done|]. destruct Ht as [Htl Htr].
    specialize (IHl _ Htl). specialize (IHr _ Htr). repeat case_decide; lia.
Qed.

Lemma rb_size n t : rb n t → 2 ^ n ≤ S (length (inorder t)).
Proof.
  revert n. induction t as [|[] l IHl x r IHr]; intros n Ht; simpl in *.
  - by subst.
  - destruct Ht as (_ & _ & Htl & Htr). specialize (IHl _ Htl). rewrite length_app. simpl. lia.
  - destruct n as [|n]; [done|]. destruct Ht as [Htl Htr].
    specialize (IHl _ Htl). specialize (IHr _ Htr). rewrite length_app. simpl. lia.
Qed.

Lemma valid_height t : valid t → 2 ^ (height t / 2) ≤ S (length (inorder t)).
Proof.
  intros [Hc [n Hn]]. pose proof (rb_height n t Hn) as Hh. pose proof (rb_size n t Hn).
  rewrite Hc in Hh. rewrite decide_False in Hh by done.
  assert (height t / 2 ≤ n) by (apply Nat.Div0.div_le_upper_bound; lia).
  transitivity (2 ^ n); [|done]. apply Nat.pow_le_mono_r; lia.
Qed.

Lemma length_ctx_height k t : length k + height t ≤ height (plug k t).
Proof.
  revert t. induction k as [|[d c p s] k IH]; intros t; [done|].
  simpl. etransitivity; [|apply IH]. destruct d; simpl; lia.
Qed.

(** A root struct at [root] heads a well-formed red-black tree [t]. *)
Definition is_rbtree (s : rbmem) (root : Z) (t : tree) : Prop :=
  zip_at s root [] t ∧ valid t.

Lemma is_rbtree_E s root : rb_roots s !! root = Some NULL → is_rbtree s root E.
Proof. intros Hr. split; [|by split; [|exists 0]]. repeat split; [done|constructor|constructor]. Qed.
