(* ===== verification/RbInsert.v ===== *)
(** * Insertion: rb_link_node and rb_insert_color restore the invariant

    The loop of [rb_insert_color] is followed on zippers: its focus is a red
    node whose parent may be red as well, the only place where the invariant
    may fail. *)

From stdpp Require Import gmap numbers list.
From S2P Require Import Prelude RbNode RbTree RbZip RbInv.

Local Open Scope Z_scope.

(** ** The two mirror-image branches as one command *)
Definition insert_branch (d : dir) (root node parent gparent : Z) : cmd rbmem (Z + ()) :=
  uncle ← get_child (opp d) gparent;
  ured ← nonnull_and_red uncle;
  if (ured : bool) then
    rb_set_black uncle;;
    rb_set_black parent;;
    rb_set_red gparent;;
    mret (inl gparent)
  else
  pr ← get_child (opp d) parent;
  '(node, parent) ←
    (if bool_decide (pr = node) then
       rotate d parent root;;
       mret (parent, node)
     else mret (node, parent));
  rb_set_black parent;;
  rb_set_red gparent;;
  rotate (opp d) gparent root;;
  mret (inl node).

Lemma rb_insert_color_body_eq root node :
  rb_insert_color_body root node =
  (parent ← rb_parent node;
   pred ← nonnull_and_red parent;
   if negb pred then mret (inr ()) else
   gparent ← rb_parent parent;
   gl ← get_left gparent;
   if bool_decide (parent = gl) then insert_branch L root node parent gparent
   else insert_branch R root node parent gparent).
Proof. done. Qed.

(** The loop invariant: a red focus, correct except for its parent's colour. *)
Definition ins_inv (k : ctx) (t : tree) : Prop :=
  ∃ n, rbk n k ∧ rb n t ∧ tcolor t = Red.

(** In-order sequences of zippers, compared after flattening. *)
Ltac solve_inorder :=
  rewrite ?inorder_plug;
  repeat match goal with d : dir |- _ => destruct d end;
  cbn [inorder node plug ctx_pre ctx_post opp];
  rewrite ?inorder_paint, ?inorder_plug; cbn [inorder node plug ctx_pre ctx_post opp];
  repeat first [rewrite <-app_assoc|progress (cbn [app])]; try done.

(** What one iteration of the loop establishes: the path to the root gets
    shorter, and nothing but colours and shape changes. *)
Definition ins_step (s : rbmem) (root : Z) (len : nat) (l0 : list Z)
    (r : Z + ()) (s' : rbmem) : Prop :=
  ∃ k' t', r = inl (root_of t') ∧ zip_at s' root k' t' ∧ ins_inv k' t' ∧
           (length k' < len)%nat ∧ inorder (plug k' t') = l0 ∧
           same_outside l0 root s s'.

Lemma insert_branch_recolor s root l0 d d' g p sib u t k :
  zip_at s root (Frame d' Red p sib :: Frame d Black g u :: k) t →
  l0 = inorder (plug (Frame d' Red p sib :: Frame d Black g u :: k) t) →
  ins_inv (Frame d' Red p sib :: Frame d Black g u :: k) t →
  tcolor u = Red →
  wp (insert_branch d root (root_of t) p g) (ins_step s root (2 + length k) l0) s.
Proof.
  intros Hz Hl0 (n & Hk & Ht & Hred) Hu. simpl in Hk.
  destruct Hk as (Hsib & Hsn & _ & Hun & Hk).
  unfold insert_branch. apply wp_bind.
  pose proof (zip_up (zip_up Hz)) as Hzg. eapply (wp_zip_child_opp Hzg).
  apply zip_into_opp in Hzg. apply wp_bind.
  eapply wp_zip_nonnull_and_red; [done|]. rewrite bool_decide_true by done.
  destruct (tree_node u d) as [->|(cu & u1 & uu & u2 & ->)]; [done|].
  rewrite tcolor_node in Hu. subst cu. rewrite root_of_node. apply wp_bind.
  eapply (wp_zip_set_black Hzg). intros s1 Hz1 Hs1.
  apply zip_other in Hz1. rewrite opp_opp in Hz1.
  apply wp_bind, (wp_zip_set_black Hz1). intros s2 Hz2 Hs2.
  apply zip_up in Hz2. apply wp_bind, (wp_zip_set_red Hz2). intros s3 Hz3 Hs3.
  apply wp_ret. eexists k, _. split_and!; [by rewrite root_of_node|exact Hz3|..].
  - exists (S n). split_and!; [done| |by rewrite tcolor_node].
    apply rb_red. rewrite !tcolor_node. split_and!; [done..|by apply rb_black|].
    apply (rb_paint_black n _ (tcolor_node d Red u1 uu u2)) in Hun. by rewrite paint_node in Hun.
  - simpl. lia.
  - subst l0. solve_inorder.
  - subst l0. repeat (eapply same_outside_step; [|eassumption|solve_inorder]).
    apply same_outside_refl.
Qed.

Lemma insert_branch_outer s root l0 d g p sib u t k :
  zip_at s root (Frame d Red p sib :: Frame d Black g u :: k) t →
  l0 = inorder (plug (Frame d Red p sib :: Frame d Black g u :: k) t) →
  ins_inv (Frame d Red p sib :: Frame d Black g u :: k) t →
  tcolor u = Black →
  wp (insert_branch d root (root_of t) p g) (ins_step s root (2 + length k) l0) s.
Proof.
  intros Hz Hl0 (n & Hk & Ht & Hred) Hu. simpl in Hk.
  destruct Hk as (Hsib & Hsn & _ & Hun & Hk).
  unfold insert_branch. apply wp_bind.
  pose proof (zip_up (zip_up Hz)) as Hzg. eapply (wp_zip_child_opp Hzg). apply wp_bind.
  eapply wp_zip_nonnull_and_red; [by apply (zip_into_opp Hzg)|]. rewrite Hu.
  rewrite bool_decide_false by done. apply wp_bind. apply zip_up in Hz.
  eapply (wp_zip_child_opp Hz). rewrite bool_decide_false.
  2: { intros Heq. pose proof (zip_good_node _ _ _ _ _ _ _ _ Hz) as Hg.
       rewrite good_addrs_cons, !good_addrs_app in Hg. destruct Hg as (_ & _ & _ & _ & Hd).
       destruct t as [|ct l x r]; [done|]. simpl in *.
       destruct (root_of_in sib) as [[Hn _]|Hin]; [|set_solver].
       apply zip_into in Hz. apply zip_good in Hz as [Hg _]. simpl in Hg.
       apply (good_addrs_elem x) in Hg as [Hx _]; [congruence|set_solver]. }
  apply wp_bind, wp_ret, wp_bind, (wp_zip_set_black Hz). intros s1 Hz1 Hs1.
  apply zip_up in Hz1. apply wp_bind, (wp_zip_set_red Hz1). intros s2 Hz2 Hs2.
  apply wp_bind. eapply wp_rotate_opp; [exact Hz2|]. intros s3 Hz3 Hs3.
  apply zip_into in Hz3. apply wp_ret.
  eexists _, t. split_and!; [done|exact Hz3|..].
  - exists n. split_and!; [|done..]. simpl. split; [|done]. by apply rb_red.
  - simpl. lia.
  - subst l0. solve_inorder.
  - subst l0. repeat (eapply same_outside_step; [|eassumption|solve_inorder]).
    apply same_outside_refl.
Qed.

Lemma insert_branch_inner s root l0 d g p sib u t k :
  zip_at s root (Frame (opp d) Red p sib :: Frame d Black g u :: k) t →
  l0 = inorder (plug (Frame (opp d) Red p sib :: Frame d Black g u :: k) t) →
  ins_inv (Frame (opp d) Red p sib :: Frame d Black g u :: k) t →
  tcolor u = Black →
  wp (insert_branch d root (root_of t) p g) (ins_step s root (2 + length k) l0) s.
Proof.
  intros Hz Hl0 (n & Hk & Ht & Hred) Hu. simpl in Hk.
  destruct Hk as (Hsib & Hsn & _ & Hun & Hk).
  destruct (tree_node t d) as [->|(ct & a & x & b & ->)]; [done|].
  rewrite tcolor_node in Hred. subst ct. rewrite root_of_node.
  apply rb_red in Ht as (Hac & Hbc & Han & Hbn).
  apply zip_up in Hz. rewrite node_opp in Hz. pose proof (zip_up Hz) as Hzg.
  unfold insert_branch. apply wp_bind, (wp_zip_child_opp Hzg), wp_bind.
  eapply wp_zip_nonnull_and_red; [by apply (zip_into_opp Hzg)|]. rewrite Hu.
  rewrite bool_decide_false by done. apply wp_bind, (wp_zip_child_opp Hz).
  rewrite root_of_node, bool_decide_true by done.
  apply wp_bind, wp_bind. eapply wp_rotate; [exact Hz|]. intros s1 Hz1 Hs1. apply wp_ret.
  apply wp_bind, (wp_zip_set_black Hz1). intros s2 Hz2 Hs2. apply zip_up in Hz2.
  apply wp_bind, (wp_zip_set_red Hz2). intros s3 Hz3 Hs3.
  apply wp_bind. eapply wp_rotate_opp; [exact Hz3|]. intros s4 Hz4 Hs4.
  apply zip_into in Hz4. apply wp_ret.
  eexists _, (node d Red sib p a). split_and!; [by rewrite root_of_node|exact Hz4|..].
  - exists n. split_and!; [simpl; split; [|done]|..|by rewrite tcolor_node]; by apply rb_red.
  - simpl. lia.
  - subst l0. solve_inorder.
  - subst l0. repeat (eapply same_outside_step; [|eassumption|solve_inorder]).
    apply same_outside_refl.
Qed.

(** One iteration of the loop body: either it is done, with a black parent or
    at the root, or it moves on to a zipper closer to the root. *)
Lemma wp_insert_body s root k t Q :
  zip_at s root k t → ins_inv k t →
  (top_black k ∨ k = [] → Q (inr ()) s) →
  (∀ r s', ins_step s root (length k) (inorder (plug k t)) r s' → Q r s') →
  wp (rb_insert_color_body root (root_of t)) Q s.
Proof.
  intros Hz Hinv Hdone Hstep. rewrite rb_insert_color_body_eq.
  destruct t as [|ct l x r]; [by destruct Hinv as (? & ? & ? & ?)|].
  apply wp_bind, (wp_zip_parent (d:=L) Hz), wp_bind.
  destruct k as [|[d' cp p sib] k].
  { apply wp_ret, wp_ret. auto. }
  pose proof (zip_up Hz) as Hzp. pose proof (root_of_node d' cp (T ct l x r) p sib) as Hp.
  simpl ctx_parent. rewrite <-Hp. eapply wp_zip_nonnull_and_red; [done|]. rewrite Hp, tcolor_node.
  destruct cp; [|by apply wp_ret, Hdone; left].
  rewrite bool_decide_true by done. cbn [negb].
  assert (∃ d g u k', k = Frame d Black g u :: k') as (d & g & u & k' & ->).
  { destruct Hinv as (n & Hk & _). destruct k as [|[d c g u] k]; simpl in Hk; [naive_solver|].
    destruct Hk as (_ & _ & Htop & _). simpl in Htop. subst. eauto. }
  apply wp_bind, (wp_zip_parent Hzp). simpl. apply wp_bind.
  pose proof (zip_up Hzp) as Hzg.
  assert (wp (insert_branch d root x p g) Q s) as Hbranch.
  { eapply wp_mono; [|intros r' s' Hr'; by apply Hstep].
    destruct (tcolor u) eqn:Hu; [by eapply (insert_branch_recolor _ _ _ d d' g p sib u (T ct l x r))|].
    destruct (decide (d' = d)) as [->|Hne].
    - by eapply (insert_branch_outer _ _ _ d g p sib u (T ct l x r)).
    - assert (d' = opp d) as -> by (by destruct d, d').
      by eapply (insert_branch_inner _ _ _ d g p sib u (T ct l x r)). }
  destruct d.
  - apply (wp_zip_child Hzg). rewrite root_of_node, bool_decide_true by done. done.
  - apply (wp_zip_child_opp Hzg). rewrite bool_decide_false; [done|].
    pose proof (zip_good_node _ _ _ _ _ _ _ _ Hzp) as Hg. rewrite good_addrs_cons in Hg.
    destruct Hg as ((Hpn & _) & Hpk & _). intros ->.
    destruct (root_of_in u) as [[Hn _]|Hin]; [done|]. apply Hpk.
    rewrite !elem_of_app, elem_of_ctx_addrs_cons. auto.
Qed.

(** ** rb_insert_color *)

(** From a fresh red leaf the loop re-establishes the red-black invariant and
    keeps the in-order sequence; fuel beyond the depth of the leaf is enough. *)
Theorem rb_insert_color_spec s root k x fuel :
  zip_at s root k (T Red E x E) → valid (plug k E) → (length k < fuel)%nat →
  wp (rb_insert_color fuel x root)
    (λ _ s', ∃ t', is_rbtree s' root t' ∧ inorder t' = inorder (plug k (T Red E x E)) ∧
                   same_outside (inorder t') root s s') s.
Proof.
  intros Hz Hv Hfuel. set (l0 := inorder (plug k (T Red E x E))).
  assert (ins_inv k (T Red E x E)) as Hinv.
  { apply valid_plug_inv in Hv as (n & Hk & ->%rb_E & _). by exists 0%nat. }
  unfold rb_insert_color. apply wp_bind.
  apply (wp_loop_variant (λ m y s', ∃ k' t', y = root_of t' ∧ m = length k' ∧
    zip_at s' root k' t' ∧ ins_inv k' t' ∧ inorder (plug k' t') = l0 ∧ same_outside l0 root s s'))
    with (m := length k); [|done|].
  2: { exists k, (T Red E x E). by split_and!. }
  intros m y s1 (k1 & t1 & -> & -> & Hz1 & Hinv1 & Hl1 & Hs1).
  eapply wp_insert_body; [done..| |].
  - intros Hend. destruct Hinv1 as (n & Hk1 & Ht1 & Hred). apply zip_plug in Hz1.
    apply wp_bind. eapply wp_zip_get_root; [done|].
    destruct (plug k1 t1) as [|c l z r] eqn:Hplug.
    { assert (length (inorder (plug k1 t1)) = 0%nat) as Hlen by (by rewrite Hplug).
      rewrite inorder_plug, !length_app in Hlen. destruct t1; [done|].
      simpl in Hlen. rewrite length_app in Hlen. simpl in Hlen. lia. }
    simpl. apply (wp_zip_set_black (d:=L) Hz1). intros s2 Hz2 Hs2.
    exists (T Black l z r). split_and!; [split; [done|]|..].
    + destruct Hend as [Htop| ->].
      * destruct (rb_plug n k1 t1) as [Hc Hn]; [done..|]. rewrite Hplug in Hc, Hn.
        simpl in Hc. by subst c.
      * simpl in Hplug. subst t1. split; [done|]. simpl in Hred. subst c.
        exists (S n). by apply (rb_paint_black n (T Red l z r)).
    + by rewrite <-Hl1.
    + change (inorder (T Black l z r)) with (inorder (T c l z r)). rewrite Hl1.
      eapply same_outside_step; [done|exact Hs2|]. done.
  - intros r s2 (k2 & t2 & -> & Hz2 & Hinv2 & Hlen & Hl2 & Hs2). rewrite Hl1 in *.
    exists (length k2). split; [done|]. exists k2, t2. split_and!; try done.
    by eapply same_outside_trans.
Qed.

(** ** rb_link_node *)

(** The link field at the hole of a path. *)
Definition link_of (root : Z) (k : ctx) : rb_link :=
  match k with
  | [] => LinkRoot root
  | Frame L _ p _ :: _ => LinkLeft p
  | Frame R _ p _ :: _ => LinkRight p
  end.

(** Linking a live node that is not in the tree makes it a red leaf at the
    chosen place. *)
Theorem rb_link_node_spec s root k x :
  zip_at s root k E → good_addr x → x ∉ inorder (plug k E) → is_Some (rb_nodes s !! x) →
  wp (rb_link_node x (ctx_parent k) (link_of root k))
    (λ _ s', zip_at s' root k (T Red E x E) ∧
             same_outside (x :: inorder (plug k E)) root s s') s.
Proof.
  intros Hz Hx Hnew [n Hn]. pose proof (zip_good _ _ _ _ Hz) as (_ & Hkg & _).
  rewrite inorder_plug_perm in Hnew. cbn [inorder app] in Hnew.
  unfold rb_link_node. apply wp_bind. eapply wp_modify_raw; [done|].
  apply wp_bind. eapply wp_modify_raw; [apply lookup_insert_eq|].
  apply wp_bind. eapply wp_modify_raw; [apply lookup_insert_eq|]. simpl.
  set (s1 := upd_node x _ (upd_node x _ (upd_node x _ s))).
  assert (rb_nodes s1 !! x = Some (mk_node (ctx_parent k) Red NULL NULL)) as Hx1.
  { simpl. rewrite lookup_insert_eq. unfold mk_node. simpl. by rewrite Z.lor_0_r. }
  assert (agree_off [x] (rb_nodes s) (rb_nodes s1)) as Ha1.
  { do 2 (eapply agree_off_trans; [|apply agree_off_insert; set_solver]).
    apply agree_off_insert; set_solver. }
  assert (good_addrs (inorder (plug k (T Red E x E)))) as Hgx.
  { rewrite inorder_plug_perm. simpl. by rewrite good_addrs_cons. }
  assert (∀ z, z ∈ inorder (plug k E) ↔ z ∈ ctx_addrs k) as Hin.
  { intros z. by rewrite inorder_plug_perm. }
  destruct k as [|[d c p sib] k]; simpl link_of in *.
  - destruct Hz as (Hr & _). eapply wp_set_root; [done|].
    split; [unfold zip_at; split_and!; [|by split_and!|done]|split].
    + simpl. by rewrite lookup_insert_eq.
    + eapply agree_off_weaken; [exact Ha1|set_solver].
    + intros r Hr'. simpl. by rewrite lookup_insert_ne.
  - destruct Hz as ((Hp & Hsib & Hk) & _). rewrite ctx_addrs_cons, good_addrs_cons in Hkg.
    destruct Hkg as (Hpg & Hpn & Hkg). rewrite elem_of_ctx_addrs_cons in Hnew.
    assert (rb_nodes s1 !! p = Some (mk_dir d (ctx_parent k) c NULL (root_of sib))) as Hp1
      by (rewrite Ha1; [done|set_solver]).
    assert (∀ Q, wp (set_child d p x) Q s1 →
      wp (store_link match d with L => LinkLeft p | R => LinkRight p end x) Q s1) as Hst
      by (by destruct d).
    apply Hst. eapply wp_set_child; [done|]. set (s2 := upd_node p _ s1).
    assert (agree_off [x; p] (rb_nodes s) (rb_nodes s2)) as Ha2.
    { eapply agree_off_trans; [eapply agree_off_weaken; [exact Ha1|set_solver]|].
      apply agree_off_insert. set_solver. }
    split; [unfold zip_at; split_and!; [| |done]|split; [|done]]; simpl.
    + split_and!; [by rewrite lookup_insert_eq|..].
      * eapply tree_at_frame; [exact Hsib|exact Ha2|]. set_solver.
      * eapply (ctx_at_frame s); [exact Hk|exact Ha2|done|]. set_solver.
    + split; [|done]. rewrite lookup_insert_ne by set_solver. done.
    + eapply agree_off_weaken; [exact Ha2|]. intros z Hz'.
      apply list_elem_of_In in Hz'. simpl in Hz'. apply elem_of_cons.
      destruct Hz' as [<-|[<-|[]]]; [by left|right].
      change (p ∈ inorder (plug (Frame d c p sib :: k) E)). apply Hin, elem_of_ctx_addrs_cons. auto.
Qed.
