(* ===== verification/RbErase.v ===== *)
(** * Removal: rb_erase keeps the invariant and removes exactly one node

    The loop of [__rb_erase_color] is followed on zippers whose focus has a
    black height one short of what its context expects. *)

From stdpp Require Import gmap numbers list.
From S2P Require Import Prelude RbNode RbTree RbZip RbInv RbInsert.

Local Open Scope Z_scope.

(** ** The mirror-image branches as one command *)

(** The part of a branch after the sibling has been made black. *)
Definition erase_tail (d : dir) (root parent other : Z) : cmd rbmem (Z * Z + Z) :=
  ol ← get_left other;
  olb ← null_or_black ol;
  both ← (if (olb : bool) then or ← get_right other; null_or_black or else mret false);
  if (both : bool) then
    rb_set_red other;;
    let node := parent in
    parent ← rb_parent node;
    mret (inl (node, parent))
  else
    or ← get_child (opp d) other;
    orb ← null_or_black or;
    other ←
      (if (orb : bool) then
         ol ← get_child d other;
         rb_set_black ol;;
         rb_set_red other;;
         rotate (opp d) other root;;
         get_child (opp d) parent
       else mret other);
    pc ← rb_color parent;
    rb_set_color other pc;;
    rb_set_black parent;;
    or ← get_child (opp d) other;
    rb_set_black or;;
    rotate d parent root;;
    node ← get_root root;
    mret (inr node).

Definition erase_branch (d : dir) (root parent : Z) : cmd rbmem (Z * Z + Z) :=
  other ← get_child (opp d) parent;
  ored ← rb_is_red other;
  other ←
    (if (ored : bool) then
       rb_set_black other;;
       rb_set_red parent;;
       rotate d parent root;;
       get_child (opp d) parent
     else mret other);
  erase_tail d root parent other.

Lemma __rb_erase_color_body_eq root node parent :
  __rb_erase_color_body root (node, parent) =
  (nb ← null_or_black node;
   r ← get_root root;
   if negb (nb && negb (bool_decide (node = r))) then mret (inr node) else
   pl ← get_left parent;
   if bool_decide (pl = node) then erase_branch L root parent
   else erase_branch R root parent).
Proof. done. Qed.

(** ** The loop invariant *)

(** The context expects black height [S n]; the focus is a black tree of
    height [n], or a red one that reaches [S n] once painted black. *)
Definition er_inv (n : nat) (k : ctx) (t : tree) : Prop :=
  rbk (S n) k ∧
  (tcolor t = Black ∧ rb n t ∨ tcolor t = Red ∧ rb (S n) (paint Black t)).

Definition er_variant (k : ctx) (t : tree) : nat :=
  if decide (tcolor t = Red) then 0%nat else S (length k).

(** What one iteration establishes: either the loop goes on closer to the
    root, or it breaks with a valid tree and [node] its root. *)
Definition er_step (s : rbmem) (root : Z) (m : nat) (l0 : list Z)
    (r : Z * Z + Z) (s' : rbmem) : Prop :=
  same_outside l0 root s s' ∧
  ((∃ k' t' n', r = inl (root_of t', ctx_parent k') ∧ zip_at s' root k' t' ∧
      er_inv n' k' t' ∧ inorder (plug k' t') = l0 ∧ (er_variant k' t' < m)%nat) ∨
   (∃ t', r = inr (root_of t') ∧ zip_at s' root [] t' ∧ valid t' ∧ inorder t' = l0)).

Lemma er_step_mono s0 s root m l0 r s' :
  same_outside l0 root s0 s → er_step s root m l0 r s' → er_step s0 root m l0 r s'.
Proof. intros Hs [Hs' H]. split; [by eapply same_outside_trans|done]. Qed.

(** The test on both children of the sibling does not depend on the side. *)
Lemma wp_both_black {A} s root k d c a o b (f : bool → cmd rbmem A) Q :
  zip_at s root k (node d c a o b) →
  wp (f (bool_decide (tcolor a = Black ∧ tcolor b = Black))) Q s →
  wp (ol ← get_left o; olb ← null_or_black ol;
      both ← (if (olb : bool) then or ← get_right o; null_or_black or else mret false);
      f both) Q s.
Proof.
  intros Hz HQ.
  assert (∃ l r, node d c a o b = node L c l o r ∧
    bool_decide (tcolor a = Black ∧ tcolor b = Black) =
    bool_decide (tcolor l = Black) && bool_decide (tcolor r = Black)) as (l & r & Heq & Hb).
  { destruct d; [exists a, b|exists b, a]; (split; [done|]);
      destruct (tcolor a), (tcolor b); reflexivity. }
  rewrite Heq in Hz. rewrite Hb in HQ. apply wp_bind.
  change (get_left o) with (get_child L o). apply (wp_zip_child Hz), wp_bind.
  eapply wp_zip_null_or_black; [by apply (zip_into Hz)|]. apply wp_bind.
  destruct (bool_decide (tcolor l = Black)); [|by apply wp_ret]. apply wp_bind.
  change (get_right o) with (get_child (opp L) o). apply (wp_zip_child_opp Hz).
  eapply wp_zip_null_or_black; [by apply (zip_into_opp Hz)|]. done.
Qed.

(** ** The last part: the far child of the sibling is red *)
Lemma erase_finish s root n d cp p a o b k t :
  let k0 := Frame d cp p (node d Black a o b) :: k in
  zip_at s root k0 t → tcolor t = Black → rb n t → rbk (S n) k0 → tcolor b = Red →
  wp (pc ← rb_color p;
      rb_set_color o pc;;
      rb_set_black p;;
      or ← get_child (opp d) o;
      rb_set_black or;;
      rotate d p root;;
      node ← get_root root;
      mret (inr node)) (er_step s root 0 (inorder (plug k0 t))) s.
Proof.
  intros k0 Hz Htc Ht Hk0 Hb. set (l0 := inorder (plug k0 t)).
  pose proof (zip_up Hz) as Hzp. apply wp_bind, (wp_zip_color Hzp).
  pose proof (zip_other Hz) as Hzo.
  apply wp_bind, (wp_zip_set_color Hzo). intros s1 Hz1 Hs1.
  apply zip_other in Hz1. rewrite opp_opp in Hz1. apply zip_up in Hz1.
  apply wp_bind, (wp_zip_set_black Hz1). intros s2 Hz2 Hs2.
  apply zip_into_opp in Hz2. apply wp_bind, (wp_zip_child_opp Hz2).
  destruct (tree_node b d) as [->|(cb & b1 & bb & b2 & ->)]; [done|].
  rewrite tcolor_node in Hb. subst cb. rewrite root_of_node.
  apply zip_into_opp in Hz2. apply wp_bind, (wp_zip_set_black Hz2). intros s3 Hz3 Hs3.
  apply zip_other in Hz3. rewrite opp_opp in Hz3. apply zip_up, zip_other in Hz3.
  rewrite opp_opp in Hz3. apply zip_up in Hz3.
  apply wp_bind. eapply wp_rotate; [exact Hz3|]. intros s4 Hz4 Hs4.
  apply zip_plug in Hz4. apply wp_bind. eapply wp_zip_get_root; [done|]. apply wp_ret.
  split; [|right; eexists; split_and!; [done|exact Hz4|..]].
  - repeat (eapply same_outside_step; [|eassumption|unfold l0, k0; solve_inorder]).
    apply same_outside_refl.
  - assert (∃ m, rbk m k ∧ rb m (node d cp (node d Black t p a) o (node d Black b1 bb b2)) ∧
                 (cp = Red → top_black k)) as (m & Hk & Hm & Htop).
    { destruct cp; simpl in Hk0.
      - destruct Hk0 as (_ & [Ha Hbn]%rb_black & Htop & Hk). exists (S n).
        split_and!; [done| |done]. apply rb_red. rewrite !tcolor_node, !rb_black.
        apply rb_red in Hbn as (_ & _ & ? & ?). done.
      - destruct Hk0 as ([Ha Hbn]%rb_black & Hk). exists (S (S n)).
        split_and!; [done| |done]. rewrite !rb_black.
        apply rb_red in Hbn as (_ & _ & ? & ?). done. }
    eapply rb_plug; [done..|]. rewrite tcolor_node. done.
  - unfold l0, k0. solve_inorder.
Qed.

(** ** A black sibling *)
Lemma wp_erase_tail s root n d cp p a o b k t m :
  let k0 := Frame d cp p (node d Black a o b) :: k in
  zip_at s root k0 t → tcolor t = Black → rb n t → rbk (S n) k0 →
  (0 < m)%nat → (cp = Black → S (length k) < m)%nat →
  wp (erase_tail d root p o) (er_step s root m (inorder (plug k0 t))) s.
Proof.
  intros k0 Hz Htc Ht Hk0 Hm0 Hm. set (l0 := inorder (plug k0 t)).
  pose proof (zip_other Hz) as Hzo.
  assert (rb n a ∧ rb n b) as [Ha Hb].
  { destruct cp; simpl in Hk0; rewrite rb_black in Hk0; tauto. }
  unfold erase_tail. eapply wp_both_black; [done|]. case_bool_decide as Hab.
  - destruct Hab as [Hac Hbc]. apply wp_bind, (wp_zip_set_red Hzo). intros s1 Hz1 Hs1.
    apply zip_other in Hz1. rewrite opp_opp in Hz1. apply zip_up in Hz1.
    apply wp_bind, (wp_zip_parent Hz1). apply wp_ret. split; [|left].
    + eapply same_outside_step; [apply same_outside_refl|exact Hs1|].
      unfold l0, k0; solve_inorder.
    + destruct cp; simpl in Hk0.
      * destruct Hk0 as (_ & _ & _ & Hk). exists k, (node d Red t p (node d Red a o b)), n.
        split_and!; [by rewrite root_of_node|done| |unfold l0, k0; solve_inorder|].
        -- split; [done|right]. rewrite tcolor_node, paint_node. split; [done|].
           apply rb_black. split; [done|]. by apply rb_red.
        -- unfold er_variant. rewrite tcolor_node. done.
      * destruct Hk0 as (_ & Hk). exists k, (node d Black t p (node d Red a o b)), (S n).
        split_and!; [by rewrite root_of_node|done| |unfold l0, k0; solve_inorder|].
        -- split; [done|left]. rewrite tcolor_node. split; [done|].
           apply rb_black. split; [done|]. by apply rb_red.
        -- unfold er_variant. rewrite tcolor_node. simpl. by apply Hm.
  - apply wp_bind, (wp_zip_child_opp Hzo), wp_bind.
    eapply wp_zip_null_or_black; [by apply (zip_into_opp Hzo)|].
    assert (∀ r s', er_step s root 0 l0 r s' → er_step s root m l0 r s') as Hmono.
    { intros r s' [? [(k' & t' & n' & ? & ? & ? & ? & ?)|?]]; [lia|]. by split; [|right]. }
    case_bool_decide as Hbc.
    + destruct (tree_node a d) as [->|(ca & a1 & x & a2 & ->)]; [by destruct Hab|].
      rewrite tcolor_node in Hab. destruct ca; [|by destruct Hab].
      apply rb_red in Ha as (Ha1c & Ha2c & Ha1 & Ha2).
      apply wp_bind, wp_bind, (wp_zip_child Hzo). rewrite root_of_node.
      apply zip_into in Hzo. apply wp_bind, (wp_zip_set_black Hzo). intros s1 Hz1 Hs1.
      apply zip_up in Hz1. apply wp_bind, (wp_zip_set_red Hz1). intros s2 Hz2 Hs2.
      apply wp_bind. eapply wp_rotate_opp; [exact Hz2|]. intros s3 Hz3 Hs3.
      apply zip_other in Hz3. rewrite opp_opp in Hz3. pose proof (zip_up Hz3) as Hzp.
      apply (wp_zip_child_opp Hzp). rewrite root_of_node.
      eapply wp_mono; [eapply (erase_finish s3 root n d cp p a1 x (node d Red a2 o b) k t)|].
      * done.
      * done.
      * done.
      * destruct cp; simpl in Hk0 |- *; rewrite ?tcolor_node, rb_black, rb_red; tauto.
      * by rewrite tcolor_node.
      * intros r s' Hr. apply Hmono. eapply er_step_mono; [|].
        { repeat (eapply same_outside_step; [|eassumption|unfold l0, k0; solve_inorder]).
          apply same_outside_refl. }
        replace l0 with (inorder (plug (Frame d cp p (node d Black a1 x (node d Red a2 o b)) :: k) t));
          [done|]. unfold l0, k0. solve_inorder.
    + assert (tcolor b = Red) as Hbr by (by destruct (tcolor b)).
      apply wp_bind, wp_ret. eapply wp_mono; [by eapply (erase_finish s root n d cp p a o b k t)|].
      intros r s' Hr. by apply Hmono.
Qed.

(** ** One branch: a red sibling is rotated away first *)
Lemma wp_erase_branch s root n d cp p sib k t :
  let k0 := Frame d cp p sib :: k in
  zip_at s root k0 t → tcolor t = Black → rb n t → rbk (S n) k0 →
  wp (erase_branch d root p) (er_step s root (er_variant k0 t) (inorder (plug k0 t))) s.
Proof.
  intros k0 Hz Htc Ht Hk0. pose proof (zip_up Hz) as Hzp.
  unfold erase_branch. apply wp_bind, (wp_zip_child_opp Hzp).
  assert (sib ≠ E) as Hne.
  { destruct cp; simpl in Hk0; [destruct Hk0 as (_ & Hs & _)|destruct Hk0 as [Hs _]];
      by eapply rb_S_nonempty. }
  destruct (tree_node sib d) as [->|(cs & a & o & b & ->)]; [done|]. rewrite root_of_node.
  pose proof (zip_other Hz) as Hzo. apply wp_bind, (wp_zip_is_red Hzo).
  assert (er_variant k0 t = S (S (length k))) as Hvar.
  { unfold er_variant. rewrite Htc. done. }
  case_bool_decide as Hcs.
  - subst cs. assert (cp = Black) as ->.
    { destruct cp; [|done]. simpl in Hk0. rewrite tcolor_node in Hk0. by destruct Hk0. }
    simpl in Hk0. destruct Hk0 as ((Hac & Hbc & Ha & Hb)%rb_red & Hk).
    apply wp_bind, wp_bind, (wp_zip_set_black Hzo). intros s1 Hz1 Hs1.
    apply zip_other in Hz1. rewrite opp_opp in Hz1. apply zip_up in Hz1.
    apply wp_bind, (wp_zip_set_red Hz1). intros s2 Hz2 Hs2.
    apply wp_bind. eapply wp_rotate; [exact Hz2|]. intros s3 Hz3 Hs3.
    apply zip_into in Hz3. apply (wp_zip_child_opp Hz3).
    destruct (rb_S_black d n a Ha Hac) as (a1 & oo & a2 & -> & Ha1 & Ha2). rewrite root_of_node.
    apply zip_into in Hz3. eapply wp_mono.
    + eapply (wp_erase_tail s3 root n d Red p a1 oo a2 _ t (er_variant k0 t));
        [exact Hz3|done|done| |lia|done].
      simpl. rewrite tcolor_node, rb_black. split_and!; done.
    + intros r s' Hr. eapply er_step_mono; [|].
      { repeat (eapply same_outside_step; [|eassumption|unfold k0; solve_inorder]).
        apply same_outside_refl. }
      replace (inorder (plug k0 t)) with (inorder (plug (Frame d Red p (node d Black a1 oo a2) ::
        Frame d Black o b :: k) t)); [done|]. unfold k0. solve_inorder.
  - destruct cs; [done|]. apply wp_bind, wp_ret. rewrite Hvar.
    apply (wp_erase_tail s root n); [done..|lia|lia].
Qed.

(** The root of a zipper below a non-empty path is on the path. *)
Lemma root_of_plug_in k t : k ≠ [] → root_of (plug k t) ∈ ctx_addrs k.
Proof.
  revert t. induction k as [|[d c p s] k IH]; [done|]. intros t _. apply elem_of_ctx_addrs_cons.
  simpl. destruct k as [|f k]; [left; apply root_of_node|]. right; right. by apply IH.
Qed.

Lemma root_of_plug_ne s root k t :
  zip_at s root k t → k ≠ [] → root_of t ≠ root_of (plug k t).
Proof.
  intros (_ & Hg & Hd)%zip_good Hk Heq. pose proof (root_of_plug_in k t Hk) as Hin.
  rewrite <-Heq in Hin. destruct (root_of_in t) as [[Hn _]|Hin']; [|set_solver].
  rewrite Hn in Hin. by apply (good_addrs_elem _ _ Hg) in Hin as [? _].
Qed.

(** Distinct siblings have distinct root addresses. *)
Lemma zip_roots_ne s root k d c a x b :
  zip_at s root k (node d c a x b) → b ≠ E → root_of b ≠ root_of a.
Proof.
  intros Hz Hb Heq. pose proof (zip_good_node _ _ _ _ _ _ _ _ Hz) as Hg.
  rewrite good_addrs_cons, !good_addrs_app in Hg. destruct Hg as (_ & _ & Hga & (Hgb & _) & Hd).
  destruct (root_of_in b) as [[_ ?]|Hinb]; [done|].
  destruct (root_of_in a) as [[Hn _]|Hina].
  - rewrite Heq, Hn in Hinb. by apply (good_addrs_elem _ _ Hgb) in Hinb as [? _].
  - apply (Hd _ Hina). rewrite <-Heq. set_solver.
Qed.

(** One iteration of the loop: it stops at a red focus or at the root. *)
Lemma wp_erase_body s root n k t Q :
  zip_at s root k t → er_inv n k t →
  (tcolor t = Red ∨ k = [] → Q (inr (root_of t)) s) →
  (∀ r s', er_step s root (er_variant k t) (inorder (plug k t)) r s' → Q r s') →
  wp (__rb_erase_color_body root (root_of t, ctx_parent k)) Q s.
Proof.
  intros Hz Hinv Hdone Hstep. rewrite __rb_erase_color_body_eq.
  apply wp_bind. eapply wp_zip_null_or_black; [done|]. apply wp_bind.
  pose proof (proj1 (zip_plug _ _ _ _) Hz) as Hzr. eapply wp_zip_get_root; [done|].
  destruct Hinv as [Hk [[Htc Ht]|[Htc Ht]]]; rewrite Htc; [|apply wp_ret; auto].
  destruct k as [|[d cp p sib] k].
  { rewrite bool_decide_true by done. simpl. rewrite bool_decide_true by done.
    apply wp_ret. auto. }
  rewrite bool_decide_true, (bool_decide_false (root_of t = _))
    by (done || by eapply root_of_plug_ne). simpl.
  pose proof (zip_up Hz) as Hzp.
  assert (wp (erase_branch d root p) Q s) as Hbranch.
  { eapply wp_mono; [by eapply (wp_erase_branch s root n d cp p sib k t)|]. done. }
  apply wp_bind. destruct d.
  - change (get_left p) with (get_child L p). apply (wp_zip_child Hzp).
    by rewrite bool_decide_true.
  - change (get_left p) with (get_child (opp R) p). apply (wp_zip_child_opp Hzp).
    rewrite bool_decide_false; [done|]. eapply zip_roots_ne; [done|].
    destruct cp; simpl in Hk; [destruct Hk as (_ & Hs & _)|destruct Hk as [Hs _]];
      by eapply rb_S_nonempty.
Qed.

(** Painting a red focus black makes the whole tree valid again. *)
Lemma er_inv_done n k t : er_inv n k t → tcolor t = Red ∨ k = [] → valid (plug k (paint Black t)).
Proof.
  intros [Hk [[Htc Ht]|[Htc Ht]]] [Hred| ->]; try congruence.
  - rewrite paint_black_id by done. split; [done|]. by exists n.
  - eapply rb_plug; [done..|]. by rewrite tcolor_paint_black.
  - split; [apply tcolor_paint_black|]. by exists (S n).
Qed.

(** ** __rb_erase_color *)

(** Fuel: the loop climbs one level per iteration, or stops. *)
Theorem __rb_erase_color_spec s root n k t fuel :
  zip_at s root k t → er_inv n k t → (S (length k) < fuel)%nat →
  wp (__rb_erase_color fuel (root_of t) (ctx_parent k) root)
    (λ _ s', ∃ t', is_rbtree s' root t' ∧ inorder t' = inorder (plug k t) ∧
                   same_outside (inorder t') root s s') s.
Proof.
  intros Hz Hinv Hfuel. set (l0 := inorder (plug k t)). unfold __rb_erase_color. apply wp_bind.
  apply (wp_loop_variant (λ m np s', ∃ k' t' n', np = (root_of t', ctx_parent k') ∧
    m = er_variant k' t' ∧ zip_at s' root k' t' ∧ er_inv n' k' t' ∧
    inorder (plug k' t') = l0 ∧ same_outside l0 root s s')) with (m := er_variant k t).
  2: { unfold er_variant. case_decide; lia. }
  2: { by exists k, t, n. }
  intros m np s1 (k1 & t1 & n1 & -> & -> & Hz1 & Hinv1 & Hl1 & Hs1).
  eapply wp_erase_body; [done..| |].
  - intros Hend. pose proof (er_inv_done _ _ _ Hinv1 Hend) as Hv.
    rewrite (zip_nonnull _ _ _ _ Hz1).
    destruct t1 as [|c l x r].
    + apply wp_ret. exists (plug k1 E). split_and!; [split; [by apply (proj1 (zip_plug _ _ k1 E))|done]|done|].
      by rewrite Hl1.
    + rewrite bool_decide_true by done. apply (wp_zip_set_black (d:=L) Hz1).
      intros s2 Hz2 Hs2. exists (plug k1 (T Black l x r)).
      assert (inorder (plug k1 (T Black l x r)) = l0) as Hl2.
      { rewrite <-Hl1. by apply inorder_plug_ext. }
      split_and!; [split; [by apply (proj1 (zip_plug _ _ k1 (T Black l x r)))|done]|done|].
      rewrite Hl2. by eapply same_outside_step.
  - intros r s2 [Hs2 Hr]. rewrite Hl1 in Hs2, Hr.
    destruct Hr as [(k2 & t2 & n2 & -> & Hz2 & Hinv2 & Hl2 & Hvar)|(t2 & -> & Hz2 & Hv2 & Hl2)].
    + exists (er_variant k2 t2). split; [done|]. exists k2, t2, n2. split_and!; try done.
      by eapply same_outside_trans.
    + rewrite (zip_nonnull _ _ _ _ Hz2). destruct t2 as [|c l x r].
      * apply wp_ret. exists E. split_and!; [done..|]. rewrite Hl2. by eapply same_outside_trans.
      * rewrite bool_decide_true by done. apply (wp_zip_set_black (d:=L) Hz2).
        intros s3 Hz3 Hs3. destruct Hv2 as [Hc2 Hv2]. simpl in Hc2. subst c.
        exists (T Black l x r). split_and!; [done..|]. rewrite Hl2.
        eapply same_outside_step; [by eapply same_outside_trans|exact Hs3|done].
Qed.

(** ** Unlinking a node

    Paths inside a subtree: [seg_at h k hole par] is [ctx_at] for a path whose
    top node hangs below [par] instead of a root struct. *)

Definition seg_parent (k : ctx) (par : Z) : Z :=
  match k with [] => par | f :: _ => f_node f end.

Fixpoint seg_at (h : gmap Z rb_node) (k : ctx) (hole par : Z) : Prop :=
  match k with
  | [] => True
  | Frame d c p sib :: k' =>
      h !! p = Some (mk_dir d (seg_parent k' par) c hole (root_of sib)) ∧
      tree_at h p sib ∧ seg_at h k' p par
  end.

Lemma tree_at_plug h par k t :
  tree_at h par (plug k t) ↔ seg_at h k (root_of t) par ∧ tree_at h (seg_parent k par) t.
Proof.
  revert t. induction k as [|[d c p sib] k IH]; intros t; simpl; [tauto|].
  rewrite IH, tree_at_node, root_of_node. tauto.
Qed.

Lemma seg_at_frame h h' X k hole par :
  seg_at h k hole par → agree_off X h h' → (∀ x, x ∈ ctx_addrs k → x ∉ X) →
  seg_at h' k hole par.
Proof.
  revert hole. induction k as [|[d c p sib] k IH]; intros hole; simpl; [done|].
  intros (Hp & Hs & Hk) Ha Hd.
  assert (∀ x, x = p ∨ x ∈ inorder sib ∨ x ∈ ctx_addrs k → x ∉ X) as Hd'.
  { intros x Hx. by apply Hd, elem_of_ctx_addrs_cons. }
  split_and!; [rewrite Ha; [done|auto]|eapply tree_at_frame; eauto|apply IH; auto].
Qed.

(** A non-empty tree splits at its leftmost node. *)
Lemma leftmost_split r :
  r ≠ E → ∃ kr cy y ry, r = plug kr (T cy E y ry) ∧ Forall (λ f, f_dir f = L) kr.
Proof.
  induction r as [|c l IHl x r _]; [done|]. intros _.
  destruct (decide (l = E)) as [->|Hl].
  - by exists [], c, x, r.
  - destruct (IHl Hl) as (kr & cy & y & ry & -> & Hkr).
    exists (kr ++ [Frame L c x r]), cy, y, ry. rewrite plug_app. split; [done|].
    apply Forall_app. by rewrite Forall_singleton.
Qed.

Lemma ctx_pre_left kr : Forall (λ f, f_dir f = L) kr → ctx_pre kr = [].
Proof. induction 1 as [|[d c p s] kr Hd _ IH]; [done|]. simpl in *. by subst d. Qed.

(** [leftmost] walks down to the first node of the in-order sequence. *)
Lemma wp_leftmost s t par fuel Q :
  tree_at (rb_nodes s) par t → good_addrs (inorder t) → t ≠ E → (height t ≤ fuel)%nat →
  Q (hd NULL (inorder t)) s → wp (leftmost fuel (root_of t)) Q s.
Proof.
  revert t par. induction fuel as [|fuel IH]; intros [|c l x r] par Ht Hg Hne Hfuel HQ;
    simpl in Hfuel; try (done || lia).
  unfold leftmost. apply wp_loop, wp_bind. destruct Ht as (Hx & Hl & Hr).
  simpl root_of. eapply wp_get_left; [done|]. simpl in Hg, HQ.
  apply good_addrs_app in Hg as (Hgl & _ & _).
  destruct (decide (l = E)) as [->|Hle].
  - change (nonnull (root_of E)) with false. cbv iota. apply wp_ret. by apply wp_ret.
  - rewrite (proj2 (nonnull_root_of l Hgl) Hle). apply wp_ret.
    apply (IH l x); [done..|lia|]. by destruct l as [|cl ll xl rl]; simpl in *; [|destruct (inorder ll)].
Qed.

(** A subtree is hung below [q] unconditionally when it is not empty. *)
Lemma wp_reparent_ne s par t q Q :
  tree_at (rb_nodes s) par t → good_addrs (inorder t) → aligned par → aligned q → t ≠ E →
  (∀ s', tree_at (rb_nodes s') q t → agree_off (inorder t) (rb_nodes s) (rb_nodes s') →
         rb_roots s' = rb_roots s → Q () s') →
  wp (rb_set_parent (root_of t) q) Q s.
Proof.
  intros Ht Hg Hpar Hq Hne HQ.
  pose proof (wp_reparent s par t q (rb_set_parent (root_of t) q) Q Ht Hg Hpar Hq) as H.
  rewrite (proj2 (nonnull_root_of t Hg) Hne) in H. auto.
Qed.

(** The parent's test written the other way round. *)
Lemma wp_change_child_sym d old new parent root Q s :
  wp (change_child d old new parent root) Q s →
  wp (if nonnull parent then
        pl ← get_child d parent;
        if bool_decide (pl = old) then set_child d parent new
        else set_child (opp d) parent new
      else set_root root new) Q s.
Proof.
  unfold change_child, wp, mbind, cmd_bind. intros H.
  destruct (nonnull parent); [|done]. destruct (get_child d parent s) as [[v s']| |]; try done.
  by rewrite (bool_decide_ext (v = old) (old = v)).
Qed.

Lemma good_addrs_sub l l' x : good_addrs l → l ≡ₚ x :: l' → good_addrs l'.
Proof. intros Hg Hl. rewrite Hl, good_addrs_cons in Hg. tauto. Qed.

(** *** A node with at most one child *)
Lemma wp_unlink_single s root k c l x r ch fuel Q :
  zip_at s root k (T c l x r) → (l = E ∧ ch = r ∨ r = E ∧ ch = l) →
  (∀ s', zip_at s' root k ch → same_outside (inorder (plug k (T c l x r))) root s s' →
         rb_nodes s' !! x = rb_nodes s !! x →
         Q (root_of ch, ctx_parent k, color_bit c) s') →
  wp (rb_erase_unlink fuel x root) Q s.
Proof.
  intros Hz Hch HQ. pose proof (zip_good_node _ _ _ L _ _ _ _ Hz) as Hg.
  pose proof (zip_parent_aligned _ _ _ _ Hz) as Hpar. unfold rb_erase_unlink.
  apply wp_bind. change (get_left x) with (get_child L x). apply (wp_zip_child (d:=L) Hz).
  apply wp_bind. change (get_right x) with (get_child (opp L) x).
  apply (wp_zip_child_opp (d:=L) Hz).
  rewrite (zip_nonnull _ _ _ _ (zip_into (d:=L) Hz)).
  rewrite (zip_nonnull _ _ _ _ (zip_into_opp (d:=L) Hz)).
  replace (bool_decide (l ≠ E) && bool_decide (r ≠ E)) with false
    by (destruct Hch as [[-> _]|[-> _]]; [done|by rewrite andb_comm]).
  replace (if bool_decide (l ≠ E) then root_of l else root_of r) with (root_of ch)
    by (destruct Hch as [[-> ->]|[-> ->]]; [done|]; case_bool_decide as Hl; [done|];
        by subst).
  rewrite good_addrs_cons, !good_addrs_app in Hg.
  destruct Hg as (Hxg & Hxn & Hlg & (Hrg & Hkg & Hrk) & Hlrk).
  assert (good_addrs (inorder ch) ∧ (∀ z, z ∈ inorder ch → z ∉ ctx_addrs k) ∧
    (x ∉ inorder ch) ∧ inorder (T c l x r) ≡ₚ x :: inorder ch) as (Hcg & Hck & Hxc & Hperm).
  { destruct Hch as [[-> ->]|[-> ->]]; simpl; split_and!; try set_solver; done || solve_Permutation. }
  apply wp_bind, (wp_zip_parent (d:=L) Hz), wp_bind, (wp_zip_color (d:=L) Hz).
  destruct Hz as (Hk & (Hx & Hl & Hr) & Hgall).
  assert (tree_at (rb_nodes s) x ch) as Hcht by (destruct Hch as [[_ ->]|[_ ->]]; done).
  apply wp_bind. apply (wp_reparent s x ch (ctx_parent k)); [done..|apply Hxg|done|auto|].
  intros s1 Hc1 Ha1 Hr1. apply wp_bind, (wp_change_child_sym L).
  apply (wp_change_child s1 root k).
  { eapply ctx_at_frame; [done..|by rewrite Hr1|]. set_solver. }
  { rewrite good_addrs_cons. split_and!; [done|set_solver|done]. }
  intros s2 Hk2 Ha2 Hr2. apply wp_ret. apply HQ.
  - unfold zip_at. split_and!; [done| |].
    + eapply tree_at_frame; [exact Hc1|exact Ha2|done].
    + eapply (good_addrs_sub _ _ x Hgall). by rewrite !inorder_plug_perm, Hperm.
  - split.
    + eapply agree_off_weaken; [exact (agree_off_app Ha1 Ha2)|].
      intros z. rewrite inorder_plug_perm, Hperm. set_solver.
    + intros r' Hr'. by rewrite Hr2, Hr1.
  - rewrite Ha2, Ha1; [done|set_solver..].
Qed.

(** *** A node with two children: its successor takes its place *)

(** The end of that branch: [y] receives the parent, colour and left subtree
    of [x]. *)
Lemma wp_take_place {A} s root k c l x y r' rx n (res : A) Q :
  ctx_at s root k y → rb_nodes s !! x = Some (mk_node (ctx_parent k) c (root_of l) rx) →
  rb_nodes s !! y = Some n → rb_right n = root_of r' →
  tree_at (rb_nodes s) x l → tree_at (rb_nodes s) y r' → l ≠ E →
  good_addrs (x :: y :: inorder l ++ inorder r' ++ ctx_addrs k) →
  (∀ s', zip_at s' root k (T c l y r') →
         agree_off (y :: inorder l) (rb_nodes s) (rb_nodes s') → rb_roots s' = rb_roots s →
         Q res s') →
  wp (old_node ← load_node x;
      set_pc y (λ _, rb_parent_color old_node);;
      oldl ← get_left x;
      set_left y oldl;;
      oldl ← get_left x;
      rb_set_parent oldl y;;
      mret res) Q s.
Proof.
  intros Hk Hx Hy Hn Hl Hr' Hle Hg HQ.
  rewrite !good_addrs_cons, !good_addrs_app in Hg.
  destruct Hg as (Hxg & Hxn & Hyg & Hyn & Hlg & (Hrg & Hkg & Hrk) & Hlrk).
  apply wp_bind. eapply wp_load_raw; [done|]. apply wp_bind. eapply wp_modify_raw; [done|].
  simpl. rewrite Hn. set (s1 := upd_node y _ s).
  assert (x ≠ y) as Hxy by set_solver.
  assert (rb_nodes s1 !! x = Some (mk_node (ctx_parent k) c (root_of l) rx)) as Hx1
    by (simpl; by rewrite lookup_insert_ne).
  apply wp_bind. eapply wp_get_left; [done|]. apply wp_bind.
  eapply wp_modify_raw; [apply lookup_insert_eq|]. simpl. set (s2 := upd_node y _ s1).
  assert (agree_off [y] (rb_nodes s) (rb_nodes s2)) as Ha2.
  { eapply agree_off_trans; apply agree_off_insert; set_solver. }
  apply wp_bind. eapply wp_get_left; [rewrite Ha2; [done|set_solver]|]. apply wp_bind.
  eapply (wp_reparent_ne s2 x l y); [|done|apply Hxg|apply Hyg|done|].
  { eapply tree_at_frame; [done..|set_solver]. }
  intros s3 Hl3 Ha3 Hr3. apply wp_ret.
  pose proof (agree_off_app Ha2 Ha3) as Ha13.
  apply HQ; [unfold zip_at; split_and!|..|done].
  - eapply ctx_at_frame; [done..|by rewrite Hr3|]. set_solver.
  - simpl. split_and!; [|done|].
    + rewrite Ha3 by set_solver. simpl. by rewrite lookup_insert_eq.
    + eapply tree_at_frame; [done..|]. set_solver.
  - rewrite inorder_plug_perm, (inorder_node_perm L c l y r' : inorder (T c l y r') ≡ₚ _).
    cbn [app]. rewrite good_addrs_cons, !good_addrs_app. split_and!; try done; set_solver.
  - eapply agree_off_weaken; [exact Ha13|]. set_solver.
Qed.

Lemma zip_app s root k1 k2 t : zip_at s root (k1 ++ k2) t ↔ zip_at s root k2 (plug k1 t).
Proof. rewrite (zip_plug _ _ (k1 ++ k2)), plug_app, <-zip_plug. done. Qed.

Lemma ctx_parent_app kr f k : ctx_parent (kr ++ f :: k) = seg_parent kr (f_node f).
Proof. by destruct kr as [|g kr]. Qed.

(** The successor [y] leaves its own place: below [x] itself, or at the end of
    a left spine, whose bottom then receives [y]'s right subtree. *)
Lemma wp_detach_successor {A} s x y cy ry kr px cx lx (K : Z → cmd rbmem A) Q :
  let r := plug kr (T cy E y ry) in
  rb_nodes s !! x = Some (mk_node px cx lx (root_of r)) →
  tree_at (rb_nodes s) x r → Forall (λ f, f_dir f = L) kr →
  good_addrs (x :: inorder r) →
  (∀ s' n, rb_nodes s' !! y = Some n → rb_right n = root_of (plug kr ry) →
     tree_at (rb_nodes s') y (plug kr ry) →
     agree_off (inorder r) (rb_nodes s) (rb_nodes s') → rb_roots s' = rb_roots s →
     wp (K (seg_parent kr y)) Q s') →
  wp (parent ←
        (if bool_decide (seg_parent kr x = x) then mret y
         else
           (if nonnull (root_of ry) then rb_set_parent (root_of ry) (seg_parent kr x) else mret ());;
           set_left (seg_parent kr x) (root_of ry);;
           oldr ← get_right x;
           set_right y oldr;;
           oldr ← get_right x;
           rb_set_parent oldr y;;
           mret (seg_parent kr x));
      K parent) Q s.
Proof.
  intros r Hx Hr Hkr Hg HQ. subst r.
  apply tree_at_plug in Hr as [Hseg Hy]. destruct Hy as (Hy & _ & Hry).
  apply wp_bind. destruct kr as [|[d cp p sp] kr]; simpl seg_parent in *.
  { rewrite bool_decide_true by done. apply wp_ret.
    apply (HQ s _ Hy); [done..|apply agree_off_refl|done]. }
  apply Forall_cons in Hkr as [Hd Hkr]. simpl in Hd. subst d.
  set (kp := Frame L cp p sp :: kr) in *.
  assert (good_addrs (x :: y :: inorder ry ++ p :: inorder sp ++ ctx_addrs kr)) as Hg'.
  { revert Hg. rewrite inorder_plug_perm. unfold kp. rewrite ctx_addrs_cons.
    apply good_addrs_perm. simpl. solve_Permutation. }
  rewrite !good_addrs_cons, !good_addrs_app, good_addrs_cons, good_addrs_app in Hg'.
  destruct Hg' as (Hxg & Hxn & Hyg & Hyn & Hryg & (Hpg & Hpn & Hspg & Hkrg & Hspk) & Hrd).
  assert (x ≠ y ∧ x ≠ p ∧ y ≠ p) as (Hxy & Hxp & Hyp) by set_solver.
  rewrite bool_decide_false by done.
  apply wp_bind. apply (wp_reparent s y ry p); [done..|apply Hyg|apply Hpg|auto|].
  intros s1 Hry1 Ha1 Hr1. destruct Hseg as (Hp & Hsp & Hseg).
  apply wp_bind. eapply (wp_set_child s1 L); [by rewrite Ha1; [|set_solver]|].
  set (s2 := upd_node p _ s1).
  assert (agree_off [p] (rb_nodes s1) (rb_nodes s2)) as Ha2 by (apply agree_off_insert; set_solver).
  pose proof (agree_off_app Ha1 Ha2) as Ha02.
  assert (tree_at (rb_nodes s2) x (plug kp ry)) as Hr2.
  { apply tree_at_plug. split; [split_and!|].
    - simpl. by rewrite lookup_insert_eq.
    - eapply tree_at_frame; [exact Hsp|exact Ha02|]. set_solver.
    - eapply seg_at_frame; [exact Hseg|exact Ha02|]. set_solver.
    - simpl. eapply tree_at_frame; [exact Hry1|exact Ha2|]. set_solver. }
  assert (root_of (plug kp ry) = root_of (plug kp (T cy E y ry))) as Hroot.
  { unfold kp. simpl. clear. generalize (T cp ry p sp), (T cp (T cy E y ry) p sp),
      (eq_refl : root_of (T cp ry p sp) = root_of (T cp (T cy E y ry) p sp)).
    induction kr as [|[d c q s] kr IH]; intros t1 t2 Ht; [done|]. simpl. apply IH.
    by rewrite !root_of_node. }
  apply wp_bind. eapply wp_get_right; [rewrite Ha02; [exact Hx|set_solver]|]. rewrite <-Hroot.
  apply wp_bind. eapply wp_set_right; [rewrite Ha02; [exact Hy|set_solver]|].
  set (s3 := upd_node y _ s2).
  assert (agree_off [y] (rb_nodes s2) (rb_nodes s3)) as Ha3 by (apply agree_off_insert; set_solver).
  apply wp_bind. eapply wp_get_right; [rewrite Ha3, Ha02 by set_solver; exact Hx|].
  rewrite <-Hroot. apply wp_bind.
  assert (inorder (plug kp ry) ≡ₚ inorder ry ++ p :: inorder sp ++ ctx_addrs kr) as Hperm.
  { rewrite inorder_plug_perm. unfold kp. by rewrite ctx_addrs_cons. }
  eapply (wp_reparent_ne s3 x (plug kp ry) y).
  { eapply tree_at_frame; [exact Hr2|exact Ha3|]. intros z. rewrite Hperm. set_solver. }
  { rewrite Hperm, good_addrs_app, good_addrs_cons, good_addrs_app. done. }
  { apply Hxg. }
  { apply Hyg. }
  { intros Heq. rewrite Heq in Hperm. apply Permutation_length in Hperm.
    rewrite length_app in Hperm. simpl in Hperm. lia. }
  intros s4 Hr4 Ha4 Hr4'. apply wp_ret.
  eapply (HQ s4); [rewrite Ha4; [apply lookup_insert_eq|]|done|done|..].
  - rewrite Hperm. set_solver.
  - eapply agree_off_weaken; [exact (agree_off_app (agree_off_app Ha02 Ha3) Ha4)|].
    intros z. rewrite Hperm, inorder_plug_perm. unfold kp. rewrite ctx_addrs_cons. simpl. set_solver.
  - by rewrite Hr4'; simpl; rewrite Hr1.
Qed.

(** The successor takes the node's place: the focus is then the right subtree
    the successor had, at the successor's former place. *)
Lemma wp_unlink_double s root k c l x kr cy y ry fuel Q :
  let r := plug kr (T cy E y ry) in
  let k' := kr ++ Frame R c y l :: k in
  zip_at s root k (T c l x r) → l ≠ E → Forall (λ f, f_dir f = L) kr → (height r ≤ fuel)%nat →
  (∀ s', zip_at s' root k' ry → same_outside (inorder (plug k (T c l x r))) root s s' →
         rb_nodes s' !! x = rb_nodes s !! x →
         Q (root_of ry, ctx_parent k', color_bit cy) s') →
  wp (rb_erase_unlink fuel x root) Q s.
Proof.
  intros r k' Hz Hle Hkr Hfuel HQ. pose proof (zip_good_node _ _ _ L _ _ _ _ Hz) as Hg.
  pose proof (zip_parent_aligned _ _ _ _ Hz) as Hpar.
  assert (inorder r = y :: inorder ry ++ ctx_post kr) as Hinr.
  { unfold r. rewrite inorder_plug, ctx_pre_left by done. done. }
  assert (r ≠ E) as Hre by (intros Hr; by rewrite Hr in Hinr).
  unfold rb_erase_unlink.
  apply wp_bind. change (get_left x) with (get_child L x). apply (wp_zip_child (d:=L) Hz).
  apply wp_bind. change (get_right x) with (get_child (opp L) x).
  apply (wp_zip_child_opp (d:=L) Hz).
  rewrite (zip_nonnull _ _ _ _ (zip_into (d:=L) Hz)).
  rewrite (zip_nonnull _ _ _ _ (zip_into_opp (d:=L) Hz)).
  rewrite !bool_decide_true by done. cbn [andb].
  apply wp_bind, (wp_zip_child_opp (d:=L) Hz).
  apply wp_bind. pose proof Hz as (Hk & (Hx & Hl & Hr) & Hgall).
  rewrite good_addrs_cons, !good_addrs_app in Hg.
  destruct Hg as (Hxg & Hxn & Hlg & (Hrg & Hkg & Hrk) & Hlrk).
  apply (wp_leftmost s r x); [done..|]. rewrite Hinr. cbn [hd].
  apply wp_bind, (wp_zip_parent (d:=L) Hz).
  apply wp_bind, (wp_change_child_sym L). apply (wp_change_child s root k).
  { done. }
  { rewrite good_addrs_cons. split_and!; [done|set_solver|done]. }
  intros s1 Hk1 Ha1 Hr1.
  assert (tree_at (rb_nodes s1) x r) as Hrt1 by (eapply tree_at_frame; [done..|set_solver]).
  assert (rb_nodes s1 !! x = Some (mk_node (ctx_parent k) c (root_of l) (root_of r))) as Hx1
    by (rewrite Ha1; [done|set_solver]).
  assert (y ∈ inorder r) as Hyr by (rewrite Hinr; set_solver).
  assert (aligned (seg_parent kr x)) as Hsp.
  { destruct kr as [|f kr]; [apply Hxg|]. simpl. eapply good_addrs_elem; [exact Hrg|].
    unfold r. rewrite inorder_plug_perm. destruct f. rewrite ctx_addrs_cons. set_solver. }
  pose proof Hrt1 as (Hseg & Hy1 & _ & Hry)%tree_at_plug.
  apply wp_bind. eapply wp_get_right; [exact Hy1|].
  apply wp_bind. eapply wp_rb_parent; [exact Hy1|done|].
  apply wp_bind. eapply wp_rb_color; [exact Hy1|done|].
  eapply (wp_detach_successor s1 x y cy ry kr); [done..| |].
  { rewrite good_addrs_cons. split_and!; [done|set_solver|done]. }
  intros s2 n Hy2 Hn2 Hr2 Ha2 Hroots2.
  assert (inorder r ≡ₚ y :: inorder (plug kr ry)) as Hperm.
  { rewrite Hinr, inorder_plug, ctx_pre_left by done. done. }
  assert (∀ z, z ∈ inorder r ↔ z = y ∨ z ∈ inorder (plug kr ry)) as Hinr'
    by (intros z; rewrite Hperm; set_solver).
  rewrite Hperm, good_addrs_cons in Hrg. destruct Hrg as (Hyg & Hyn & Hrg).
  pose proof (agree_off_app Ha1 Ha2) as Ha02.
  eapply (wp_take_place s2 root k c l x y (plug kr ry)); [| |done..| |done|done| |].
  { eapply ctx_at_frame; [done..|by rewrite Hroots2|set_solver]. }
  { rewrite Ha2; [done|set_solver]. }
  { eapply tree_at_frame; [exact Hl|exact Ha02|set_solver]. }
  { rewrite !good_addrs_cons, !good_addrs_app.
    split_and!; try done; try set_solver. }
  intros s3 Hz3 Ha3 Hroots3.
  replace (seg_parent kr y) with (ctx_parent k')
    by exact (ctx_parent_app kr (Frame R c y l) k).
  apply HQ.
  - unfold k'. rewrite zip_app. by apply zip_into.
  - split.
    + eapply agree_off_weaken; [exact (agree_off_app Ha02 Ha3)|].
      intros z. rewrite (inorder_plug_perm k), (inorder_node_perm L c l x r : inorder (T c l x r) ≡ₚ _).
      set_solver.
    + intros r' Hr'. by rewrite Hroots3, Hroots2, Hr1.
  - rewrite Ha3, Ha02; [done|set_solver..].
Qed.

(** ** rb_erase *)

Lemma ctx_pre_app k1 k2 : ctx_pre (k1 ++ k2) = ctx_pre k2 ++ ctx_pre k1.
Proof.
  induction k1 as [|[[] c p s] k1 IH]; simpl; [by rewrite app_nil_r|done|].
  by rewrite IH, <-!app_assoc.
Qed.

Lemma ctx_post_app k1 k2 : ctx_post (k1 ++ k2) = ctx_post k1 ++ ctx_post k2.
Proof.
  induction k1 as [|[[] c p s] k1 IH]; simpl; [done| |done]. by rewrite IH, <-!app_assoc.
Qed.

(** Every place of the in-order sequence is the focus of a zipper. *)
Lemma inorder_focus t l1 x l2 :
  inorder t = l1 ++ x :: l2 →
  ∃ k c l r, t = plug k (T c l x r) ∧ l1 = ctx_pre k ++ inorder l ∧ l2 = inorder r ++ ctx_post k.
Proof.
  revert l1 l2. induction t as [|c l IHl p r IHr]; intros l1 l2 H; simpl in H; [by destruct l1|].
  assert (l1 = inorder l ∧ p = x ∧ inorder r = l2 ∨
    (∃ m, inorder l = l1 ++ x :: m ∧ l2 = m ++ p :: inorder r) ∨
    (∃ m, l1 = inorder l ++ p :: m ∧ inorder r = m ++ x :: l2)) as Hcases.
  { apply app_eq_app in H as (m & [[Hl Hm]|[Hl Hm]]); destruct m as [|z m];
      rewrite ?app_nil_r in Hl; injection Hm as ? ?; subst; eauto 6. }
  destruct Hcases as [(-> & -> & <-)|[(m & Hl & ->)|(m & -> & Hr)]].
  - exists [], c, l, r. by rewrite app_nil_r.
  - destruct (IHl _ _ Hl) as (k & c' & l' & r' & -> & -> & ->).
    exists (k ++ [Frame L c p r]), c', l', r'. rewrite plug_app, ctx_pre_app, ctx_post_app. simpl.
    by rewrite app_nil_r, <-!app_assoc.
  - destruct (IHr _ _ Hr) as (k & c' & l' & r' & -> & -> & ->).
    exists (k ++ [Frame R c p l]), c', l', r'. rewrite plug_app, ctx_pre_app, ctx_post_app. simpl.
    by rewrite app_nil_r, <-!app_assoc.
Qed.

(** The invariant does not look at addresses. *)
Lemma rbk_rename kr n d c x y l k :
  rbk n (kr ++ Frame d c x l :: k) → rbk n (kr ++ Frame d c y l :: k).
Proof.
  assert (top_black (kr ++ Frame d c x l :: k) → top_black (kr ++ Frame d c y l :: k)) as Htop
    by (by destruct kr).
  revert n Htop. induction kr as [|[d' [] p s] kr IH]; intros n Htop; simpl; [done|..].
  - intros (? & ? & Ht & Hk). split_and!; try done; [by destruct kr|]. apply IH; [|done].
    by destruct kr.
  - intros [? Hk]. split; [done|]. apply IH; [|done]. by destruct kr.
Qed.

(** Taking a node with at most one child out of a valid tree. *)
Lemma removed_black n k l x r ch :
  rbk n k → rb n (T Black l x r) → l = E ∧ ch = r ∨ r = E ∧ ch = l → ∃ m, er_inv m k ch.
Proof.
  intros Hk Ht Hch. apply (rb_black_inv n L) in Ht as (m & -> & Hl & Hr). exists m.
  assert (rb m ch) as Hc by (destruct Hch as [[_ ->]|[_ ->]]; done).
  split; [done|]. destruct (tcolor ch) eqn:Htc; [right|by left].
  split; [done|by apply rb_paint_black].
Qed.

Lemma removed_red n k l x r ch :
  rbk n k → rb n (T Red l x r) → l = E ∧ ch = r ∨ r = E ∧ ch = l → valid (plug k ch).
Proof.
  intros Hk Ht Hch. apply (rb_red n L) in Ht as (Hcl & Hcr & Hl & Hr).
  destruct Hch as [[_ ->]|[_ ->]]; (eapply rb_plug; [done..|]); congruence.
Qed.

(** The common end of both ways of unlinking: rebalance when a black node left. *)
Lemma wp_erase_rebalance s0 s root k c l y r ch n fuel X l0 :
  zip_at s root k ch → rbk n k → rb n (T c l y r) → l = E ∧ ch = r ∨ r = E ∧ ch = l →
  (S (length k) < fuel)%nat → inorder (plug k ch) = l0 →
  same_outside X root s0 s → l0 ⊆ X →
  wp (if bool_decide (color_bit c = RB_BLACK)
      then __rb_erase_color fuel (root_of ch) (ctx_parent k) root else mret ())
    (λ _ s', ∃ t', is_rbtree s' root t' ∧ inorder t' = l0 ∧ same_outside X root s0 s' ∧
                   agree_off l0 (rb_nodes s) (rb_nodes s')) s.
Proof.
  intros Hz Hk Ht Hch Hfuel Hl0 Hs HX. destruct c.
  - rewrite bool_decide_false by done. apply wp_ret. exists (plug k ch).
    split_and!; [split; [by apply (proj1 (zip_plug _ _ k ch))|by eapply removed_red]|done..|].
    apply agree_off_refl.
  - rewrite bool_decide_true by done. destruct (removed_black _ _ _ _ _ _ Hk Ht Hch) as [m Hm].
    eapply wp_mono; [by eapply __rb_erase_color_spec|].
    intros _ s' (t' & Ht' & Hl' & Hs'). rewrite Hl0 in Hl'. rewrite Hl' in Hs'.
    exists t'. split_and!; [done..| |apply Hs'].
    eapply same_outside_trans; [done|]. by eapply same_outside_weaken.
Qed.

(** Removing a node of a well-formed tree: the tree stays well formed, its
    in-order sequence loses exactly that node, and the removed node itself is
    not written. *)
Lemma rb_erase_correct s root t l1 x l2 fuel :
  is_rbtree s root t → inorder t = l1 ++ x :: l2 → (height t < fuel)%nat →
  wp (rb_erase fuel x root)
    (λ _ s', ∃ t', is_rbtree s' root t' ∧ inorder t' = l1 ++ l2 ∧
                   same_outside (l1 ++ l2) root s s') s.
Proof.
  intros [Hz Hv] Hin Hfuel. pose proof Hin as (k & c & l & r & Htk & -> & ->)%inorder_focus.
  assert (NoDup (inorder t)) as Hnd by apply Hz. rewrite Hin in Hnd.
  assert (x ∉ (ctx_pre k ++ inorder l) ++ inorder r ++ ctx_post k) as Hxn.
  { apply NoDup_app in Hnd as (_ & Hd & Hnd). apply NoDup_cons in Hnd as [? _].
    rewrite elem_of_app. intros [Hx|?]; [|done]. apply (Hd _ Hx). set_solver. }
  subst t. apply (zip_plug s root k) in Hz.
  pose proof (length_ctx_height k (T c l x r)) as Hlen.
  pose proof Hv as (n & Hk & Ht & _)%valid_plug_inv.
  set (t0 := plug k (T c l x r)) in *. set (lx := (ctx_pre k ++ inorder l) ++ inorder r ++ ctx_post k) in *.
  unfold rb_erase. apply wp_bind.
  assert (∀ s' s'' t', is_rbtree s'' root t' ∧ inorder t' = lx ∧
      same_outside (inorder t0) root s s'' ∧ agree_off lx (rb_nodes s') (rb_nodes s'') →
    rb_nodes s' !! x = rb_nodes s !! x →
    is_rbtree s'' root t' ∧ inorder t' = lx ∧ same_outside lx root s s'') as Hend.
  { intros s' s'' t' (? & ? & [Ha Hr] & Ha') Hx. split_and!; [done..|]. split; [|done].
    intros z Hzn. destruct (decide (z = x)) as [->|Hne]; [by rewrite Ha', Hx|].
    apply Ha. rewrite Hin. unfold lx in Hzn. set_solver. }
  assert (lx ⊆ inorder t0) as Hsub by (rewrite Hin; unfold lx; set_solver).
  destruct (decide (l = E ∨ r = E)) as [Hs|Hlr].
  - assert (∃ ch, l = E ∧ ch = r ∨ r = E ∧ ch = l) as [ch Hch] by naive_solver.
    eapply wp_unlink_single; [done..|]. intros s' Hz' Hs' Hx. cbn [fst snd].
    eapply wp_mono; [eapply (wp_erase_rebalance s s' root k c l x r ch n fuel _ lx);
      try done; [simpl in Hlen; lia|]|].
    + rewrite inorder_plug. unfold lx. destruct Hch as [[-> ->]|[-> ->]]; simpl;
        by rewrite <-?app_assoc, ?app_nil_r.
    + intros _ s'' [t' H']. exists t'. eauto.
  - destruct (leftmost_split r) as (kr & cy & y & ry & -> & Hkr); [naive_solver|].
    set (kx := kr ++ Frame R c x l :: k).
    assert (t0 = plug kx (T cy E y ry)) as Ht0 by (unfold kx; by rewrite plug_app).
    rewrite Ht0 in Hv. apply valid_plug_inv in Hv as (n' & Hk' & Ht' & _).
    pose proof (length_ctx_height kx (T cy E y ry)) as Hlen'. rewrite <-Ht0 in Hlen'.
    eapply wp_unlink_double; [done|naive_solver|done|simpl in Hlen; lia|].
    intros s' Hz' Hs' Hx. cbn [fst snd].
    eapply wp_mono; [eapply (wp_erase_rebalance s s' root _ cy E y ry ry n' fuel _ lx);
      try done; [by eapply rbk_rename|by left| |]|].
    + simpl in Hlen'. revert Hlen'. unfold kx. rewrite !length_app. simpl. lia.
    + rewrite inorder_plug, ctx_pre_app, ctx_post_app. unfold lx. rewrite inorder_plug.
      simpl. rewrite (ctx_pre_left kr Hkr). simpl. by rewrite ?app_nil_r, <-!app_assoc.
    + intros _ s'' [t' H']. exists t'. eauto.
Qed.
