(* ===== verification/RbIter.v ===== *)
(** * Traversal, replacement and augmentation (network/wba_event/rbtree.c)

    [rb_first]/[rb_last], [rb_next]/[rb_prev], [rb_replace_node] and the
    [rb_augment_*] helpers, against the in-order sequence of the tree.  The
    mirror-image functions are proved once: [dseq d t] is the in-order sequence
    read from side [d]. *)

From stdpp Require Import gmap numbers list.
From S2P Require Import Prelude RbNode RbTree RbZip RbInv RbInsert RbErase.

Local Open Scope Z_scope.

(** ** Sequences read from either side *)

Definition dseq (d : dir) (t : tree) : list Z :=
  match d with L => inorder t | R => reverse (inorder t) end.

(** What follows the hole, read from side [d]. *)
Definition ctx_after (d : dir) (k : ctx) : list Z :=
  match d with L => ctx_post k | R => reverse (ctx_pre k) end.

Lemma dseq_node d c a x b : dseq d (node d c a x b) = dseq d a ++ x :: dseq d b.
Proof. destruct d; [done|]. simpl. by rewrite reverse_app, reverse_cons, <-app_assoc. Qed.

Lemma ctx_after_cons d c p s k : ctx_after d (Frame d c p s :: k) = p :: dseq d s ++ ctx_after d k.
Proof. destruct d; [done|]. simpl. by rewrite !reverse_app. Qed.

Lemma ctx_after_cons_opp d c p s k : ctx_after d (Frame (opp d) c p s :: k) = ctx_after d k.
Proof. by destruct d. Qed.

Lemma dseq_nonempty d t : t ≠ E → dseq d t ≠ [].
Proof.
  intros Ht. destruct (tree_node t d) as [->|(c & a & x & b & ->)]; [done|].
  rewrite dseq_node. by destruct (dseq d a).
Qed.

(** ** Going down one side *)

Definition walk_down (d : dir) (fuel : nat) (node : Z) : cmd rbmem Z :=
  loop fuel (λ node, c ← get_child d node;
    if nonnull c then mret (inl c) else mret (inr node)) node.

Lemma leftmost_eq fuel x : leftmost fuel x = walk_down L fuel x.
Proof. done. Qed.

Lemma rightmost_eq fuel x : rightmost fuel x = walk_down R fuel x.
Proof. done. Qed.

Lemma height_node d c a x b : height (node d c a x b) = S (height a `max` height b).
Proof. destruct d; simpl; lia. Qed.

Lemma wp_walk_down s root d fuel : ∀ k t Q,
  zip_at s root k t → t ≠ E → (height t ≤ fuel)%nat →
  Q (hd NULL (dseq d t)) s → wp (walk_down d fuel (root_of t)) Q s.
Proof.
  induction fuel as [|fuel IH]; intros k t Q Hz Hne Hfuel HQ;
    destruct (tree_node t d) as [->|(c & a & x & b & ->)]; try done;
    rewrite height_node in Hfuel; [lia|].
  apply wp_loop, wp_bind. rewrite root_of_node. apply (wp_zip_child Hz).
  pose proof (zip_into Hz) as Hza. rewrite (zip_nonnull _ _ _ _ Hza).
  rewrite dseq_node in HQ. case_bool_decide as Ha.
  - apply wp_ret. eapply IH; [done..|lia|]. pose proof (dseq_nonempty d a Ha).
    by destruct (dseq d a).
  - apply wp_ret, wp_ret. subst a; by destruct d.
Qed.

Definition extreme (d : dir) (fuel : nat) (root : Z) : cmd rbmem Z :=
  n ← get_root root;
  if nonnull n then walk_down d fuel n else mret NULL.

Lemma wp_extreme s root d t fuel Q :
  zip_at s root [] t → (height t ≤ fuel)%nat → Q (hd NULL (dseq d t)) s →
  wp (extreme d fuel root) Q s.
Proof.
  intros Hz Hfuel HQ. apply wp_bind. eapply wp_zip_get_root; [done|].
  rewrite (zip_nonnull _ _ _ _ Hz). case_bool_decide as Ht.
  - by eapply wp_walk_down.
  - apply wp_ret. subst t. by destruct d.
Qed.

(** ** Stepping to the neighbour *)

Definition climb (d : dir) (fuel : nat) (node : Z) : cmd rbmem Z :=
  loop fuel (λ node,
    parent ← rb_parent node;
    if nonnull parent then
      pr ← get_child (opp d) parent;
      if bool_decide (node = pr) then mret (inl parent) else mret (inr parent)
    else mret (inr parent)) node.

Lemma wp_climb s root d fuel : ∀ k t Q,
  zip_at s root k t → t ≠ E → (length k < fuel)%nat →
  Q (hd NULL (ctx_after d k)) s → wp (climb d fuel (root_of t)) Q s.
Proof.
  induction fuel as [|fuel IH]; intros k t Q Hz Hne Hfuel HQ; [lia|].
  destruct (tree_node t L) as [->|(ct & a & x & b & ->)]; [done|].
  apply wp_loop, wp_bind. rewrite root_of_node. apply (wp_zip_parent Hz).
  rewrite (zip_nonnull_parent _ _ _ _ Hz).
  destruct k as [|[d' c p sib] k].
  { apply wp_ret, wp_ret. by destruct d. }
  rewrite bool_decide_true by done. simpl ctx_parent. simpl in Hfuel. apply wp_bind.
  pose proof (zip_up Hz) as Hzp. destruct (decide (d' = d)) as [->|Hd].
  - apply (wp_zip_child_opp Hzp). rewrite bool_decide_false.
    + apply wp_ret, wp_ret. by rewrite ctx_after_cons in HQ.
    + apply zip_good_node in Hzp. rewrite inorder_node_perm, good_addrs_cons, good_addrs_app in Hzp.
      destruct (root_of_in sib) as [[-> _]|Hin].
      * intros ->. destruct Hzp as (_ & _ & Hg & _). simpl in Hg.
        apply (good_addrs_elem NULL) in Hg as [? _]; [done|set_solver].
      * intros ->. destruct Hzp as (_ & _ & _ & _ & Hd). apply (Hd (root_of sib)); set_solver.
  - assert (d' = opp d) as -> by (by destruct d, d').
    rewrite ctx_after_cons_opp in HQ.
    apply (wp_zip_child Hzp). rewrite root_of_node, bool_decide_true by done. apply wp_ret.
    rewrite <-(root_of_node (opp d) c (node L ct a x b) p sib).
    eapply IH; [exact Hzp|by destruct d|lia|done].
Qed.

Definition neighbour (d : dir) (fuel : nat) (node : Z) : cmd rbmem Z :=
  p ← rb_parent node;
  if bool_decide (p = node) then mret NULL else
  c ← get_child (opp d) node;
  if nonnull c then walk_down d fuel c else climb d fuel node.

Lemma rb_next_eq fuel x : rb_next fuel x = neighbour L fuel x.
Proof. done. Qed.

Lemma rb_prev_eq fuel x : rb_prev fuel x = neighbour R fuel x.
Proof. done. Qed.

Lemma wp_neighbour s root d k c a x b fuel Q :
  zip_at s root k (node d c a x b) → (height (plug k (node d c a x b)) ≤ fuel)%nat →
  Q (hd NULL (dseq d b ++ ctx_after d k)) s → wp (neighbour d fuel x) Q s.
Proof.
  intros Hz Hfuel HQ. pose proof (length_ctx_height k (node d c a x b)) as Hlen.
  rewrite height_node in Hlen. apply wp_bind, (wp_zip_parent Hz).
  pose proof (zip_good_node _ _ _ _ _ _ _ _ Hz) as Hg. rewrite good_addrs_cons in Hg.
  rewrite bool_decide_false.
  2: { destruct Hg as ([Hx _] & Hxn & _). destruct (ctx_parent_in k) as [[-> _]|Hin]; [done|].
       intros Heq. apply Hxn. rewrite <-Heq. set_solver. }
  apply wp_bind, (wp_zip_child_opp Hz). pose proof (zip_into_opp Hz) as Hzb.
  rewrite (zip_nonnull _ _ _ _ Hzb). case_bool_decide as Hb.
  - eapply wp_walk_down; [done..|lia|]. pose proof (dseq_nonempty d b Hb).
    by destruct (dseq d b).
  - rewrite <-(root_of_node d c a x b). eapply wp_climb; [done|by destruct d|lia|].
    subst b. by destruct d.
Qed.

Lemma hd_reverse {A} (a : A) l : hd a (reverse l) = default a (last l).
Proof.
  destruct l as [|x l] using rev_ind; [done|].
  by rewrite reverse_app, last_snoc.
Qed.

(** ** The four traversal functions *)

Lemma wp_rb_first s root t fuel Q :
  zip_at s root [] t → (height t ≤ fuel)%nat →
  Q (hd NULL (inorder t)) s → wp (rb_first fuel root) Q s.
Proof. apply (wp_extreme s root L). Qed.

Lemma wp_rb_last s root t fuel Q :
  zip_at s root [] t → (height t ≤ fuel)%nat →
  Q (default NULL (last (inorder t))) s → wp (rb_last fuel root) Q s.
Proof. rewrite <-hd_reverse. apply (wp_extreme s root R). Qed.

Lemma wp_rb_next s root t l1 x l2 fuel Q :
  zip_at s root [] t → inorder t = l1 ++ x :: l2 → (height t ≤ fuel)%nat →
  Q (hd NULL l2) s → wp (rb_next fuel x) Q s.
Proof.
  intros Hz (k & c & l & r & -> & -> & ->)%inorder_focus Hfuel HQ.
  apply (zip_plug _ _ k) in Hz. by eapply (wp_neighbour s root L).
Qed.

Lemma wp_rb_prev s root t l1 x l2 fuel Q :
  zip_at s root [] t → inorder t = l1 ++ x :: l2 → (height t ≤ fuel)%nat →
  Q (default NULL (last l1)) s → wp (rb_prev fuel x) Q s.
Proof.
  intros Hz (k & c & l & r & -> & -> & ->)%inorder_focus Hfuel HQ.
  apply (zip_plug _ _ k) in Hz. eapply (wp_neighbour s root R k c r x l); [done..|].
  rewrite <-hd_reverse, reverse_app in HQ. done.
Qed.

(** ** rb_replace_node *)

(** The replacement takes the victim's place, colour and subtrees; the order of
    the other nodes is unchanged and nothing outside the tree is written. *)
Lemma wp_rb_replace_node s root k c l x r y Q :
  zip_at s root k (T c l x r) → good_addr y → y ∉ inorder (plug k (T c l x r)) →
  is_Some (rb_nodes s !! y) →
  (∀ s', zip_at s' root k (T c l y r) →
         same_outside (y :: inorder (plug k (T c l x r))) root s s' → Q () s') →
  wp (rb_replace_node x y root) Q s.
Proof.
  intros Hz Hy Hyn [ny Hny] HQ. pose proof (zip_good_node _ _ _ L _ _ _ _ Hz) as Hg.
  pose proof (zip_parent_aligned _ _ _ _ Hz) as Hpar.
  rewrite inorder_plug_perm, (inorder_node_perm L c l x r : inorder (T c l x r) ≡ₚ _) in Hyn.
  rewrite good_addrs_cons, !good_addrs_app in Hg.
  destruct Hg as (Hxg & Hxn & Hlg & (Hrg & Hkg & Hrk) & Hlrk).
  unfold rb_replace_node. apply wp_bind, (wp_zip_parent (d:=L) Hz).
  destruct Hz as (Hk & (Hx & Hl & Hr) & Hgall).
  apply wp_bind. apply (wp_change_child s root k L).
  { done. }
  { rewrite good_addrs_cons. split_and!; [done|set_solver|done]. }
  intros s1 Hk1 Ha1 Hr1.
  assert (∀ s', agree_off (ctx_addrs k ++ inorder l ++ inorder r) (rb_nodes s) (rb_nodes s') →
    rb_nodes s' !! x = Some (mk_node (ctx_parent k) c (root_of l) (root_of r))) as Hx'.
  { intros s' Ha. rewrite Ha; [done|set_solver]. }
  apply wp_bind. eapply wp_get_left; [apply Hx'; eapply agree_off_weaken; [done|set_solver]|].
  apply wp_bind. apply (wp_reparent s1 x l y); [|done|apply Hxg|apply Hy|..].
  { eapply tree_at_frame; [done..|set_solver]. }
  { intros Q' HQ'. apply wp_bind. eapply wp_get_left; [|done].
    apply Hx'; eapply agree_off_weaken; [done|set_solver]. }
  intros s2 Hl2 Ha2 Hr2. pose proof (agree_off_app Ha1 Ha2) as Ha02.
  apply wp_bind. eapply wp_get_right; [apply Hx'; eapply agree_off_weaken; [done|set_solver]|].
  apply wp_bind. apply (wp_reparent s2 x r y); [|done|apply Hxg|apply Hy|..].
  { eapply tree_at_frame; [done..|set_solver]. }
  { intros Q' HQ'. apply wp_bind. eapply wp_get_right; [|done].
    apply Hx'; eapply agree_off_weaken; [done|set_solver]. }
  intros s3 Hr3 Ha3 Hroots3. pose proof (agree_off_app Ha02 Ha3) as Ha03.
  apply wp_bind. eapply wp_load_raw; [apply Hx'; eapply agree_off_weaken; [done|set_solver]|].
  eapply wp_modify_raw; [rewrite Ha03; [done|set_solver]|]. set (s4 := upd_node y _ s3).
  assert (agree_off [y] (rb_nodes s3) (rb_nodes s4)) as Ha4 by (apply agree_off_insert; set_solver).
  pose proof (agree_off_app Ha2 (agree_off_app Ha3 Ha4)) as Ha14.
  apply HQ; [unfold zip_at; split_and!|split].
  - eapply (ctx_at_frame s1); [done|exact Ha14|by simpl; rewrite Hroots3, Hr2|set_solver].
  - split_and!; [apply lookup_insert_eq|..].
    + eapply (tree_at_frame (rb_nodes s2)); [done|exact (agree_off_app Ha3 Ha4)|set_solver].
    + eapply (tree_at_frame (rb_nodes s3)); [done|exact Ha4|set_solver].
  - rewrite inorder_plug_perm, (inorder_node_perm L c l y r : inorder (T c l y r) ≡ₚ _).
    cbn [app]. rewrite good_addrs_cons, !good_addrs_app. split_and!; try done; set_solver.
  - eapply agree_off_weaken; [exact (agree_off_app Ha1 Ha14)|].
    intros z. rewrite inorder_plug_perm, (inorder_node_perm L c l x r : inorder (T c l x r) ≡ₚ _).
    set_solver.
  - intros r' Hr'. simpl. by rewrite Hroots3, Hr2, Hr1.
Qed.

(** ** Augmentation *)

(** The calls [rb_augment_path] makes from the bottom of a path: each node, then
    the sibling that the parent's summary depends on (the node itself again
    when it is an only left child), then the parent. *)
Definition augment_visit (f : frame) (x : Z) : list Z :=
  match f with
  | Frame L _ _ sib => [if decide (sib = E) then x else root_of sib]
  | Frame R _ _ sib => if decide (sib = E) then [] else [root_of sib]
  end.

Fixpoint augment_calls (k : ctx) (x : Z) : list Z :=
  match k with
  | [] => [x]
  | f :: k' => x :: augment_visit f x ++ augment_calls k' (f_node f)
  end.

(** The client's state: the tree and the sequence of calls so far. *)
#[global] Instance log_lens : Lens (rbmem * list Z) rbmem.
Proof. by refine {| view := fst; update := λ t s, (t, snd s) |}; intros; destruct s. Defined.

Definition log_call (x : Z) : cmd (rbmem * list Z) () :=
  λ s, Done ((), (fst s, snd s ++ [x])).

Lemma wp_log_call x s l Q : Q () (s, l ++ [x]) → wp (log_call x) Q (s, l).
Proof. intros HQ. by eapply wp_done. Qed.

(** Reading commands of the tree leave the log alone. *)
Lemma wp_log_read {A} (m : cmd rbmem A) (a : A) s l Q :
  wp m (λ b s', b = a ∧ s' = s) s → Q a (s, l) → wp (zoom m) Q ((s, l) : rbmem * list Z).
Proof.
  intros Hm HQ. apply wp_zoom. simpl. eapply wp_mono; [exact Hm|]. by intros b s' [-> ->].
Qed.

Lemma wp_augment_path s root fuel : ∀ k t log Q,
  zip_at s root k t → t ≠ E → (length k < fuel)%nat →
  Q () (s, log ++ augment_calls k (root_of t)) →
  wp (rb_augment_path log_call fuel (root_of t)) Q (s, log).
Proof.
  induction fuel as [|fuel IH]; intros k t log Q Hz Hne Hfuel HQ; [lia|].
  destruct (tree_node t L) as [->|(ct & a & x & b & ->)]; [done|].
  unfold rb_augment_path. apply wp_loop, wp_bind, wp_log_call.
  rewrite root_of_node in *. apply wp_bind.
  eapply wp_log_read; [by apply (wp_zip_parent Hz)|].
  rewrite (zip_nonnull_parent _ _ _ _ Hz). destruct k as [|[d c p sib] k].
  { by apply wp_ret, wp_ret. }
  rewrite bool_decide_true by done. simpl ctx_parent. simpl in Hfuel.
  pose proof (zip_up Hz) as Hzp. pose proof (zip_into_opp Hzp) as Hzs.
  pose proof (zip_nonnull _ _ _ _ Hzs) as Hsn.
  pose proof (zip_nonnull _ _ _ _ Hz) as Hxn. rewrite bool_decide_true in Hxn by done.
  assert (∀ log', log' = (log ++ [x]) ++ augment_visit (Frame d c p sib) x →
    wp (rb_augment_path log_call fuel p) Q (s, log')) as Hrest.
  { intros log' ->. rewrite <-(root_of_node d c (node L ct a x b) p sib).
    eapply IH; [exact Hzp|by destruct d|lia|]. rewrite root_of_node.
    by simpl in HQ; rewrite <-app_assoc, <-app_assoc. }
  assert (x ≠ root_of sib) as Hxs.
  { apply zip_good_node in Hzp. rewrite inorder_node_perm, good_addrs_cons, good_addrs_app in Hzp.
    destruct (root_of_in sib) as [[-> _]|Hin].
    * intros ->. by rewrite root_of_node in Hxn.
    * intros ->. destruct Hzp as (_ & _ & _ & _ & Hd). apply (Hd (root_of sib)); set_solver. }
  apply wp_bind. destruct d; simpl in Hzp, Hrest.
  - eapply wp_log_read; [by apply (wp_zip_child (d:=L) Hzp)|].
    apply wp_bind. eapply wp_log_read; [by apply (wp_zip_child_opp (d:=L) Hzp)|].
    cbn [root_of node] in *. rewrite bool_decide_true, Hsn, Hxn by done. cbn [andb]. apply wp_bind.
    case_bool_decide as Hsib; rewrite ?decide_False, ?decide_True in Hrest by done;
      (apply wp_bind; eapply wp_log_read;
         [by apply (wp_zip_child_opp (d:=L) Hzp) || by apply (wp_zip_child (d:=L) Hzp)|];
       apply wp_log_call, wp_ret, Hrest; done).
  - eapply wp_log_read; [by apply (wp_zip_child (d:=L) Hzp)|].
    apply wp_bind. eapply wp_log_read; [by apply (wp_zip_child_opp (d:=L) Hzp)|].
    cbn [root_of node] in *. rewrite bool_decide_false, Hsn by done. cbn [andb]. apply wp_bind.
    case_bool_decide as Hsib; rewrite ?decide_False, ?decide_True in Hrest by done.
    + apply wp_bind; eapply wp_log_read; [by apply (wp_zip_child (d:=L) Hzp)|].
      apply wp_log_call, wp_ret, Hrest; done.
    + apply wp_ret, wp_ret, Hrest. by rewrite app_nil_r.
Qed.

(** The node [rb_augment_erase_begin] returns is where the removal leaves its
    lowest change: the child that moves up, or the parent of the gap. *)
Lemma wp_augment_erase_begin s root k c l x r fuel :
  zip_at s root k (T c l x r) → (height (plug k (T c l x r)) ≤ fuel)%nat →
  wp (rb_augment_erase_begin fuel x)
    (λ deepest s', s' = s ∧
       wp (rb_erase_unlink fuel x root)
         (λ res _, let '(child, parent, _) := res in
                   deepest = if nonnull child then child else parent) s) s.
Proof.
  intros Hz Hfuel. unfold rb_augment_erase_begin.
  pose proof (zip_into (d:=L) Hz) as Hzl. pose proof (zip_into_opp (d:=L) Hz) as Hzr.
  pose proof (zip_nonnull _ _ _ _ Hzl) as Hl. pose proof (zip_nonnull _ _ _ _ Hzr) as Hr.
  change get_right with (get_child (opp L)). change get_left with (get_child L).
  apply wp_bind, (wp_zip_child_opp (d:=L) Hz), wp_bind, (wp_zip_child (d:=L) Hz).
  rewrite Hl, Hr. destruct (decide (l = E ∨ r = E)) as [Hs|Hlr].
  - assert (∃ ch, l = E ∧ ch = r ∨ r = E ∧ ch = l) as [ch Hch] by naive_solver.
    assert (∀ m deepest, (∀ Q, Q deepest s → wp m Q s) →
      deepest = (if nonnull (root_of ch) then root_of ch else ctx_parent k) →
      wp m (λ deepest s', s' = s ∧ wp (rb_erase_unlink fuel x root)
         (λ res _, let '(child, parent, _) := res in
                   deepest = if nonnull child then child else parent) s) s) as Hm.
    { intros m deepest Hm ->. apply Hm. split; [done|]. by eapply wp_unlink_single. }
    case_bool_decide as Hre; case_bool_decide as Hle; cbn [negb andb].
    + naive_solver.
    + eapply Hm; [intros Q HQ; by apply (wp_zip_child_opp (d:=L) Hz)|].
      destruct Hch as [[-> ->]|[-> ->]]; [by rewrite Hr|done].
    + eapply Hm; [intros Q HQ; by apply (wp_zip_child (d:=L) Hz)|].
      destruct Hch as [[-> ->]|[-> ->]]; [done|by rewrite Hl].
    + subst. eapply Hm; [intros Q HQ; by apply (wp_zip_parent (d:=L) Hz)|].
      by destruct Hch as [[_ ->]|[_ ->]].
  - assert (l ≠ E ∧ r ≠ E) as [Hle Hre] by naive_solver.
    rewrite !bool_decide_true by done. cbn [negb andb].
    destruct (leftmost_split r Hre) as (kr & cy & y & ry & -> & Hkr).
    apply wp_bind. rewrite rb_next_eq. eapply (wp_neighbour s root L k c l x); [done..|].
    simpl dseq. rewrite inorder_plug, ctx_pre_left by done. simpl.
    change (opp L) with R in Hzr. apply zip_app in Hzr.
    assert (x ≠ y) as Hxy.
    { apply (zip_good_node _ _ _ L) in Hz. rewrite inorder_plug, good_addrs_cons in Hz.
      simpl in Hz. set_solver. }
    assert (∀ m deepest, (∀ Q, Q deepest s → wp m Q s) →
      deepest = (if nonnull (root_of ry) then root_of ry else seg_parent kr y) →
      wp m (λ deepest s', s' = s ∧ wp (rb_erase_unlink fuel x root)
         (λ res _, let '(child, parent, _) := res in
                   deepest = if nonnull child then child else parent) s) s) as Hm.
    { intros m deepest Hm ->. apply Hm. split; [done|].
      pose proof (length_ctx_height k (T c l x (plug kr (T cy E y ry)))) as Hlen. simpl in Hlen.
      eapply wp_unlink_double; [done..|lia|]. intros. by rewrite ctx_parent_app. }
    apply wp_bind, (wp_zip_child_opp (d:=L) Hzr).
    destruct (nonnull (root_of ry)).
    { eapply Hm; [intros Q HQ; by apply (wp_zip_child_opp (d:=L) Hzr)|done]. }
    apply wp_bind, (wp_zip_parent (d:=L) Hzr). rewrite ctx_parent_app. simpl f_node.
    destruct kr as [|[d cp p sp] kr]; simpl seg_parent in *.
    + rewrite bool_decide_true by done. eapply Hm; [intros Q HQ; by apply wp_ret|done].
    + rewrite bool_decide_false; cbn [negb].
      * eapply Hm; [intros Q HQ; by apply (wp_zip_parent (d:=L) Hzr)|done].
      * apply (zip_good_node _ _ _ L) in Hz. rewrite inorder_plug_perm, ctx_addrs_cons in Hz.
        rewrite good_addrs_cons in Hz. set_solver.
Qed.
