(* ===== verification/EvTime.v ===== *)
(** * Time arithmetic of the event loop (network/wba_event/wba_evloop.c)

    [struct timeval] and the helpers [event_timeadd], [event_timesub] and
    [event_timecmp].  [time_t] and [suseconds_t] are 64-bit signed integers;
    an addition or subtraction that leaves their range is undefined in C and is
    [None] here. *)

From stdpp Require Import gmap numbers list.
From S2P Require Import Prelude.

Local Open Scope Z_scope.

(** ** Machine integers *)

(** Conversion to [u32] and, as the compilers in use define it, to [s32]. *)
Definition u32 (z : Z) : Z := z mod 2 ^ 32.
Definition s32 (z : Z) : Z := (z + 2 ^ 31) mod 2 ^ 32 - 2 ^ 31.

Definition in_s64 (z : Z) : Prop := - 2 ^ 63 ≤ z < 2 ^ 63.

#[global] Instance in_s64_dec z : Decision (in_s64 z).
Proof. unfold in_s64. apply _. Defined.

(** A signed 64-bit result: [None] on overflow. *)
Definition s64 (z : Z) : option Z := if decide (in_s64 z) then Some z else None.

Lemma u32_small z : 0 ≤ z < 2 ^ 32 → u32 z = z.
Proof. apply Z.mod_small. Qed.

Lemma u32_succ z : u32 (u32 z + 1) = u32 (z + 1).
Proof. unfold u32. by rewrite Zplus_mod_idemp_l. Qed.

Lemma u32_pred z : u32 (u32 z - 1) = u32 (z - 1).
Proof. unfold u32. by rewrite Zminus_mod_idemp_l. Qed.

Lemma s32_small z : - 2 ^ 31 ≤ z < 2 ^ 31 → s32 z = z.
Proof. intros Hz. unfold s32. rewrite Z.mod_small; lia. Qed.

Lemma s64_Some z : in_s64 z → s64 z = Some z.
Proof. intros Hz. unfold s64. by rewrite decide_True. Qed.

(** ** timeval *)

Record timeval := Timeval { tv_sec : Z; tv_usec : Z }.

#[global] Instance timeval_eq_dec : EqDecision timeval.
Proof. solve_decision. Defined.

Definition event_timeadd (a b : timeval) : option timeval :=
  sec ← s64 (tv_sec a + tv_sec b);
  usec ← s64 (tv_usec a + tv_usec b);
  if bool_decide (1000000 ≤ usec) then
    sec ← s64 (sec + 1);
    usec ← s64 (usec - 1000000);
    Some (Timeval sec usec)
  else Some (Timeval sec usec).

Definition event_timesub (a b : timeval) : option timeval :=
  sec ← s64 (tv_sec a - tv_sec b);
  usec ← s64 (tv_usec a - tv_usec b);
  if bool_decide (usec < 0) then
    sec ← s64 (sec - 1);
    usec ← s64 (usec + 1000000);
    Some (Timeval sec usec)
  else Some (Timeval sec usec).

Definition event_timecmp (a b : timeval) : Z :=
  if bool_decide (tv_sec a ≠ tv_sec b) then
    if bool_decide (tv_sec a > tv_sec b) then 1 else -1
  else if bool_decide (tv_usec a ≠ tv_usec b) then
    if bool_decide (tv_usec a > tv_usec b) then 1 else -1
  else 0.

(** The same value in microseconds, and the normal form the clock returns. *)
Definition tv_us (t : timeval) : Z := tv_sec t * 1000000 + tv_usec t.
Definition tv_normal (t : timeval) : Prop := 0 ≤ tv_usec t < 1000000.

(** The order the comparison decides, on all values. *)
Definition tv_le (a b : timeval) : Prop :=
  tv_sec a < tv_sec b ∨ tv_sec a = tv_sec b ∧ tv_usec a ≤ tv_usec b.

#[global] Instance tv_le_dec : RelDecision tv_le.
Proof. intros a b. unfold tv_le. apply _. Defined.

#[global] Instance tv_le_preorder : PreOrder tv_le.
Proof. split; [intros a|intros a b c]; unfold tv_le; lia. Qed.

#[global] Instance tv_le_total : Total tv_le.
Proof. intros a b. unfold tv_le. lia. Qed.

#[global] Instance tv_le_antisymm : AntiSymm (=) tv_le.
Proof. intros [] []. unfold tv_le. simpl. intros. f_equal; lia. Qed.

Lemma event_timecmp_spec a b :
  (event_timecmp a b = -1 ∧ ¬ tv_le b a) ∨ (event_timecmp a b = 0 ∧ a = b) ∨
  (event_timecmp a b = 1 ∧ ¬ tv_le a b).
Proof.
  unfold event_timecmp, tv_le. destruct a as [sa ua], b as [sb ub]; simpl.
  repeat case_bool_decide; try lia. right; left. split; [done|]. f_equal; lia.
Qed.

Lemma event_timecmp_lt a b : event_timecmp a b < 0 ↔ ¬ tv_le b a.
Proof.
  destruct (total tv_le a b), (event_timecmp_spec a b) as [[-> H']|[[-> ->]|[-> H']]];
    split; intros; try tauto; lia.
Qed.

Lemma event_timecmp_gt a b : event_timecmp a b > 0 ↔ ¬ tv_le a b.
Proof.
  destruct (total tv_le a b), (event_timecmp_spec a b) as [[-> H']|[[-> ->]|[-> H']]];
    split; intros; try tauto; lia.
Qed.

Lemma tv_le_us a b : tv_normal a → tv_normal b → tv_le a b ↔ tv_us a ≤ tv_us b.
Proof. unfold tv_le, tv_us, tv_normal. lia. Qed.

Lemma event_timeadd_us a b t :
  event_timeadd a b = Some t → tv_us t = tv_us a + tv_us b.
Proof.
  unfold event_timeadd, s64, tv_us, mbind, option_bind.
  repeat case_decide; try done; case_bool_decide; repeat case_decide; try done;
    intros [= <-]; simpl; lia.
Qed.

Lemma event_timeadd_normal a b t :
  tv_normal a → tv_normal b → event_timeadd a b = Some t → tv_normal t.
Proof.
  unfold event_timeadd, s64, tv_normal, mbind, option_bind. intros Ha Hb.
  repeat case_decide; try done; case_bool_decide; repeat case_decide; try done;
    intros [= <-]; simpl; lia.
Qed.

Lemma event_timeadd_total a b :
  tv_normal a → tv_normal b → in_s64 (tv_sec a + tv_sec b) → in_s64 (tv_sec a + tv_sec b + 1) →
  is_Some (event_timeadd a b).
Proof.
  unfold event_timeadd, tv_normal, in_s64, mbind, option_bind. intros Ha Hb H1 H2.
  rewrite !s64_Some by (unfold in_s64; lia).
  case_bool_decide; rewrite ?s64_Some by (unfold in_s64; lia); by eexists.
Qed.

Lemma event_timesub_us a b t :
  event_timesub a b = Some t → tv_us t = tv_us a - tv_us b.
Proof.
  unfold event_timesub, s64, tv_us, mbind, option_bind.
  repeat case_decide; try done; case_bool_decide; repeat case_decide; try done;
    intros [= <-]; simpl; lia.
Qed.

Lemma event_timesub_normal a b t :
  tv_normal a → tv_normal b → event_timesub a b = Some t → tv_normal t.
Proof.
  unfold event_timesub, s64, tv_normal, mbind, option_bind. intros Ha Hb.
  repeat case_decide; try done; case_bool_decide; repeat case_decide; try done;
    intros [= <-]; simpl; lia.
Qed.

Lemma event_timesub_total a b :
  tv_normal a → tv_normal b → in_s64 (tv_sec a - tv_sec b) → in_s64 (tv_sec a - tv_sec b - 1) →
  is_Some (event_timesub a b).
Proof.
  unfold event_timesub, tv_normal, in_s64, mbind, option_bind. intros Ha Hb H1 H2.
  rewrite !s64_Some by (unfold in_s64; lia).
  case_bool_decide; rewrite ?s64_Some by (unfold in_s64; lia); by eexists.
Qed.
