(* ===== verification/Rings.v ===== *)
(** * Families of lists (what list.h promises to its clients)

    A client keeps several circular lists in one list memory, each headed by a
    cell of its own, and links its objects through one or more embedded cells.
    [rings ok hdr cell h v] says that list [k] holds exactly the objects [v k],
    in order, and that no cell belongs to two lists; the rules below lift the
    operations of list.h to the object sequences. *)

From stdpp Require Import gmap numbers functions list.
From S2P Require Import Prelude ListH.

Local Open Scope Z_scope.

(** Removing an object from a sequence. *)
Definition rm (e : Z) (l : list Z) : list Z := filter (λ x, x ≠ e) l.

Lemma elem_of_rm x e l : x ∈ rm e l ↔ x ∈ l ∧ x ≠ e.
Proof. unfold rm. rewrite list_elem_of_filter. tauto. Qed.

Lemma rm_fresh e l : e ∉ l → rm e l = l.
Proof.
  induction l as [|x l IH]; [done|]. intros [Hx Hl]%not_elem_of_cons. unfold rm in *.
  rewrite filter_cons, decide_True by done. by rewrite IH.
Qed.

Lemma rm_split e ys zs : NoDup (ys ++ e :: zs) → rm e (ys ++ e :: zs) = ys ++ zs.
Proof.
  intros (Hys & Hd & [He Hzs]%NoDup_cons)%NoDup_app.
  assert (e ∉ ys) as Hey by (intros Hin; apply (Hd e Hin); set_solver).
  unfold rm. rewrite filter_app, filter_cons, decide_False by naive_solver.
  fold (rm e ys). fold (rm e zs). by rewrite !rm_fresh.
Qed.

Lemma length_rm e l : NoDup l → e ∈ l → length l = S (length (rm e l)).
Proof.
  intros Hnd (ys & zs & ->)%list_elem_of_split. rewrite rm_split by done.
  rewrite !length_app. simpl. lia.
Qed.

(** Every live cell stays live. *)
Definition live_mono (h h' : lheap) : Prop := ∀ x, is_Some (h !! x) → is_Some (h' !! x).

Lemma live_mono_refl h : live_mono h h.
Proof. by intros x. Qed.

Lemma live_mono_trans h1 h2 h3 : live_mono h1 h2 → live_mono h2 h3 → live_mono h1 h3.
Proof. intros H1 H2 x Hx. auto. Qed.

Section rings.
Context {K : Type} `{!EqDecision K} (ok : K → Prop) (hdr : K → Z) (cell : K → Z → Z).

Definition cells (v : K → list Z) (k : K) : list Z := hdr k :: (cell k <$> v k).

Definition rings (h : lheap) (v : K → list Z) : Prop :=
  (∀ k, ok k → ring h (hdr k) (cell k <$> v k)) ∧
  (∀ k k', ok k → ok k' → k ≠ k' → ∀ x, x ∈ cells v k → x ∉ cells v k').

Lemma rings_ring h v k : rings h v → ok k → ring h (hdr k) (cell k <$> v k).
Proof. intros [H _]. auto. Qed.

Lemma rings_NoDup h v k : rings h v → ok k → NoDup (v k).
Proof.
  intros [H _] Hk. specialize (H k Hk). apply ring_NoDup, NoDup_cons in H as [_ H].
  by apply NoDup_fmap_1 in H.
Qed.

Lemma rings_live h v k x : rings h v → ok k → x ∈ cells v k → is_Some (h !! x).
Proof. intros [H _] Hk Hx. by eapply ring_live; [apply H|]. Qed.

(** The general step: one list is replaced, the others are framed. *)
Lemma rings_update h h' v k l X :
  rings h v → ok k → ring h' (hdr k) (cell k <$> l) → agree_off X h h' →
  (∀ x, x ∈ X → x ∈ cells v k ∨ (∀ k', ok k' → x ∉ cells v k')) →
  (∀ x, x ∈ cell k <$> l → x ∈ cells v k ∨ (∀ k', ok k' → x ∉ cells v k')) →
  rings h' (<[k:=l]> v).
Proof.
  intros [Hr Hd] Hk Hl Ha HX Hnew.
  assert (∀ k', k' ≠ k → cells (<[k:=l]> v) k' = cells v k') as Hsame.
  { intros k' Hne. unfold cells. by rewrite fn_lookup_insert_ne. }
  assert (∀ x, x ∈ cells (<[k:=l]> v) k → x ∈ cells v k ∨ (∀ k', ok k' → x ∉ cells v k')) as Hk'.
  { intros x. unfold cells at 1. rewrite fn_lookup_insert.
    rewrite elem_of_cons. intros [->|Hx]; [left; set_solver|auto]. }
  split.
  - intros k' Hok. destruct (decide (k' = k)) as [->|Hne].
    { by rewrite fn_lookup_insert. }
    rewrite fn_lookup_insert_ne by done.
    eapply ring_agree_off; [by apply Hr|done|]. intros x Hx HxX.
    destruct (HX x HxX) as [Hin|Hno]; [by eapply (Hd k' k)|by apply (Hno k')].
  - intros k1 k2 Hk1 Hk2 Hne x. destruct (decide (k1 = k)) as [->|H1], (decide (k2 = k)) as [->|H2];
      try done; rewrite ?(Hsame k1), ?(Hsame k2) by done; [| |by apply Hd].
    + intros Hx. destruct (Hk' x Hx) as [Hin|Hno]; [by eapply (Hd k k2)|auto].
    + intros Hx Hx'. destruct (Hk' x Hx') as [Hin|Hno]; [by eapply (Hd k1 k)|by apply (Hno k1)].
Qed.

Lemma wp_rings_add_tail h v k e Q :
  rings h v → ok k → (∀ k', ok k' → cell k e ∉ cells v k') → is_Some (h !! cell k e) →
  (∀ h', rings h' (<[k:=v k ++ [e]]> v) → live_mono h h' → Q () h') →
  wp (list_add_tail (cell k e) (hdr k)) Q h.
Proof.
  intros Hr Hk Hnew Hlive HQ.
  eapply wp_mono; [apply list_add_tail_spec; [by apply rings_ring|by apply Hnew|done]|].
  intros [] h' [Hr' Ha].
  assert (rings h' (<[k:=v k ++ [e]]> v)) as Hrs.
  { eapply rings_update; [done..|by rewrite fmap_app|done| |].
    - intros x. rewrite elem_of_cons. intros [->|Hx]; [by right|by left].
    - intros x. rewrite fmap_app, elem_of_app. cbn [fmap list_fmap]. rewrite list_elem_of_singleton.
      intros [Hx| ->]; [left; unfold cells; set_solver|by right]. }
  apply HQ; [done|]. intros x Hx. destruct (decide (x ∈ cell k e :: hdr k :: (cell k <$> v k))) as [Hin|Hn].
  - eapply ring_live; [exact Hr'|]. set_solver.
  - by rewrite Ha.
Qed.

Lemma wp_rings_del_init h v k e Q :
  rings h v → ok k → e ∈ v k →
  (∀ h', rings h' (<[k:=rm e (v k)]> v) → live_mono h h' → Q () h') →
  wp (list_del_init (cell k e)) Q h.
Proof.
  intros Hr Hk He HQ. pose proof (rings_NoDup _ _ _ Hr Hk) as Hnd.
  pose proof (rings_ring _ _ _ Hr Hk) as Hrk.
  apply list_elem_of_split in He as (ys & zs & Hv). rewrite Hv in *. rewrite rm_split in HQ by done.
  rewrite fmap_app, fmap_cons in Hrk.
  eapply wp_mono; [by apply list_del_init_spec|]. intros [] h' (Hr' & He' & Ha).
  apply HQ.
  - eapply rings_update; [done..|by rewrite fmap_app|done| |].
    + intros x Hx. left. unfold cells. rewrite Hv, fmap_app, fmap_cons. done.
    + intros x Hx. left. unfold cells. rewrite Hv, fmap_app, fmap_cons.
      rewrite fmap_app in Hx. set_solver.
  - intros x Hx. destruct (decide (x ∈ hdr k :: (cell k <$> ys) ++ cell k e :: (cell k <$> zs))) as [Hin|Hn];
      [|by rewrite Ha].
    destruct (decide (x = cell k e)) as [->|Hne].
    + eapply (ring_live _ _ _ _ He'). set_solver.
    + eapply (ring_live _ _ _ _ Hr'). set_solver.
Qed.

(** Rings depend only on the list memory's cells. *)
Lemma rings_frame h h' v :
  rings h v → (∀ k x, ok k → x ∈ cells v k → h' !! x = h !! x) → rings h' v.
Proof.
  intros [Hr Hd] Heq. split; [|done]. intros k Hk. eapply ring_frame; [by apply Hr|].
  intros x Hx. by eapply Heq.
Qed.

Lemma rings_ext h v v' : rings h v → (∀ k, ok k → v' k = v k) → rings h v'.
Proof.
  intros [Hr Hd] Heq. split.
  - intros k Hk. rewrite Heq by done. auto.
  - intros k k' Hk Hk'. unfold cells. rewrite !Heq by done. by apply Hd.
Qed.

End rings.
