(* ===== verification/EvLoop.v ===== *)
(** * The event loop (network/wba_event/wba_evloop.h, wba_evloop.c)

    A base owns a hash map of registered events keyed by descriptor, a red-black
    tree of pending timeouts and a list of active events; an event carries one
    list cell for the map, one tree node and one list cell for the active list.
    The state keeps each kind of object in its own typed memory, at the
    addresses the C layout gives them, together with a world [W] the system
    calls act on.  One command per function of the C file. *)

From stdpp Require Import gmap numbers list.
From S2P Require Import Prelude ListH RbNode RbTree EvTime.

Local Open Scope Z_scope.

(** ** Constants *)

Definition WBA_EVT_READ : Z := 1.
Definition WBA_EVT_WRITE : Z := 2.
Definition WBA_EVT_TIMEOUT : Z := 4.
Definition WBA_EVT_CLOSED : Z := 8.
Definition WBA_EVT_PERSIST : Z := 16.

Definition WBA_EVTLIST_INIT : Z := 1.
Definition WBA_EVTLIST_REG : Z := 2.
Definition WBA_EVTLIST_ACTIVE : Z := 4.
Definition WBA_EVTLIST_TIMEOUT : Z := 8.

Definition EVT_POOL_SIZE : Z := 1024.
Definition EVT_NUM_EVENTS : Z := 32.
Definition EVT_MAP_SIZE : Z := 32.
Definition EVT_DEF_WAIT_MS : Z := 60 * 1000.

(** From sys/epoll.h. *)
Definition EPOLLIN : Z := 1.
Definition EPOLLOUT : Z := 4.
Definition EPOLLERR : Z := 8.
Definition EPOLLHUP : Z := 16.
Definition EPOLLRDHUP : Z := 8192.
Definition EPOLL_CTL_ADD : Z := 1.
Definition EPOLL_CTL_DEL : Z := 2.

(** [if (x & m)] *)
Definition has (x m : Z) : bool := negb (bool_decide (Z.land x m = 0)).

(** ** Structures

    Field offsets and sizes of the 64-bit layout; the embedded list cells and
    tree node live in the memories of their own types. *)

Record wba_evt := WbaEvt {
  cb_fn : Z;
  cb_arg : Z;
  evt_fd : Z;
  evt_base : Z;
  evt_flags : Z;
  evt_events : Z;
  evt_res : Z;
  evt_user_timeout : timeval;
  evt_timeout : timeval;
}.

Definition sizeof_wba_evt : Z := 128.
Definition off_evt_next : Z := 0.
Definition off_evt_time_node : Z := 16.
Definition off_evt_active_next : Z := 40.

Definition evt_next (e : Z) : Z := e + off_evt_next.
Definition evt_time_node (e : Z) : Z := e + off_evt_time_node.
Definition evt_active_next (e : Z) : Z := e + off_evt_active_next.

(** [rb_entry(p, wba_evt_t, evt_time_node)] *)
Definition rb_entry (p : Z) : Z := p - off_evt_time_node.

Record wba_evtbase := WbaEvtbase {
  base_epfd : Z;
  base_nevts : Z;
  base_events : Z;
  map_evt_list : Z;
  map_size : Z;
  map_sizemask : Z;
  map_used : Z;
  base_event_count : Z;
  base_event_count_active : Z;
}.

Definition sizeof_wba_evtbase : Z := 72.
Definition sizeof_list_head : Z := 16.
Definition sizeof_epoll_event : Z := 12.
Definition evt_time_root (b : Z) : Z := b + 40.
Definition evt_active_list (b : Z) : Z := b + 48.

#[global] Instance wba_evt_eq_dec : EqDecision wba_evt.
Proof. solve_decision. Defined.
#[global] Instance wba_evtbase_eq_dec : EqDecision wba_evtbase.
Proof. solve_decision. Defined.

(** ** State *)

Record evstate (W : Type) := EvState {
  es_list : lheap;
  es_rb : rbmem;
  es_evts : gmap Z wba_evt;
  es_bases : gmap Z wba_evtbase;
  es_bufs : gmap Z (list (Z * Z));
  es_world : W;
}.

Arguments EvState {W} _ _ _ _ _ _.
Arguments es_list {W} _.
Arguments es_rb {W} _.
Arguments es_evts {W} _.
Arguments es_bases {W} _.
Arguments es_bufs {W} _.
Arguments es_world {W} _.

Ltac solve_lens := intros; destruct_and?; repeat match goal with s : evstate _ |- _ => destruct s end; done.

#[global] Instance es_list_lens W : Lens (evstate W) lheap.
Proof.
  refine {| view := es_list; update := λ x s, EvState x (es_rb s) (es_evts s) (es_bases s) (es_bufs s) (es_world s) |}; solve_lens.
Defined.
#[global] Instance es_rb_lens W : Lens (evstate W) rbmem.
Proof.
  refine {| view := es_rb; update := λ x s, EvState (es_list s) x (es_evts s) (es_bases s) (es_bufs s) (es_world s) |}; solve_lens.
Defined.
#[global] Instance es_evts_lens W : Lens (evstate W) (gmap Z wba_evt).
Proof.
  refine {| view := es_evts; update := λ x s, EvState (es_list s) (es_rb s) x (es_bases s) (es_bufs s) (es_world s) |}; solve_lens.
Defined.
#[global] Instance es_bases_lens W : Lens (evstate W) (gmap Z wba_evtbase).
Proof.
  refine {| view := es_bases; update := λ x s, EvState (es_list s) (es_rb s) (es_evts s) x (es_bufs s) (es_world s) |}; solve_lens.
Defined.
#[global] Instance es_bufs_lens W : Lens (evstate W) (gmap Z (list (Z * Z))).
Proof.
  refine {| view := es_bufs; update := λ x s, EvState (es_list s) (es_rb s) (es_evts s) (es_bases s) x (es_world s) |}; solve_lens.
Defined.

(** ** System calls

    [sys_epoll_ctl epfd op fd ev]: [ev] is the [(events, data.fd)] pair the
    event argument points to, [None] when it is NULL.  [sys_epoll_wait] also
    returns the entries it wrote to the buffer.  [sys_clock_gettime] returns
    [None] for -1.  [sys_indet] is the content of fresh, uninitialised memory. *)
Class System (W : Type) := {
  sys_epoll_create : Z → W → Z * W;
  sys_epoll_ctl : Z → Z → Z → option (Z * Z) → W → Z * W;
  sys_epoll_wait : Z → Z → Z → W → Z * list (Z * Z) * W;
  sys_close : Z → W → W;
  sys_clock_gettime : W → option (Z * Z) * W;
  sys_malloc : Z → W → Z * W;
  sys_free : Z → W → W;
  sys_indet : W → Z;
}.

Section evloop.
Context {W : Type} `{!System W}.

Definition syscall {A} (f : W → A * W) : cmd (evstate W) A :=
  λ s, let '(a, w) := f (es_world s) in
       Done (a, EvState (es_list s) (es_rb s) (es_evts s) (es_bases s) (es_bufs s) w).

Definition get_evt (e : Z) : cmd (evstate W) wba_evt := zoom (load e).
Definition upd_evt (e : Z) (f : wba_evt → wba_evt) : cmd (evstate W) () := zoom (modify e f).
Definition get_base (b : Z) : cmd (evstate W) wba_evtbase := zoom (load b).
Definition upd_base (b : Z) (f : wba_evtbase → wba_evtbase) : cmd (evstate W) () := zoom (modify b f).

(** Assignments to one field. *)
Definition set_flags (f : Z → Z) (v : wba_evt) : wba_evt :=
  WbaEvt (cb_fn v) (cb_arg v) (evt_fd v) (evt_base v) (f (evt_flags v)) (evt_events v) (evt_res v)
    (evt_user_timeout v) (evt_timeout v).
Definition set_res (r : Z) (v : wba_evt) : wba_evt :=
  WbaEvt (cb_fn v) (cb_arg v) (evt_fd v) (evt_base v) (evt_flags v) (evt_events v) r
    (evt_user_timeout v) (evt_timeout v).
Definition set_user_timeout (t : timeval) (v : wba_evt) : wba_evt :=
  WbaEvt (cb_fn v) (cb_arg v) (evt_fd v) (evt_base v) (evt_flags v) (evt_events v) (evt_res v)
    t (evt_timeout v).
Definition set_evt_timeout (t : timeval) (v : wba_evt) : wba_evt :=
  WbaEvt (cb_fn v) (cb_arg v) (evt_fd v) (evt_base v) (evt_flags v) (evt_events v) (evt_res v)
    (evt_user_timeout v) t.

Definition set_used (f : Z → Z) (v : wba_evtbase) : wba_evtbase :=
  WbaEvtbase (base_epfd v) (base_nevts v) (base_events v) (map_evt_list v) (map_size v)
    (map_sizemask v) (f (map_used v)) (base_event_count v) (base_event_count_active v).
Definition set_event_count (f : Z → Z) (v : wba_evtbase) : wba_evtbase :=
  WbaEvtbase (base_epfd v) (base_nevts v) (base_events v) (map_evt_list v) (map_size v)
    (map_sizemask v) (map_used v) (f (base_event_count v)) (base_event_count_active v).
Definition set_event_count_active (f : Z → Z) (v : wba_evtbase) : wba_evtbase :=
  WbaEvtbase (base_epfd v) (base_nevts v) (base_events v) (map_evt_list v) (map_size v)
    (map_sizemask v) (map_used v) (base_event_count v) (f (base_event_count_active v)).

(** [x++] and [x--] on a [u32]; [x |= m] and [x &= ~m] on the flags. *)
Definition incr32 (x : Z) : Z := u32 (x + 1).
Definition decr32 (x : Z) : Z := u32 (x - 1).
Definition set_bits (m x : Z) : Z := Z.lor x m.
Definition clear_bits (m x : Z) : Z := Z.land x (Z.lnot m).

(** ** Clock and debug output *)

Definition event_timeget : cmd (evstate W) (option timeval) :=
  ts ← syscall sys_clock_gettime;
  mret (match ts with
        | None => None
        | Some (sec, nsec) => Some (Timeval sec (Z.quot nsec 1000))
        end).

(** The macro reads the clock and prints; what it prints is not modelled. *)
Definition event_debug : cmd (evstate W) () := event_timeget;; mret ().

(** ** epoll registration *)

Definition event_register (e : Z) : cmd (evstate W) bool :=
  evt ← get_evt e;
  let ev := 0 in
  let ev := if has (evt_events evt) WBA_EVT_READ then Z.lor ev EPOLLIN else ev in
  let ev := if has (evt_events evt) WBA_EVT_WRITE then Z.lor ev EPOLLOUT else ev in
  let ev := if has (evt_events evt) WBA_EVT_CLOSED then Z.lor ev EPOLLRDHUP else ev in
  base ← get_base (evt_base evt);
  r ← syscall (sys_epoll_ctl (base_epfd base) EPOLL_CTL_ADD (evt_fd evt) (Some (ev, evt_fd evt)));
  if bool_decide (r = -1) then event_debug;; mret false else mret true.

Definition event_unregister (e : Z) : cmd (evstate W) bool :=
  evt ← get_evt e;
  base ← get_base (evt_base evt);
  r ← syscall (sys_epoll_ctl (base_epfd base) EPOLL_CTL_DEL (evt_fd evt) None);
  if bool_decide (r = -1) then event_debug;; mret false else mret true.

(** ** The active list *)

Definition event_add_active (e res : Z) : cmd (evstate W) () :=
  evt ← get_evt e;
  let base := evt_base evt in
  if negb (has (evt_flags evt) WBA_EVTLIST_ACTIVE) then
    upd_evt e (set_res res);;
    zoom (list_add_tail (evt_active_next e) (evt_active_list base));;
    upd_evt e (set_flags (set_bits WBA_EVTLIST_ACTIVE));;
    upd_base base (set_event_count_active incr32)
  else mret ().

Definition event_remove_active (e : Z) : cmd (evstate W) () :=
  evt ← get_evt e;
  if has (evt_flags evt) WBA_EVTLIST_ACTIVE then
    zoom (list_del_init (evt_active_next e));;
    upd_evt e (set_flags (clear_bits WBA_EVTLIST_ACTIVE));;
    upd_base (evt_base evt) (set_event_count_active decr32)
  else mret ().

(** ** The descriptor map *)

Definition event_map_get_slot (b fd : Z) : cmd (evstate W) Z :=
  if bool_decide (fd < 0) then mret NULL else
  base ← get_base b;
  let index := Z.land fd (map_sizemask base) in
  mret (map_evt_list base + sizeof_list_head * index).

(** [events & (WBA_EVT_READ | WBA_EVT_WRITE | WBA_EVT_CLOSED)] *)
Definition IO_EVENTS : Z := Z.lor (Z.lor WBA_EVT_READ WBA_EVT_WRITE) WBA_EVT_CLOSED.

Definition event_map_add (e : Z) : cmd (evstate W) Z :=
  evt ← get_evt e;
  if bool_decide (evt_fd evt < 0) then mret 0 else
  if has (evt_events evt) IO_EVENTS then
    ok ← event_register e;
    if negb ok then event_debug;; mret (-1) else
    list ← event_map_get_slot (evt_base evt) (evt_fd evt);
    zoom (list_add_tail (evt_next e) list);;
    upd_base (evt_base evt) (set_used incr32);;
    upd_base (evt_base evt) (set_event_count incr32);;
    mret 1
  else mret 0.

Definition event_map_remove (e : Z) : cmd (evstate W) Z :=
  evt ← get_evt e;
  if bool_decide (evt_fd evt < 0) then mret 0 else
  if has (evt_events evt) IO_EVENTS then
    ok ← event_unregister e;
    res ← (if negb ok then event_debug;; mret (-1) else mret 1);
    zoom (list_del_init (evt_next e));;
    upd_base (evt_base evt) (set_used decr32);;
    upd_base (evt_base evt) (set_event_count decr32);;
    mret res
  else mret 0.

Definition event_map_active (fuel : nat) (b fd events : Z) : cmd (evstate W) () :=
  list ← event_map_get_slot b fd;
  if bool_decide (list = NULL) then mret () else
  list_for_each_entry fuel off_evt_next (λ pos _,
    evt ← get_evt pos;
    if has (evt_events evt) events then
      event_add_active pos (Z.land (evt_events evt) events);;
      event_debug
    else mret ()) list ().

(** ** The timeout tree *)

Definition event_add_timeout (fuel : nat) (new : Z) : cmd (evstate W) () :=
  nevt ← get_evt new;
  let root := evt_time_root (evt_base nevt) in
  if has (evt_flags nevt) WBA_EVTLIST_TIMEOUT then mret () else
  '(parent, link) ← loop fuel (λ '(parent, link),
    n ← zoom (load_link link);
    if nonnull n then
      let parent := n in
      evt ← get_evt (rb_entry parent);
      nevt ← get_evt new;
      if bool_decide (event_timecmp (evt_timeout nevt) (evt_timeout evt) < 0)
      then mret (inl (parent, LinkLeft n))
      else mret (inl (parent, LinkRight n))
    else mret (inr (parent, link))) (NULL, LinkRoot root);
  zoom (rb_link_node (evt_time_node new) parent link);;
  zoom (rb_insert_color fuel (evt_time_node new) root);;
  upd_evt new (set_flags (set_bits WBA_EVTLIST_TIMEOUT));;
  upd_base (evt_base nevt) (set_event_count incr32).

Definition event_remove_timeout (fuel : nat) (e : Z) : cmd (evstate W) () :=
  evt ← get_evt e;
  if has (evt_flags evt) WBA_EVTLIST_TIMEOUT then
    zoom (rb_erase fuel (evt_time_node e) (evt_time_root (evt_base evt)));;
    upd_evt e (set_flags (clear_bits WBA_EVTLIST_TIMEOUT));;
    upd_base (evt_base evt) (set_event_count decr32)
  else mret ().

(** ** Allocation

    Objects come to life in their memories and leave them on [free]; accessing a
    freed object faults. *)

Definition set_list (f : lheap → lheap) : cmd (evstate W) () := zoom (λ h, Done ((), f h)).
Definition set_rb (f : rbmem → rbmem) : cmd (evstate W) () := zoom (λ h, Done ((), f h)).
Definition set_evts (f : gmap Z wba_evt → gmap Z wba_evt) : cmd (evstate W) () :=
  zoom (λ h, Done ((), f h)).
Definition set_bases (f : gmap Z wba_evtbase → gmap Z wba_evtbase) : cmd (evstate W) () :=
  zoom (λ h, Done ((), f h)).
Definition set_bufs (f : gmap Z (list (Z * Z)) → gmap Z (list (Z * Z))) : cmd (evstate W) () :=
  zoom (λ h, Done ((), f h)).

Definition zero_evt : wba_evt := WbaEvt 0 0 0 0 0 0 0 (Timeval 0 0) (Timeval 0 0).
Definition zero_node : rb_node := RbNode 0 0 0.
Definition zero_head : list_head := ListHead 0 0.
Definition zero_base : wba_evtbase := WbaEvtbase 0 0 0 0 0 0 0 0 0.

(** [malloc] of an event, then [memset] to 0. *)
Definition new_zero_evt (e : Z) : cmd (evstate W) () :=
  set_list (λ h, <[evt_next e := zero_head]> (<[evt_active_next e := zero_head]> h));;
  set_rb (λ s, RbMem (<[evt_time_node e := zero_node]> (rb_nodes s)) (rb_roots s));;
  set_evts (<[e := zero_evt]>).

(** [memset] of a live event. *)
Definition zero_live_evt (e : Z) : cmd (evstate W) () :=
  zoom (store (evt_next e) zero_head);;
  zoom (store (evt_active_next e) zero_head);;
  zoom (modify_node (evt_time_node e) (λ _, zero_node));;
  upd_evt e (λ _, zero_evt).

Definition free_evt (e : Z) : cmd (evstate W) () :=
  get_evt e;;
  set_list (λ h, delete (evt_next e) (delete (evt_active_next e) h));;
  set_rb (λ s, RbMem (delete (evt_time_node e) (rb_nodes s)) (rb_roots s));;
  set_evts (delete e);;
  syscall (λ w, ((), sys_free e w)).

Definition new_zero_base (b : Z) : cmd (evstate W) () :=
  set_list (<[evt_active_list b := zero_head]>);;
  set_rb (λ s, RbMem (rb_nodes s) (<[evt_time_root b := NULL]> (rb_roots s)));;
  set_bases (<[b := zero_base]>).

Definition free_base (b : Z) : cmd (evstate W) () :=
  get_base b;;
  set_list (delete (evt_active_list b));;
  set_rb (λ s, RbMem (rb_nodes s) (delete (evt_time_root b) (rb_roots s)));;
  set_bases (delete b);;
  syscall (λ w, ((), sys_free b w)).

(** The [n] list heads of a slot array. *)
Definition slot_addrs (arr n : Z) : list Z := (λ i, arr + sizeof_list_head * i) <$> seqZ 0 n.
Definition insert_heads (v : list_head) (l : list Z) (h : lheap) : lheap :=
  foldr (λ p h, <[p := v]> h) h l.
Definition delete_heads (l : list Z) (h : lheap) : lheap := foldr delete h l.

Definition free_slots (arr n : Z) : cmd (evstate W) () :=
  set_list (delete_heads (slot_addrs arr n));;
  syscall (λ w, ((), sys_free arr w)).

Definition new_buf (p n : Z) : cmd (evstate W) () :=
  j ← syscall (λ w, (sys_indet w, w));
  set_bufs (<[p := replicate (Z.to_nat n) (j, j)]>).

Definition free_buf (p : Z) : cmd (evstate W) () :=
  set_bufs (delete p);;
  syscall (λ w, ((), sys_free p w)).

(** ** Bases and events *)

Definition wba_evtbase_new (fuel : nat) : cmd (evstate W) Z :=
  epfd ← syscall (sys_epoll_create EVT_POOL_SIZE);
  if bool_decide (epfd = -1) then event_debug;; mret NULL else
  b ← syscall (sys_malloc sizeof_wba_evtbase);
  if bool_decide (b = NULL) then mret NULL else
  new_zero_base b;;
  upd_base b (λ v, WbaEvtbase epfd EVT_NUM_EVENTS (base_events v) (map_evt_list v) (map_size v)
    (map_sizemask v) (map_used v) (base_event_count v) (base_event_count_active v));;
  p ← syscall (sys_malloc (sizeof_epoll_event * EVT_NUM_EVENTS));
  if bool_decide (p = NULL) then free_base b;; mret NULL else
  new_buf p EVT_NUM_EVENTS;;
  arr ← syscall (sys_malloc (sizeof_list_head * EVT_MAP_SIZE));
  if bool_decide (arr = NULL) then free_buf p;; free_base b;; mret NULL else
  j ← syscall (λ w, (sys_indet w, w));
  set_list (insert_heads (ListHead j j) (slot_addrs arr EVT_MAP_SIZE));;
  upd_base b (λ v, WbaEvtbase (base_epfd v) (base_nevts v) p arr EVT_MAP_SIZE
    (EVT_MAP_SIZE - 1) (map_used v) (base_event_count v) (base_event_count_active v));;
  loop fuel (λ i,
    base ← get_base b;
    if bool_decide (i < map_size base) then
      zoom (INIT_LIST_HEAD (map_evt_list base + sizeof_list_head * i));;
      mret (inl (i + 1))
    else mret (inr ())) 0;;
  zoom (set_root (evt_time_root b) NULL);;
  zoom (INIT_LIST_HEAD (evt_active_list b));;
  mret b.

(** [event_selfptr] is the address of the static variable of that name. *)
Definition wba_event_new (event_selfptr b fd events fn arg : Z) : cmd (evstate W) Z :=
  if bool_decide (b = NULL) || bool_decide (fn = NULL) then mret NULL else
  let fd := if bool_decide (fd < 0) then -1 else fd in
  e ← syscall (sys_malloc sizeof_wba_evt);
  if bool_decide (e = NULL) then mret NULL else
  new_zero_evt e;;
  upd_evt e (λ v, WbaEvt fn (if bool_decide (arg = event_selfptr) then e else arg) fd b
    (set_bits WBA_EVTLIST_INIT (evt_flags v)) events (evt_res v) (evt_user_timeout v) (evt_timeout v));;
  mret e.

Definition wba_event_assign (e b fd events fn arg : Z) : cmd (evstate W) Z :=
  if bool_decide (e = NULL) || bool_decide (b = NULL) || bool_decide (fn = NULL) then mret 0 else
  evt ← get_evt e;
  if has (evt_flags evt) WBA_EVTLIST_REG then event_debug;; mret 0 else
  let fd := if bool_decide (fd < 0) then -1 else fd in
  zero_live_evt e;;
  upd_evt e (λ v, WbaEvt fn arg fd b
    (set_bits WBA_EVTLIST_INIT (evt_flags v)) events (evt_res v) (evt_user_timeout v) (evt_timeout v));;
  mret 1.

(** [tv] is [None] for a NULL pointer.  A failed clock read leaves [now]
    uninitialised: using it faults. *)
Definition event_add (fuel : nat) (e : Z) (tv : option timeval) (tv_is_absolute : bool) :
    cmd (evstate W) Z :=
  if bool_decide (e = NULL) then mret 0 else
  evt ← get_evt e;
  if bool_decide (evt_base evt = NULL) then mret 0 else
  event_debug;;
  if has (evt_flags evt) WBA_EVTLIST_REG && negb (bool_decide (is_Some tv)) then
    event_debug;; mret 1
  else
  res ← (if negb (has (evt_flags evt) WBA_EVTLIST_REG) then event_map_add e else mret 0);
  (if negb (bool_decide (res = -1)) then upd_evt e (set_flags (set_bits WBA_EVTLIST_REG)) else mret ());;
  res ←
    (match tv with
     | Some tv =>
         if negb (bool_decide (res = -1)) then
           evt ← get_evt e;
           (if has (evt_flags evt) WBA_EVTLIST_TIMEOUT then event_remove_timeout fuel e else mret ());;
           (if tv_is_absolute then upd_evt e (set_evt_timeout tv)
            else
              (if has (evt_events evt) WBA_EVT_PERSIST then upd_evt e (set_user_timeout tv) else mret ());;
              now ← event_timeget;
              now ← of_option now;
              t ← of_option (event_timeadd now tv);
              upd_evt e (set_evt_timeout t));;
           event_debug;;
           event_add_timeout fuel e;;
           mret 1
         else mret res
     | None => mret res
     end);
  mret (if bool_decide (res > 0) then res else 0).

Definition wba_event_add (fuel : nat) (e : Z) (tv : option timeval) : cmd (evstate W) Z :=
  match tv with
  | Some t =>
      if bool_decide (tv_sec t < 0) || bool_decide (tv_usec t < 0) then mret 0
      else event_add fuel e tv false
  | None => event_add fuel e tv false
  end.

Definition event_del (fuel : nat) (e : Z) : cmd (evstate W) Z :=
  if bool_decide (e = NULL) then mret 0 else
  evt ← get_evt e;
  if bool_decide (evt_base evt = NULL) then mret 0 else
  event_debug;;
  if negb (has (evt_flags evt) (Z.lor WBA_EVTLIST_REG WBA_EVTLIST_ACTIVE)) then
    event_debug;; mret 1
  else
  (if has (evt_flags evt) WBA_EVTLIST_TIMEOUT then event_remove_timeout fuel e else mret ());;
  evt ← get_evt e;
  (if has (evt_flags evt) WBA_EVTLIST_ACTIVE then event_remove_active e else mret ());;
  evt ← get_evt e;
  res ←
    (if has (evt_flags evt) WBA_EVTLIST_REG then
       res ← event_map_remove e;
       upd_evt e (set_flags (clear_bits WBA_EVTLIST_REG));;
       mret res
     else mret 0);
  mret (if bool_decide (res > 0) then res else 0).

Definition wba_event_del (fuel : nat) (e : Z) : cmd (evstate W) Z := event_del fuel e.

Definition wba_event_free (fuel : nat) (e : Z) : cmd (evstate W) () :=
  event_del fuel e;;
  if negb (bool_decide (e = NULL)) then event_debug;; free_evt e else mret ().

Definition wba_evtbase_free (fuel : nat) (b : Z) : cmd (evstate W) () :=
  if bool_decide (b = NULL) then mret () else
  loop fuel (λ i,
    base ← get_base b;
    if bool_decide (i < map_size base) then
      list_for_each_entry_safe fuel off_evt_next (λ evt _, event_del fuel evt;; mret ())
        (map_evt_list base + sizeof_list_head * i) ();;
      mret (inl (i + 1))
    else mret (inr ())) 0;;
  base ← get_base b;
  free_slots (map_evt_list base) (map_size base);;
  node ← zoom (rb_first fuel (evt_time_root b));
  loop fuel (λ node,
    if nonnull node then
      let tn := node in
      node ← zoom (rb_next fuel node);
      event_del fuel (rb_entry tn);;
      mret (inl node)
    else mret (inr ())) node;;
  event_debug;;
  base ← get_base b;
  free_buf (base_events base);;
  syscall (λ w, ((), sys_close (base_epfd base) w));;
  free_base b.

(** ** One turn of the loop *)

(** The waiting time in milliseconds; the [long] expression is converted to
    [s32]. *)
Definition timeout_ms (tv : timeval) : option Z :=
  a ← s64 (tv_sec tv * 1000);
  a ← s64 (a + Z.quot (tv_usec tv) 1000);
  a ← s64 (a + 1);
  Some (s32 a).

Definition event_next_timeout (fuel : nat) (b : Z) : cmd (evstate W) Z :=
  p ← zoom (rb_first fuel (evt_time_root b));
  if negb (nonnull p) then mret EVT_DEF_WAIT_MS else
  now ← event_timeget;
  match now with
  | None => mret EVT_DEF_WAIT_MS
  | Some now =>
      evt ← get_evt (rb_entry p);
      if bool_decide (event_timecmp (evt_timeout evt) now <= 0) then mret 0 else
      tv ← of_option (event_timesub (evt_timeout evt) now);
      of_option (timeout_ms tv)
  end.

Definition event_process_timeout (fuel : nat) (b : Z) : cmd (evstate W) Z :=
  now ← event_timeget;
  match now with
  | None => mret 0
  | Some now =>
      node ← zoom (rb_first fuel (evt_time_root b));
      loop fuel (λ '(node, cnt),
        if nonnull node then
          let p := node in
          node ← zoom (rb_next fuel node);
          evt ← get_evt (rb_entry p);
          if bool_decide (event_timecmp (evt_timeout evt) now > 0) then mret (inr cnt) else
          event_debug;;
          event_del fuel (rb_entry p);;
          event_add_active (rb_entry p) WBA_EVT_TIMEOUT;;
          mret (inl (node, cnt + 1))
        else mret (inr cnt)) (node, 0)
  end.

(** The callback of an event: [callback fn fd res arg] is the client's code. *)
Context (callback : Z → Z → Z → Z → cmd (evstate W) ()).

(** The deadline of a persistent event's next round. *)
Definition next_deadline (evt : wba_evt) (now : timeval) : option timeval :=
  let last := if has (evt_res evt) WBA_EVT_TIMEOUT then evt_timeout evt else now in
  next ← event_timeadd last (evt_user_timeout evt);
  if bool_decide (event_timecmp next now < 0) then event_timeadd now (evt_user_timeout evt)
  else Some next.

Definition event_process_active_body (fuel : nat) (e : Z) (cnt : Z) : cmd (evstate W) Z :=
  evt ← get_evt e;
  (if has (evt_events evt) WBA_EVT_PERSIST then
     event_remove_active e;;
     if negb (bool_decide (tv_sec (evt_user_timeout evt) = 0)) ||
        negb (bool_decide (tv_usec (evt_user_timeout evt) = 0)) then
       now ← event_timeget;
       now ← of_option now;
       next ← of_option (next_deadline evt now);
       event_add fuel e (Some next) true;;
       mret ()
     else mret ()
   else event_del fuel e;; mret ());;
  evt ← get_evt e;
  callback (cb_fn evt) (evt_fd evt) (evt_res evt) (cb_arg evt);;
  mret (cnt + 1).

Definition event_process_active (fuel : nat) (b : Z) : cmd (evstate W) Z :=
  list_for_each_entry_safe fuel off_evt_active_next (event_process_active_body fuel)
    (evt_active_list b) 0.

(** The translation of epoll's event bits. *)
Definition epoll_to_events (what : Z) : Z :=
  if has what (Z.lor EPOLLHUP EPOLLERR) then Z.lor WBA_EVT_READ WBA_EVT_WRITE
  else
    let events := 0 in
    let events := if has what EPOLLIN then Z.lor events WBA_EVT_READ else events in
    let events := if has what EPOLLOUT then Z.lor events WBA_EVT_WRITE else events in
    let events := if has what EPOLLRDHUP then Z.lor events WBA_EVT_CLOSED else events in
    events.

Definition write_buf (p : Z) (evs : list (Z * Z)) : cmd (evstate W) () :=
  zoom (modify p (λ old, evs ++ drop (length evs) old)).

Definition event_dispatch (fuel : nat) (b res : Z) : cmd (evstate W) () :=
  loop fuel (λ i,
    if bool_decide (i < res) then
      base ← get_base b;
      buf ← zoom (load (base_events base));
      '(what, fd) ← of_option (buf !! Z.to_nat i);
      let events := epoll_to_events what in
      (if bool_decide (events = 0) then mret () else event_map_active fuel b fd events);;
      mret (inl (i + 1))
    else mret (inr ())) 0.

(** The body of the main loop, with the value of [res] before it. *)
Definition wba_event_loop_body (fuel : nat) (b : Z) (res : Z) : cmd (evstate W) (Z + Z) :=
  base ← get_base b;
  if bool_decide (base_event_count base = 0) && bool_decide (base_event_count_active base = 0) then
    event_debug;; mret (inr res)
  else
  event_debug;;
  timeout ← event_next_timeout fuel b;
  event_debug;;
  base ← get_base b;
  '(res, evs) ← syscall (sys_epoll_wait (base_epfd base) (base_nevts base) timeout);
  if bool_decide (res = -1) then event_debug;; mret (inr 0) else
  write_buf (base_events base) evs;;
  event_dispatch fuel b res;;
  event_process_timeout fuel b;;
  event_process_active fuel b;;
  event_debug;;
  event_debug;;
  mret (inl res).

Definition wba_event_loop (fuel : nat) (b : Z) : cmd (evstate W) Z :=
  if bool_decide (b = NULL) then mret 0 else
  loop fuel (wba_event_loop_body fuel b) 1.

End evloop.
