(* ===== verification/EvInv.v ===== *)
(** * The event loop's data invariant

    [rep s b vw]: in the state [s] the base at [b] is well formed and presents
    the abstract view [vw] to its clients: the events, which of them are
    registered in each slot of the descriptor map and which are active, in list
    order, and the pending timeouts in the order they fire. *)

From stdpp Require Import gmap numbers functions sorting list.
From S2P Require Import Prelude ListH RbNode RbTree RbZip RbInv EvTime Rings EvLoop.

Local Open Scope Z_scope.

(** ** Flag words *)

Lemma has_lor x m m' : has (Z.lor x m) m' = has x m' || has m m'.
Proof.
  unfold has. rewrite Z.land_lor_distr_l, <-negb_andb. f_equal.
  apply eq_bool_prop_intro. rewrite andb_True, !bool_decide_spec. apply Z.lor_eq_0_iff.
Qed.

Lemma has_clear x m m' : has (clear_bits m x) m' = has x (Z.land (Z.lnot m) m').
Proof. unfold has, clear_bits. by rewrite Z.land_assoc. Qed.

Lemma has_set x m m' : has (set_bits m x) m' = has x m' || has m m'.
Proof. apply has_lor. Qed.

Lemma has_0 x : has x 0 = false.
Proof. unfold has. by rewrite Z.land_0_r. Qed.

Lemma has_or_r x m m' : has x (Z.lor m m') = has x m || has x m'.
Proof.
  unfold has. rewrite Z.land_lor_distr_r, <-negb_andb. f_equal.
  apply eq_bool_prop_intro. rewrite andb_True, !bool_decide_spec. apply Z.lor_eq_0_iff.
Qed.

(** ** The lists of a base *)

Inductive lid := Slot (i : Z) | Active.

#[global] Instance lid_eq_dec : EqDecision lid.
Proof. solve_decision. Defined.

Definition lid_ok (k : lid) : Prop :=
  match k with Slot i => 0 ≤ i < EVT_MAP_SIZE | Active => True end.
Definition lid_hdr (b arr : Z) (k : lid) : Z :=
  match k with Slot i => arr + sizeof_list_head * i | Active => evt_active_list b end.
Definition lid_cell (k : lid) : Z → Z :=
  match k with Slot _ => evt_next | Active => evt_active_next end.

(** The slot a descriptor belongs to. *)
Definition slot_of (fd : Z) : Z := Z.land fd (EVT_MAP_SIZE - 1).

(** What an event's own fields say about its place. *)
Definition wants_map (evt : wba_evt) : bool :=
  bool_decide (0 ≤ evt_fd evt) && has (evt_events evt) IO_EVENTS.
Definition in_list (k : lid) (evt : wba_evt) : bool :=
  match k with
  | Slot i => has (evt_flags evt) WBA_EVTLIST_REG && wants_map evt &&
              bool_decide (slot_of (evt_fd evt) = i)
  | Active => has (evt_flags evt) WBA_EVTLIST_ACTIVE
  end.
Definition in_time (evt : wba_evt) : bool := has (evt_flags evt) WBA_EVTLIST_TIMEOUT.

(** ** The abstract view *)

(** The part of a base the event operations do not change: epoll descriptor,
    buffer and its contents, slot array. *)
Record evcfg := EvCfg { cfg_epfd : Z; cfg_events : Z; cfg_arr : Z; cfg_buf : list (Z * Z) }.

Record evview := EvView {
  vw_cfg : evcfg;
  vw_evts : gmap Z wba_evt;
  vw_lists : lid → list Z;
  vw_time : list Z;
}.

Definition slots_total (v : lid → list Z) : Z :=
  foldr (λ i n, Z.of_nat (length (v (Slot i))) + n) 0 (seqZ 0 EVT_MAP_SIZE).

(** The base struct such a view has, counters included. *)
Definition base_of (vw : evview) : wba_evtbase :=
  WbaEvtbase (cfg_epfd (vw_cfg vw)) EVT_NUM_EVENTS (cfg_events (vw_cfg vw)) (cfg_arr (vw_cfg vw))
    EVT_MAP_SIZE (EVT_MAP_SIZE - 1)
    (u32 (slots_total (vw_lists vw)))
    (u32 (slots_total (vw_lists vw) + Z.of_nat (length (vw_time vw))))
    (u32 (Z.of_nat (length (vw_lists vw Active)))).

(** The deadline of an event. *)
Definition tmo (E : gmap Z wba_evt) (e : Z) : timeval :=
  match E !! e with Some evt => evt_timeout evt | None => Timeval 0 0 end.

Definition deadline_le (E : gmap Z wba_evt) (e e' : Z) : Prop := tv_le (tmo E e) (tmo E e').

(** [l] lists exactly the events of base [b] that satisfy [P]. *)
Definition members (P : wba_evt → bool) (E : gmap Z wba_evt) (b : Z) (l : list Z) : Prop :=
  ∀ e, e ∈ l ↔ ∃ evt, E !! e = Some evt ∧ evt_base evt = b ∧ P evt = true.

(** ** Memory layout *)

Definition apart (p n q m : Z) : Prop := p + n ≤ q ∨ q + m ≤ p.

Record layout (E : gmap Z wba_evt) (b arr : Z) : Prop := {
  lay_evt : ∀ e, is_Some (E !! e) → 0 < e ∧ e + sizeof_wba_evt ≤ 2 ^ 64 ∧ (8 | e);
  lay_evts : ∀ e e', is_Some (E !! e) → is_Some (E !! e') → e ≠ e' →
    apart e sizeof_wba_evt e' sizeof_wba_evt;
  lay_base : ∀ e, is_Some (E !! e) → apart e sizeof_wba_evt b sizeof_wba_evtbase;
  lay_slots : ∀ e, is_Some (E !! e) →
    apart e sizeof_wba_evt arr (sizeof_list_head * EVT_MAP_SIZE);
  lay_base_slots : apart b sizeof_wba_evtbase arr (sizeof_list_head * EVT_MAP_SIZE);
  lay_pos : 0 < b ∧ 0 < arr;
}.

Section rep.
Context {W : Type}.
Implicit Types (s : evstate W) (vw : evview).

Definition base_rings (s : evstate W) (b : Z) (vw : evview) : Prop :=
  rings lid_ok (lid_hdr b (cfg_arr (vw_cfg vw))) lid_cell (es_list s) (vw_lists vw).

(** The timeout tree holds the nodes of [tl], in that order. *)
Definition time_tree (rb : rbmem) (b : Z) (tl : list Z) : Prop :=
  ∃ t, is_rbtree rb (evt_time_root b) t ∧ inorder t = evt_time_node <$> tl.

Record rep s (b : Z) vw : Prop := {
  rep_evts : es_evts s = vw_evts vw;
  rep_base : es_bases s !! b = Some (base_of vw);
  rep_buf : es_bufs s !! cfg_events (vw_cfg vw) = Some (cfg_buf (vw_cfg vw)) ∧
            length (cfg_buf (vw_cfg vw)) = Z.to_nat EVT_NUM_EVENTS;
  rep_layout : layout (vw_evts vw) b (cfg_arr (vw_cfg vw));
  rep_rings : base_rings s b vw;
  rep_tree : time_tree (es_rb s) b (vw_time vw);
  rep_live : ∀ e, is_Some (vw_evts vw !! e) →
    is_Some (es_list s !! evt_next e) ∧ is_Some (es_list s !! evt_active_next e) ∧
    is_Some (rb_nodes (es_rb s) !! evt_time_node e);
  rep_lists : ∀ k, lid_ok k → members (in_list k) (vw_evts vw) b (vw_lists vw k);
  rep_time : members in_time (vw_evts vw) b (vw_time vw);
  rep_sorted : StronglySorted (deadline_le (vw_evts vw)) (vw_time vw);
  rep_flags : ∀ e evt, vw_evts vw !! e = Some evt → evt_base evt = b → in_time evt = true →
    has (evt_flags evt) WBA_EVTLIST_REG = true;
}.

(** ** Basic consequences *)

Lemma slot_of_range fd : 0 ≤ slot_of fd < EVT_MAP_SIZE.
Proof.
  unfold slot_of. change (EVT_MAP_SIZE - 1) with (Z.ones 5). rewrite Z.land_ones by lia.
  by apply Z.mod_pos_bound.
Qed.

Lemma rep_list_NoDup s b vw k : rep s b vw → lid_ok k → NoDup (vw_lists vw k).
Proof. intros Hr Hk. eapply rings_NoDup; [apply Hr|done]. Qed.

Lemma rep_time_NoDup s b vw : rep s b vw → NoDup (vw_time vw).
Proof.
  intros Hr. destruct (rep_tree _ _ _ Hr) as (t & [(_ & _ & [Hnd _]) _] & Ht).
  simpl in Hnd. rewrite Ht in Hnd. by apply NoDup_fmap_1 in Hnd.
Qed.

(** No list of a base is longer than the number of events. *)
Lemma members_length P E b l : NoDup l → members P E b l → (length l ≤ size E)%nat.
Proof.
  intros Hnd Hm. rewrite <-size_dom, <-(size_list_to_set (C:=gset Z) l Hnd).
  apply subseteq_size. intros e. rewrite elem_of_list_to_set, elem_of_dom.
  intros (evt & -> & _)%Hm. by eexists.
Qed.

Lemma rep_list_length s b vw k :
  rep s b vw → lid_ok k → (length (vw_lists vw k) ≤ size (vw_evts vw))%nat.
Proof.
  intros Hr Hk. eapply members_length; [by eapply rep_list_NoDup|by eapply rep_lists].
Qed.

Lemma rep_time_length s b vw : rep s b vw → (length (vw_time vw) ≤ size (vw_evts vw))%nat.
Proof. intros Hr. eapply members_length; [by eapply rep_time_NoDup|by eapply rep_time]. Qed.

Lemma members_in P E b l e evt :
  members P E b l → E !! e = Some evt → evt_base evt = b → (e ∈ l ↔ P evt = true).
Proof. intros Hm He Hb. rewrite (Hm e). naive_solver. Qed.

(** The world is not part of the representation. *)
Lemma rep_ext s s' b vw :
  rep s b vw → es_list s' = es_list s → es_rb s' = es_rb s → es_evts s' = es_evts s →
  es_bases s' = es_bases s → es_bufs s' = es_bufs s → rep s' b vw.
Proof.
  intros [] H1 H2 H3 H4 H5. constructor; unfold base_rings in *; rewrite ?H1, ?H2, ?H3, ?H4, ?H5;
    done.
Qed.

End rep.

(** ** Changing one event *)

Lemma members_update P E b l l' e evt evt' :
  members P E b l → E !! e = Some evt → evt_base evt = b → evt_base evt' = b →
  (∀ x, x ∈ l' ↔ x = e ∧ P evt' = true ∨ x ≠ e ∧ x ∈ l) →
  members P (<[e:=evt']> E) b l'.
Proof.
  intros Hm He Hb Hb' Hl' x. rewrite Hl'. destruct (decide (x = e)) as [->|Hne].
  - rewrite lookup_insert_eq. naive_solver.
  - rewrite lookup_insert_ne by done. rewrite (Hm x). naive_solver.
Qed.

(** The three ways a sequence follows its event. *)
Lemma upd_same P E b l e evt evt' :
  members P E b l → E !! e = Some evt → evt_base evt = b → P evt' = P evt →
  ∀ x, x ∈ l ↔ x = e ∧ P evt' = true ∨ x ≠ e ∧ x ∈ l.
Proof.
  intros Hm He Hb HP x. rewrite HP. destruct (decide (x = e)) as [->|Hne]; [|tauto].
  rewrite (members_in _ _ _ _ _ _ Hm He Hb). tauto.
Qed.

Lemma upd_snoc {P : wba_evt → bool} {l : list Z} {e : Z} {evt'} :
  P evt' = true → e ∉ l → ∀ x, x ∈ l ++ [e] ↔ x = e ∧ P evt' = true ∨ x ≠ e ∧ x ∈ l.
Proof. intros HP He x. set_solver. Qed.

Lemma upd_rm {P : wba_evt → bool} {l : list Z} {e : Z} {evt'} :
  P evt' = false → ∀ x, x ∈ rm e l ↔ x = e ∧ P evt' = true ∨ x ≠ e ∧ x ∈ l.
Proof. intros HP x. rewrite HP, elem_of_rm. naive_solver. Qed.

Lemma layout_insert E b arr e evt evt' :
  layout E b arr → E !! e = Some evt → layout (<[e:=evt']> E) b arr.
Proof.
  intros [] He. assert (∀ x, is_Some (<[e:=evt']> E !! x) → is_Some (E !! x)) as Hx.
  { intros x. destruct (decide (x = e)) as [->|]; [by rewrite He|by rewrite lookup_insert_ne]. }
  constructor; auto.
Qed.

(** Deadlines of the other events are unchanged. *)
Lemma tmo_insert_ne E e evt x : x ≠ e → tmo (<[e:=evt]> E) x = tmo E x.
Proof. intros. unfold tmo. by rewrite lookup_insert_ne. Qed.

Lemma tmo_insert E e evt : tmo (<[e:=evt]> E) e = evt_timeout evt.
Proof. unfold tmo. by rewrite lookup_insert_eq. Qed.

Lemma StronglySorted_ext {A} (R R' : A → A → Prop) l :
  (∀ x y, x ∈ l → y ∈ l → R x y → R' x y) → StronglySorted R l → StronglySorted R' l.
Proof.
  intros HR. induction 1 as [|x l Hs IH Hx]; constructor.
  - apply IH. intros. apply HR; set_solver.
  - rewrite Forall_forall in Hx |- *. intros y Hy. apply HR; set_solver.
Qed.

Lemma sorted_insert_fresh E e evt l :
  e ∉ l → StronglySorted (deadline_le E) l → StronglySorted (deadline_le (<[e:=evt]> E)) l.
Proof.
  intros He. apply StronglySorted_ext. intros x y Hx Hy. unfold deadline_le.
  rewrite !tmo_insert_ne by set_solver. done.
Qed.

Lemma sorted_insert_same E e evt evt' l :
  E !! e = Some evt → evt_timeout evt' = evt_timeout evt →
  StronglySorted (deadline_le E) l → StronglySorted (deadline_le (<[e:=evt']> E)) l.
Proof.
  intros He Ht. apply StronglySorted_ext. intros x y _ _.
  assert (∀ z, tmo (<[e:=evt']> E) z = tmo E z) as Hz.
  { intros z. unfold tmo. destruct (decide (z = e)) as [->|].
    - by rewrite lookup_insert_eq, He.
    - by rewrite lookup_insert_ne. }
  unfold deadline_le. by rewrite !Hz.
Qed.

Lemma sorted_rm {A} (R : A → A → Prop) (P : A → Prop) `{!∀ x, Decision (P x)} l :
  StronglySorted R l → StronglySorted R (filter P l).
Proof.
  induction 1 as [|x l Hs IH Hx]; [constructor|]. rewrite filter_cons. case_decide; [|done].
  constructor; [done|]. rewrite Forall_forall in Hx |- *. intros y [_ Hy]%list_elem_of_filter. auto.
Qed.

(** The general step of an operation on the event [e]. *)
Lemma rep_update {W} (s s' : evstate W) b vw vw' e evt evt' :
  rep s b vw → vw_evts vw !! e = Some evt → evt_base evt = b → evt_base evt' = b →
  vw_evts vw' = <[e:=evt']> (vw_evts vw) → vw_cfg vw' = vw_cfg vw →
  es_evts s' = vw_evts vw' → es_bases s' !! b = Some (base_of vw') → es_bufs s' = es_bufs s →
  base_rings s' b vw' → live_mono (es_list s) (es_list s') →
  time_tree (es_rb s') b (vw_time vw') →
  (∀ x, is_Some (rb_nodes (es_rb s) !! x) → is_Some (rb_nodes (es_rb s') !! x)) →
  (∀ k x, lid_ok k → x ∈ vw_lists vw' k ↔
     x = e ∧ in_list k evt' = true ∨ x ≠ e ∧ x ∈ vw_lists vw k) →
  (∀ x, x ∈ vw_time vw' ↔ x = e ∧ in_time evt' = true ∨ x ≠ e ∧ x ∈ vw_time vw) →
  StronglySorted (deadline_le (vw_evts vw')) (vw_time vw') →
  (in_time evt' = true → has (evt_flags evt') WBA_EVTLIST_REG = true) →
  rep s' b vw'.
Proof.
  intros Hr He Hb Hb' HE Hcfg Hes Hbase Hbuf Hrings Hlm Htree Hrm Hlists Htime Hsort Hflag.
  constructor; rewrite ?HE, ?Hcfg; try done.
  - by rewrite <-HE.
  - rewrite Hbuf. apply Hr.
  - eapply layout_insert; [apply Hr|done].
  - intros x Hx. assert (is_Some (vw_evts vw !! x)) as Hx'.
    { destruct (decide (x = e)) as [->|]; [by rewrite He|by rewrite lookup_insert_ne in Hx]. }
    destruct (rep_live _ _ _ Hr x Hx') as (? & ? & ?). split_and!; auto.
  - intros k Hk. eapply members_update; [by apply Hr|done..|]. auto.
  - eapply members_update; [by apply Hr|done..].
  - by rewrite <-HE.
  - intros x evtx. destruct (decide (x = e)) as [->|Hne].
    + rewrite lookup_insert_eq. intros [= <-] _. done.
    + rewrite lookup_insert_ne by done. apply Hr.
Qed.
