(* ===== verification/EvOps.v ===== *)
(** * Abstract operations of the event loop, and that the code implements them

    Each [a_*] function is the effect of one C function on the abstract view of
    a base.  The refinement rules state, for every branch, that from a state
    that represents [vw] the command returns and ends in a state that
    represents the abstract result. *)

From stdpp Require Import gmap numbers functions sorting list.
From S2P Require Import Prelude ListH RbNode RbTree RbZip RbInv RbInsert RbErase RbIter.
From S2P Require Import EvTime Rings EvLoop EvInv.

Local Open Scope Z_scope.

(** ** Abstract operations *)

(** Apply an event's new contents, and new lists. *)
Definition a_set (e : Z) (evt : wba_evt) (lists : lid → list Z) (time : list Z) (vw : evview) : evview :=
  EvView (vw_cfg vw) (<[e:=evt]> (vw_evts vw)) lists time.

Definition a_activate (e res : Z) (vw : evview) : evview :=
  match vw_evts vw !! e with
  | Some evt =>
      if has (evt_flags evt) WBA_EVTLIST_ACTIVE then vw
      else a_set e (set_flags (set_bits WBA_EVTLIST_ACTIVE) (set_res res evt))
             (<[Active := vw_lists vw Active ++ [e]]> (vw_lists vw)) (vw_time vw) vw
  | None => vw
  end.

Definition a_deactivate (e : Z) (vw : evview) : evview :=
  match vw_evts vw !! e with
  | Some evt =>
      if has (evt_flags evt) WBA_EVTLIST_ACTIVE then
        a_set e (set_flags (clear_bits WBA_EVTLIST_ACTIVE) evt)
          (<[Active := rm e (vw_lists vw Active)]> (vw_lists vw)) (vw_time vw) vw
      else vw
  | None => vw
  end.

(** Registration, with the flag the callers set. *)
Definition a_register (e : Z) (vw : evview) : evview :=
  match vw_evts vw !! e with
  | Some evt =>
      let k := Slot (slot_of (evt_fd evt)) in
      a_set e (set_flags (set_bits WBA_EVTLIST_REG) evt)
        (if negb (has (evt_flags evt) WBA_EVTLIST_REG) && wants_map evt
         then <[k := vw_lists vw k ++ [e]]> (vw_lists vw) else vw_lists vw) (vw_time vw) vw
  | None => vw
  end.

Definition a_unregister (e : Z) (vw : evview) : evview :=
  match vw_evts vw !! e with
  | Some evt =>
      let k := Slot (slot_of (evt_fd evt)) in
      a_set e (set_flags (clear_bits WBA_EVTLIST_REG) evt)
        (if has (evt_flags evt) WBA_EVTLIST_REG && wants_map evt
         then <[k := rm e (vw_lists vw k)]> (vw_lists vw) else vw_lists vw) (vw_time vw) vw
  | None => vw
  end.

(** The place of a deadline in the firing order: after the equal ones. *)
Fixpoint time_insert (E : gmap Z wba_evt) (t : timeval) (e : Z) (l : list Z) : list Z :=
  match l with
  | [] => [e]
  | x :: l' => if bool_decide (event_timecmp t (tmo E x) < 0) then e :: l
               else x :: time_insert E t e l'
  end.

Definition a_schedule (e : Z) (vw : evview) : evview :=
  match vw_evts vw !! e with
  | Some evt =>
      if has (evt_flags evt) WBA_EVTLIST_TIMEOUT then vw
      else a_set e (set_flags (set_bits WBA_EVTLIST_TIMEOUT) evt) (vw_lists vw)
             (time_insert (vw_evts vw) (evt_timeout evt) e (vw_time vw)) vw
  | None => vw
  end.

Definition a_unschedule (e : Z) (vw : evview) : evview :=
  match vw_evts vw !! e with
  | Some evt =>
      if has (evt_flags evt) WBA_EVTLIST_TIMEOUT then
        a_set e (set_flags (clear_bits WBA_EVTLIST_TIMEOUT) evt) (vw_lists vw)
          (rm e (vw_time vw)) vw
      else vw
  | None => vw
  end.

(** ** Primitive steps *)

Section steps.
Context {W : Type} `{!System W}.
Implicit Types (s : evstate W).

Lemma wp_get_evt s e evt Q : es_evts s !! e = Some evt → Q evt s → wp (get_evt e) Q s.
Proof.
  intros He HQ. apply wp_zoom. simpl. eapply wp_load; [done|]. by destruct s.
Qed.

Lemma wp_upd_evt s e f evt Q :
  es_evts s !! e = Some evt →
  Q () (EvState (es_list s) (es_rb s) (<[e:=f evt]> (es_evts s)) (es_bases s) (es_bufs s) (es_world s)) →
  wp (upd_evt e f) Q s.
Proof. intros He HQ. apply wp_zoom. by eapply wp_modify. Qed.

Lemma wp_get_base s b base Q : es_bases s !! b = Some base → Q base s → wp (get_base b) Q s.
Proof.
  intros He HQ. apply wp_zoom. simpl. eapply wp_load; [done|]. by destruct s.
Qed.

Lemma wp_upd_base s b f base Q :
  es_bases s !! b = Some base →
  Q () (EvState (es_list s) (es_rb s) (es_evts s) (<[b:=f base]> (es_bases s)) (es_bufs s) (es_world s)) →
  wp (upd_base b f) Q s.
Proof. intros He HQ. apply wp_zoom. by eapply wp_modify. Qed.

Lemma wp_list_op s (m : cmd lheap ()) Q :
  wp m (λ a h, Q a (EvState h (es_rb s) (es_evts s) (es_bases s) (es_bufs s) (es_world s))) (es_list s) →
  wp (zoom m) Q s.
Proof. intros H. by apply wp_zoom. Qed.

Lemma wp_rb_op {A} s (m : cmd rbmem A) Q :
  wp m (λ a r, Q a (EvState (es_list s) r (es_evts s) (es_bases s) (es_bufs s) (es_world s))) (es_rb s) →
  wp (zoom m) Q s.
Proof. intros H. by apply wp_zoom. Qed.

(** A command that only reads the tree. *)
Lemma wp_rb_read {A} s (m : cmd rbmem A) a Q :
  wp m (λ a' r, a' = a ∧ r = es_rb s) (es_rb s) → Q a s → wp (zoom m) Q s.
Proof.
  intros H HQ. apply wp_rb_op. eapply wp_mono; [done|]. intros a' r [-> ->]. by destruct s.
Qed.

Lemma wp_syscall {A} s (f : W → A * W) a w Q :
  f (es_world s) = (a, w) →
  Q a (EvState (es_list s) (es_rb s) (es_evts s) (es_bases s) (es_bufs s) w) → wp (syscall f) Q s.
Proof. intros Hf HQ. eapply wp_done; [|exact HQ]. unfold syscall. by rewrite Hf. Qed.

(** [s'] differs from [s] in the world only. *)
Definition same_data s s' : Prop :=
  es_list s' = es_list s ∧ es_rb s' = es_rb s ∧ es_evts s' = es_evts s ∧
  es_bases s' = es_bases s ∧ es_bufs s' = es_bufs s.

Lemma same_data_refl s : same_data s s.
Proof. done. Qed.

Lemma same_data_trans s1 s2 s3 : same_data s1 s2 → same_data s2 s3 → same_data s1 s3.
Proof. unfold same_data. intuition congruence. Qed.

Lemma same_data_rep s s' b vw : rep s b vw → same_data s s' → rep s' b vw.
Proof. intros Hr (? & ? & ? & ? & ?). by eapply rep_ext. Qed.

Lemma wp_event_timeget s Q :
  (∀ s' ts w, sys_clock_gettime (es_world s) = (ts, w) → same_data s s' → es_world s' = w →
     Q (match ts with None => None
        | Some (sec, nsec) => Some (Timeval sec (Z.quot nsec 1000)) end) s') →
  wp event_timeget Q s.
Proof.
  intros HQ. unfold event_timeget. destruct (sys_clock_gettime (es_world s)) as [ts w] eqn:Hc.
  apply wp_bind. eapply wp_syscall; [done|]. apply wp_ret. by eapply HQ.
Qed.

Lemma wp_event_debug s Q : (∀ s', same_data s s' → Q () s') → wp event_debug Q s.
Proof.
  intros HQ. unfold event_debug. apply wp_bind, wp_event_timeget. intros. by apply wp_ret, HQ.
Qed.

End steps.

(** ** Cells of different objects are different *)

Definition same_kind (k k' : lid) : Prop :=
  match k, k' with Slot _, Slot _ | Active, Active => True | _, _ => False end.

Lemma rep_member_live {W} (s : evstate W) b vw k x :
  rep s b vw → lid_ok k → x ∈ vw_lists vw k → is_Some (vw_evts vw !! x).
Proof. intros Hr Hk (evt & -> & _)%(rep_lists _ _ _ Hr k Hk). by eexists. Qed.

Lemma layout_cells E b arr k k' e x :
  layout E b arr → lid_ok k → lid_ok k' → is_Some (E !! e) → is_Some (E !! x) →
  lid_cell k e ≠ lid_hdr b arr k' ∧ (lid_cell k e = lid_cell k' x → same_kind k k' ∧ e = x).
Proof.
  intros [He Hes Hb Ha Hba _] Hk Hk' Hle Hlx. specialize (Hb e Hle). specialize (Ha e Hle).
  specialize (Hes e x Hle Hlx). unfold apart, sizeof_wba_evt, sizeof_wba_evtbase, sizeof_list_head,
    EVT_MAP_SIZE in *. split.
  - destruct k, k'; simpl in *; unfold evt_next, evt_active_next, evt_active_list, off_evt_next,
      off_evt_active_next, sizeof_list_head, EVT_MAP_SIZE in *; lia.
  - destruct (decide (e = x)) as [->|Hne]; [|specialize (Hes Hne)]; destruct k, k'; simpl in *;
      unfold evt_next, evt_active_next, off_evt_next, off_evt_active_next in *; lia || done.
Qed.

Lemma rep_cell_fresh {W} (s : evstate W) b vw k e :
  rep s b vw → lid_ok k → is_Some (vw_evts vw !! e) →
  (∀ k', lid_ok k' → same_kind k k' → e ∉ vw_lists vw k') →
  ∀ k', lid_ok k' → lid_cell k e ∉ cells (lid_hdr b (cfg_arr (vw_cfg vw))) lid_cell (vw_lists vw) k'.
Proof.
  intros Hr Hk He Hno k' Hk'. unfold cells. rewrite elem_of_cons, list_elem_of_fmap.
  intros [Hh|(x & Hx & Hin)].
  - by destruct (layout_cells _ _ _ k k' e e (rep_layout _ _ _ Hr) Hk Hk' He He) as [? _].
  - pose proof (rep_member_live _ _ _ _ _ Hr Hk' Hin) as Hlx.
    destruct (layout_cells _ _ _ k k' e x (rep_layout _ _ _ Hr) Hk Hk' He Hlx) as [_ Heq].
    destruct (Heq Hx) as [Hsk ->]. by eapply Hno.
Qed.

(** ** Counters *)

Lemma slots_total_insert_active v l : slots_total (<[Active:=l]> v) = slots_total v.
Proof. done. Qed.

Lemma slots_total_insert v i l :
  0 ≤ i < EVT_MAP_SIZE →
  slots_total (<[Slot i:=l]> v) = slots_total v - Z.of_nat (length (v (Slot i))) + Z.of_nat (length l).
Proof.
  unfold slots_total. intros Hi.
  assert (NoDup (seqZ 0 EVT_MAP_SIZE)) as Hnd by apply NoDup_seqZ.
  assert (i ∈ seqZ 0 EVT_MAP_SIZE) as Hin by (apply elem_of_seqZ; lia).
  revert Hnd Hin. generalize (seqZ 0 EVT_MAP_SIZE) as js. induction js as [|j js IH]; [set_solver|].
  intros [Hj Hnd]%NoDup_cons. rewrite elem_of_cons. simpl. intros [<-|Hin].
  - rewrite fn_lookup_insert.
    assert (foldr (λ i0 n, Z.of_nat (length (<[Slot i:=l]> v (Slot i0))) + n) 0 js =
      foldr (λ i0 n, Z.of_nat (length (v (Slot i0))) + n) 0 js) as ->; [|lia].
    clear -Hj. induction js as [|j js IH]; [done|]. apply not_elem_of_cons in Hj as [Hne Hj].
    simpl. rewrite IH by done. by rewrite fn_lookup_insert_ne by congruence.
  - rewrite IH by done. rewrite fn_lookup_insert_ne by congruence. lia.
Qed.

Lemma slots_total_nonneg v : 0 ≤ slots_total v.
Proof.
  unfold slots_total. induction (seqZ 0 EVT_MAP_SIZE); simpl; lia.
Qed.

(** The general step, for the abstract update. *)
Lemma rep_set {W} (s s' : evstate W) b vw e evt evt' lists' time' :
  rep s b vw → vw_evts vw !! e = Some evt → evt_base evt = b → evt_base evt' = b →
  es_evts s' = <[e:=evt']> (vw_evts vw) →
  es_bases s' !! b = Some (base_of (a_set e evt' lists' time' vw)) → es_bufs s' = es_bufs s →
  rings lid_ok (lid_hdr b (cfg_arr (vw_cfg vw))) lid_cell (es_list s') lists' →
  live_mono (es_list s) (es_list s') →
  time_tree (es_rb s') b time' →
  (∀ x, is_Some (rb_nodes (es_rb s) !! x) → is_Some (rb_nodes (es_rb s') !! x)) →
  (∀ k x, lid_ok k → x ∈ lists' k ↔
     x = e ∧ in_list k evt' = true ∨ x ≠ e ∧ x ∈ vw_lists vw k) →
  (∀ x, x ∈ time' ↔ x = e ∧ in_time evt' = true ∨ x ≠ e ∧ x ∈ vw_time vw) →
  StronglySorted (deadline_le (<[e:=evt']> (vw_evts vw))) time' →
  (in_time evt' = true → has (evt_flags evt') WBA_EVTLIST_REG = true) →
  rep s' b (a_set e evt' lists' time' vw).
Proof. intros. by eapply (rep_update s s' b vw (a_set e evt' lists' time' vw) e evt evt'). Qed.

(** Projections of explicit states, and the set-up of a step. *)
Ltac es := cbn [es_list es_rb es_evts es_bases es_bufs es_world].
Ltac rep_step Hr He := eapply rep_set; [exact Hr|exact He|try done..]; es.

(** Bits of a flag word after an update with a concrete mask. *)
Ltac flags :=
  unfold in_time, in_list, wants_map; cbn [evt_flags evt_fd evt_events evt_base evt_timeout set_flags set_res set_evt_timeout set_user_timeout];
  rewrite ?has_set, ?has_clear;
  repeat match goal with
    | |- context [has ?m ?m'] =>
        let r := eval vm_compute in (has m m') in
        match r with true => idtac | false => idtac end; change (has m m') with r
    | |- context [Z.land (Z.lnot ?m) ?m'] =>
        let r := eval vm_compute in (Z.land (Z.lnot m) m') in
        match r with 0%Z => change (Z.land (Z.lnot m) m') with 0%Z
        | Zpos _ => change (Z.land (Z.lnot m) m') with m' end
    end;
  rewrite ?has_0, ?orb_false_r, ?orb_true_r.

(** ** The active list *)

Section refine.
Context {W : Type} `{!System W}.
Implicit Types (s : evstate W).

Lemma refine_add_active s b vw e evt res Q :
  rep s b vw → vw_evts vw !! e = Some evt → evt_base evt = b →
  (∀ s', rep s' b (a_activate e res vw) → es_world s' = es_world s → Q () s') →
  wp (event_add_active e res) Q s.
Proof.
  intros Hr He Hb HQ. pose proof (rep_evts _ _ _ Hr) as HE. pose proof (rep_base _ _ _ Hr) as HB.
  unfold event_add_active, a_activate in *. rewrite He in HQ. apply wp_bind.
  eapply wp_get_evt; [by rewrite HE|]. destruct (has (evt_flags evt) WBA_EVTLIST_ACTIVE) eqn:Ha.
  { apply wp_ret. by apply HQ. }
  cbn [negb]. apply wp_bind. eapply wp_upd_evt; [by rewrite HE|].
  apply wp_bind. apply wp_list_op. cbn [es_list]. rewrite Hb.
  pose proof (members_in _ _ _ _ _ _ (rep_lists _ _ _ Hr Active I) He Hb) as Hin.
  simpl in Hin. rewrite Ha in Hin.
  assert (e ∉ vw_lists vw Active) as Hna by naive_solver.
  apply (wp_rings_add_tail lid_ok (lid_hdr b (cfg_arr (vw_cfg vw))) lid_cell _ (vw_lists vw) Active);
    [apply Hr|done| | |].
  { eapply rep_cell_fresh; [done..|by eexists|]. by intros [|] _. }
  { by apply (rep_live _ _ _ Hr e). }
  intros h' Hrings Hlm. apply wp_bind. eapply wp_upd_evt; [apply lookup_insert_eq|].
  es. eapply wp_upd_base; [done|].
  es. apply HQ; [|done].
  rewrite HE, insert_insert_eq.
  rep_step Hr He.
  - rewrite lookup_insert_eq. f_equal. unfold base_of, set_event_count_active, incr32. simpl.
    rewrite slots_total_insert_active, fn_lookup_insert, length_app. simpl.
    rewrite u32_succ. do 2 f_equal. lia.
  - apply Hr.
  - intros k x Hk. destruct k as [i|].
    + rewrite fn_lookup_insert_ne by done. eapply upd_same; [by apply Hr|done..|by flags].
    + rewrite fn_lookup_insert. apply (upd_snoc (P:=in_list Active)); [by flags|done].
  - eapply upd_same; [by apply Hr|done..|by flags].
  - eapply sorted_insert_same; [done..|apply Hr].
  - flags. by apply (rep_flags _ _ _ Hr e).
Qed.

Lemma refine_remove_active s b vw e evt Q :
  rep s b vw → vw_evts vw !! e = Some evt → evt_base evt = b →
  (∀ s', rep s' b (a_deactivate e vw) → es_world s' = es_world s → Q () s') →
  wp (event_remove_active e) Q s.
Proof.
  intros Hr He Hb HQ. pose proof (rep_evts _ _ _ Hr) as HE. pose proof (rep_base _ _ _ Hr) as HB.
  unfold event_remove_active, a_deactivate in *. rewrite He in HQ. apply wp_bind.
  eapply wp_get_evt; [by rewrite HE|]. destruct (has (evt_flags evt) WBA_EVTLIST_ACTIVE) eqn:Ha.
  2: { apply wp_ret. by apply HQ. }
  assert (e ∈ vw_lists vw Active) as Hin.
  { by apply (members_in _ _ _ _ _ _ (rep_lists _ _ _ Hr Active I) He Hb). }
  apply wp_bind, wp_list_op.
  apply (wp_rings_del_init lid_ok (lid_hdr b (cfg_arr (vw_cfg vw))) lid_cell _ (vw_lists vw) Active);
    [apply Hr|done..|].
  intros h' Hrings Hlm. apply wp_bind. eapply wp_upd_evt; [by es; rewrite HE|].
  es. eapply wp_upd_base; [by rewrite Hb|]. es. apply HQ; [|done]. rewrite HE, Hb.
  rep_step Hr He.
  - rewrite lookup_insert_eq. f_equal. unfold base_of, set_event_count_active, decr32. simpl.
    rewrite slots_total_insert_active, fn_lookup_insert.
    rewrite (length_rm e _ (rep_list_NoDup _ _ _ Active Hr I) Hin).
    rewrite u32_pred. do 2 f_equal. lia.
  - apply Hr.
  - intros k x Hk. destruct k as [i|].
    + rewrite fn_lookup_insert_ne by done. eapply upd_same; [by apply Hr|done..|by flags].
    + rewrite fn_lookup_insert. apply (upd_rm (P:=in_list Active)). by flags.
  - eapply upd_same; [by apply Hr|done..|by flags].
  - eapply sorted_insert_same; [done..|apply Hr].
  - flags. by apply (rep_flags _ _ _ Hr e).
Qed.

(** ** The descriptor map *)

(** The state after the caller has written the event's flags. *)
Definition with_flags (f : Z → Z) (e : Z) s : evstate W :=
  EvState (es_list s) (es_rb s) (alter (set_flags f) e (es_evts s)) (es_bases s) (es_bufs s)
    (es_world s).

Lemma wp_get_slot s b vw fd Q :
  rep s b vw → 0 ≤ fd →
  Q (lid_hdr b (cfg_arr (vw_cfg vw)) (Slot (slot_of fd))) s → wp (event_map_get_slot b fd) Q s.
Proof.
  intros Hr Hfd HQ. unfold event_map_get_slot. rewrite bool_decide_false by lia. apply wp_bind.
  eapply wp_get_base; [apply Hr|]. by apply wp_ret.
Qed.

(** What epoll_ctl is asked for. *)
Definition epoll_mask (events : Z) : Z :=
  let ev := if has events WBA_EVT_READ then EPOLLIN else 0 in
  let ev := if has events WBA_EVT_WRITE then Z.lor ev EPOLLOUT else ev in
  if has events WBA_EVT_CLOSED then Z.lor ev EPOLLRDHUP else ev.

Lemma wp_event_register s b vw e evt r w Q :
  rep s b vw → vw_evts vw !! e = Some evt → evt_base evt = b →
  sys_epoll_ctl (cfg_epfd (vw_cfg vw)) EPOLL_CTL_ADD (evt_fd evt)
    (Some (epoll_mask (evt_events evt), evt_fd evt)) (es_world s) = (r, w) →
  (∀ s', same_data s s' → Q (negb (bool_decide (r = -1))) s') →
  wp (event_register e) Q s.
Proof.
  intros Hr He Hb Hc HQ. unfold event_register. apply wp_bind.
  eapply wp_get_evt; [by rewrite (rep_evts _ _ _ Hr)|]. rewrite Hb. apply wp_bind.
  eapply wp_get_base; [apply Hr|]. apply wp_bind. eapply wp_syscall; [exact Hc|].
  case_bool_decide; [apply wp_bind, wp_event_debug; intros s' Hs'|]; by apply wp_ret, HQ.
Qed.

Lemma wp_event_unregister s b vw e evt r w Q :
  rep s b vw → vw_evts vw !! e = Some evt → evt_base evt = b →
  sys_epoll_ctl (cfg_epfd (vw_cfg vw)) EPOLL_CTL_DEL (evt_fd evt) None (es_world s) = (r, w) →
  (∀ s', same_data s s' → Q (negb (bool_decide (r = -1))) s') →
  wp (event_unregister e) Q s.
Proof.
  intros Hr He Hb Hc HQ. unfold event_unregister. apply wp_bind.
  eapply wp_get_evt; [by rewrite (rep_evts _ _ _ Hr)|]. rewrite Hb. apply wp_bind.
  eapply wp_get_base; [apply Hr|]. apply wp_bind. eapply wp_syscall; [exact Hc|].
  case_bool_decide; [apply wp_bind, wp_event_debug; intros s' Hs'|]; by apply wp_ret, HQ.
Qed.

Lemma alter_some (E : gmap Z wba_evt) e f evt : E !! e = Some evt → alter f e E = <[e:=f evt]> E.
Proof.
  intros He. apply map_eq. intros x. destruct (decide (x = e)) as [->|].
  - by rewrite lookup_alter_eq, lookup_insert_eq, He.
  - by rewrite lookup_alter_ne, lookup_insert_ne.
Qed.

(** A registration that only sets the flag, and one that only clears it. *)
Lemma rep_set_reg s b vw e evt :
  rep s b vw → vw_evts vw !! e = Some evt → evt_base evt = b →
  negb (has (evt_flags evt) WBA_EVTLIST_REG) && wants_map evt = false →
  rep (with_flags (set_bits WBA_EVTLIST_REG) e s) b (a_register e vw).
Proof.
  intros Hr He Hb Hw. unfold a_register, with_flags. rewrite He, (rep_evts _ _ _ Hr), Hw.
  rewrite (alter_some _ _ _ _ He). rep_step Hr He.
  - by rewrite (rep_base _ _ _ Hr).
  - apply Hr.
  - apply live_mono_refl.
  - apply Hr.
  - intros k x Hk. eapply upd_same; [by apply Hr|done..|]. destruct k as [i|]; [|by flags].
    flags. unfold wants_map in Hw. destruct (has (evt_flags evt) WBA_EVTLIST_REG); [done|].
    simpl in *. by rewrite Hw.
  - eapply upd_same; [by apply Hr|done..|by flags].
  - eapply sorted_insert_same; [done..|apply Hr].
  - by flags.
Qed.

Lemma rep_clear_reg s b vw e evt :
  rep s b vw → vw_evts vw !! e = Some evt → evt_base evt = b → wants_map evt = false →
  in_time evt = false →
  rep (with_flags (clear_bits WBA_EVTLIST_REG) e s) b (a_unregister e vw).
Proof.
  intros Hr He Hb Hw Ht. unfold a_unregister, with_flags. rewrite He, (rep_evts _ _ _ Hr), Hw.
  rewrite andb_false_r, (alter_some _ _ _ _ He). rep_step Hr He.
  - by rewrite (rep_base _ _ _ Hr).
  - apply Hr.
  - apply live_mono_refl.
  - apply Hr.
  - intros k x Hk. eapply upd_same; [by apply Hr|done..|]. destruct k as [i|]; [|by flags].
    flags. unfold wants_map in Hw. by rewrite Hw, !andb_false_r.
  - eapply upd_same; [by apply Hr|done..|by flags].
  - eapply sorted_insert_same; [done..|apply Hr].
  - flags. unfold in_time in Ht. congruence.
Qed.

(** The result of [event_map_add], as a function of epoll_ctl's answer. *)
Definition map_add_res (vw : evview) (evt : wba_evt) (w : W) : Z :=
  if wants_map evt then
    if bool_decide ((sys_epoll_ctl (cfg_epfd (vw_cfg vw)) EPOLL_CTL_ADD (evt_fd evt)
                       (Some (epoll_mask (evt_events evt), evt_fd evt)) w).1 = -1) then -1 else 1
  else 0.

Definition map_remove_res (vw : evview) (evt : wba_evt) (w : W) : Z :=
  if wants_map evt then
    if bool_decide ((sys_epoll_ctl (cfg_epfd (vw_cfg vw)) EPOLL_CTL_DEL (evt_fd evt) None w).1 = -1)
    then -1 else 1
  else 0.

Lemma not_in_slot b vw s e evt i :
  rep s b vw → vw_evts vw !! e = Some evt → evt_base evt = b →
  has (evt_flags evt) WBA_EVTLIST_REG = false → lid_ok (Slot i) → e ∉ vw_lists vw (Slot i).
Proof.
  intros Hr He Hb Hreg Hi Hin. apply (members_in _ _ _ _ _ _ (rep_lists _ _ _ Hr _ Hi) He Hb) in Hin.
  simpl in Hin. by rewrite Hreg in Hin.
Qed.

Lemma refine_map_add s b vw e evt Q :
  rep s b vw → vw_evts vw !! e = Some evt → evt_base evt = b →
  has (evt_flags evt) WBA_EVTLIST_REG = false →
  (∀ res s', res = map_add_res vw evt (es_world s) → es_evts s' = es_evts s →
     (if bool_decide (res = -1) then rep s' b vw
      else rep (with_flags (set_bits WBA_EVTLIST_REG) e s') b (a_register e vw)) → Q res s') →
  wp (event_map_add e) Q s.
Proof.
  intros Hr He Hb Hreg HQ. unfold event_map_add, map_add_res in *.
  pose proof (rep_set_reg _ _ _ _ _ Hr He Hb) as Hno.
  apply wp_bind. eapply wp_get_evt; [by rewrite (rep_evts _ _ _ Hr)|].
  unfold wants_map in *. rewrite Hreg in Hno. cbn [negb andb] in Hno.
  destruct (decide (evt_fd evt < 0)) as [Hfd|Hfd].
  { rewrite bool_decide_true by done. rewrite bool_decide_false in HQ, Hno by lia.
    apply wp_ret, HQ; [done..|]. by apply Hno. }
  rewrite bool_decide_false by done. rewrite bool_decide_true in HQ, Hno by lia. cbn [andb] in HQ, Hno.
  destruct (has (evt_events evt) IO_EVENTS) eqn:Hio.
  2: { apply wp_ret, HQ; [done..|]. by apply Hno. }
  clear Hno. destruct (sys_epoll_ctl _ _ _ _ _) as [r w] eqn:Hc in HQ. cbn [fst] in HQ.
  apply wp_bind. eapply wp_event_register; [done..|]. intros s1 Hs1.
  pose proof (same_data_rep _ _ _ _ Hr Hs1) as Hr1. rewrite negb_involutive.
  case_bool_decide as Hrm.
  { apply wp_bind, wp_event_debug. intros s2 Hs2. apply wp_ret, HQ; [done| |].
    - apply (same_data_trans _ _ _ Hs1 Hs2).
    - by apply (same_data_rep s1). }
  set (k := Slot (slot_of (evt_fd evt))). assert (lid_ok k) as Hk by apply slot_of_range.
  rewrite Hb. apply wp_bind. eapply wp_get_slot; [done|lia|]. apply wp_bind, wp_list_op.
  pose proof (rep_evts _ _ _ Hr1) as HE1.
  apply (wp_rings_add_tail lid_ok (lid_hdr b (cfg_arr (vw_cfg vw))) lid_cell _ (vw_lists vw) k);
    [apply Hr1|done| | |].
  { eapply rep_cell_fresh; [done..|by eexists|]. intros [i|] ? ?; [|done]. by eapply not_in_slot. }
  { by apply (rep_live _ _ _ Hr1 e). }
  intros h' Hrings Hlm. apply wp_bind. eapply wp_upd_base; [apply Hr1|]. es.
  apply wp_bind. eapply wp_upd_base; [apply lookup_insert_eq|]. es. apply wp_ret, HQ; [done|..].
  { es. apply Hs1. }
  rewrite bool_decide_false by done.
  unfold a_register, with_flags. es. rewrite He, Hreg, HE1, (alter_some _ _ _ _ He).
  unfold wants_map. rewrite bool_decide_true, Hio by lia. cbn [negb andb]. fold k.
  rep_step Hr1 He.
  - rewrite lookup_insert_eq. f_equal. unfold base_of, set_used, set_event_count, incr32, k. simpl.
    rewrite slots_total_insert, length_app, !u32_succ by apply slot_of_range. simpl.
    f_equal; try done; f_equal; lia.
  - apply Hr1.
  - intros k' x Hk'. destruct (decide (k' = k)) as [->|Hne].
    + rewrite fn_lookup_insert. apply (upd_snoc (P:=in_list k)).
      * unfold k. flags. by rewrite bool_decide_true, Hio, bool_decide_true by (lia || done).
      * by eapply not_in_slot.
    + rewrite fn_lookup_insert_ne by done. eapply upd_same; [by apply Hr1|done..|].
      destruct k' as [i|]; [|by flags]. flags. rewrite (bool_decide_false (slot_of _ = i)).
      * by rewrite !andb_false_r.
      * intros <-. done.
  - eapply upd_same; [by apply Hr1|done..|by flags].
  - eapply sorted_insert_same; [done..|apply Hr1].
  - by flags.
Qed.

Lemma refine_map_remove s b vw e evt Q :
  rep s b vw → vw_evts vw !! e = Some evt → evt_base evt = b →
  has (evt_flags evt) WBA_EVTLIST_REG = true → in_time evt = false →
  (∀ s', es_evts s' = es_evts s →
     rep (with_flags (clear_bits WBA_EVTLIST_REG) e s') b (a_unregister e vw) →
     Q (map_remove_res vw evt (es_world s)) s') →
  wp (event_map_remove e) Q s.
Proof.
  intros Hr He Hb Hreg Htm HQ. unfold event_map_remove, map_remove_res in *.
  pose proof (rep_clear_reg _ _ _ _ _ Hr He Hb) as Hno.
  apply wp_bind. eapply wp_get_evt; [by rewrite (rep_evts _ _ _ Hr)|].
  unfold wants_map in *. destruct (decide (evt_fd evt < 0)) as [Hfd|Hfd].
  { rewrite bool_decide_true by done. rewrite bool_decide_false in HQ, Hno by lia.
    apply wp_ret, HQ; auto. }
  rewrite bool_decide_false by done. rewrite bool_decide_true in HQ, Hno by lia. cbn [andb] in HQ, Hno.
  destruct (has (evt_events evt) IO_EVENTS) eqn:Hio.
  2: { apply wp_ret, HQ; auto. }
  clear Hno. destruct (sys_epoll_ctl _ _ _ _ _) as [r w] eqn:Hc in HQ. cbn [fst] in HQ.
  apply wp_bind. eapply wp_event_unregister; [done..|]. intros s1 Hs1. rewrite negb_involutive.
  apply wp_bind.
  assert (∀ Q', (∀ s2, same_data s1 s2 → Q' (if bool_decide (r = -1) then -1 else 1) s2) →
    wp (if bool_decide (r = -1) then event_debug;; mret (-1) else mret 1) Q' s1) as Hres.
  { intros Q' HQ'. case_bool_decide; [apply wp_bind, wp_event_debug; intros|]; by apply wp_ret, HQ'. }
  apply Hres. intros s2 Hs2. clear Hres.
  pose proof (same_data_trans _ _ _ Hs1 Hs2) as Hs. pose proof (same_data_rep _ _ _ _ Hr Hs) as Hr1.
  pose proof (rep_evts _ _ _ Hr1) as HE1.
  set (k := Slot (slot_of (evt_fd evt))). assert (lid_ok k) as Hk by apply slot_of_range.
  assert (in_list k evt = true) as Hlk.
  { unfold k. simpl. unfold wants_map. by rewrite Hreg, Hio, !bool_decide_true by (lia || done). }
  assert (e ∈ vw_lists vw k) as Hin.
  { by apply (members_in _ _ _ _ _ _ (rep_lists _ _ _ Hr1 k Hk) He Hb). }
  apply wp_bind, wp_list_op.
  apply (wp_rings_del_init lid_ok (lid_hdr b (cfg_arr (vw_cfg vw))) lid_cell _ (vw_lists vw) k);
    [apply Hr1|done..|].
  intros h' Hrings Hlm. rewrite Hb. apply wp_bind. eapply wp_upd_base; [apply Hr1|]. es.
  apply wp_bind. eapply wp_upd_base; [apply lookup_insert_eq|]. es. apply wp_ret, HQ.
  { es. apply Hs. }
  unfold a_unregister, with_flags. es. rewrite He, Hreg, HE1, (alter_some _ _ _ _ He).
  unfold wants_map. rewrite bool_decide_true, Hio by lia. cbn [negb andb]. fold k.
  rep_step Hr1 He.
  - rewrite lookup_insert_eq. f_equal. unfold base_of, set_used, set_event_count, decr32, k. simpl.
    rewrite slots_total_insert, !u32_pred by apply slot_of_range. fold k.
    rewrite (length_rm e _ (rep_list_NoDup _ _ _ k Hr1 Hk) Hin).
    f_equal; try done; f_equal; lia.
  - apply Hr1.
  - intros k' x Hk'. destruct (decide (k' = k)) as [->|Hne].
    + rewrite fn_lookup_insert. apply (upd_rm (P:=in_list k)). unfold k. by flags.
    + rewrite fn_lookup_insert_ne by done. eapply upd_same; [by apply Hr1|done..|].
      destruct k' as [i|]; [|by flags]. flags. rewrite (bool_decide_false (slot_of _ = i)).
      * by rewrite !andb_false_r.
      * intros <-. done.
  - eapply upd_same; [by apply Hr1|done..|by flags].
  - eapply sorted_insert_same; [done..|apply Hr1].
  - flags. unfold in_time in Htm. congruence.
Qed.

End refine.
