(* ===== verification/EvTree.v ===== *)
(** * The timeout tree of the event loop

    [event_add_timeout] inserts an event behind the equal deadlines of the
    firing order, [event_remove_timeout] takes it out; both keep the red-black
    tree and every other part of the base. *)

From stdpp Require Import gmap numbers functions sorting list.
From S2P Require Import Prelude ListH RbNode RbTree RbZip RbInv RbInsert RbErase RbIter.
From S2P Require Import EvTime Rings EvLoop EvInv EvOps.

Local Open Scope Z_scope.

(** ** Trees over event nodes *)

Lemma height_length t : (height t ≤ length (inorder t))%nat.
Proof. induction t as [|c l IHl x r IHr]; simpl; [lia|]. rewrite length_app. simpl. lia. Qed.

Lemma tree_at_live h par t x : tree_at h par t → x ∈ inorder t → is_Some (h !! x).
Proof.
  revert par. induction t as [|c l IHl p r IHr]; intros par; simpl; [set_solver|].
  intros (Hp & Hl & Hr). rewrite elem_of_app, elem_of_cons. intros [Hx|[->|Hx]]; eauto.
Qed.

(** Nodes of a rewritten tree stay live, and so do all others. *)
Lemma tree_live_mono s s' root t' X :
  is_rbtree s' root t' → same_outside X root s s' → X ⊆ inorder t' →
  ∀ x, is_Some (rb_nodes s !! x) → is_Some (rb_nodes s' !! x).
Proof.
  intros [(_ & Ht & _) _] [Ha _] HX x Hx. destruct (decide (x ∈ X)) as [Hin|Hn].
  - eapply tree_at_live; [done|]. by apply HX.
  - by rewrite Ha.
Qed.

Lemma rb_entry_time_node e : rb_entry (evt_time_node e) = e.
Proof. unfold rb_entry, evt_time_node. lia. Qed.

#[global] Instance evt_time_node_inj : Inj (=) (=) evt_time_node.
Proof. intros x y. unfold evt_time_node. lia. Qed.

Lemma time_node_aligned e :
  0 < e → e + sizeof_wba_evt ≤ 2 ^ 64 → (8 | e) → good_addr (evt_time_node e).
Proof.
  intros Hpos Hmax [q ->]. unfold sizeof_wba_evt, good_addr, aligned, evt_time_node, off_evt_time_node, NULL in *.
  split_and!; [lia..|]. change 3 with (Z.ones 2). rewrite Z.land_ones by lia.
  replace (q * 8 + 16) with ((q * 2 + 4) * 2 ^ 2) by lia. by apply Z.mod_mul.
Qed.

Lemma fmap_split {A B} (f : A → B) l (l1 l2 : list B) :
  f <$> l = l1 ++ l2 → ∃ k1 k2, l = k1 ++ k2 ∧ l1 = f <$> k1 ∧ l2 = f <$> k2.
Proof. intros H. apply fmap_app_inv in H as (k1 & k2 & -> & -> & ->). eauto. Qed.

(** ** The firing order *)

Lemma time_insert_split E t e l1 l2 :
  Forall (λ x, ¬ event_timecmp t (tmo E x) < 0) l1 →
  Forall (λ x, event_timecmp t (tmo E x) < 0) l2 →
  time_insert E t e (l1 ++ l2) = l1 ++ e :: l2.
Proof.
  intros H1 H2. induction H1 as [|x l1 Hx _ IH]; simpl.
  - destruct H2 as [|x l2 Hx _]; [done|]. simpl. by rewrite bool_decide_true.
  - by rewrite bool_decide_false, IH.
Qed.

Lemma elem_of_time_insert E t e l x : x ∈ time_insert E t e l ↔ x = e ∨ x ∈ l.
Proof.
  induction l as [|y l IH]; simpl; [set_solver|]. case_bool_decide; set_solver.
Qed.

Lemma length_time_insert E t e l : length (time_insert E t e l) = S (length l).
Proof. induction l as [|y l IH]; simpl; [done|]. case_bool_decide; simpl; lia. Qed.

(** Inserting by the comparison keeps the order sorted. *)
Lemma time_insert_sorted E e evt l :
  e ∉ l → StronglySorted (deadline_le E) l →
  StronglySorted (deadline_le (<[e:=evt]> E)) (time_insert E (evt_timeout evt) e l).
Proof.
  intros He. induction 1 as [|x l Hs IH Hx]; simpl.
  { repeat constructor. }
  apply not_elem_of_cons in He as [Hne He]. specialize (IH He). rewrite Forall_forall in Hx.
  case_bool_decide as Hlt.
  - apply event_timecmp_lt in Hlt. constructor.
    + apply sorted_insert_fresh; [set_solver|]. constructor; [done|]. by rewrite Forall_forall.
    + apply Forall_forall. intros y Hy. unfold deadline_le. rewrite tmo_insert, tmo_insert_ne by set_solver.
      transitivity (tmo E x); [by destruct (total tv_le (evt_timeout evt) (tmo E x))|].
      apply elem_of_cons in Hy as [->|Hy]; [done|]. by apply Hx.
  - constructor; [done|]. apply Forall_forall. intros y [->|Hy]%elem_of_time_insert.
    + unfold deadline_le. rewrite tmo_insert, tmo_insert_ne by done.
      rewrite event_timecmp_lt in Hlt. by apply dec_stable.
    + unfold deadline_le. rewrite !tmo_insert_ne by set_solver. by apply Hx.
Qed.

(** ** Removing a timeout *)

Section tree_refine.
Context {W : Type} `{!System W}.
Implicit Types (s : evstate W).

Lemma rep_tree_height s b vw t :
  rep s b vw → inorder t = evt_time_node <$> vw_time vw → (height t ≤ size (vw_evts vw))%nat.
Proof.
  intros Hr Ht. pose proof (height_length t) as Hh. rewrite Ht, length_fmap in Hh.
  pose proof (rep_time_length _ _ _ Hr). lia.
Qed.

Lemma refine_remove_timeout s b vw e evt fuel Q :
  rep s b vw → vw_evts vw !! e = Some evt → evt_base evt = b → (size (vw_evts vw) < fuel)%nat →
  (∀ s', rep s' b (a_unschedule e vw) → es_world s' = es_world s → Q () s') →
  wp (event_remove_timeout fuel e) Q s.
Proof.
  intros Hr He Hb Hfuel HQ. pose proof (rep_evts _ _ _ Hr) as HE.
  unfold event_remove_timeout, a_unschedule in *. rewrite He in HQ. apply wp_bind.
  eapply wp_get_evt; [by rewrite HE|]. destruct (has (evt_flags evt) WBA_EVTLIST_TIMEOUT) eqn:Ha.
  2: { apply wp_ret. by apply HQ. }
  assert (e ∈ vw_time vw) as Hin by (by apply (members_in _ _ _ _ _ _ (rep_time _ _ _ Hr) He Hb)).
  pose proof (rep_time_NoDup _ _ _ Hr) as Hnd. pose proof Hin as (l1 & l2 & Hl)%list_elem_of_split.
  destruct (rep_tree _ _ _ Hr) as (t & Ht & Hto). rewrite Hl, fmap_app, fmap_cons in Hto.
  apply wp_bind, wp_rb_op. rewrite Hb.
  eapply wp_mono; [eapply rb_erase_correct; [done..|]|].
  { rewrite <-fmap_cons, <-fmap_app, <-Hl in Hto.
    pose proof (rep_tree_height _ _ _ _ Hr Hto). lia. }
  intros [] rb' (t' & Ht' & Hto' & Hout). apply wp_bind. eapply wp_upd_evt; [by es; rewrite HE|]. es.
  eapply wp_upd_base; [apply Hr|]. es. apply HQ; [|done]. rewrite HE. rep_step Hr He.
  - rewrite lookup_insert_eq. f_equal. unfold base_of, set_event_count, decr32. simpl.
    rewrite u32_pred. do 2 f_equal. rewrite (length_rm e _ Hnd Hin). lia.
  - apply Hr.
  - apply live_mono_refl.
  - exists t'. split; [done|]. rewrite Hto', Hl, rm_split by (by rewrite <-Hl). by rewrite fmap_app.
  - eapply tree_live_mono; [done..|]. by rewrite Hto'.
  - intros k x Hk. eapply upd_same; [by apply Hr|done..|]. destruct k; by flags.
  - apply (upd_rm (P:=in_time)). by flags.
  - eapply sorted_insert_same; [done..|]. apply sorted_rm, Hr.
  - by flags.
Qed.

(** ** Adding a timeout *)

Lemma wp_load_link rb root k t Q :
  zip_at rb root k t → Q (root_of t) rb → wp (load_link (link_of root k)) Q rb.
Proof.
  intros Hz HQ. destruct k as [|[[] c p sib] k]; simpl.
  - by eapply wp_zip_get_root.
  - by apply (wp_zip_child (zip_up Hz)).
  - by apply (wp_zip_child (zip_up Hz)).
Qed.

(** The node a node address belongs to, in the firing order. *)
Definition node_le (E : gmap Z wba_evt) (x y : Z) : Prop := deadline_le E (rb_entry x) (rb_entry y).

Lemma node_sorted E l :
  StronglySorted (deadline_le E) l → StronglySorted (node_le E) (evt_time_node <$> l).
Proof.
  induction 1 as [|x l Hs IH Hx]; simpl; constructor; [done|].
  apply Forall_forall. intros y (z & -> & Hz)%list_elem_of_fmap. unfold node_le.
  rewrite !rb_entry_time_node. rewrite Forall_forall in Hx. auto.
Qed.

(** The search reaches the place of the new deadline: everything before the
    hole fires no later than it, everything after fires strictly later. *)
Definition split_at (E : gmap Z wba_evt) (tm : timeval) (k : ctx) : Prop :=
  (∀ x, x ∈ ctx_pre k → ¬ event_timecmp tm (tmo E (rb_entry x)) < 0) ∧
  (∀ x, x ∈ ctx_post k → event_timecmp tm (tmo E (rb_entry x)) < 0).

Lemma split_at_left E tm k c l x r :
  StronglySorted (node_le E) (inorder (plug k (T c l x r))) → split_at E tm k →
  event_timecmp tm (tmo E (rb_entry x)) < 0 → split_at E tm (Frame L c x r :: k).
Proof.
  rewrite inorder_plug. simpl. rewrite <-app_assoc. simpl. intros Hs [Hpre Hpost] Hx.
  split; [done|]. intros y. simpl. rewrite elem_of_cons, elem_of_app.
  intros [->|[Hy|Hy]]; [done| |by apply Hpost].
  rewrite app_assoc in Hs. apply StronglySorted_app in Hs as (_ & _ & Hs).
  apply StronglySorted_inv in Hs as [_ Hs]. rewrite Forall_forall in Hs.
  specialize (Hs y ltac:(set_solver)). unfold node_le, deadline_le in Hs.
  apply event_timecmp_lt. apply event_timecmp_lt in Hx. intros Hle. apply Hx. by etransitivity.
Qed.

Lemma split_at_right E tm k c l x r :
  StronglySorted (node_le E) (inorder (plug k (T c l x r))) → split_at E tm k →
  ¬ event_timecmp tm (tmo E (rb_entry x)) < 0 → split_at E tm (Frame R c x l :: k).
Proof.
  rewrite inorder_plug. simpl. rewrite <-app_assoc. simpl. intros Hs [Hpre Hpost] Hx.
  split; [|done]. intros y. simpl. rewrite !elem_of_app, list_elem_of_singleton.
  intros [Hy|[Hy| ->]]; [by apply Hpre| |done].
  apply StronglySorted_app in Hs as (_ & _ & Hs).
  apply StronglySorted_app in Hs as (Hs & _ & _).
  specialize (Hs y x Hy ltac:(set_solver)). unfold node_le, deadline_le in Hs.
  rewrite event_timecmp_lt in Hx |- *. apply dec_stable in Hx. intros Hn. apply Hn. by etransitivity.
Qed.

(** The search loop of [event_add_timeout]. *)
Lemma wp_timeout_search s b vw new evt t fuel Q :
  rep s b vw → vw_evts vw !! new = Some evt →
  is_rbtree (es_rb s) (evt_time_root b) t → inorder t = evt_time_node <$> vw_time vw →
  (height t < fuel)%nat →
  (∀ k, zip_at (es_rb s) (evt_time_root b) k E → plug k E = t →
     split_at (vw_evts vw) (evt_timeout evt) k →
     Q (ctx_parent k, link_of (evt_time_root b) k) s) →
  wp (loop fuel (λ '(parent, link),
        n ← zoom (load_link link);
        if nonnull n then
          let parent := n in
          evt ← get_evt (rb_entry parent);
          nevt ← get_evt new;
          if bool_decide (event_timecmp (evt_timeout nevt) (evt_timeout evt) < 0)
          then mret (inl (parent, LinkLeft n))
          else mret (inl (parent, LinkRight n))
        else mret (inr (parent, link))) (NULL, LinkRoot (evt_time_root b))) Q s.
Proof.
  intros Hr He [Hz Hv] Hto Hfuel HQ. set (root := evt_time_root b) in *.
  pose proof (rep_evts _ _ _ Hr) as HE.
  assert (StronglySorted (node_le (vw_evts vw)) (inorder t)) as Hs
    by (rewrite Hto; apply node_sorted, Hr).
  apply (wp_loop_variant (λ m '(parent, link) s', s' = s ∧ ∃ k t', parent = ctx_parent k ∧
    link = link_of root k ∧ m = height t' ∧ zip_at (es_rb s) root k t' ∧ plug k t' = t ∧
    split_at (vw_evts vw) (evt_timeout evt) k)) with (m := height t); [|done|].
  2: { split; [done|]. exists [], t. split_and!; try done; split; set_solver. }
  intros m [parent link] s' (-> & k & t' & -> & -> & -> & Hz' & Hplug & Hsplit).
  apply wp_bind. eapply (wp_rb_read _ _ (root_of t')); [by eapply wp_load_link|].
  rewrite (zip_nonnull _ _ _ _ Hz'). destruct t' as [|c l x r].
  { apply wp_ret. by apply HQ. }
  rewrite bool_decide_true by done. cbn [root_of].
  assert (∃ x' xevt, x = evt_time_node x' ∧ vw_evts vw !! x' = Some xevt) as (x' & xevt & -> & Hx').
  { assert (x ∈ inorder t) as Hx by (rewrite <-Hplug, inorder_plug; set_solver).
    rewrite Hto in Hx. apply list_elem_of_fmap in Hx as (x' & -> & Hx').
    apply (rep_time _ _ _ Hr) in Hx' as (xevt & Hxe & _). eauto. }
  assert (tmo (vw_evts vw) x' = evt_timeout xevt) as Htx by (unfold tmo; by rewrite Hx').
  rewrite rb_entry_time_node. apply wp_bind. eapply wp_get_evt; [by rewrite HE|].
  apply wp_bind. eapply wp_get_evt; [by rewrite HE|]. rewrite <-Hplug in Hs.
  case_bool_decide as Hlt; apply wp_ret.
  - exists (height l). split; [simpl; lia|]. split; [done|].
    exists (Frame L c (evt_time_node x') r :: k), l. split_and!; try done.
    + by apply zip_into.
    + eapply split_at_left; [done..|]. by rewrite rb_entry_time_node, Htx.
  - exists (height r). split; [simpl; lia|]. split; [done|].
    exists (Frame R c (evt_time_node x') l :: k), r. split_and!; try done.
    + by apply zip_into.
    + eapply split_at_right; [done..|]. by rewrite rb_entry_time_node, Htx.
Qed.

(** At such a place the two halves are what [time_insert] finds. *)
Lemma split_at_insert E tm e tl k :
  ctx_pre k ++ ctx_post k = evt_time_node <$> tl → split_at E tm k →
  ctx_pre k ++ evt_time_node e :: ctx_post k = evt_time_node <$> time_insert E tm e tl.
Proof.
  intros Hk [Hpre Hpost]. symmetry in Hk. apply fmap_split in Hk as (l1 & l2 & -> & H1 & H2).
  rewrite time_insert_split; [by rewrite fmap_app, H1, H2|..]; apply Forall_forall; intros x Hx;
    rewrite <-(rb_entry_time_node x); [apply Hpre; rewrite H1|apply Hpost; rewrite H2]; set_solver.
Qed.

Lemma refine_add_timeout s b vw e evt fuel Q :
  rep s b vw → vw_evts vw !! e = Some evt → evt_base evt = b → (size (vw_evts vw) < fuel)%nat →
  has (evt_flags evt) WBA_EVTLIST_REG = true →
  (∀ s', rep s' b (a_schedule e vw) → es_world s' = es_world s → Q () s') →
  wp (event_add_timeout fuel e) Q s.
Proof.
  intros Hr He Hb Hfuel Hreg HQ. pose proof (rep_evts _ _ _ Hr) as HE.
  unfold event_add_timeout, a_schedule in *. rewrite He in HQ. apply wp_bind.
  eapply wp_get_evt; [by rewrite HE|]. destruct (has (evt_flags evt) WBA_EVTLIST_TIMEOUT) eqn:Ha.
  { apply wp_ret. by apply HQ. }
  assert (e ∉ vw_time vw) as Hnin.
  { intros Hin. apply (members_in _ _ _ _ _ _ (rep_time _ _ _ Hr) He Hb) in Hin.
    unfold in_time in Hin. congruence. }
  destruct (rep_tree _ _ _ Hr) as (t & Ht & Hto).
  pose proof (rep_tree_height _ _ _ _ Hr Hto) as Hh. rewrite Hb. apply wp_bind.
  eapply wp_timeout_search; [done..|lia|]. intros k Hz Hplug Hsplit. cbn [fst snd].
  assert (evt_time_node e ∉ inorder (plug k E)) as Hfresh.
  { rewrite Hplug, Hto. intros (x & Hx & Hin)%list_elem_of_fmap. apply (inj _) in Hx. by subst x. }
  assert (ctx_pre k ++ ctx_post k = evt_time_node <$> vw_time vw) as Hk.
  { by rewrite <-Hto, <-Hplug, inorder_plug. }
  pose proof (split_at_insert _ _ e _ _ Hk Hsplit) as Hins.
  apply wp_bind, wp_rb_op. eapply wp_mono; [eapply rb_link_node_spec; [done| |done|]|].
  { destruct (lay_evt _ _ _ (rep_layout _ _ _ Hr) e) as (? & ? & ?); [by eexists|].
    by apply time_node_aligned. }
  { apply (rep_live _ _ _ Hr e). by eexists. }
  intros [] rb1 [Hz1 Hs1]. apply wp_bind, wp_rb_op. es.
  eapply wp_mono; [eapply rb_insert_color_spec; [done| |]|].
  { rewrite Hplug. apply Ht. }
  { pose proof (length_ctx_height k E) as Hl. rewrite Hplug in Hl. lia. }
  intros [] rb2 (t2 & Ht2 & Hto2 & Hs2). rewrite inorder_plug in Hto2. simpl in Hto2.
  rewrite Hins in Hto2.
  apply wp_bind. eapply wp_upd_evt; [by es; rewrite HE|]. es.
  eapply wp_upd_base; [apply Hr|]. es. apply HQ; [|done]. rewrite HE. rep_step Hr He.
  - rewrite lookup_insert_eq. f_equal. unfold base_of, set_event_count, incr32. simpl.
    rewrite u32_succ. do 2 f_equal. rewrite length_time_insert. lia.
  - apply Hr.
  - apply live_mono_refl.
  - exists t2. done.
  - assert (same_outside (inorder t2) (evt_time_root b) (es_rb s) rb2) as Hs.
    { eapply same_outside_trans; [|done]. eapply same_outside_weaken; [done|].
      rewrite Hplug, Hto, Hto2. intros x Hx. apply list_elem_of_fmap.
      apply elem_of_cons in Hx as [->|(y & -> & Hy)%list_elem_of_fmap];
        eexists; (split; [done|]); apply elem_of_time_insert; auto. }
    eapply tree_live_mono; done.
  - intros k' x Hk'. eapply upd_same; [by apply Hr|done..|]. destruct k'; by flags.
  - intros x. rewrite elem_of_time_insert. flags. destruct (decide (x = e)) as [->|]; tauto.
  - apply (time_insert_sorted _ _ (set_flags (set_bits WBA_EVTLIST_TIMEOUT) evt)); [done|apply Hr].
  - flags. by rewrite Hreg.
Qed.

End tree_refine.
