(* ===== verification/EvApi.v ===== *)
(** * Adding, deleting and freeing events

    [event_add] and [event_del] as compositions of the abstract operations, and
    the allocation of events and bases. *)

From stdpp Require Import gmap numbers functions sorting list.
From S2P Require Import Prelude ListH RbNode RbTree RbZip RbInv.
From S2P Require Import EvTime Rings EvLoop EvInv EvOps EvTree.

Local Open Scope Z_scope.

(** ** Events after an abstract operation *)

Lemma clear_bits_id m x : has x m = false → clear_bits m x = x.
Proof.
  unfold has, clear_bits. intros H%negb_false_iff%bool_decide_eq_true. apply Z.bits_inj'. intros i Hi.
  rewrite Z.land_spec, Z.lnot_spec by done.
  assert (Z.testbit (Z.land x m) i = false) as Hb by (by rewrite H, Z.bits_0).
  rewrite Z.land_spec in Hb. destruct (Z.testbit x i), (Z.testbit m i); done.
Qed.

Lemma set_flags_id f evt : f (evt_flags evt) = evt_flags evt → set_flags f evt = evt.
Proof. intros Hf. unfold set_flags. rewrite Hf. by destruct evt. Qed.

Lemma insert_self (E : gmap Z wba_evt) e evt : E !! e = Some evt → <[e:=evt]> E = E.
Proof. apply insert_id. Qed.

Lemma alter_none (E : gmap Z wba_evt) e f : E !! e = None → alter f e E = E.
Proof.
  intros He. apply map_eq. intros x. destruct (decide (x = e)) as [->|].
  - by rewrite lookup_alter_eq, He.
  - by rewrite lookup_alter_ne.
Qed.

Lemma a_unschedule_evts e vw :
  vw_evts (a_unschedule e vw) = alter (set_flags (clear_bits WBA_EVTLIST_TIMEOUT)) e (vw_evts vw).
Proof.
  unfold a_unschedule. destruct (vw_evts vw !! e) as [evt|] eqn:He.
  - rewrite (alter_some _ _ _ _ He). destruct (has _ _) eqn:Hh; [done|].
    rewrite set_flags_id by (by apply clear_bits_id). by rewrite insert_self.
  - by rewrite alter_none by done.
Qed.

Lemma a_deactivate_evts e vw :
  vw_evts (a_deactivate e vw) = alter (set_flags (clear_bits WBA_EVTLIST_ACTIVE)) e (vw_evts vw).
Proof.
  unfold a_deactivate. destruct (vw_evts vw !! e) as [evt|] eqn:He.
  - rewrite (alter_some _ _ _ _ He). destruct (has _ _) eqn:Hh; [done|].
    rewrite set_flags_id by (by apply clear_bits_id). by rewrite insert_self.
  - by rewrite alter_none by done.
Qed.

Lemma a_unregister_evts e vw :
  vw_evts (a_unregister e vw) = alter (set_flags (clear_bits WBA_EVTLIST_REG)) e (vw_evts vw).
Proof.
  unfold a_unregister. destruct (vw_evts vw !! e) as [evt|] eqn:He.
  - by rewrite (alter_some _ _ _ _ He).
  - by rewrite alter_none by done.
Qed.

Lemma a_register_evts e vw :
  vw_evts (a_register e vw) = alter (set_flags (set_bits WBA_EVTLIST_REG)) e (vw_evts vw).
Proof.
  unfold a_register. destruct (vw_evts vw !! e) as [evt|] eqn:He.
  - by rewrite (alter_some _ _ _ _ He).
  - by rewrite alter_none by done.
Qed.

(** [event_del] as one abstract step. *)
Definition a_del (e : Z) (vw : evview) : evview :=
  let vw1 := a_deactivate e (a_unschedule e vw) in
  match vw_evts vw !! e with
  | Some evt => if has (evt_flags evt) WBA_EVTLIST_REG then a_unregister e vw1 else vw1
  | None => vw1
  end.

(** What is left of the flags. *)
Definition idle (f : Z) : Z :=
  clear_bits WBA_EVTLIST_REG (clear_bits WBA_EVTLIST_ACTIVE (clear_bits WBA_EVTLIST_TIMEOUT f)).

Lemma a_del_evts e vw : vw_evts (a_del e vw) = alter (set_flags idle) e (vw_evts vw).
Proof.
  unfold a_del. destruct (vw_evts vw !! e) as [evt|] eqn:He.
  - assert (∀ f g, alter (set_flags f) e (<[e:=set_flags g evt]> (vw_evts vw)) =
      <[e:=set_flags (f ∘ g) evt]> (vw_evts vw)) as Hcomp.
    { intros f g. rewrite (alter_some _ _ _ _ (lookup_insert_eq _ _ _)), insert_insert_eq. done. }
    rewrite (alter_some _ _ _ _ He). destruct (has (evt_flags evt) WBA_EVTLIST_REG) eqn:Hreg.
    + rewrite a_unregister_evts, a_deactivate_evts, a_unschedule_evts, (alter_some _ _ _ _ He).
      rewrite !Hcomp. done.
    + rewrite a_deactivate_evts, a_unschedule_evts, (alter_some _ _ _ _ He), Hcomp.
      f_equal. unfold set_flags, compose, idle. f_equal. symmetry. apply clear_bits_id.
      rewrite !has_clear. done.
  - rewrite a_deactivate_evts, a_unschedule_evts. by rewrite !alter_none by (by rewrite ?alter_none).
Qed.

(** Return value of [event_del], up to epoll's answer. *)
Definition del_res `{!System W} (vw : evview) (evt : wba_evt) (res : Z) : Prop :=
  if has (evt_flags evt) WBA_EVTLIST_REG then ∃ w, res = Z.max 0 (map_remove_res vw evt w)
  else if has (evt_flags evt) WBA_EVTLIST_ACTIVE then res = 0
  else res = 1.

Section api.
Context {W : Type} `{!System W}.
Implicit Types (s : evstate W).

Lemma size_alter (E : gmap Z wba_evt) f e : size (alter f e E) = size E.
Proof. by rewrite <-!size_dom, dom_alter_L. Qed.

Lemma a_unschedule_cfg e vw : vw_cfg (a_unschedule e vw) = vw_cfg vw.
Proof. unfold a_unschedule. destruct (vw_evts vw !! e); [|done]. by destruct (has _ _). Qed.
Lemma a_deactivate_cfg e vw : vw_cfg (a_deactivate e vw) = vw_cfg vw.
Proof. unfold a_deactivate. destruct (vw_evts vw !! e); [|done]. by destruct (has _ _). Qed.

(** The command [upd_evt] that the caller of the map functions runs. *)
Lemma wp_upd_flags s e f evt Q :
  es_evts s !! e = Some evt → Q () (with_flags f e s) → wp (upd_evt e (set_flags f)) Q s.
Proof.
  intros He HQ. eapply wp_upd_evt; [done|]. unfold with_flags in HQ. by rewrite (alter_some _ _ _ _ He) in HQ.
Qed.

Lemma rep_evt_nonnull s b vw e : rep s b vw → is_Some (vw_evts vw !! e) → e ≠ NULL ∧ b ≠ NULL.
Proof.
  intros Hr He. destruct (lay_evt _ _ _ (rep_layout _ _ _ Hr) e He) as [? _].
  destruct (lay_pos _ _ _ (rep_layout _ _ _ Hr)) as [? _]. unfold NULL. lia.
Qed.

(** [if (flag) op;] where [op] tests the flag again. *)
Lemma wp_if_guard {A} (c : bool) (m : cmd (evstate W) A) a Q s :
  (c = true → wp m Q s) → (c = false → Q a s) → wp (if c then m else mret a) Q s.
Proof. intros Ht Hf. destruct c; [auto|]. by apply wp_ret, Hf. Qed.

Lemma refine_event_del s b vw e evt fuel Q :
  rep s b vw → vw_evts vw !! e = Some evt → evt_base evt = b → (size (vw_evts vw) < fuel)%nat →
  (∀ res s', rep s' b (a_del e vw) → del_res vw evt res → Q res s') →
  wp (event_del fuel e) Q s.
Proof.
  intros Hr He Hb Hfuel HQ. destruct (rep_evt_nonnull _ _ _ e Hr) as [Hen Hbn]; [by eexists|].
  unfold event_del, del_res in *. rewrite bool_decide_false by done. apply wp_bind.
  eapply wp_get_evt; [by rewrite (rep_evts _ _ _ Hr)|]. rewrite Hb, bool_decide_false by done.
  apply wp_bind, wp_event_debug. intros s1 Hs1. pose proof (same_data_rep _ _ _ _ Hr Hs1) as Hr1.
  rewrite has_or_r. unfold a_del in HQ. rewrite He in HQ.
  assert (a_unschedule e vw = vw ∨ in_time evt = true) as Htm.
  { unfold a_unschedule. rewrite He. unfold in_time. destruct (has (evt_flags evt) WBA_EVTLIST_TIMEOUT); [by right|by left]. }
  assert (wp (if has (evt_flags evt) WBA_EVTLIST_TIMEOUT then event_remove_timeout fuel e else mret ())
    (λ _ s', rep s' b (a_unschedule e vw)) s1) as Hun.
  { apply wp_if_guard.
    - intros _. by eapply refine_remove_timeout.
    - intros Ht. destruct Htm as [->|Htm]; [done|]. unfold in_time in Htm. congruence. }
  destruct (has (evt_flags evt) WBA_EVTLIST_REG || has (evt_flags evt) WBA_EVTLIST_ACTIVE) eqn:Hany;
    cbn [negb].
  2: { apply orb_false_iff in Hany as [Hreg Hact]. rewrite Hreg, Hact in HQ.
       apply wp_bind, wp_event_debug. intros s2 Hs2. apply wp_ret, HQ; [|done].
       assert (a_deactivate e (a_unschedule e vw) = vw) as ->; [|by apply (same_data_rep s1)].
       destruct Htm as [->|Htm].
       - unfold a_deactivate. by rewrite He, Hact.
       - apply (rep_flags _ _ _ Hr e) in Htm; congruence. }
  apply wp_bind. eapply wp_mono; [exact Hun|]. intros [] s2 Hr2. clear Hun.
  set (evt2 := set_flags (clear_bits WBA_EVTLIST_TIMEOUT) evt).
  assert (vw_evts (a_unschedule e vw) !! e = Some evt2) as He2
    by (by rewrite a_unschedule_evts, lookup_alter_eq, He).
  apply wp_bind. eapply wp_get_evt; [by rewrite (rep_evts _ _ _ Hr2)|].
  apply wp_bind. apply wp_mono with (Q := λ _ s', rep s' b (a_deactivate e (a_unschedule e vw))).
  { apply wp_if_guard.
    - intros _. by eapply refine_remove_active.
    - intros Ha. unfold a_deactivate. by rewrite He2, Ha. }
  intros [] s3 Hr3. set (evt3 := set_flags (clear_bits WBA_EVTLIST_ACTIVE) evt2).
  assert (vw_evts (a_deactivate e (a_unschedule e vw)) !! e = Some evt3) as He3
    by (by rewrite a_deactivate_evts, lookup_alter_eq, He2).
  apply wp_bind. eapply wp_get_evt; [by rewrite (rep_evts _ _ _ Hr3)|].
  replace (has (evt_flags evt3) WBA_EVTLIST_REG) with (has (evt_flags evt) WBA_EVTLIST_REG)
    by (unfold evt3, evt2; by flags).
  destruct (has (evt_flags evt) WBA_EVTLIST_REG) eqn:Hreg; cycle 1.
  { cbn [orb] in Hany. rewrite Hany in HQ. apply wp_bind, wp_ret, wp_ret. by apply HQ. }
  apply wp_bind, wp_bind. eapply refine_map_remove; [done..| | |].
  { unfold evt3, evt2. by flags. }
  { unfold evt3, evt2. by flags. }
  intros s4 HE4 Hr4. apply wp_bind. eapply wp_upd_flags; [by rewrite HE4, (rep_evts _ _ _ Hr3)|].
  apply wp_ret, wp_ret, HQ; [done|]. exists (es_world s3). unfold map_remove_res.
  rewrite a_deactivate_cfg, a_unschedule_cfg. unfold wants_map, evt3, evt2. simpl.
  case_bool_decide; lia.
Qed.

(** ** event_add *)

(** Other fields of an event. *)
Definition a_put (e : Z) (f : wba_evt → wba_evt) (vw : evview) : evview :=
  EvView (vw_cfg vw) (alter f e (vw_evts vw)) (vw_lists vw) (vw_time vw).

(** Updates of the times that do not concern the lists. *)
Definition neutral (f : wba_evt → wba_evt) : Prop :=
  ∀ evt, evt_base (f evt) = evt_base evt ∧ evt_flags (f evt) = evt_flags evt ∧
         evt_fd (f evt) = evt_fd evt ∧ evt_events (f evt) = evt_events evt.

Lemma refine_put s b vw e evt f Q :
  rep s b vw → vw_evts vw !! e = Some evt → evt_base evt = b → neutral f →
  (evt_timeout (f evt) = evt_timeout evt ∨ in_time evt = false) →
  (∀ s', rep s' b (a_put e f vw) → es_world s' = es_world s → Q () s') →
  wp (upd_evt e f) Q s.
Proof.
  intros Hr He Hb Hf Ht HQ. destruct (Hf evt) as (Hfb & Hff & Hfd & Hfe).
  eapply wp_upd_evt; [by rewrite (rep_evts _ _ _ Hr)|]. apply HQ; [|done].
  unfold a_put. rewrite (alter_some _ _ _ _ He), (rep_evts _ _ _ Hr).
  change (rep _ b _) with (rep (EvState (es_list s) (es_rb s) (<[e:=f evt]> (vw_evts vw)) (es_bases s)
    (es_bufs s) (es_world s)) b (a_set e (f evt) (vw_lists vw) (vw_time vw) vw)).
  assert (in_time (f evt) = in_time evt) as Htf by (unfold in_time; by rewrite Hff).
  rep_step Hr He.
  - by rewrite Hfb.
  - by rewrite (rep_base _ _ _ Hr).
  - apply Hr.
  - apply live_mono_refl.
  - apply Hr.
  - intros k x Hk. eapply upd_same; [by apply Hr|done..|]. destruct k; simpl; unfold wants_map;
      by rewrite ?Hff, ?Hfd, ?Hfe.
  - eapply upd_same; [by apply Hr|done..].
  - destruct Ht as [Ht|Ht].
    + eapply sorted_insert_same; [done..|apply Hr].
    + apply sorted_insert_fresh; [|apply Hr].
      rewrite (members_in _ _ _ _ _ _ (rep_time _ _ _ Hr) He Hb). congruence.
  - rewrite Htf, Hff. by apply (rep_flags _ _ _ Hr e).
Qed.

(** Scheduling a registered event at [d]; [user] is the interval to remember. *)
Definition a_deadline (e : Z) (user : option timeval) (d : timeval) (vw : evview) : evview :=
  let vw := a_unschedule e vw in
  let vw := match user with Some t => a_put e (set_user_timeout t) vw | None => vw end in
  a_schedule e (a_put e (set_evt_timeout d) vw).

(** A clock reading, as the code keeps it. *)
Definition clock_says (now : timeval) : Prop :=
  ∃ (w w' : W) sec nsec, sys_clock_gettime w = (Some (sec, nsec), w') ∧
    now = Timeval sec (Z.quot nsec 1000).

Definition deadline_for (tv : timeval) (abs : bool) (d : timeval) : Prop :=
  if abs then d = tv else ∃ now, clock_says now ∧ event_timeadd now tv = Some d.

Definition remembers (evt : wba_evt) (tv : timeval) (abs : bool) : option timeval :=
  if negb abs && has (evt_events evt) WBA_EVT_PERSIST then Some tv else None.

(** The outcomes of [event_add]: the value returned and the resulting view. *)
Inductive add_outcome (vw : evview) (e : Z) (evt : wba_evt) (tv : option timeval) (abs : bool) :
    Z → evview → Prop :=
| add_pending :
    has (evt_flags evt) WBA_EVTLIST_REG = true → tv = None →
    add_outcome vw e evt tv abs 1 vw
| add_failed w :
    has (evt_flags evt) WBA_EVTLIST_REG = false → map_add_res vw evt w = -1 →
    add_outcome vw e evt tv abs 0 vw
| add_io w :
    has (evt_flags evt) WBA_EVTLIST_REG = false → tv = None → map_add_res vw evt w ≠ -1 →
    add_outcome vw e evt tv abs (map_add_res vw evt w) (a_register e vw)
| add_timer w t d :
    (has (evt_flags evt) WBA_EVTLIST_REG = true ∨ map_add_res vw evt w ≠ -1) → tv = Some t →
    deadline_for t abs d →
    add_outcome vw e evt tv abs 1 (a_deadline e (remembers evt t abs) d (a_register e vw)).

Lemma map_add_res_range vw evt (w : W) : -1 ≤ map_add_res vw evt w ≤ 1.
Proof. unfold map_add_res. destruct (wants_map evt); [case_bool_decide|]; lia. Qed.

(** The part of [event_add] that sets the timeout. *)
Lemma refine_set_timeout s b vw e evt fuel tv (abs : bool) Q :
  rep s b vw → vw_evts vw !! e = Some evt → evt_base evt = b → (size (vw_evts vw) < fuel)%nat →
  has (evt_flags evt) WBA_EVTLIST_REG = true →
  (abs = false → ∀ w, ∃ sec nsec w' d, sys_clock_gettime w = (Some (sec, nsec), w') ∧
     event_timeadd (Timeval sec (Z.quot nsec 1000)) tv = Some d) →
  (∀ s' d, deadline_for tv abs d → rep s' b (a_deadline e (remembers evt tv abs) d vw) → Q 1 s') →
  wp (evt ← get_evt e;
      (if has (evt_flags evt) WBA_EVTLIST_TIMEOUT then event_remove_timeout fuel e else mret ());;
      (if abs then upd_evt e (set_evt_timeout tv)
       else
         (if has (evt_events evt) WBA_EVT_PERSIST then upd_evt e (set_user_timeout tv) else mret ());;
         now ← event_timeget;
         now ← of_option now;
         t ← of_option (event_timeadd now tv);
         upd_evt e (set_evt_timeout t));;
      event_debug;;
      event_add_timeout fuel e;;
      mret 1) Q s.
Proof.
  intros Hr He Hb Hfuel Hreg Hclock HQ. apply wp_bind.
  eapply wp_get_evt; [by rewrite (rep_evts _ _ _ Hr)|]. apply wp_bind.
  set (vw1 := a_unschedule e vw). set (evt1 := set_flags (clear_bits WBA_EVTLIST_TIMEOUT) evt).
  apply wp_mono with (Q := λ _ s', rep s' b vw1).
  { apply wp_if_guard.
    - intros _. by eapply refine_remove_timeout.
    - intros Ht. unfold vw1, a_unschedule. by rewrite He, Ht. }
  intros [] s1 Hr1.
  assert (vw_evts vw1 !! e = Some evt1) as He1
    by (unfold vw1; by rewrite a_unschedule_evts, lookup_alter_eq, He).
  assert (size (vw_evts vw1) = size (vw_evts vw)) as Hsz1
    by (unfold vw1; by rewrite a_unschedule_evts, size_alter).
  apply wp_bind.
  set (vw2 := match remembers evt tv abs with
              | Some t => a_put e (set_user_timeout t) vw1 | None => vw1 end).
  assert (∃ evt2, vw_evts vw2 !! e = Some evt2 ∧ evt_base evt2 = b ∧ evt_flags evt2 = evt_flags evt1)
    as (evt2 & He2 & Hb2 & Hf2).
  { unfold vw2. destruct (remembers evt tv abs); [|by exists evt1]. simpl.
    rewrite lookup_alter_eq, He1. simpl. eexists. by split_and!. }
  assert (size (vw_evts vw2) = size (vw_evts vw)) as Hsz2.
  { unfold vw2. destruct (remembers evt tv abs); [|done]. simpl. by rewrite size_alter. }
  apply wp_mono with (Q := λ _ s', ∃ d, deadline_for tv abs d ∧
    rep s' b (a_put e (set_evt_timeout d) vw2)).
  { assert (in_time evt2 = false) as Htm2 by (unfold in_time; rewrite Hf2; unfold evt1; by flags).
    destruct abs.
    - eapply refine_put; [exact Hr1|done..|by right|]. intros s2 Hr2 _. by exists tv.
    - apply wp_bind. apply wp_mono with (Q := λ _ s', rep s' b vw2).
      { unfold vw2, remembers. cbn [negb andb]. destruct (has (evt_events evt) WBA_EVT_PERSIST).
        - eapply refine_put; [exact Hr1|done..|by left|]. auto.
        - by apply wp_ret. }
      intros [] s2 Hr2. destruct (Hclock eq_refl (es_world s2)) as (sec & nsec & w' & d & Hc & Hd).
      apply wp_bind, wp_event_timeget. intros s3 ts w Hc' Hs3 _. rewrite Hc in Hc'. simplify_eq.
      apply wp_bind, wp_ret. apply wp_bind. eapply wp_of_option; [done|].
      eapply refine_put; [by eapply same_data_rep|done..|by right|]. intros s4 Hr4 _.
      exists d. split; [|done]. eexists. split; [|done]. by eexists _, _, _, _. }
  intros [] s3 (d & Hd & Hr3). apply wp_bind, wp_event_debug. intros s4 Hs4. apply wp_bind.
  eapply refine_add_timeout; [by eapply same_data_rep| |..].
  - simpl. by rewrite lookup_alter_eq, He2.
  - done.
  - simpl. by rewrite size_alter, Hsz2.
  - simpl. rewrite Hf2. unfold evt1. by flags.
  - intros s5 Hr5 _. apply wp_ret. by eapply HQ.
Qed.

Lemma refine_event_add s b vw e evt fuel tv abs Q :
  rep s b vw → vw_evts vw !! e = Some evt → evt_base evt = b → (size (vw_evts vw) < fuel)%nat →
  (∀ t, tv = Some t → abs = false → ∀ w, ∃ sec nsec w' d,
     sys_clock_gettime w = (Some (sec, nsec), w') ∧
     event_timeadd (Timeval sec (Z.quot nsec 1000)) t = Some d) →
  (∀ res s' vw', add_outcome vw e evt tv abs res vw' → rep s' b vw' → Q res s') →
  wp (event_add fuel e tv abs) Q s.
Proof.
  intros Hr He Hb Hfuel Hclock HQ. destruct (rep_evt_nonnull _ _ _ e Hr) as [Hen Hbn]; [by eexists|].
  unfold event_add. rewrite bool_decide_false by done. apply wp_bind.
  eapply wp_get_evt; [by rewrite (rep_evts _ _ _ Hr)|]. rewrite Hb, bool_decide_false by done.
  apply wp_bind, wp_event_debug. intros s1 Hs1. pose proof (same_data_rep _ _ _ _ Hr Hs1) as Hr1.
  destruct (has (evt_flags evt) WBA_EVTLIST_REG && negb (bool_decide (is_Some tv))) eqn:Hpend.
  { apply andb_true_iff in Hpend as [Hreg Htv]. apply negb_true_iff, bool_decide_eq_false in Htv.
    apply wp_bind, wp_event_debug. intros s2 Hs2. apply wp_ret.
    eapply HQ; [|by eapply same_data_rep]. by apply add_pending; [|apply eq_None_not_Some]. }
  set (vw1 := a_register e vw). set (evt1 := set_flags (set_bits WBA_EVTLIST_REG) evt).
  assert (vw_evts vw1 !! e = Some evt1) as He1
    by (unfold vw1; by rewrite a_register_evts, lookup_alter_eq, He).
  assert (size (vw_evts vw1) = size (vw_evts vw)) as Hsz1
    by (unfold vw1; by rewrite a_register_evts, size_alter).
  apply wp_bind. apply wp_mono with (Q := λ res s', es_evts s' = vw_evts vw ∧
    (if bool_decide (res = -1) then rep s' b vw
     else rep (with_flags (set_bits WBA_EVTLIST_REG) e s') b vw1) ∧
    (if has (evt_flags evt) WBA_EVTLIST_REG then res = 0 else ∃ w, res = map_add_res vw evt w)).
  { destruct (has (evt_flags evt) WBA_EVTLIST_REG) eqn:Hreg; cbn [negb].
    - apply wp_ret. split_and!; [apply Hr1| |done]. eapply rep_set_reg; [done..|]. by rewrite Hreg.
    - eapply refine_map_add; [done..|]. intros res s2 -> HE Hrep. split_and!; [|done|eauto].
      rewrite HE. apply Hr1. }
  intros res s2 (HE2 & Hrep & Hres). apply wp_bind.
  destruct (decide (res = -1)) as [->|Hres1].
  { rewrite bool_decide_true in Hrep |- * by done. cbn [negb]. apply wp_ret, wp_bind.
    destruct (has (evt_flags evt) WBA_EVTLIST_REG) eqn:Hreg; [done|]. destruct Hres as [w Hw].
    destruct tv; apply wp_ret, wp_ret; (eapply HQ; [by eapply add_failed|done]). }
  rewrite bool_decide_false in Hrep |- * by done. cbn [negb].
  eapply wp_upd_flags; [by rewrite HE2|]. apply wp_bind.
  assert (has (evt_flags evt) WBA_EVTLIST_REG = true ∨ ∃ w, has (evt_flags evt) WBA_EVTLIST_REG = false ∧
    res = map_add_res vw evt w) as Hcase by (destruct (has _ _) in Hres |- *; naive_solver).
  destruct tv as [tv|].
  - eapply refine_set_timeout; [exact Hrep|exact He1|done|by rewrite Hsz1| |by apply Hclock|].
    { unfold evt1. by flags. }
    change (remembers evt1 tv abs) with (remembers evt tv abs).
    intros s3 d Hd Hr3. apply wp_ret. simpl. eapply HQ; [|exact Hr3].
    destruct Hcase as [Hreg|(w & Hreg & ->)].
    + apply (add_timer _ _ _ _ _ (es_world s)); [by left|done..].
    + by eapply add_timer; [right|..].
  - apply wp_ret, wp_ret. destruct Hcase as [Hreg|(w & Hreg & ->)]; [by rewrite Hreg in Hpend|].
    pose proof (map_add_res_range vw evt w) as Hrange. clear Hpend.
    assert (add_outcome vw e evt None abs (map_add_res vw evt w) vw1) as Hout by (by apply add_io).
    case_bool_decide as Hpos; [by eapply HQ|].
    replace (map_add_res vw evt w) with 0 in Hout by lia. by eapply HQ.
Qed.

End api.
