(* ===== verification/EvRun.v ===== *)
(** * One turn of the event loop

    Dispatching epoll's answers, firing timeouts, computing the waiting time and
    running the callbacks of the active events. *)

From stdpp Require Import gmap numbers functions sorting list.
From S2P Require Import Prelude ListH RbNode RbTree RbZip RbInv RbErase RbIter.
From S2P Require Import EvTime Rings EvLoop EvInv EvOps EvTree EvApi.

Local Open Scope Z_scope.

(** ** Activating a slot of the descriptor map *)

(** The events of the slot are activated whatever their descriptor. *)
Definition a_map_active_one (events : Z) (vw : evview) (e : Z) : evview :=
  match vw_evts vw !! e with
  | Some evt => if has (evt_events evt) events
                then a_activate e (Z.land (evt_events evt) events) vw else vw
  | None => vw
  end.

Definition a_map_active (fd events : Z) (vw : evview) : evview :=
  if bool_decide (fd < 0) then vw
  else foldl (a_map_active_one events) vw (vw_lists vw (Slot (slot_of fd))).

Lemma a_activate_evts e res vw :
  vw_evts (a_activate e res vw) =
  alter (λ evt, if has (evt_flags evt) WBA_EVTLIST_ACTIVE then evt
                else set_flags (set_bits WBA_EVTLIST_ACTIVE) (set_res res evt)) e (vw_evts vw).
Proof.
  unfold a_activate. destruct (vw_evts vw !! e) as [evt|] eqn:He.
  - rewrite (alter_some _ _ _ _ He). destruct (has _ _); [by rewrite insert_self|done].
  - by rewrite alter_none.
Qed.

Lemma a_activate_slots e res vw i : vw_lists (a_activate e res vw) (Slot i) = vw_lists vw (Slot i).
Proof.
  unfold a_activate. destruct (vw_evts vw !! e); [|done]. by destruct (has _ _).
Qed.

Lemma a_activate_time e res vw : vw_time (a_activate e res vw) = vw_time vw.
Proof. unfold a_activate. destruct (vw_evts vw !! e); [|done]. by destruct (has _ _). Qed.

Lemma a_map_active_one_slots events vw e i :
  vw_lists (a_map_active_one events vw e) (Slot i) = vw_lists vw (Slot i).
Proof.
  unfold a_map_active_one. destruct (vw_evts vw !! e); [|done].
  destruct (has _ _); [|done]. apply a_activate_slots.
Qed.

Section run.
Context {W : Type} `{!System W}.
Implicit Types (s : evstate W).

(** Members of a list of a base belong to it. *)
Lemma rep_member s b vw k e :
  rep s b vw → lid_ok k → e ∈ vw_lists vw k →
  ∃ evt, vw_evts vw !! e = Some evt ∧ evt_base evt = b ∧ in_list k evt = true.
Proof. intros Hr Hk He. by apply (rep_lists _ _ _ Hr k Hk). Qed.

Lemma rep_slot_ring s b vw k : rep s b vw → lid_ok k →
  ring (es_list s) (lid_hdr b (cfg_arr (vw_cfg vw)) k) (lid_cell k <$> vw_lists vw k).
Proof. intros Hr Hk. by apply (rings_ring lid_ok _ _ _ _ k (rep_rings _ _ _ Hr)). Qed.

Lemma refine_map_active s b vw fd events fuel Q :
  rep s b vw → (size (vw_evts vw) < fuel)%nat →
  (∀ s', rep s' b (a_map_active fd events vw) → Q () s') →
  wp (event_map_active fuel b fd events) Q s.
Proof.
  intros Hr Hfuel HQ. unfold event_map_active, a_map_active in *. case_bool_decide as Hfd.
  { apply wp_bind. unfold event_map_get_slot. rewrite bool_decide_true by done. apply wp_ret.
    rewrite bool_decide_true by done. by apply wp_ret, HQ. }
  set (k := Slot (slot_of fd)) in *. assert (lid_ok k) as Hk by apply slot_of_range.
  apply wp_bind. eapply wp_get_slot; [done|lia|]. fold k. set (hd := lid_hdr b _ k).
  rewrite bool_decide_false.
  2: { destruct (lay_pos _ _ _ (rep_layout _ _ _ Hr)). pose proof (slot_of_range fd).
       unfold hd, k, NULL. simpl. unfold sizeof_list_head. lia. }
  set (L := vw_lists vw k) in *.
  pose (I := λ (ys zs : list Z) (_ : ()) s', ∃ vs us, L = vs ++ us ∧ ys = evt_next <$> vs ∧
    zs = evt_next <$> us ∧ rep s' b (foldl (a_map_active_one events) vw vs)).
  assert (∀ vs, vw_lists (foldl (a_map_active_one events) vw vs) k = L ∧
    vw_cfg (foldl (a_map_active_one events) vw vs) = vw_cfg vw) as Hinv.
  { intros vs. induction vs as [|x vs IH] using rev_ind; [done|]. rewrite foldl_app. simpl.
    split; [etransitivity; [apply a_map_active_one_slots|apply IH]|]. unfold a_map_active_one, a_activate.
    destruct (vw_evts _ !! x); [|apply IH]. repeat destruct (has _ _); apply IH. }
  eapply wp_mono; [apply (wp_list_for_each_entry I fuel off_evt_next _ hd (evt_next <$> L))|].
  - intros ys zs [] s' (vs & us & HL & -> & -> & Hr'). rewrite <-fmap_app, <-HL.
    destruct (Hinv vs) as [Hl Hc]. pose proof (rep_slot_ring _ _ _ k Hr' Hk) as Hring.
    by rewrite Hl, Hc in Hring.
  - intros ys x zs [] s' (vs & us & HL & -> & Hzs & Hr'). destruct us as [|u us]; [done|].
    injection Hzs as -> ->. replace (evt_next u - off_evt_next) with u by (unfold evt_next; lia).
    destruct (Hinv vs) as [Hl Hc].
    destruct (rep_member _ _ _ k u Hr' Hk) as (evt & He & Hb & _); [rewrite Hl, HL; set_solver|].
    assert (∀ s'', rep s'' b (a_map_active_one events (foldl (a_map_active_one events) vw vs) u) →
      I ((evt_next <$> vs) ++ [evt_next u]) (evt_next <$> us) () s'') as HI.
    { intros s'' Hr''. exists (vs ++ [u]), us. rewrite <-app_assoc, fmap_app, foldl_app. done. }
    unfold a_map_active_one in HI at 1. rewrite He in HI.
    apply wp_bind. eapply wp_get_evt; [by rewrite (rep_evts _ _ _ Hr')|].
    destruct (has (evt_events evt) events).
    + apply wp_bind. eapply refine_add_active; [done..|]. intros s2 Hr2 _.
      apply wp_event_debug. intros s3 Hs3. apply HI. by eapply same_data_rep.
    + by apply wp_ret, HI.
  - rewrite length_fmap. pose proof (rep_list_length _ _ _ k Hr Hk). unfold L. lia.
  - by exists [], L.
  - intros [] s' (vs & us & HL & Hvs & Hus & Hr'). destruct us; [|done].
    rewrite app_nil_r in HL. subst vs. by apply HQ.
Qed.

(** ** The next timeout *)

Lemma rep_first s b vw fuel Q :
  rep s b vw → (size (vw_evts vw) ≤ fuel)%nat →
  Q (hd NULL (evt_time_node <$> vw_time vw)) s → wp (zoom (rb_first fuel (evt_time_root b))) Q s.
Proof.
  intros Hr Hfuel HQ. destruct (rep_tree _ _ _ Hr) as (t & [Hz Hv] & Hto).
  pose proof (rep_tree_height _ _ _ _ Hr Hto).
  eapply wp_rb_read; [|exact HQ]. eapply wp_rb_first; [done|lia|]. by rewrite Hto.
Qed.

(** The value returned, for the first deadline [d] and the clock reading [now]. *)
Definition wait_for (d now : timeval) : option Z :=
  if bool_decide (event_timecmp d now <= 0) then Some 0
  else tv ← event_timesub d now; timeout_ms tv.

Lemma refine_next_timeout s b vw fuel Q :
  rep s b vw → (size (vw_evts vw) ≤ fuel)%nat →
  match vw_time vw with
  | [] => Q EVT_DEF_WAIT_MS s
  | e :: _ =>
      ∀ ts w s', sys_clock_gettime (es_world s) = (ts, w) → same_data s s' →
        match ts with
        | None => Q EVT_DEF_WAIT_MS s'
        | Some (sec, nsec) =>
            ∃ ms, wait_for (tmo (vw_evts vw) e) (Timeval sec (Z.quot nsec 1000)) = Some ms ∧ Q ms s'
        end
  end →
  wp (event_next_timeout fuel b) Q s.
Proof.
  intros Hr Hfuel HQ. unfold event_next_timeout. apply wp_bind.
  eapply rep_first; [done..|]. pose proof (rep_time _ _ _ Hr) as Htm.
  destruct (vw_time vw) as [|e tl] eqn:Htl; simpl.
  { by apply wp_ret. }
  destruct (proj1 (Htm e) ltac:(set_solver)) as (evt & He & Hb & _).
  destruct (rep_evt_nonnull _ _ _ e Hr) as [Hen _]; [by eexists|].
  destruct (lay_evt _ _ _ (rep_layout _ _ _ Hr) e) as [Hpos _]; [by eexists|].
  rewrite nonnull_true by (unfold evt_time_node, off_evt_time_node, NULL; lia). cbn [negb].
  apply wp_bind, wp_event_timeget. intros s' ts w Hc Hs' _.
  specialize (HQ ts w s' Hc Hs'). destruct ts as [[sec nsec]|]; [|by apply wp_ret].
  destruct HQ as (ms & Hms & HQ). rewrite rb_entry_time_node. apply wp_bind.
  eapply wp_get_evt; [destruct Hs' as (_ & _ & -> & _); by rewrite (rep_evts _ _ _ Hr)|].
  unfold tmo in Hms. rewrite He in Hms. unfold wait_for in Hms. case_bool_decide.
  - simplify_eq. by apply wp_ret.
  - apply bind_Some in Hms as (tv & Htv & Hms). apply wp_bind.
    eapply wp_of_option; [done|]. by eapply wp_of_option.
Qed.

(** ** Firing timeouts *)

(** The expired events, taken from the front of the firing order one by one. *)
Definition a_fire (e : Z) (vw : evview) : evview := a_activate e WBA_EVT_TIMEOUT (a_del e vw).

Fixpoint a_expire (now : timeval) (l : list Z) (vw : evview) : Z * evview :=
  match l with
  | [] => (0, vw)
  | e :: l' =>
      if bool_decide (event_timecmp (tmo (vw_evts vw) e) now > 0) then (0, vw)
      else let '(n, vw') := a_expire now l' (a_fire e vw) in (n + 1, vw')
  end.

Lemma a_fire_size e vw : size (vw_evts (a_fire e vw)) = size (vw_evts vw).
Proof. unfold a_fire. by rewrite a_activate_evts, a_del_evts, !size_alter. Qed.

Lemma a_deactivate_time e vw : vw_time (a_deactivate e vw) = vw_time vw.
Proof. unfold a_deactivate. destruct (vw_evts vw !! e); [|done]. by destruct (has _ _). Qed.
Lemma a_unregister_time e vw : vw_time (a_unregister e vw) = vw_time vw.
Proof. unfold a_unregister. by destruct (vw_evts vw !! e). Qed.

Lemma a_del_time s b e evt vw :
  rep s b vw → vw_evts vw !! e = Some evt → evt_base evt = b → vw_time (a_del e vw) = rm e (vw_time vw).
Proof.
  intros Hr He Hb. unfold a_del. rewrite He.
  assert (vw_time (a_deactivate e (a_unschedule e vw)) = rm e (vw_time vw)) as Ht.
  { rewrite a_deactivate_time. unfold a_unschedule. rewrite He.
    destruct (has (evt_flags evt) WBA_EVTLIST_TIMEOUT) eqn:Hh; [done|]. rewrite rm_fresh; [done|].
    rewrite (members_in _ _ _ _ _ _ (rep_time _ _ _ Hr) He Hb). unfold in_time. congruence. }
  destruct (has _ _); [by rewrite a_unregister_time|done].
Qed.

Lemma rm_head e l : e ∉ l → rm e (e :: l) = l.
Proof. intros He. unfold rm. rewrite filter_cons, decide_False by naive_solver. by apply rm_fresh. Qed.

Lemma refine_fire s b vw e evt fuel Q :
  rep s b vw → vw_evts vw !! e = Some evt → evt_base evt = b → (size (vw_evts vw) < fuel)%nat →
  (∀ s', rep s' b (a_fire e vw) → Q s') →
  wp (event_debug;; event_del fuel e;; event_add_active e WBA_EVT_TIMEOUT) (λ _, Q) s.
Proof.
  intros Hr He Hb Hfuel HQ. apply wp_bind, wp_event_debug. intros s1 Hs1. apply wp_bind.
  eapply refine_event_del; [by eapply same_data_rep|done..|]. intros res s2 Hr2 _.
  eapply (refine_add_active _ _ _ e (set_flags idle evt)); [done| |done|].
  - by rewrite a_del_evts, lookup_alter_eq, He.
  - intros s3 Hr3 _. by apply HQ.
Qed.

Lemma rep_next s b vw e l fuel Q :
  rep s b vw → vw_time vw = e :: l → (size (vw_evts vw) ≤ fuel)%nat →
  Q (hd NULL (evt_time_node <$> l)) s → wp (zoom (rb_next fuel (evt_time_node e))) Q s.
Proof.
  intros Hr Hl Hfuel HQ. destruct (rep_tree _ _ _ Hr) as (t & [Hz Hv] & Hto).
  pose proof (rep_tree_height _ _ _ _ Hr Hto). rewrite Hl in Hto.
  eapply wp_rb_read; [|exact HQ]. 
  apply (wp_rb_next _ (evt_time_root b) t [] _ (evt_time_node <$> l)); [done..|lia|done].
Qed.

Lemma nonnull_hd s b vw l :
  rep s b vw → l ⊆ vw_time vw →
  nonnull (hd NULL (evt_time_node <$> l)) = bool_decide (l ≠ []).
Proof.
  intros Hr Hl. destruct l as [|e l]; [done|]. rewrite bool_decide_true by done.
  destruct (proj1 (rep_time _ _ _ Hr e) ltac:(set_solver)) as (evt & He & _).
  destruct (lay_evt _ _ _ (rep_layout _ _ _ Hr) e) as [Hpos _]; [by eexists|].
  apply nonnull_true. simpl. unfold evt_time_node, off_evt_time_node, NULL. lia.
Qed.

Definition process_timeout_body (fuel : nat) (now : timeval) : Z * Z → cmd (evstate W) (Z * Z + Z) :=
  λ '(node, cnt),
    if nonnull node then
      let p := node in
      node ← zoom (rb_next fuel node);
      evt ← get_evt (rb_entry p);
      if bool_decide (event_timecmp (evt_timeout evt) now > 0) then mret (inr cnt) else
      event_debug;;
      event_del fuel (rb_entry p);;
      event_add_active (rb_entry p) WBA_EVT_TIMEOUT;;
      mret (inl (node, cnt + 1))
    else mret (inr cnt).

Lemma wp_process_timeout_loop b now fuel n : ∀ s vw cnt Q,
  rep s b vw → (size (vw_evts vw) < fuel)%nat → (length (vw_time vw) < n)%nat →
  (∀ s', let '(m, vw') := a_expire now (vw_time vw) vw in rep s' b vw' → Q (cnt + m) s') →
  wp (loop n (process_timeout_body fuel now) (hd NULL (evt_time_node <$> vw_time vw), cnt)) Q s.
Proof.
  induction n as [|n IH]; intros s vw cnt Q Hr Hfuel Hn HQ; [lia|].
  apply wp_loop. unfold process_timeout_body at 1. rewrite (nonnull_hd _ _ _ _ Hr) by done.
  pose proof (rep_time _ _ _ Hr) as Htm. pose proof (rep_time_NoDup _ _ _ Hr) as Hnd.
  destruct (vw_time vw) as [|e l] eqn:Htl; simpl in Hn, HQ.
  { apply wp_ret, wp_ret. replace cnt with (cnt + 0) by lia. by apply HQ. }
  rewrite bool_decide_true by done. cbn [fmap list_fmap hd].
  destruct (proj1 (Htm e) ltac:(set_solver)) as (evt & He & Hb & _).
  assert (tmo (vw_evts vw) e = evt_timeout evt) as Hte by (unfold tmo; by rewrite He).
  apply wp_bind. eapply rep_next; [done..|lia|]. rewrite rb_entry_time_node.
  apply wp_bind. eapply wp_get_evt; [by rewrite (rep_evts _ _ _ Hr)|]. rewrite Hte in HQ.
  case_bool_decide as Hgt.
  { apply wp_ret, wp_ret. replace cnt with (cnt + 0) by lia. by apply HQ. }
  assert (∀ k Q', wp (event_debug;; event_del fuel e;; event_add_active e WBA_EVT_TIMEOUT)
     (λ _ s', wp k Q' s') s →
     wp (event_debug;; event_del fuel e;; event_add_active e WBA_EVT_TIMEOUT;;
         (k : cmd (evstate W) (Z * Z + Z))) Q' s) as Hassoc.
  { intros k Q'. unfold wp, mbind, cmd_bind. destruct (event_debug s) as [[? s1]| |]; try naive_solver.
    destruct (event_del fuel e s1) as [[? s2]| |]; try naive_solver.
    destruct (event_add_active e WBA_EVT_TIMEOUT s2) as [[? s3]| |]; naive_solver. }
  apply Hassoc. eapply refine_fire; [done..|]. intros s1 Hr1. apply wp_ret.
  assert (vw_time (a_fire e vw) = l) as Hl.
  { unfold a_fire. rewrite a_activate_time. erewrite a_del_time by done.
    apply NoDup_cons in Hnd as [? _]. rewrite Htl. by apply rm_head. }
  rewrite <-Hl. apply IH; [done|by rewrite a_fire_size|rewrite Hl; lia|].
  intros s'. rewrite Hl. specialize (HQ s'). destruct (a_expire now l (a_fire e vw)) as [m vw'].
  intros Hr'. replace (cnt + 1 + m) with (cnt + (m + 1)) by lia. by apply HQ.
Qed.

Lemma refine_process_timeout s b vw fuel Q :
  rep s b vw → (size (vw_evts vw) < fuel)%nat →
  (∀ ts w s', sys_clock_gettime (es_world s) = (ts, w) →
     match ts with
     | None => rep s' b vw → Q 0 s'
     | Some (sec, nsec) =>
         let '(n, vw') := a_expire (Timeval sec (Z.quot nsec 1000)) (vw_time vw) vw in
         rep s' b vw' → Q n s'
     end) →
  wp (event_process_timeout fuel b) Q s.
Proof.
  intros Hr Hfuel HQ. unfold event_process_timeout. apply wp_bind, wp_event_timeget.
  intros s1 ts w Hc Hs1 _. pose proof (same_data_rep _ _ _ _ Hr Hs1) as Hr1.
  specialize (λ s', HQ ts w s' Hc). destruct ts as [[sec nsec]|]; [|by apply wp_ret, HQ].
  apply wp_bind. eapply rep_first; [done|lia|].
  pose proof (rep_time_length _ _ _ Hr).
  eapply (wp_process_timeout_loop b _ fuel fuel); [done|done|lia|]. exact HQ.
Qed.

End run.
