(* ===== verification/EvTurn.v ===== *)
(** * Running callbacks, and the main loop

    The callbacks are the client's code; what they have to keep is stated as a
    contract on the abstract view, and the loop is verified against it.  What the loop
    does is stated as relations on the views: [drained] (the active events are run one
    after the other), [turn] and [turns]. *)

From stdpp Require Import gmap numbers functions sorting list.
From S2P Require Import Prelude ListH RbNode RbTree RbZip RbInv RbErase RbIter.
From S2P Require Import EvTime Rings EvLoop EvInv EvOps EvTree EvApi EvRun.

Local Open Scope Z_scope.

(** ** The clock *)

(** What clock_gettime(CLOCK_MONOTONIC) documents: it succeeds, with a second
    count of a running system and nanoseconds below one second. *)
Class ClockOk (W : Type) `{!System W} : Prop :=
  clock_ok : ∀ w, ∃ sec nsec w', sys_clock_gettime w = (Some (sec, nsec), w') ∧
    0 ≤ sec ≤ 2 ^ 50 ∧ 0 ≤ nsec < 1000000000.

Lemma clock_now `{!System W, !ClockOk W} (now : timeval) :
  clock_says (W:=W) now → tv_normal now ∧ 0 ≤ tv_sec now ≤ 2 ^ 50.
Proof.
  intros (w & w' & sec & nsec & Hc & ->). destruct (clock_ok w) as (sec' & nsec' & w'' & Hc' & Hs & Hn).
  rewrite Hc in Hc'. simplify_eq. split; [|done]. unfold tv_normal. simpl.
  rewrite Z.quot_div_nonneg by lia. split; [by apply Z.div_pos; lia|]. apply Z.div_lt_upper_bound; lia.
Qed.

(** ** Bounded times *)

(** Intervals a client may set. *)
Definition interval_ok (t : timeval) : Prop := tv_normal t ∧ 0 ≤ tv_sec t ≤ 2 ^ 50.

(** The times of an event stay far from the ends of their range: deadlines may
    only be far in the future while the event waits for them. *)
Definition times_ok (evt : wba_evt) : Prop :=
  interval_ok (evt_user_timeout evt) ∧ tv_normal (evt_timeout evt) ∧
  0 ≤ tv_sec (evt_timeout evt) ≤ 2 ^ 52 ∧
  (has (evt_flags evt) WBA_EVTLIST_ACTIVE = true → has (evt_res evt) WBA_EVT_TIMEOUT = true →
   tv_sec (evt_timeout evt) ≤ 2 ^ 51 + 1).

Definition evts_ok (E : gmap Z wba_evt) : Prop := map_Forall (λ _, times_ok) E.

(** ** The client

    What the library never changes of an event: callback, argument, descriptor,
    base and the events waited for.  A client may rely on an invariant of these
    (for instance that the argument of a callback is a live event), and on one of its
    own data, which is part of the world; its callbacks keep both. *)
Definition shape : Type := Z * Z * Z * Z * Z.
Definition shape_of (evt : wba_evt) : shape := (cb_fn evt, cb_arg evt, evt_fd evt, evt_base evt, evt_events evt).

Class Client (W : Type) := {
  client_inv : gmap Z shape → Prop;
  client_world : W → Prop;
}.

(** System calls leave the client's data alone. *)
Class ClientOk (W : Type) `{!System W} {client : Client W} : Prop := {
  cw_ctl : ∀ epfd op fd ev w, client_world w → client_world (sys_epoll_ctl epfd op fd ev w).2;
  cw_wait : ∀ epfd n timeout w, client_world w → client_world (sys_epoll_wait epfd n timeout w).2;
  cw_clock : ∀ w, client_world w → client_world (sys_clock_gettime w).2;
  cw_free : ∀ p w, client_world w → client_world (sys_free p w);
}.

(** The commands that keep an invariant of the world when they return. *)
Create HintDb keeps.

Section keeps.
Context {W : Type} `{!System W} {client : Client W} `{!ClientOk W}.
Implicit Types (s : evstate W).

Definition mine s : Prop := client_world (es_world s).

Definition keeps {A} (m : cmd (evstate W) A) : Prop := ∀ s a s', mine s → m s = Done (a, s') → mine s'.

Lemma keeps_ret {A} (a : A) : keeps (mret a).
Proof. by intros s a' s' HJ [= _ <-]. Qed.
Lemma keeps_bind {A B} (m : cmd (evstate W) A) (k : A → cmd (evstate W) B) :
  keeps m → (∀ a, keeps (k a)) → keeps (m ≫= k).
Proof.
  intros Hm Hk s b s' HJ H. unfold mbind, cmd_bind in H. destruct (m s) as [[a s1]| |] eqn:E; try done.
  by eapply Hk; [eapply Hm|].
Qed.
Lemma keeps_of_option {A} (o : option A) : keeps (of_option o).
Proof. destruct o; [apply keeps_ret|]. by intros s a s'. Qed.
Lemma keeps_loop {L R} (n : nat) (body : L → cmd (evstate W) (L + R)) l : (∀ l, keeps (body l)) → keeps (loop n body l).
Proof.
  intros Hb. revert l. induction n as [|n IH]; intros l; [by intros s a s'|]. simpl. apply keeps_bind; [done|].
  intros [l'|r]; [apply IH|apply keeps_ret].
Qed.
Lemma keeps_zoom {T A} `{!Lens (evstate W) T} (m : cmd T A) :
  (∀ t s, es_world (update t s) = es_world s) → keeps (zoom m).
Proof.
  intros Hu s a s' HJ H. unfold zoom in H. destruct (m (view s)) as [[a' t]| |]; simplify_eq. unfold mine. by rewrite Hu.
Qed.
Lemma keeps_syscall {A} (f : W → A * W) : (∀ w, client_world w → client_world (f w).2) → keeps (syscall f).
Proof.
  intros Hf s a s' HJ H. unfold syscall in H. specialize (Hf _ HJ). destruct (f (es_world s)) as [a' w]. by simplify_eq.
Qed.

(** Follows the structure of a command. *)
Ltac keeps_auto :=
  repeat (intros; cbv beta zeta; match goal with
    | |- keeps (mret _) => apply keeps_ret
    | |- keeps (_ ≫= _) => apply keeps_bind
    | |- keeps (zoom _) => by apply keeps_zoom
    | |- keeps (loop _ _ _) => apply keeps_loop
    | |- keeps (of_option _) => apply keeps_of_option
    | |- keeps (syscall _) => apply keeps_syscall; intros ? ?; first [by apply cw_ctl|by apply cw_wait|by apply cw_clock|by apply cw_free]
    | |- keeps (if ?b then _ else _) => destruct b
    | |- keeps (match ?x with _ => _ end) => destruct x
    | |- _ => solve [eauto with keeps]
    end).

Lemma keeps_get_evt e : keeps (get_evt e).
Proof. unfold get_evt. keeps_auto. Qed.
Lemma keeps_upd_evt e f : keeps (upd_evt e f).
Proof. unfold upd_evt. keeps_auto. Qed.
Lemma keeps_get_base e : keeps (get_base e).
Proof. unfold get_base. keeps_auto. Qed.
Lemma keeps_upd_base e f : keeps (upd_base e f).
Proof. unfold upd_base. keeps_auto. Qed.
Lemma keeps_timeget : keeps event_timeget.
Proof. unfold event_timeget. keeps_auto. Qed.
#[local] Hint Resolve keeps_get_evt keeps_upd_evt keeps_get_base keeps_upd_base keeps_timeget : keeps.
Lemma keeps_debug : keeps event_debug.
Proof. unfold event_debug. keeps_auto. Qed.
#[local] Hint Resolve keeps_debug : keeps.
Lemma keeps_register e : keeps (event_register e).
Proof. unfold event_register. keeps_auto. Qed.
Lemma keeps_unregister e : keeps (event_unregister e).
Proof. unfold event_unregister. keeps_auto. Qed.
Lemma keeps_add_active e res : keeps (event_add_active e res).
Proof. unfold event_add_active. keeps_auto. Qed.
Lemma keeps_remove_active e : keeps (event_remove_active e).
Proof. unfold event_remove_active. keeps_auto. Qed.
Lemma keeps_get_slot b fd : keeps (event_map_get_slot b fd).
Proof. unfold event_map_get_slot. keeps_auto. Qed.
#[local] Hint Resolve keeps_register keeps_unregister keeps_add_active keeps_remove_active keeps_get_slot : keeps.
Lemma keeps_map_add e : keeps (event_map_add e).
Proof. unfold event_map_add. keeps_auto. Qed.
Lemma keeps_map_remove e : keeps (event_map_remove e).
Proof. unfold event_map_remove. keeps_auto. Qed.
Lemma keeps_map_active fuel b fd events : keeps (event_map_active fuel b fd events).
Proof. unfold event_map_active, list_for_each_entry. keeps_auto. Qed.
Lemma keeps_add_timeout fuel e : keeps (event_add_timeout fuel e).
Proof. unfold event_add_timeout. keeps_auto. Qed.
Lemma keeps_remove_timeout fuel e : keeps (event_remove_timeout fuel e).
Proof. unfold event_remove_timeout. keeps_auto. Qed.
#[local] Hint Resolve keeps_map_add keeps_map_remove keeps_map_active keeps_add_timeout keeps_remove_timeout : keeps.
Lemma keeps_event_add fuel e tv abs : keeps (event_add fuel e tv abs).
Proof. unfold event_add. keeps_auto. Qed.
Lemma keeps_event_del fuel e : keeps (event_del fuel e).
Proof. unfold event_del. keeps_auto. Qed.
#[local] Hint Resolve keeps_event_add keeps_event_del : keeps.
Lemma keeps_event_free fuel e : keeps (wba_event_free fuel e).
Proof. unfold wba_event_free, free_evt, set_list, set_rb, set_evts. keeps_auto. Qed.
Lemma keeps_assign e b fd events fn arg : keeps (wba_event_assign e b fd events fn arg).
Proof. unfold wba_event_assign, zero_live_evt. keeps_auto. Qed.
Lemma keeps_next_timeout fuel b : keeps (event_next_timeout fuel b).
Proof. unfold event_next_timeout. keeps_auto. Qed.
Lemma keeps_process_timeout fuel b : keeps (event_process_timeout fuel b).
Proof. unfold event_process_timeout. keeps_auto. Qed.
Lemma keeps_write_buf p evs : keeps (write_buf p evs).
Proof. unfold write_buf. keeps_auto. Qed.
Lemma keeps_dispatch fuel b res : keeps (event_dispatch fuel b res).
Proof. unfold event_dispatch. keeps_auto. Qed.

(** What such a command leaves may be used by the rest. *)
Lemma wp_mine {A} (m : cmd (evstate W) A) Q s : keeps m → mine s → wp m (λ a s', mine s' → Q a s') s → wp m Q s.
Proof. intros Hk HJ (a & s' & Hm & HQ). exists a, s'. split; [done|]. by eapply HQ, Hk. Qed.

End keeps.

Ltac keeping := apply wp_mine; [solve [eauto with keeps typeclass_instances]|assumption|].

#[export] Hint Resolve keeps_debug keeps_event_add keeps_event_del keeps_event_free keeps_assign keeps_next_timeout
  keeps_process_timeout keeps_write_buf keeps_dispatch keeps_remove_active keeps_timeget keeps_get_evt keeps_get_base : keeps.

Section good.
Context {W : Type} {client : Client W}.

(** The view a turn of the loop starts from and leaves. *)
Definition good (fuel : nat) (vw : evview) : Prop :=
  (size (vw_evts vw) < fuel)%nat ∧ evts_ok (vw_evts vw) ∧ client_inv (shape_of <$> vw_evts vw).

Lemma shape_alter f e (E : gmap Z wba_evt) :
  (∀ evt, shape_of (f evt) = shape_of evt) → shape_of <$> alter f e E = shape_of <$> E.
Proof.
  intros Hf. apply map_eq. intros x. rewrite !lookup_fmap, lookup_alter. case_decide as Hx; [subst x|done].
  destruct (E !! e); [|done]. simpl. by rewrite Hf.
Qed.

Lemma evts_ok_alter E e f :
  evts_ok E → (∀ evt, E !! e = Some evt → times_ok evt → times_ok (f evt)) → evts_ok (alter f e E).
Proof.
  intros HE Hf x evt. rewrite lookup_alter. case_decide as Hx; [subst x|by apply HE].
  destruct (E !! e) as [evt0|] eqn:He; [|done]. simpl. intros [= <-]. apply Hf; [done|by eapply HE].
Qed.

Lemma good_alter fuel vw vw' e f :
  good fuel vw → vw_evts vw' = alter f e (vw_evts vw) → (∀ evt, shape_of (f evt) = shape_of evt) →
  (∀ evt, vw_evts vw !! e = Some evt → times_ok evt → times_ok (f evt)) → good fuel vw'.
Proof.
  intros (Hs & HE & Hi) Heq Hsh Hf. split_and!; rewrite Heq; [by rewrite size_alter|by apply evts_ok_alter|by rewrite shape_alter].
Qed.

(** Flag updates that do not activate the event. *)
Lemma times_ok_flags f evt :
  times_ok evt → (has (f (evt_flags evt)) WBA_EVTLIST_ACTIVE = true →
                  has (evt_flags evt) WBA_EVTLIST_ACTIVE = true) → times_ok (set_flags f evt).
Proof. intros (? & ? & ? & Ha) Hf. unfold times_ok. simpl. split_and!; auto; lia. Qed.

Lemma good_deactivate fuel e vw : good fuel vw → good fuel (a_deactivate e vw).
Proof.
  intros Hg. eapply good_alter; [done|apply a_deactivate_evts|done|]. intros evt _ Ht.
  apply times_ok_flags; [done|]. by flags.
Qed.

Lemma good_register fuel e vw : good fuel vw → good fuel (a_register e vw).
Proof.
  intros Hg. eapply good_alter; [done|apply a_register_evts|done|]. intros evt _ Ht.
  apply times_ok_flags; [done|]. by flags.
Qed.

Lemma good_unschedule fuel e vw : good fuel vw → good fuel (a_unschedule e vw).
Proof.
  intros Hg. eapply good_alter; [done|apply a_unschedule_evts|done|]. intros evt _ Ht.
  apply times_ok_flags; [done|]. by flags.
Qed.

Lemma good_del fuel e vw : good fuel vw → good fuel (a_del e vw).
Proof.
  intros Hg. eapply good_alter; [done|apply a_del_evts|done|]. intros evt _ Ht.
  apply times_ok_flags; [done|]. unfold idle. by flags.
Qed.

Lemma a_schedule_evts e vw :
  vw_evts (a_schedule e vw) = alter (λ evt, if has (evt_flags evt) WBA_EVTLIST_TIMEOUT then evt
    else set_flags (set_bits WBA_EVTLIST_TIMEOUT) evt) e (vw_evts vw).
Proof.
  unfold a_schedule. destruct (vw_evts vw !! e) as [evt|] eqn:He.
  - rewrite (alter_some _ _ _ _ He). destruct (has _ _); [by rewrite insert_self|done].
  - by rewrite alter_none.
Qed.

(** Setting a deadline: the event may be active only with a near one. *)
Lemma good_deadline fuel e user d vw evt :
  good fuel vw → vw_evts vw !! e = Some evt → (∀ t, user = Some t → interval_ok t) →
  tv_normal d → 0 ≤ tv_sec d ≤ 2 ^ 52 →
  (has (evt_flags evt) WBA_EVTLIST_ACTIVE = true → tv_sec d ≤ 2 ^ 51 + 1) →
  good fuel (a_deadline e user d vw).
Proof.
  intros Hg He Huser Hd Hd0 Hact. unfold a_deadline.
  assert (∃ evt1, vw_evts (a_unschedule e vw) !! e = Some evt1 ∧ times_ok evt1 ∧
    has (evt_flags evt1) WBA_EVTLIST_ACTIVE = has (evt_flags evt) WBA_EVTLIST_ACTIVE)
    as (evt1 & He1 & Ht1 & Hf1).
  { rewrite a_unschedule_evts, lookup_alter_eq, He. eexists. split_and!; [done| |by flags].
    eapply (proj1 (proj2 (good_unschedule fuel e vw Hg))). by rewrite a_unschedule_evts, lookup_alter_eq, He. }
  apply (good_unschedule fuel e) in Hg.
  assert (good fuel (match user with
    | Some t => a_put e (set_user_timeout t) (a_unschedule e vw) | None => a_unschedule e vw end)) as Hg2.
  { destruct user as [t|]; [|done]. eapply good_alter; [done|done|done|]. intros evt' _ (? & ? & ? & ?).
    unfold times_ok. simpl. split_and!; auto; lia. }
  eapply good_alter; [|apply a_schedule_evts|intros evt'; cbn beta; by destruct (has (evt_flags evt') WBA_EVTLIST_TIMEOUT)|].
  - eapply good_alter; [exact Hg2|done|done|]. intros evt' He' (? & ? & ? & ?). unfold times_ok. simpl.
    split_and!; try (done || lia). intros Ha _. apply Hact. rewrite <-Hf1.
    destruct user as [t|]; simpl in He'; [|by simplify_eq].
    rewrite lookup_alter_eq, He1 in He'. by simplify_eq/=.
  - intros evt' _ Ht'. cbn beta. destruct (has (evt_flags evt') WBA_EVTLIST_TIMEOUT); [done|]. apply times_ok_flags; [done|]. by flags.
Qed.

End good.

Section turn.
Context {W : Type} `{!System W, !ClockOk W} {client : Client W} `{!ClientOk W}.
Implicit Types (s : evstate W).

(** A time plus an interval. *)
Lemma add_interval a t :
  tv_normal a → 0 ≤ tv_sec a ≤ 2 ^ 51 + 1 → interval_ok t → ∃ d, event_timeadd a t = Some d ∧
    tv_normal d ∧ 0 ≤ tv_sec d ≤ 2 ^ 52 ∧ tv_us d = tv_us a + tv_us t.
Proof.
  intros Han Ha' [Hun Hu]. destruct (event_timeadd_total a t) as [d Hd]; [done..|unfold in_s64; lia|unfold in_s64; lia|].
  exists d. pose proof (event_timeadd_us _ _ _ Hd) as Hus. pose proof (event_timeadd_normal _ _ _ Han Hun Hd) as Hdn.
  split; [done|]. split; [done|]. split; [|done]. unfold tv_us, tv_normal in *. lia.
Qed.

(** ** The next deadline of a persistent event *)

Lemma next_deadline_total evt now :
  times_ok evt → clock_says (W:=W) now → has (evt_flags evt) WBA_EVTLIST_ACTIVE = true →
  ∃ d, next_deadline evt now = Some d ∧ tv_normal d ∧ 0 ≤ tv_sec d ≤ 2 ^ 52 ∧ tv_le now d.
Proof.
  intros ((Hun & Hu) & Htn & Ht0 & Htm) Hc Ha. apply clock_now in Hc as [Hnn Hn].
  specialize (Htm Ha). unfold next_deadline.
  set (last := if has (evt_res evt) WBA_EVT_TIMEOUT then evt_timeout evt else now).
  assert (tv_normal last ∧ 0 ≤ tv_sec last ≤ 2 ^ 51 + 1) as [Hln Hl].
  { unfold last. destruct (has (evt_res evt) WBA_EVT_TIMEOUT); split; try done; [|lia].
    specialize (Htm eq_refl). lia. }
  pose proof (λ a Ha Hb, add_interval a (evt_user_timeout evt) Ha Hb (conj Hun Hu)) as Hadd.
  destruct (Hadd last Hln Hl) as (d & Hd & Hdn & Hd0 & Hdu). rewrite Hd. simpl.
  case_bool_decide as Hlt.
  - destruct (Hadd now Hnn) as (d' & -> & Hdn' & Hd0' & Hdu'); [lia|]. exists d'.
    split; [done|]. split; [done|]. split; [done|].
    apply tv_le_us; [done..|]. unfold tv_us, tv_normal in *. lia.
  - exists d. split; [done|]. split; [done|]. split; [done|]. rewrite event_timecmp_lt in Hlt. by apply dec_stable.
Qed.

(** ** The lists around one callback *)

Lemma a_register_active e vw : vw_lists (a_register e vw) Active = vw_lists vw Active.
Proof.
  unfold a_register. destruct (vw_evts vw !! e); [|done]. simpl.
  destruct (_ && _); [by rewrite fn_lookup_insert_ne|done].
Qed.

Lemma a_unregister_active e vw : vw_lists (a_unregister e vw) Active = vw_lists vw Active.
Proof.
  unfold a_unregister. destruct (vw_evts vw !! e); [|done]. simpl.
  destruct (_ && _); [by rewrite fn_lookup_insert_ne|done].
Qed.

Lemma a_unschedule_active e vw : vw_lists (a_unschedule e vw) Active = vw_lists vw Active.
Proof. unfold a_unschedule. destruct (vw_evts vw !! e); [|done]. by destruct (has _ _). Qed.

Lemma a_deadline_active e user d vw : vw_lists (a_deadline e user d vw) Active = vw_lists vw Active.
Proof.
  unfold a_deadline, a_schedule. rewrite <-(a_unschedule_active e vw).
  destruct (vw_evts _ !! e); [destruct (has _ _)|]; simpl; by destruct user.
Qed.

Lemma add_outcome_active vw e evt tv abs res vw' :
  add_outcome (W:=W) vw e evt tv abs res vw' → vw_lists vw' Active = vw_lists vw Active.
Proof. intros []; rewrite ?a_deadline_active, ?a_register_active; done. Qed.

Lemma a_deactivate_active e evt vw :
  vw_evts vw !! e = Some evt → has (evt_flags evt) WBA_EVTLIST_ACTIVE = true →
  vw_lists (a_deactivate e vw) Active = rm e (vw_lists vw Active).
Proof. intros He Ha. unfold a_deactivate. rewrite He, Ha. simpl. by rewrite fn_lookup_insert. Qed.

Lemma a_del_active e evt vw :
  vw_evts vw !! e = Some evt → has (evt_flags evt) WBA_EVTLIST_ACTIVE = true →
  vw_lists (a_del e vw) Active = rm e (vw_lists vw Active).
Proof.
  intros He Ha. unfold a_del. rewrite He. rewrite <-(a_unschedule_active e vw).
  assert (vw_lists (a_deactivate e (a_unschedule e vw)) Active = rm e (vw_lists (a_unschedule e vw) Active)) as Hd.
  { eapply a_deactivate_active; [by rewrite a_unschedule_evts, lookup_alter_eq, He|]. by flags. }
  destruct (has (evt_flags evt) WBA_EVTLIST_REG); [by rewrite a_unregister_active|done].
Qed.

(** The call an event asks for: callback, descriptor, what happened, argument. *)
Definition call_of (evt : wba_evt) : Z * Z * Z * Z := (cb_fn evt, evt_fd evt, evt_res evt, cb_arg evt).

(** An event survives the operations on it. *)
Lemma add_outcome_live vw e evt tv abs res vw' :
  add_outcome (W:=W) vw e evt tv abs res vw' → vw_evts vw !! e = Some evt →
  ∃ evt', vw_evts vw' !! e = Some evt' ∧ evt_base evt' = evt_base evt ∧ call_of evt' = call_of evt.
Proof.
  intros Hout He. destruct Hout; [by eauto..| |].
  - rewrite a_register_evts, lookup_alter_eq, He. by eexists.
  - unfold a_deadline. rewrite a_schedule_evts, lookup_alter_eq. simpl. rewrite lookup_alter_eq.
    destruct (remembers evt t abs); simpl; rewrite ?lookup_alter_eq, a_unschedule_evts,
      lookup_alter_eq, a_register_evts, lookup_alter_eq, He; eexists; (split; [done|]); by case_match.
Qed.

Lemma a_register_cfg e vw : vw_cfg (a_register e vw) = vw_cfg vw.
Proof. unfold a_register. by destruct (vw_evts vw !! e). Qed.
Lemma a_schedule_cfg e vw : vw_cfg (a_schedule e vw) = vw_cfg vw.
Proof. unfold a_schedule. destruct (vw_evts vw !! e); [|done]. by destruct (has _ _). Qed.

Lemma add_outcome_same vw e evt tv abs res vw' :
  add_outcome (W:=W) vw e evt tv abs res vw' → vw_cfg vw' = vw_cfg vw ∧ dom (vw_evts vw') = dom (vw_evts vw).
Proof.
  intros Hout. destruct Hout; [done..| |].
  - by rewrite a_register_cfg, a_register_evts, dom_alter_L.
  - unfold a_deadline. rewrite a_schedule_cfg, a_schedule_evts, dom_alter_L. simpl. rewrite dom_alter_L.
    destruct (remembers evt t abs); simpl;
      by rewrite ?dom_alter_L, a_unschedule_cfg, a_unschedule_evts, dom_alter_L, a_register_cfg, a_register_evts, dom_alter_L.
Qed.

(** Rescheduling keeps the bounds: the event is no longer active. *)
Lemma good_add_outcome fuel vw e evt d res vw' :
  add_outcome (W:=W) vw e evt (Some d) true res vw' → good fuel vw → vw_evts vw !! e = Some evt →
  has (evt_flags evt) WBA_EVTLIST_ACTIVE = false → tv_normal d → 0 ≤ tv_sec d ≤ 2 ^ 52 → good fuel vw'.
Proof.
  intros Hout Hg He Ha Hdn Hd0. inversion Hout; subst; try done. simplify_eq.
  match goal with H : deadline_for _ true _ |- _ => unfold deadline_for in H; subst end.
  eapply good_deadline.
  - by apply good_register.
  - by rewrite a_register_evts, lookup_alter_eq, He.
  - done.
  - done.
  - done.
  - flags. by rewrite Ha.
Qed.

(** Adding with a relative timeout. *)
Lemma good_add_relative fuel vw e evt tv res vw' :
  add_outcome (W:=W) vw e evt (Some tv) false res vw' → good fuel vw → vw_evts vw !! e = Some evt →
  has (evt_flags evt) WBA_EVTLIST_ACTIVE = false → interval_ok tv → good fuel vw'.
Proof.
  intros Hout Hg He Ha Htv. inversion Hout as [|w _ _|w _ Heq|w t d _ Heq Hdl]; subst vw'; try done.
  injection Heq as <-. destruct Hdl as (now & [Hnn Hn]%clock_now & Hd). destruct (add_interval now tv Hnn) as (d' & Hd' & Hdn & Hd0 & _); [lia|done|]. rewrite Hd in Hd'. simplify_eq.
  eapply good_deadline.
  - by apply good_register.
  - by rewrite a_register_evts, lookup_alter_eq, He.
  - unfold remembers. intros t. case_match; [|done]. by intros [= <-].
  - done.
  - done.
  - flags. by rewrite Ha.
Qed.

(** ** Callbacks *)

(** What a callback may assume and has to respect.  It is called for an event [e] of
    the base that has just been taken off the active list; it keeps the base well
    formed, the times bounded, the client's invariant and data, and the events still to
    be run on the active list. *)
Definition callback_ok (fuel : nat) (b : Z) (callback : Z → Z → Z → Z → cmd (evstate W) ()) : Prop :=
  ∀ e evt s vw, rep s b vw → good fuel vw → mine s → vw_evts vw !! e = Some evt → evt_base evt = b →
    has (evt_flags evt) WBA_EVTLIST_ACTIVE = false →
    wp (callback (cb_fn evt) (evt_fd evt) (evt_res evt) (cb_arg evt))
      (λ _ s', ∃ vw', rep s' b vw' ∧ good fuel vw' ∧ mine s' ∧ vw_lists vw' Active = vw_lists vw Active) s.

(** What becomes of an active event before its callback is called: a persistent one only
    leaves the active list and, if it has an interval, is added again for its next
    deadline; any other is deleted. *)
Definition prepared (vw : evview) (e : Z) (evt : wba_evt) (vw' : evview) : Prop :=
  if has (evt_events evt) WBA_EVT_PERSIST then
    if decide (evt_user_timeout evt = Timeval 0 0) then vw' = a_deactivate e vw
    else ∃ now d res, clock_says (W:=W) now ∧ next_deadline evt now = Some d ∧
      add_outcome (W:=W) (a_deactivate e vw) e (set_flags (clear_bits WBA_EVTLIST_ACTIVE) evt) (Some d) true res vw'
  else vw' = a_del e vw.

(** The active events [l] are run one after the other: each is prepared, and then its
    callback is called once, with its descriptor, what happened, and its argument. *)
Inductive drained (callback : Z → Z → Z → Z → cmd (evstate W) ()) (b : Z) :
    list Z → evstate W → evview → evstate W → evview → Prop :=
| drained_nil s vw : rep s b vw → vw_lists vw Active = [] → drained callback b [] s vw s vw
| drained_cons e l s vw evt s1 vw1 s2 vw2 s' vw' :
    rep s b vw → vw_lists vw Active = e :: l → vw_evts vw !! e = Some evt →
    prepared vw e evt vw1 → rep s1 b vw1 →
    callback (cb_fn evt) (evt_fd evt) (evt_res evt) (cb_arg evt) s1 = Done ((), s2) →
    drained callback b l s2 vw2 s' vw' →
    drained callback b (e :: l) s vw s' vw'.

Lemma drained_end callback b l s vw s' vw' :
  drained callback b l s vw s' vw' → rep s' b vw' ∧ vw_lists vw' Active = [].
Proof. by induction 1. Qed.

(** The test for an interval. *)
Lemma interval_test t :
  negb (bool_decide (tv_sec t = 0)) || negb (bool_decide (tv_usec t = 0)) = negb (bool_decide (t = Timeval 0 0)).
Proof.
  destruct t as [u v]. simpl. rewrite <-negb_andb, <-bool_decide_and. f_equal. apply bool_decide_ext. naive_solver.
Qed.

Context (fuel : nat) (b : Z).

(** The event-specific part of the body, before the callback. *)
Lemma wp_active_prepare s vw e evt Q :
  rep s b vw → good fuel vw → mine s → vw_evts vw !! e = Some evt → evt_base evt = b →
  has (evt_flags evt) WBA_EVTLIST_ACTIVE = true →
  (∀ s' vw' evt', rep s' b vw' → good fuel vw' → mine s' → prepared vw e evt vw' →
     vw_evts vw' !! e = Some evt' → evt_base evt' = b → call_of evt' = call_of evt →
     vw_lists vw' Active = rm e (vw_lists vw Active) → Q () s') →
  wp (if has (evt_events evt) WBA_EVT_PERSIST then
        event_remove_active e;;
        if negb (bool_decide (tv_sec (evt_user_timeout evt) = 0)) ||
           negb (bool_decide (tv_usec (evt_user_timeout evt) = 0)) then
          now ← event_timeget;
          now ← of_option now;
          next ← of_option (next_deadline evt now);
          event_add fuel e (Some next) true;;
          mret ()
        else mret ()
      else event_del fuel e;; mret ()) Q s.
Proof.
  intros Hr Hg HJ He Hb Ha HQ. pose proof Hg as (Hfuel & HE & _). unfold prepared in HQ.
  destruct (has (evt_events evt) WBA_EVT_PERSIST).
  2: { apply wp_bind. keeping. eapply refine_event_del; [done..|]. intros res s1 Hr1 _ HJ1. apply wp_ret.
       eapply HQ; [done|by apply good_del|done|done|by rewrite a_del_evts, lookup_alter_eq, He|done|done|by eapply a_del_active]. }
  apply wp_bind. keeping. eapply refine_remove_active; [done..|]. intros s1 Hr1 _ HJ1.
  set (vw1 := a_deactivate e vw) in *. set (evt1 := set_flags (clear_bits WBA_EVTLIST_ACTIVE) evt) in *.
  assert (vw_evts vw1 !! e = Some evt1) as He1
    by (unfold vw1; by rewrite a_deactivate_evts, lookup_alter_eq, He).
  assert (good fuel vw1) as Hg1 by (by apply good_deactivate).
  assert (vw_lists vw1 Active = rm e (vw_lists vw Active)) as Hact1 by (by eapply a_deactivate_active).
  rewrite interval_test. destruct (decide (evt_user_timeout evt = Timeval 0 0)) as [Hz|Hz].
  { rewrite bool_decide_true by done. simpl. apply wp_ret. by eapply HQ. }
  rewrite bool_decide_false by done. simpl.
  apply wp_bind. keeping. apply wp_event_timeget. intros s2 ts w Hc Hs2 _ HJ2.
  destruct (clock_ok (es_world s1)) as (sec & nsec & w' & Hc' & _). rewrite Hc in Hc'. simplify_eq.
  set (now := Timeval sec (Z.quot nsec 1000)).
  assert (clock_says (W:=W) now) as Hnow by (by exists (es_world s1), w', sec, nsec).
  destruct (next_deadline_total evt now) as (d & Hd & Hdn & Hd0 & _); [by eapply HE|done|done|].
  apply wp_bind, wp_ret. apply wp_bind. eapply wp_of_option; [done|]. apply wp_bind. keeping.
  eapply refine_event_add; [by eapply same_data_rep|done..|apply Hg1|done|].
  intros res s3 vw3 Hout Hr3 HJ3. apply wp_ret.
  destruct (add_outcome_live _ _ _ _ _ _ _ Hout He1) as (evt3 & He3 & Hb3 & Hcall).
  eapply HQ; [done| |done|by exists now, d, res|done|by rewrite Hb3|done|].
  - eapply good_add_outcome; [done..| |done|done]. unfold evt1. by flags.
  - rewrite <-Hact1. by eapply add_outcome_active.
Qed.

Context (callback : Z → Z → Z → Z → cmd (evstate W) ()).
Hypothesis Hcb : callback_ok fuel b callback.

(** The body runs the first active event. *)
Lemma refine_active_body s vw e l cnt :
  rep s b vw → good fuel vw → mine s → vw_lists vw Active = e :: l →
  wp (event_process_active_body callback fuel e cnt)
    (λ cnt' s', cnt' = cnt + 1 ∧ ∃ vw', rep s' b vw' ∧ good fuel vw' ∧ mine s' ∧ vw_lists vw' Active = l ∧
       ∀ sf vwf, drained callback b l s' vw' sf vwf → drained callback b (e :: l) s vw sf vwf) s.
Proof.
  intros Hr Hg HJ Hl. destruct (rep_member _ _ _ Active e Hr I) as (evt & He & Hb & Ha);
    [rewrite Hl; set_solver|].
  pose proof (rep_list_NoDup _ _ _ Active Hr I) as Hnd. rewrite Hl in Hnd.
  apply NoDup_cons in Hnd as [Hel _].
  unfold event_process_active_body. apply wp_bind.
  eapply wp_get_evt; [by rewrite (rep_evts _ _ _ Hr)|]. apply wp_bind.
  eapply wp_active_prepare; [done..|]. intros s1 vw1 evt1 Hr1 Hg1 HJ1 Hprep He1 Hb1 Hcall Hact1.
  rewrite Hl, rm_head in Hact1 by done. apply wp_bind.
  eapply wp_get_evt; [by rewrite (rep_evts _ _ _ Hr1)|]. apply wp_bind.
  assert (has (evt_flags evt1) WBA_EVTLIST_ACTIVE = false) as Hna.
  { apply not_true_iff_false. rewrite <-(members_in _ _ _ _ _ _ (rep_lists _ _ _ Hr1 Active I) He1 Hb1). by rewrite Hact1. }
  destruct (Hcb e evt1 s1 vw1) as ([] & s2 & Hrun & vw2 & Hr2 & Hg2 & HJ2 & Hact2); [done..|].
  eapply wp_done; [exact Hrun|]. apply wp_ret. split; [done|]. exists vw2. rewrite Hact2. split_and!; [done..|].
  intros sf vwf Hd. unfold call_of in Hcall. simplify_eq.
  eapply drained_cons; [exact Hr|exact Hl|exact He|exact Hprep|exact Hr1| |exact Hd]. congruence.
Qed.

Lemma refine_process_active s vw Q :
  rep s b vw → good fuel vw → mine s →
  (∀ s' vw', drained callback b (vw_lists vw Active) s vw s' vw' → good fuel vw' → mine s' →
     Q (Z.of_nat (length (vw_lists vw Active))) s') →
  wp (event_process_active callback fuel b) Q s.
Proof.
  intros Hr Hg HJ HQ. unfold event_process_active. set (n := length (vw_lists vw Active)) in *.
  pose (I := λ (zs : list Z) (cnt : Z) s', ∃ us vw', rep s' b vw' ∧ good fuel vw' ∧ mine s' ∧
    vw_lists vw' Active = us ∧ zs = evt_active_next <$> us ∧ cnt = Z.of_nat n - Z.of_nat (length us) ∧
    ∀ sf vwf, drained callback b us s' vw' sf vwf → drained callback b (vw_lists vw Active) s vw sf vwf).
  eapply wp_mono; [apply (wp_list_for_each_entry_safe I) with (xs := evt_active_next <$> vw_lists vw Active)|].
  - intros zs cnt s' (us & vw' & Hr' & _). pose proof (rep_slot_ring _ _ _ Active Hr' Logic.I) as Hring.
    eapply (ring_live _ _ _ _ Hring). set_solver.
  - intros x zs cnt s' (us & vw' & Hr' & _ & _ & Hus & Hzs & _).
    pose proof (rep_slot_ring _ _ _ Active Hr' Logic.I) as Hring. rewrite Hus in Hring.
    change (lid_cell Active <$> us) with (evt_active_next <$> us) in Hring. rewrite <-Hzs in Hring.
    split; [apply (ring_mid_fresh _ _ []) in Hring; set_solver|].
    by apply (ring_remove _ _ []) in Hring as [? _].
  - intros x zs cnt s' (us & vw' & Hr' & Hg' & HJ' & Hus & Hzs & -> & Hh). destruct us as [|u us]; [done|].
    injection Hzs as -> ->.
    replace (evt_active_next u - off_evt_active_next) with u by (unfold evt_active_next; lia).
    eapply wp_mono; [by eapply refine_active_body|].
    intros cnt' s2 (-> & vw2 & Hr2 & Hg2 & HJ2 & Hus2 & Hd). exists us, vw2. split_and!; try done; [simpl; lia|]. auto.
  - apply ring_first. apply (rep_slot_ring _ _ _ Active Hr Logic.I).
  - rewrite length_fmap. pose proof (rep_list_length _ _ _ Active Hr Logic.I). destruct Hg as [? _]. lia.
  - exists (vw_lists vw Active), vw. split_and!; try done. lia.
  - intros cnt s' (us & vw' & Hr' & Hg' & HJ' & Hus & Hzs & -> & Hh). destruct us; [|done].
    simpl. rewrite Z.sub_0_r. eapply HQ; [|done|done]. apply Hh. by apply drained_nil.
Qed.

(** ** Dispatching *)

Lemma epoll_events_no_timeout what : has (epoll_to_events what) WBA_EVT_TIMEOUT = false.
Proof.
  unfold epoll_to_events. by destruct (has what (Z.lor EPOLLHUP EPOLLERR)), (has what EPOLLIN),
    (has what EPOLLOUT), (has what EPOLLRDHUP).
Qed.

Lemma times_ok_active evt events :
  times_ok evt → has events WBA_EVT_TIMEOUT = false →
  times_ok (if has (evt_flags evt) WBA_EVTLIST_ACTIVE then evt
            else set_flags (set_bits WBA_EVTLIST_ACTIVE) (set_res (Z.land (evt_events evt) events) evt)).
Proof.
  intros Ht Hev. destruct (has (evt_flags evt) _); [done|]. destruct Ht as (? & ? & ? & _).
  unfold times_ok. simpl.
  split_and!; try (done || lia). intros _ Hres. unfold has in Hres, Hev.
  rewrite <-Z.land_assoc in Hres. apply negb_false_iff, bool_decide_eq_true in Hev.
  rewrite Hev, Z.land_0_r in Hres. done.
Qed.

Lemma good_map_active fd events vw :
  has events WBA_EVT_TIMEOUT = false → good fuel vw → good fuel (a_map_active fd events vw).
Proof.
  intros Hev Hg. unfold a_map_active. case_bool_decide; [done|]. generalize (vw_lists vw (Slot (slot_of fd))) as l.
  intros l. revert vw Hg. induction l as [|e l IH]; intros vw Hg; [done|]. simpl. apply IH.
  unfold a_map_active_one. destruct (vw_evts vw !! e) as [evt|] eqn:He; [|done].
  destruct (has (evt_events evt) events); [|done].
  eapply good_alter; [done|apply a_activate_evts|intros evt'; cbn beta; by destruct (has (evt_flags evt') WBA_EVTLIST_ACTIVE)|]. intros evt' He' Ht. simplify_eq.
  by apply times_ok_active.
Qed.

Lemma good_expire now l vw :
  clock_says (W:=W) now → good fuel vw → good fuel (a_expire now l vw).2.
Proof.
  intros Hnow. revert vw. induction l as [|e l IH]; intros vw Hg; [done|]. simpl.
  case_bool_decide as Hgt; [done|]. specialize (IH (a_fire e vw)).
  destruct (a_expire now l (a_fire e vw)) as [n vw'] eqn:Hx. simpl in *. apply IH.
  unfold a_fire. eapply good_alter; [by apply good_del|apply a_activate_evts|intros evt'; cbn beta; by destruct (has (evt_flags evt') WBA_EVTLIST_ACTIVE)|].
  intros evt He Ht. cbn beta. destruct (has (evt_flags evt) WBA_EVTLIST_ACTIVE); [done|].
  destruct Ht as (? & ? & ? & _). unfold times_ok. simpl. split_and!; try (done || lia). intros _ _.
  rewrite a_del_evts, lookup_alter_eq in He. apply fmap_Some in He as (evt0 & He0 & ->).
  rewrite event_timecmp_gt in Hgt. apply dec_stable in Hgt. unfold tmo in Hgt. rewrite He0 in Hgt.
  apply clock_now in Hnow as [_ Hnow]. simpl. unfold tv_le in Hgt. lia.
Qed.

(** What epoll_wait documents: -1, or the number of entries it wrote. *)
Definition epoll_wait_ok (epfd : Z) : Prop :=
  ∀ n timeout w, let '(res, evs, _) := sys_epoll_wait epfd n timeout w in
    res = -1 ∨ (0 ≤ res ≤ n ∧ Z.of_nat (length evs) = res).

(** The events dispatched: one slot activation per entry. *)
Definition a_dispatch (evs : list (Z * Z)) (vw : evview) : evview :=
  foldl (λ vw '(what, fd), if bool_decide (epoll_to_events what = 0) then vw
                           else a_map_active fd (epoll_to_events what) vw) vw evs.

Lemma a_map_active_cfg fd events vw : vw_cfg (a_map_active fd events vw) = vw_cfg vw.
Proof.
  unfold a_map_active. case_bool_decide; [done|]. generalize (vw_lists vw (Slot (slot_of fd))) as l.
  intros l. revert vw. induction l as [|e l IH]; intros vw; [done|]. simpl. rewrite IH.
  unfold a_map_active_one, a_activate. destruct (vw_evts vw !! e); [|done].
  repeat case_match; done.
Qed.

Lemma a_dispatch_cfg evs vw : vw_cfg (a_dispatch evs vw) = vw_cfg vw.
Proof.
  revert vw. induction evs as [|[what fd] evs IH]; intros vw; [done|]. simpl. fold (a_dispatch evs).
  rewrite IH. case_bool_decide; [done|]. apply a_map_active_cfg.
Qed.

Lemma good_dispatch evs vw : good fuel vw → good fuel (a_dispatch evs vw).
Proof.
  revert vw. induction evs as [|[what fd] evs IH]; intros vw Hg; [done|]. simpl. apply IH.
  case_bool_decide; [done|]. apply good_map_active; [apply epoll_events_no_timeout|done].
Qed.

Lemma refine_dispatch s vw res Q :
  rep s b vw → good fuel vw → 0 ≤ res ≤ EVT_NUM_EVENTS → (Z.to_nat res < fuel)%nat →
  (∀ s', rep s' b (a_dispatch (take (Z.to_nat res) (cfg_buf (vw_cfg vw))) vw) → Q () s') →
  wp (event_dispatch fuel b res) Q s.
Proof.
  intros Hr Hg Hres Hfuel HQ. set (buf := cfg_buf (vw_cfg vw)) in *.
  destruct (rep_buf _ _ _ Hr) as [_ Hlen]. fold buf in Hlen.
  apply (wp_loop_variant (λ m i s', ∃ n, i = Z.of_nat n ∧ m = (Z.to_nat res - n)%nat ∧
    Z.of_nat n ≤ res ∧ rep s' b (a_dispatch (take n buf) vw))) with (m := Z.to_nat res); [|done|].
  2: { exists 0%nat. split_and!; [done|lia..|done]. }
  intros m i s' (n & -> & -> & Hn & Hr'). case_bool_decide as Hlt.
  2: { apply wp_ret, HQ. by replace (Z.to_nat res) with n by lia. }
  apply wp_bind. eapply wp_get_base; [apply Hr'|]. simpl.
  destruct (rep_buf _ _ _ Hr') as [Hbuf' _]. rewrite a_dispatch_cfg in *. fold buf in Hbuf'.
  apply wp_bind, wp_zoom. eapply wp_load; [exact Hbuf'|].
  replace (update (es_bufs s') s') with s' by (by destruct s').
  destruct (lookup_lt_is_Some_2 buf n) as [[what fd] Hx]; [rewrite Hlen; lia|].
  rewrite Nat2Z.id. apply wp_bind. eapply wp_of_option; [done|].
  apply wp_bind. apply wp_mono with (Q := λ _ s'', rep s'' b (a_dispatch (take (S n) buf) vw)).
  - rewrite (take_S_r buf n _ Hx). unfold a_dispatch. rewrite foldl_app. simpl. fold (a_dispatch (take n buf)).
    case_bool_decide; [by apply wp_ret|].
    eapply refine_map_active; [done| |done]. apply (good_dispatch (take n buf) vw Hg).
  - intros [] s'' Hr''. apply wp_ret. exists (Z.to_nat res - S n)%nat. split; [lia|].
    exists (S n). split_and!; [lia..|done].
Qed.

(** ** One turn *)

Lemma rep_write_buf s vw evs Q :
  rep s b vw → (length evs ≤ Z.to_nat EVT_NUM_EVENTS)%nat →
  (∀ s', rep s' b (EvView (EvCfg (cfg_epfd (vw_cfg vw)) (cfg_events (vw_cfg vw)) (cfg_arr (vw_cfg vw))
       (evs ++ drop (length evs) (cfg_buf (vw_cfg vw)))) (vw_evts vw) (vw_lists vw) (vw_time vw)) →
     Q () s') →
  wp (write_buf (cfg_events (vw_cfg vw)) evs) Q s.
Proof.
  intros Hr Hlen HQ. destruct (rep_buf _ _ _ Hr) as [Hbuf Hl]. unfold write_buf. apply wp_zoom.
  eapply wp_modify; [exact Hbuf|]. apply HQ. destruct Hr. constructor; simpl; try done.
  rewrite lookup_insert_eq. split; [done|]. rewrite length_app, length_drop. lia.
Qed.

(** Deadlines of bounded events give a waiting time. *)
Lemma wait_for_total E e now :
  evts_ok E → clock_says (W:=W) now → is_Some (wait_for (tmo E e) now).
Proof.
  intros HE Hc. apply clock_now in Hc as [Hnn Hn].
  assert (tv_normal (tmo E e) ∧ 0 ≤ tv_sec (tmo E e) ≤ 2 ^ 52) as [Hdn Hd].
  { unfold tmo. destruct (E !! e) as [evt|] eqn:He; [|done].
    destruct (HE e evt He) as (_ & ? & ? & _). done. }
  unfold wait_for. case_bool_decide; [by eexists|].
  destruct (event_timesub_total (tmo E e) now) as [d Hsub]; [done..|unfold in_s64; lia|unfold in_s64; lia|].
  rewrite Hsub. simpl. pose proof (event_timesub_us _ _ _ Hsub) as Hus.
  pose proof (event_timesub_normal _ _ _ Hdn Hnn Hsub) as Hsn.
  assert (- 2 ^ 53 ≤ tv_sec d ≤ 2 ^ 53) by (unfold tv_us, tv_normal in *; lia).
  unfold timeout_ms, tv_normal, mbind, option_bind in *. rewrite Z.quot_div_nonneg by lia.
  assert (0 ≤ tv_usec d / 1000 ≤ 1000) by (split; [apply Z.div_pos; lia|apply Z.div_le_upper_bound; lia]).
  rewrite !s64_Some by (unfold in_s64; lia). by eexists.
Qed.

(** The loop's test for a base without events. *)
Definition idle_base (vw : evview) : Prop :=
  base_event_count (base_of vw) = 0 ∧ base_event_count_active (base_of vw) = 0.

#[local] Instance idle_base_dec vw : Decision (idle_base vw).
Proof. unfold idle_base. apply _. Defined.

(** What the loop does in one turn, from [s] with the view [vw] to [s'] with the view [vw'].
    [timeout_of]: the time it is ready to wait. *)
Definition timeout_of (vw : evview) (timeout : Z) : Prop :=
  match vw_time vw with
  | [] => timeout = EVT_DEF_WAIT_MS
  | e :: _ => ∃ now, clock_says (W:=W) now ∧ wait_for (tmo (vw_evts vw) e) now = Some timeout
  end.

(** The call of epoll_wait in a turn from [s]: nothing has changed until then. *)
Definition waited (s : evstate W) (vw : evview) (res : Z) (evs : list (Z * Z)) (s1 : evstate W) (w : W) : Prop :=
  same_data s s1 ∧ ∃ timeout, timeout_of vw timeout ∧
    sys_epoll_wait (cfg_epfd (vw_cfg vw)) EVT_NUM_EVENTS timeout (es_world s1) = (res, evs, w).

(** The state after a system call. *)
Definition with_world (w : W) (s : evstate W) : evstate W :=
  EvState (es_list s) (es_rb s) (es_evts s) (es_bases s) (es_bufs s) w.

(** The reports of epoll_wait are stored in the buffer of the base. *)
Definition a_store (evs : list (Z * Z)) (vw : evview) : evview :=
  EvView (EvCfg (cfg_epfd (vw_cfg vw)) (cfg_events (vw_cfg vw)) (cfg_arr (vw_cfg vw))
    (evs ++ drop (length evs) (cfg_buf (vw_cfg vw)))) (vw_evts vw) (vw_lists vw) (vw_time vw).

(** The reports are dispatched to the slots, then the timeouts up to [now] are taken. *)
Definition a_turn (evs : list (Z * Z)) (now : timeval) (vw : evview) : evview :=
  let vw := a_dispatch evs (a_store evs vw) in (a_expire now (vw_time vw) vw).2.

Inductive turn (s : evstate W) (vw : evview) (res0 : Z) : Z + Z → evstate W → evview → Prop :=
| turn_idle s' : idle_base vw → same_data s s' → turn s vw res0 (inr res0) s' vw
| turn_failed evs s1 w s' :
    ¬ idle_base vw → waited s vw (-1) evs s1 w → event_debug (with_world w s1) = Done ((), s') →
    turn s vw res0 (inr 0) s' vw
| turn_ran res evs s1 w now s2 s3 s' vw' :
    ¬ idle_base vw → waited s vw res evs s1 w → 0 ≤ res ≤ EVT_NUM_EVENTS → Z.of_nat (length evs) = res →
    clock_says (W:=W) now →
    drained callback b (vw_lists (a_turn evs now vw) Active) s2 (a_turn evs now vw) s3 vw' → same_data s3 s' →
    turn s vw res0 (inl res) s' vw'.

Lemma wp_event_debug_exact s Q :
  (∀ s', same_data s s' → event_debug s = Done ((), s') → Q () s') → wp event_debug Q s.
Proof.
  intros HQ. destruct (wp_event_debug s (λ _ s', same_data s s')) as ([] & s' & Hd & Hs); [done|].
  exists (), s'. auto.
Qed.

(** The loop's choice of the waiting time. *)
Lemma refine_choose_timeout s vw Q :
  rep s b vw → good fuel vw →
  (∀ timeout s', timeout_of vw timeout → same_data s s' → Q timeout s') → wp (event_next_timeout fuel b) Q s.
Proof.
  intros Hr Hg HQ. unfold timeout_of in HQ. pose proof Hg as [Hsz _]. eapply refine_next_timeout; [done|lia|].
  destruct (vw_time vw) as [|e l]; [by apply HQ|].
  intros ts w s2 Hc Hs2. destruct (clock_ok (es_world s)) as (sec & nsec & w' & Hc' & _). rewrite Hc in Hc'. simplify_eq.
  assert (clock_says (W:=W) (Timeval sec (Z.quot nsec 1000))) as Hnow by (by exists (es_world s), w', sec, nsec).
  destruct (wait_for_total (vw_evts vw) e _ ltac:(apply Hg) Hnow) as [ms Hms]. exists ms. split; [done|]. apply HQ; [by eexists|done].
Qed.

(** The part of a turn after epoll_wait. *)
Lemma refine_handle s vw res evs Q :
  rep s b vw → good fuel vw → mine s → (Z.to_nat EVT_NUM_EVENTS < fuel)%nat →
  0 ≤ res ≤ EVT_NUM_EVENTS → Z.of_nat (length evs) = res →
  (∀ now s2 s3 s' vw', clock_says (W:=W) now → same_data s3 s' → good fuel vw' → mine s' →
     drained callback b (vw_lists (a_turn evs now vw) Active) s2 (a_turn evs now vw) s3 vw' → Q (inl res) s') →
  wp (write_buf (cfg_events (vw_cfg vw)) evs;; event_dispatch fuel b res;; event_process_timeout fuel b;;
      event_process_active callback fuel b;; event_debug;; event_debug;; mret (inl (B:=Z) res)) Q s.
Proof.
  intros Hr Hg HJ Hfuel Hres Hlen HQ. unfold EVT_NUM_EVENTS in *.
  apply wp_bind. keeping. eapply rep_write_buf; [exact Hr|unfold EVT_NUM_EVENTS; lia|]. intros s5 Hr5 HJ5.
  fold (a_store evs vw) in Hr5. assert (good fuel (a_store evs vw)) as Hg5 by done.
  apply wp_bind. keeping. eapply refine_dispatch; [exact Hr5|exact Hg5|done|lia|]. intros s6 Hr6 HJ6.
  assert (take (Z.to_nat res) (cfg_buf (vw_cfg (a_store evs vw))) = evs) as Hbuf.
  { simpl. replace (Z.to_nat res) with (length evs) by lia. by rewrite take_app_length. }
  rewrite Hbuf in Hr6. set (vw6 := a_dispatch evs (a_store evs vw)) in *.
  assert (good fuel vw6) as Hg6 by (by apply good_dispatch).
  apply wp_bind. keeping. eapply refine_process_timeout; [exact Hr6|apply Hg6|]. intros ts w7 s7 Hc7.
  destruct (clock_ok (es_world s6)) as (sec & nsec & w' & Hc' & _). rewrite Hc7 in Hc'. simplify_eq.
  set (now := Timeval sec (Z.quot nsec 1000)). assert (clock_says (W:=W) now) as Hnow by (by exists (es_world s6), w', sec, nsec).
  specialize (HQ now s7). unfold a_turn in HQ. fold vw6 in HQ. cbv zeta in HQ.
  pose proof (good_expire now (vw_time vw6) vw6 Hnow Hg6) as Hg7. destruct (a_expire now (vw_time vw6) vw6) as [n vw7]. simpl in HQ, Hg7.
  intros Hr7 HJ7. apply wp_bind. eapply refine_process_active; [done..|]. intros s8 vw8 Hd Hg8 HJ8.
  apply wp_bind. keeping. apply wp_event_debug. intros s9 Hs9 HJ9.
  apply wp_bind. keeping. apply wp_event_debug. intros s10 Hs10 HJ10. apply wp_ret.
  apply (HQ s8 s10 vw8); [done|by eapply same_data_trans|done|done|exact Hd].
Qed.

(** One turn of the main loop does what [turn] says. *)
Lemma refine_loop_body s vw res0 :
  rep s b vw → good fuel vw → mine s → (Z.to_nat EVT_NUM_EVENTS < fuel)%nat →
  epoll_wait_ok (cfg_epfd (vw_cfg vw)) →
  wp (wba_event_loop_body callback fuel b res0)
    (λ r s', ∃ vw', turn s vw res0 r s' vw' ∧ rep s' b vw' ∧ good fuel vw' ∧ mine s') s.
Proof.
  intros Hr Hg HJ Hfuel Hep. unfold wba_event_loop_body.
  apply wp_bind. eapply wp_get_base; [apply Hr|]. rewrite <-bool_decide_and.
  destruct (decide (idle_base vw)) as [Hempty|Hne].
  { rewrite bool_decide_true by done. apply wp_bind. keeping. apply wp_event_debug. intros s1 Hs1 HJ1. apply wp_ret.
    exists vw. split_and!; [by apply turn_idle|by eapply same_data_rep|done|done]. }
  rewrite bool_decide_false by done.
  apply wp_bind. keeping. apply wp_event_debug. intros s1 Hs1 HJ1. pose proof (same_data_rep _ _ _ _ Hr Hs1) as Hr1.
  apply wp_bind. keeping. eapply refine_choose_timeout; [done..|]. intros timeout s2 Ht Hs2 HJ2.
  apply wp_bind. keeping. apply wp_event_debug. intros s3 Hs3 HJ3.
  assert (same_data s s3) as Hss by (eapply same_data_trans; [exact Hs1|by eapply same_data_trans]).
  pose proof (same_data_rep _ _ _ _ Hr Hss) as Hr3.
  apply wp_bind. eapply wp_get_base; [apply Hr3|]. cbn [base_epfd base_nevts base_events base_of].
  pose proof (Hep EVT_NUM_EVENTS timeout (es_world s3)) as Hev. pose proof (cw_wait (cfg_epfd (vw_cfg vw)) EVT_NUM_EVENTS timeout _ HJ3) as HJw.
  destruct (sys_epoll_wait _ _ _ _) as [[res evs] w] eqn:Hw in Hev, HJw.
  apply wp_bind. eapply wp_syscall; [exact Hw|]. cbn [fst snd].
  fold (with_world w s3). assert (rep (with_world w s3) b vw) as Hr4 by (by apply (same_data_rep s3)).
  assert (mine (with_world w s3)) as HJ4 by done. case_bool_decide as Hres.
  { subst res. apply wp_bind. keeping. apply wp_event_debug_exact. intros s5 Hs5 Hd5 HJ5. apply wp_ret. exists vw.
    split_and!; [|by eapply same_data_rep|done|done]. eapply turn_failed; [done| |exact Hd5]. split; [exact Hss|by eexists]. }
  destruct Hev as [?|[Hrange Hlen]]; [done|].
  eapply refine_handle; [exact Hr4|exact Hg|exact HJ4|done|done|done|].
  intros now s6 s7 s' vw' Hnow Hs' Hg' HJ' Hd. exists vw'. destruct (drained_end _ _ _ _ _ _ _ Hd) as [Hr7 _].
  split_and!; [|by eapply same_data_rep|done|done]. eapply turn_ran; [done| |done|done|done|exact Hd|done]. split; [exact Hss|by eexists].
Qed.

(** A run of the loop: turns, until one of them ends it. *)
Inductive turns : evstate W → evview → Z → Z → evstate W → evview → Prop :=
| turns_end s vw res0 r s' vw' : turn s vw res0 (inr r) s' vw' → turns s vw res0 r s' vw'
| turns_next s vw res0 res s1 vw1 r s' vw' :
    turn s vw res0 (inl res) s1 vw1 → turns s1 vw1 res r s' vw' → turns s vw res0 r s' vw'.

(** How a run ends: on an idle base, or because epoll_wait failed. *)
Definition ended (r : Z) (s' : evstate W) (vw' : evview) : Prop :=
  idle_base vw' ∨
  r = 0 ∧ ∃ s evs s1 w, waited s vw' (-1) evs s1 w ∧ event_debug (with_world w s1) = Done ((), s').

Lemma turn_ended s vw res0 r s' vw' : turn s vw res0 (inr r) s' vw' → ended r s' vw'.
Proof. inversion 1; subst; [by left|]. right. split; [done|]. by exists s, evs, s1, w. Qed.

Lemma turns_ended s vw res0 r s' vw' :
  turns s vw res0 r s' vw' → 0 ≤ res0 ≤ EVT_NUM_EVENTS → 0 ≤ r ≤ EVT_NUM_EVENTS ∧ ended r s' vw'.
Proof.
  induction 1 as [s vw res0 r s' vw' Ht|s vw res0 res s1 vw1 r s' vw' Ht _ IH]; intros H0.
  - split; [|by eapply turn_ended]. unfold EVT_NUM_EVENTS in *. inversion Ht; subst; lia.
  - apply IH. by inversion Ht; subst.
Qed.

(** The whole loop: its turns, until one ends it. *)
Lemma refine_event_loop s vw :
  rep s b vw → good fuel vw → mine s → (Z.to_nat EVT_NUM_EVENTS < fuel)%nat → (∀ epfd, epoll_wait_ok epfd) →
  match wba_event_loop callback fuel b s with
  | Done (r, s') => ∃ vw', turns s vw 1 r s' vw' ∧ rep s' b vw' ∧ good fuel vw' ∧ mine s'
  | Fault => False
  | OutOfFuel => True
  end.
Proof.
  intros Hr Hg HJ Hf Hep. destruct (lay_pos _ _ _ (rep_layout _ _ _ Hr)) as [Hb0 _].
  unfold wba_event_loop. rewrite bool_decide_false by (unfold NULL; lia).
  apply (loop_turns (λ res s1, ∃ vw1, rep s1 b vw1 ∧ good fuel vw1 ∧ mine s1 ∧
           ∀ r s' vw', turns s1 vw1 res r s' vw' → turns s vw 1 r s' vw')
    _ (λ r s', ∃ vw', turns s vw 1 r s' vw' ∧ rep s' b vw' ∧ good fuel vw' ∧ mine s')).
  - intros res0 s0 (vw0 & Hr0 & Hg0 & HJ0 & Hh).
    eapply wp_mono; [eapply refine_loop_body; [exact Hr0|exact Hg0|exact HJ0|exact Hf|apply Hep]|].
    intros [res|res] s1 (vw1 & Ht & Hr1 & Hg1 & HJ1); exists vw1.
    + split_and!; [done..|]. intros r s' vw' Hrun. apply Hh. by eapply turns_next.
    + split_and!; [|done..]. apply Hh. by apply turns_end.
  - exists vw. split_and!; [done..|]. auto.
Qed.

End turn.
