(* ===== verification/EvAlloc.v ===== *)
(** * Creating and freeing events and bases

    [wba_evtbase_new] establishes the invariant, [wba_event_new] and
    [wba_event_free] keep it while events come and go. *)

From stdpp Require Import gmap numbers functions sorting list.
From S2P Require Import Prelude ListH RbNode RbTree RbZip RbInv.
From S2P Require Import EvTime Rings EvLoop EvInv EvOps EvTree EvApi.

Local Open Scope Z_scope.

(** What [malloc] promises for the block of an event: aligned and apart from
    every live object. *)
Record fresh_block (E : gmap Z wba_evt) (b arr e : Z) : Prop := {
  fb_pos : 0 < e ∧ e + sizeof_wba_evt ≤ 2 ^ 64 ∧ (8 | e);
  fb_evts : ∀ e', is_Some (E !! e') → apart e sizeof_wba_evt e' sizeof_wba_evt;
  fb_base : apart e sizeof_wba_evt b sizeof_wba_evtbase;
  fb_slots : apart e sizeof_wba_evt arr (sizeof_list_head * EVT_MAP_SIZE);
}.

Lemma fresh_not_live E b arr e : fresh_block E b arr e → E !! e = None.
Proof.
  intros Hf. destruct (E !! e) as [evt|] eqn:He; [|done]. exfalso.
  destruct (fb_evts _ _ _ _ Hf e) as [?|?]; [by eexists|..]; unfold sizeof_wba_evt in *; lia.
Qed.

Lemma layout_fresh E b arr e evt :
  layout E b arr → fresh_block E b arr e → layout (<[e:=evt]> E) b arr.
Proof.
  intros HL Hf.
  assert (∀ x, is_Some (<[e:=evt]> E !! x) → x = e ∨ is_Some (E !! x)) as Hx.
  { intros x. destruct (decide (x = e)) as [->|]; [by left|rewrite lookup_insert_ne by done; by right]. }
  destruct HL, Hf. constructor; try done.
  - intros x [->|?]%Hx; auto.
  - intros x y [->|?]%Hx [->|?]%Hx Hne; try done; auto.
    destruct (fb_evts0 x); [done|by right|by left].
  - intros x [->|?]%Hx; auto.
  - intros x [->|?]%Hx; auto.
Qed.

(** An event none of the base's structures refers to. *)
Definition detached (evt : wba_evt) : Prop :=
  has (evt_flags evt) WBA_EVTLIST_REG = false ∧ has (evt_flags evt) WBA_EVTLIST_ACTIVE = false ∧
  has (evt_flags evt) WBA_EVTLIST_TIMEOUT = false.

Lemma detached_not_in k evt : detached evt → in_list k evt = false ∧ in_time evt = false.
Proof.
  intros (Hr & Ha & Ht). split; [|done]. destruct k; simpl; [by rewrite Hr|done].
Qed.

Lemma zip_frame s s' root t X :
  is_rbtree s root t → agree_off X (rb_nodes s) (rb_nodes s') →
  rb_roots s' !! root = rb_roots s !! root → (∀ x, x ∈ X → x ∉ inorder t) → is_rbtree s' root t.
Proof.
  intros [(Hk & Ht & Hg) Hv] Ha Hr HX. split; [|done]. split_and!; [|..|done].
  - simpl in *. by rewrite Hr.
  - eapply tree_at_frame; [done..|]. intros x Hx Hx'. by apply (HX x).
Qed.

Section alloc.
Context {W : Type} `{!System W}.
Implicit Types (s : evstate W).

Definition vw_with_evts (E : gmap Z wba_evt) (vw : evview) : evview :=
  EvView (vw_cfg vw) E (vw_lists vw) (vw_time vw).

(** The cells of the base do not meet a fresh block. *)
Lemma fresh_cells s b vw e k x :
  rep s b vw → fresh_block (vw_evts vw) b (cfg_arr (vw_cfg vw)) e → lid_ok k →
  x ∈ cells (lid_hdr b (cfg_arr (vw_cfg vw))) lid_cell (vw_lists vw) k →
  x ≠ evt_next e ∧ x ≠ evt_active_next e.
Proof.
  intros Hr Hf Hk Hx. set (E' := <[e:=zero_evt]> (vw_evts vw)).
  assert (layout E' b (cfg_arr (vw_cfg vw))) as HL by (eapply layout_fresh; [apply Hr|done]).
  assert (is_Some (E' !! e)) as He by (unfold E'; rewrite lookup_insert_eq; by eexists).
  pose proof (fresh_not_live _ _ _ _ Hf) as Hn.
  assert (∀ k', lid_ok k' → x ≠ lid_cell k' e) as Hne; cycle 1.
  { split; [apply (Hne (Slot 0)); unfold lid_ok, EVT_MAP_SIZE; lia|by apply (Hne Active)]. }
  intros k' Hk' ->. unfold cells in Hx. apply elem_of_cons in Hx as [Hh|(y & Hy & Hin)%list_elem_of_fmap].
  - by destruct (layout_cells _ _ _ k' k e e HL Hk' Hk He He) as [? _].
  - assert (is_Some (vw_evts vw !! y)) as Hly by (by eapply (rep_member_live s b vw k)).
    assert (y ≠ e) as Hye by (intros ->; rewrite Hn in Hly; by destruct Hly).
    assert (is_Some (E' !! y)) as Hly' by (unfold E'; by rewrite lookup_insert_ne).
    destruct (layout_cells _ _ _ k' k e y HL Hk' Hk He Hly') as [_ Heq].
    destruct (Heq Hy) as [_ ?]. done.
Qed.

Lemma rep_add_evt s s' b vw e evt :
  rep s b vw → fresh_block (vw_evts vw) b (cfg_arr (vw_cfg vw)) e → detached evt →
  es_list s' = <[evt_next e := zero_head]> (<[evt_active_next e := zero_head]> (es_list s)) →
  es_rb s' = RbMem (<[evt_time_node e := zero_node]> (rb_nodes (es_rb s))) (rb_roots (es_rb s)) →
  es_evts s' = <[e:=evt]> (es_evts s) → es_bases s' = es_bases s → es_bufs s' = es_bufs s →
  rep s' b (vw_with_evts (<[e:=evt]> (vw_evts vw)) vw).
Proof.
  intros Hr Hf Hd Hl Hrb HE HB Hbuf. pose proof (fresh_not_live _ _ _ _ Hf) as Hn.
  assert (∀ P l, members P (vw_evts vw) b l → P evt = false → members P (<[e:=evt]> (vw_evts vw)) b l) as Hm.
  { intros P l Hm HP x. rewrite (Hm x). destruct (decide (x = e)) as [->|].
    - rewrite lookup_insert_eq, Hn. split; [by intros (? & ? & _)|]. intros (? & [= <-] & _ & ?). congruence.
    - by rewrite lookup_insert_ne. }
  assert (e ∉ vw_time vw) as Hnt by (intros (? & ? & _)%(rep_time _ _ _ Hr); congruence).
  constructor; simpl.
  - by rewrite HE, (rep_evts _ _ _ Hr).
  - rewrite HB. apply Hr.
  - rewrite Hbuf. apply Hr.
  - eapply layout_fresh; [apply Hr|done].
  - unfold base_rings. simpl. rewrite Hl. eapply rings_frame; [apply Hr|]. intros k x Hk Hx.
    destruct (fresh_cells _ _ _ _ k x Hr Hf Hk Hx). by rewrite !lookup_insert_ne.
  - destruct (rep_tree _ _ _ Hr) as (t & Ht & Hto). exists t. split; [|done].
    eapply (zip_frame (es_rb s) _ _ _ [evt_time_node e]); [done|rewrite ?Hrb; simpl..].
    + apply agree_off_insert. set_solver.
    + done.
    + intros x ->%list_elem_of_singleton. rewrite Hto.
      intros (y & Hy & Hin)%list_elem_of_fmap. apply (inj _) in Hy. by subst y.
  - rewrite Hl, Hrb. simpl. intros x Hx.
    assert (∀ {A} (m : gmap Z A) i j v, is_Some (m !! i) → is_Some (<[j:=v]> m !! i)) as Hins.
    { intros A m i j v Hi. rewrite lookup_insert. by case_decide. }
    destruct (decide (x = e)) as [->|].
    + rewrite !lookup_insert_eq. split_and!; [done|apply Hins; by rewrite lookup_insert_eq|done].
    + rewrite lookup_insert_ne in Hx by done. destruct (rep_live _ _ _ Hr x Hx) as (? & ? & ?).
      split_and!; auto.
  - intros k Hk. apply Hm; [by apply Hr|]. by apply (detached_not_in k).
  - apply Hm; [by apply Hr|]. by apply (detached_not_in Active).
  - apply sorted_insert_fresh; [done|apply Hr].
  - intros x evtx. destruct (decide (x = e)) as [->|].
    + rewrite lookup_insert_eq. intros [= <-] _. unfold in_time. destruct Hd as (_ & _ & ->). done.
    + rewrite lookup_insert_ne by done. apply Hr.
Qed.

Lemma rep_del_evt s s' b vw e evt :
  rep s b vw → vw_evts vw !! e = Some evt → evt_base evt = b → detached evt →
  es_list s' = delete (evt_next e) (delete (evt_active_next e) (es_list s)) →
  es_rb s' = RbMem (delete (evt_time_node e) (rb_nodes (es_rb s))) (rb_roots (es_rb s)) →
  es_evts s' = delete e (es_evts s) → es_bases s' = es_bases s → es_bufs s' = es_bufs s →
  rep s' b (vw_with_evts (delete e (vw_evts vw)) vw).
Proof.
  intros Hr He Hb Hd Hl Hrb HE HB Hbuf.
  assert (∀ P l, members P (vw_evts vw) b l → P evt = false → members P (delete e (vw_evts vw)) b l ∧ (e ∉ l)) as Hm.
  { intros P l Hm HP. split; [|rewrite (members_in _ _ _ _ _ _ Hm He Hb); congruence].
    intros x. rewrite (Hm x). destruct (decide (x = e)) as [->|].
    - rewrite lookup_delete_eq, He. split; [intros (? & [= <-] & _ & ?); congruence|by intros (? & ? & _)].
    - by rewrite lookup_delete_ne. }
  assert (∀ x, is_Some (delete e (vw_evts vw) !! x) → x ≠ e ∧ is_Some (vw_evts vw !! x)) as Hlive.
  { intros x. destruct (decide (x = e)) as [->|]; [rewrite lookup_delete_eq; by intros []|].
    by rewrite lookup_delete_ne. }
  destruct (Hm in_time (vw_time vw)) as [Hmt Hnt]; [apply Hr|by apply (detached_not_in Active)|].
  assert (∀ k, lid_ok k → members (in_list k) (delete e (vw_evts vw)) b (vw_lists vw k) ∧ (e ∉ vw_lists vw k)) as Hml.
  { intros k Hk. apply Hm; [by apply Hr|by apply detached_not_in]. }
  assert (∀ k x, lid_ok k → x ∈ cells (lid_hdr b (cfg_arr (vw_cfg vw))) lid_cell (vw_lists vw) k →
    x ≠ evt_next e ∧ x ≠ evt_active_next e) as Hcells.
  { intros k x Hk Hx.
    assert (∀ k', lid_ok k' → x ≠ lid_cell k' e) as Hne; cycle 1.
    { split; [apply (Hne (Slot 0)); unfold lid_ok, EVT_MAP_SIZE; lia|by apply (Hne Active)]. }
    intros k' Hk' ->. revert Hx. eapply rep_cell_fresh; [done..|by eexists| |done].
    intros k2 Hk2 _. by apply Hml. }
  constructor; simpl.
  - by rewrite HE, (rep_evts _ _ _ Hr).
  - rewrite HB. apply Hr.
  - rewrite Hbuf. apply Hr.
  - destruct (rep_layout _ _ _ Hr). constructor; try done; intros; destruct_and?;
      repeat match goal with H : is_Some (delete _ _ !! _) |- _ => apply Hlive in H as [_ H] end; auto.
  - unfold base_rings. simpl. rewrite Hl. eapply rings_frame; [apply Hr|]. intros k x Hk Hx.
    destruct (Hcells k x Hk Hx). by rewrite !lookup_delete_ne.
  - destruct (rep_tree _ _ _ Hr) as (t & Ht & Hto). exists t. split; [|done].
    eapply (zip_frame (es_rb s) _ _ _ [evt_time_node e]); [done|rewrite ?Hrb; simpl..].
    + intros x Hx. rewrite lookup_delete_ne; [done|set_solver].
    + done.
    + intros x ->%list_elem_of_singleton. rewrite Hto.
      intros (y & Hy & Hin)%list_elem_of_fmap. apply (inj _) in Hy. by subst y.
  - intros x [Hne Hx]%Hlive. destruct (rep_live _ _ _ Hr x Hx) as (H1 & H2 & H3).
    pose proof (lay_evts _ _ _ (rep_layout _ _ _ Hr) x e Hx ltac:(by eexists) Hne) as Hap.
    unfold apart, sizeof_wba_evt in Hap. rewrite Hl, Hrb. simpl.
    split_and!; rewrite ?lookup_delete_ne; try done;
      unfold evt_next, evt_active_next, evt_time_node, off_evt_next, off_evt_active_next, off_evt_time_node; lia.
  - intros k Hk. by apply Hml.
  - done.
  - eapply StronglySorted_ext; [|apply Hr]. intros x y Hx Hy. unfold deadline_le, tmo.
    rewrite !lookup_delete_ne by set_solver. done.
  - intros x evtx Hx. assert (x ≠ e) by (apply (Hlive x); by eexists).
    rewrite lookup_delete_ne in Hx by done. by apply (rep_flags _ _ _ Hr x).
Qed.

(** Rules for the memory updates of allocation. *)
Lemma wp_set_list s f Q :
  Q () (EvState (f (es_list s)) (es_rb s) (es_evts s) (es_bases s) (es_bufs s) (es_world s)) →
  wp (set_list f) Q s.
Proof. intros HQ. by eapply wp_done. Qed.
Lemma wp_set_rb s f Q :
  Q () (EvState (es_list s) (f (es_rb s)) (es_evts s) (es_bases s) (es_bufs s) (es_world s)) →
  wp (set_rb f) Q s.
Proof. intros HQ. by eapply wp_done. Qed.
Lemma wp_set_bases s f Q :
  Q () (EvState (es_list s) (es_rb s) (es_evts s) (f (es_bases s)) (es_bufs s) (es_world s)) →
  wp (set_bases f) Q s.
Proof. intros HQ. by eapply wp_done. Qed.
Lemma wp_set_bufs s f Q :
  Q () (EvState (es_list s) (es_rb s) (es_evts s) (es_bases s) (f (es_bufs s)) (es_world s)) →
  wp (set_bufs f) Q s.
Proof. intros HQ. by eapply wp_done. Qed.

(** ** wba_event_new and wba_event_free *)

(** The event [wba_event_new] fills in. *)
Definition fresh_evt (selfptr e b fd events fn arg : Z) : wba_evt :=
  WbaEvt fn (if bool_decide (arg = selfptr) then e else arg) (if bool_decide (fd < 0) then -1 else fd) b
    WBA_EVTLIST_INIT events 0 (Timeval 0 0) (Timeval 0 0).

Lemma refine_event_new s b vw selfptr fd events fn arg e w Q :
  rep s b vw → fn ≠ NULL → sys_malloc sizeof_wba_evt (es_world s) = (e, w) →
  (e ≠ NULL → fresh_block (vw_evts vw) b (cfg_arr (vw_cfg vw)) e) →
  (∀ s', rep s' b (if bool_decide (e = NULL) then vw
                   else vw_with_evts (<[e:=fresh_evt selfptr e b fd events fn arg]> (vw_evts vw)) vw) →
         Q e s') →
  wp (wba_event_new selfptr b fd events fn arg) Q s.
Proof.
  intros Hr Hfn Hm Hf HQ. unfold wba_event_new. destruct (lay_pos _ _ _ (rep_layout _ _ _ Hr)) as [Hb0 _].
  rewrite !bool_decide_false by (done || unfold NULL; lia). cbn [orb].
  apply wp_bind. eapply wp_syscall; [done|]. case_bool_decide as He.
  { subst e. apply wp_ret, HQ. by apply (same_data_rep s). }
  specialize (Hf He). unfold new_zero_evt.
  apply wp_bind. eapply wp_done; [reflexivity|]. apply wp_bind.
  eapply wp_upd_evt; [apply lookup_insert_eq|]. apply wp_ret, HQ.
  eapply (rep_add_evt s); try done. simpl. by rewrite insert_insert_eq.
Qed.

Lemma idle_detached f evt : f = idle → detached (set_flags f evt).
Proof. intros ->. unfold detached, idle. by flags. Qed.

Lemma refine_event_free s b vw e evt fuel Q :
  rep s b vw → vw_evts vw !! e = Some evt → evt_base evt = b → (size (vw_evts vw) < fuel)%nat →
  (∀ s', rep s' b (vw_with_evts (delete e (vw_evts vw)) (a_del e vw)) → Q () s') →
  wp (wba_event_free fuel e) Q s.
Proof.
  intros Hr He Hb Hfuel HQ. unfold wba_event_free. apply wp_bind.
  eapply refine_event_del; [done..|]. intros res s1 Hr1 _.
  destruct (rep_evt_nonnull _ _ _ e Hr) as [Hen _]; [by eexists|].
  rewrite bool_decide_false by done. cbn [negb]. apply wp_bind, wp_event_debug. intros s2 Hs2.
  pose proof (same_data_rep _ _ _ _ Hr1 Hs2) as Hr2.
  assert (vw_evts (a_del e vw) !! e = Some (set_flags idle evt)) as He2
    by (by rewrite a_del_evts, lookup_alter_eq, He).
  unfold free_evt. apply wp_bind. eapply wp_get_evt; [by rewrite (rep_evts _ _ _ Hr2)|].
  eapply wp_done; [reflexivity|]. apply HQ.
  assert (delete e (vw_evts vw) = delete e (vw_evts (a_del e vw))) as Hdel.
  { apply map_eq. intros x. rewrite a_del_evts. destruct (decide (x = e)) as [->|].
    - by rewrite !lookup_delete_eq.
    - by rewrite !lookup_delete_ne, lookup_alter_ne. }
  rewrite Hdel. eapply (rep_del_evt s2); [exact Hr2|done|done|by apply idle_detached|done..].
Qed.

(** ** wba_evtbase_new *)

Lemma lookup_insert_heads v l h x :
  insert_heads v l h !! x = if decide (x ∈ l) then Some v else h !! x.
Proof.
  induction l as [|y l IH]; simpl; [done|]. destruct (decide (x = y)) as [->|Hne].
  - rewrite lookup_insert_eq, decide_True; [done|set_solver].
  - rewrite lookup_insert_ne, IH by done. destruct (decide (x ∈ l)), (decide (x ∈ y :: l)); set_solver.
Qed.

Lemma elem_of_slot_addrs arr n x :
  x ∈ slot_addrs arr n ↔ ∃ i, x = arr + sizeof_list_head * i ∧ 0 ≤ i < n.
Proof.
  unfold slot_addrs. rewrite list_elem_of_fmap. setoid_rewrite elem_of_seqZ.
  split; intros (i & -> & Hi); exists i; (split; [done|lia]).
Qed.

(** The initialisation loop makes every slot an empty list. *)
Lemma wp_init_slots s b base arr fuel Q :
  es_bases s !! b = Some base → map_size base = EVT_MAP_SIZE → map_evt_list base = arr →
  (Z.to_nat EVT_MAP_SIZE < fuel)%nat →
  (∀ i, 0 ≤ i < EVT_MAP_SIZE → is_Some (es_list s !! (arr + sizeof_list_head * i))) →
  (∀ h, (∀ i, 0 ≤ i < EVT_MAP_SIZE → ring h (arr + sizeof_list_head * i) []) →
     agree_off (slot_addrs arr EVT_MAP_SIZE) (es_list s) h →
     Q () (EvState h (es_rb s) (es_evts s) (es_bases s) (es_bufs s) (es_world s))) →
  wp (loop fuel (λ i,
        base ← get_base b;
        if bool_decide (i < map_size base) then
          zoom (INIT_LIST_HEAD (map_evt_list base + sizeof_list_head * i));;
          mret (inl (i + 1))
        else mret (inr ())) 0) Q s.
Proof.
  intros HB Hsize Harr Hfuel Hlive HQ.
  apply (wp_loop_variant (λ m i s', 0 ≤ i ≤ EVT_MAP_SIZE ∧ m = Z.to_nat (EVT_MAP_SIZE - i) ∧ ∃ h,
    s' = EvState h (es_rb s) (es_evts s) (es_bases s) (es_bufs s) (es_world s) ∧
    (∀ j, 0 ≤ j < i → ring h (arr + sizeof_list_head * j) []) ∧
    (∀ j, 0 ≤ j < EVT_MAP_SIZE → is_Some (h !! (arr + sizeof_list_head * j))) ∧
    agree_off (slot_addrs arr EVT_MAP_SIZE) (es_list s) h))
    with (m := Z.to_nat EVT_MAP_SIZE); [|done|].
  2: { split_and!; [lia|done|lia|]. exists (es_list s). split_and!; [by destruct s|lia|done|apply agree_off_refl]. }
  intros m i s' (Hi & -> & h & -> & Hrings & Hl & Ha). apply wp_bind.
  eapply wp_get_base; [exact HB|]. rewrite Hsize, Harr. case_bool_decide as Hlt.
  2: { apply wp_ret, HQ; [|done]. intros j Hj. apply Hrings. lia. }
  apply wp_bind, wp_list_op. es. eapply wp_mono; [apply INIT_LIST_HEAD_spec, Hl; lia|].
  intros [] h' [Hr' Ha']. apply wp_ret. exists (Z.to_nat (EVT_MAP_SIZE - (i + 1))).
  split; [lia|]. split; [lia|]. split; [done|]. exists h'. split_and!; [done|..].
  - intros j Hj. destruct (decide (j = i)) as [->|Hne]; [done|].
    eapply ring_agree_off; [apply Hrings; lia|done|]. unfold sizeof_list_head. set_solver by lia.
  - intros j Hj. destruct (decide (j = i)) as [->|Hne].
    + eapply ring_live; [done|set_solver].
    + rewrite Ha'; [by apply Hl|]. unfold sizeof_list_head. set_solver by lia.
  - eapply agree_off_trans; [done|]. eapply agree_off_weaken; [done|].
    intros x ->%list_elem_of_singleton. apply elem_of_slot_addrs. exists i. split; [done|lia].
Qed.

(** A base without events. *)
Definition empty_view (epfd p arr : Z) (buf : list (Z * Z)) (E : gmap Z wba_evt) : evview :=
  EvView (EvCfg epfd p arr buf) E (λ _, []) [].

Lemma slots_total_empty : slots_total (λ _, []) = 0.
Proof. done. Qed.

Lemma rep_empty s b epfd p arr buf E0 :
  es_evts s = E0 →
  layout E0 b arr → (∀ e evt, E0 !! e = Some evt → evt_base evt ≠ b) →
  (∀ e, is_Some (E0 !! e) → is_Some (es_list s !! evt_next e) ∧
     is_Some (es_list s !! evt_active_next e) ∧ is_Some (rb_nodes (es_rb s) !! evt_time_node e)) →
  es_bases s !! b = Some (WbaEvtbase epfd EVT_NUM_EVENTS p arr EVT_MAP_SIZE (EVT_MAP_SIZE - 1) 0 0 0) →
  es_bufs s !! p = Some buf → length buf = Z.to_nat EVT_NUM_EVENTS →
  (∀ k, lid_ok k → ring (es_list s) (lid_hdr b arr k) []) →
  rb_roots (es_rb s) !! evt_time_root b = Some NULL →
  rep s b (empty_view epfd p arr buf E0).
Proof.
  intros HE HL Hnb Hlive HB Hbuf Hlen Hrings Hroot.
  assert (∀ P, members P E0 b []) as Hm.
  { intros P e. split; [set_solver|]. intros (evt & He & Hb & _). by apply Hnb in He. }
  constructor; simpl; try done.
  - split; [by apply Hrings|]. intros k k' Hk Hk' Hne x. unfold cells. simpl.
    rewrite !list_elem_of_singleton. intros -> Heq. apply Hne.
    pose proof (lay_base_slots _ _ _ HL) as Hap. unfold apart, sizeof_wba_evtbase, sizeof_list_head, EVT_MAP_SIZE in Hap.
    destruct k, k'; simpl in *; unfold sizeof_list_head, evt_active_list, EVT_MAP_SIZE in *; try lia; [|done].
    f_equal. lia.
  - exists E. split; [|done]. by apply is_rbtree_E.
  - constructor.
  - intros e evt He Hb. by apply Hnb in He.
Qed.

#[local] Arguments insert_heads : simpl never.
#[local] Arguments slot_addrs : simpl never.

Lemma refine_evtbase_new s fuel epfd w1 b w2 p w3 arr w4 Q :
  sys_epoll_create EVT_POOL_SIZE (es_world s) = (epfd, w1) → epfd ≠ -1 →
  sys_malloc sizeof_wba_evtbase w1 = (b, w2) → b ≠ NULL →
  sys_malloc (sizeof_epoll_event * EVT_NUM_EVENTS) w2 = (p, w3) → p ≠ NULL →
  sys_malloc (sizeof_list_head * EVT_MAP_SIZE) w3 = (arr, w4) → arr ≠ NULL →
  layout (es_evts s) b arr → (∀ e evt, es_evts s !! e = Some evt → evt_base evt ≠ b) →
  (∀ e, is_Some (es_evts s !! e) → is_Some (es_list s !! evt_next e) ∧
     is_Some (es_list s !! evt_active_next e) ∧ is_Some (rb_nodes (es_rb s) !! evt_time_node e)) →
  (Z.to_nat EVT_MAP_SIZE < fuel)%nat →
  (∀ s' buf, rep s' b (empty_view epfd p arr buf (es_evts s)) → Q b s') →
  wp (wba_evtbase_new fuel) Q s.
Proof.
  intros Hep Hepn Hmb Hbn Hmp Hpn Hma Harr HL Hnb Hlive Hfuel HQ. unfold wba_evtbase_new, new_zero_base, new_buf.
  apply wp_bind. eapply wp_syscall; [exact Hep|]. rewrite bool_decide_false by done.
  apply wp_bind. eapply wp_syscall; [exact Hmb|]. rewrite bool_decide_false by done. es.
  apply wp_bind, wp_bind, wp_set_list, wp_bind, wp_set_rb, wp_set_bases. es.
  apply wp_bind. eapply wp_upd_base; [apply lookup_insert_eq|]. es.
  apply wp_bind. eapply wp_syscall; [exact Hmp|]. rewrite bool_decide_false by done. es.
  apply wp_bind, wp_bind. eapply wp_syscall; [reflexivity|]. apply wp_set_bufs. es.
  apply wp_bind. eapply wp_syscall; [exact Hma|]. rewrite bool_decide_false by done. es.
  apply wp_bind. eapply wp_syscall; [reflexivity|]. apply wp_bind, wp_set_list. es.
  apply wp_bind. eapply wp_upd_base; [apply lookup_insert_eq|]. es.
  apply wp_bind. eapply (wp_init_slots _ b _ arr); [apply lookup_insert_eq|done|done|done|..]; es.
  { intros i Hi. rewrite lookup_insert_heads, decide_True; [by eexists|].
    apply elem_of_slot_addrs. by exists i. }
  intros h Hrings Ha. apply wp_bind, wp_rb_op. es.
  eapply wp_set_root; [simpl; rewrite lookup_insert_eq; by eexists|]. es.
  pose proof (lay_base_slots _ _ _ HL) as Hap.
  unfold apart, sizeof_wba_evtbase, sizeof_list_head, EVT_MAP_SIZE in Hap.
  assert (∀ x, x ∉ slot_addrs arr EVT_MAP_SIZE → h !! x = <[evt_active_list b := zero_head]> (es_list s) !! x) as Hh.
  { intros x Hx. rewrite Ha by done. rewrite lookup_insert_heads, decide_False by done. done. }
  assert (evt_active_list b ∉ slot_addrs arr EVT_MAP_SIZE) as Hab.
  { intros (i & Heq & Hi)%elem_of_slot_addrs. unfold evt_active_list, sizeof_list_head, EVT_MAP_SIZE in *. lia. }
  apply wp_bind, wp_list_op. eapply wp_mono; [apply INIT_LIST_HEAD_spec|].
  { es. rewrite Hh by done. rewrite lookup_insert_eq. by eexists. }
  intros [] h' [Hra Ha']. apply wp_ret. eapply HQ. apply rep_empty; es; try done.
  - intros e He. destruct (Hlive e He) as (H1 & H2 & H3).
    assert (∀ x, is_Some (es_list s !! x) → x ≠ evt_active_list b → x ∉ slot_addrs arr EVT_MAP_SIZE →
      is_Some (h' !! x)) as Hkeep.
    { intros x Hx Hne Hns. rewrite Ha', Hh, lookup_insert_ne by set_solver. done. }
    pose proof (lay_base _ _ _ HL e He) as Hb1. pose proof (lay_slots _ _ _ HL e He) as Hb2.
    unfold apart, sizeof_wba_evt, sizeof_wba_evtbase, sizeof_list_head, EVT_MAP_SIZE in Hb1, Hb2.
    split_and!; [apply Hkeep; [done|..]|apply Hkeep; [done|..]|done];
      try (intros (i & Heq & Hi)%elem_of_slot_addrs);
      unfold evt_next, evt_active_next, off_evt_next, off_evt_active_next, evt_active_list, sizeof_list_head,
        EVT_MAP_SIZE in *; lia.
  - by rewrite !insert_insert_eq, lookup_insert_eq.
  - apply lookup_insert_eq.
  - apply length_replicate.
  - intros [i|] Hk; [|done]. simpl. eapply ring_agree_off; [by apply Hrings|done|].
    intros x. simpl. rewrite !list_elem_of_singleton. intros -> Heq. apply Hab. rewrite <-Heq.
    apply elem_of_slot_addrs. exists i. done.
  - simpl. by rewrite lookup_insert_eq.
Qed.

(** A failed allocation returns NULL; the epoll descriptor opened before it is
    not closed: no call follows the failed one. *)
Lemma evtbase_new_no_memory s fuel epfd w1 w2 :
  sys_epoll_create EVT_POOL_SIZE (es_world s) = (epfd, w1) → epfd ≠ -1 →
  sys_malloc sizeof_wba_evtbase w1 = (NULL, w2) →
  wba_evtbase_new fuel s =
  Done (NULL, EvState (es_list s) (es_rb s) (es_evts s) (es_bases s) (es_bufs s) w2).
Proof.
  intros Hep Hepn Hm. unfold wba_evtbase_new, syscall, mbind, cmd_bind. rewrite Hep.
  rewrite bool_decide_false by done. simpl. by rewrite Hm.
Qed.

End alloc.
