(* ===== verification/EvSpec.v ===== *)
(** * What the abstract event operations mean

    The views [a_del], [a_expire] and [a_map_active] are given by the steps the
    code takes; here they are characterised by the lists they produce, and the
    waiting time by the remaining microseconds. *)

From stdpp Require Import gmap numbers functions sorting list.
From S2P Require Import Prelude ListH RbNode RbTree RbZip RbInv EvTime Rings EvLoop EvInv EvOps EvTree EvApi EvRun EvTurn.

Local Open Scope Z_scope.

Lemma alter_as_insert {A} (f : A → A) (m : gmap Z A) i x : m !! i = Some x → alter f i m = <[i:=f x]> m.
Proof.
  intros Hi. apply map_eq. intros j. destruct (decide (j = i)) as [->|Hj].
  - by rewrite lookup_alter_eq, lookup_insert_eq, Hi.
  - by rewrite lookup_alter_ne, lookup_insert_ne.
Qed.

(** The place a deadline is inserted at. *)
Lemma time_insert_cut E t e l :
  ∃ l1 l2, l = l1 ++ l2 ∧ time_insert E t e l = l1 ++ e :: l2 ∧
    (∀ x, x ∈ l1 → tv_le (tmo E x) t) ∧ (∀ x, head l2 = Some x → ¬ tv_le (tmo E x) t).
Proof.
  induction l as [|y l (l1 & l2 & -> & Hi & H1 & H2)]; simpl.
  - exists [], []. split_and!; [done..|set_solver|done].
  - case_bool_decide as Hlt.
    + exists [], (y :: l1 ++ l2). split_and!; [done..|set_solver|]. intros x [= <-]. by apply event_timecmp_lt.
    + exists (y :: l1), l2. rewrite Hi. split_and!; [done..| |done]. intros x [->|Hx]%elem_of_cons; [|by apply H1].
      destruct (decide (tv_le (tmo E y) t)) as [|Hn]; [done|]. by apply event_timecmp_lt in Hn.
Qed.

Section spec.
Context {W : Type} `{!System W}.
Implicit Types (s : evstate W).

(** ** Deleting *)

(** A deleted event is on no list of its base; the others keep their places. *)
Lemma a_del_lists s b e evt vw k :
  rep s b vw → vw_evts vw !! e = Some evt → evt_base evt = b → lid_ok k →
  vw_lists (a_del e vw) k = rm e (vw_lists vw k).
Proof.
  intros Hr He Hb Hk. pose proof (members_in _ _ _ _ _ _ (rep_lists _ _ _ Hr k Hk) He Hb) as Hin.
  assert (∀ l, vw_lists vw k = l → in_list k evt = false → l = rm e l) as Hout.
  { intros l <- Hf. rewrite rm_fresh; [done|]. rewrite Hin. congruence. }
  assert (vw_lists (a_unschedule e vw) = vw_lists vw) as Hu.
  { unfold a_unschedule. rewrite He. by destruct (has _ _). }
  assert (vw_lists (a_deactivate e (a_unschedule e vw)) k =
    match k with Active => rm e (vw_lists vw Active) | Slot i => vw_lists vw (Slot i) end) as Hd.
  { unfold a_deactivate. rewrite a_unschedule_evts, lookup_alter_eq, He, Hu. cbn [fmap option_fmap option_map].
    destruct (has (evt_flags (set_flags (clear_bits WBA_EVTLIST_TIMEOUT) evt)) WBA_EVTLIST_ACTIVE) eqn:Ha.
    - unfold a_set. cbn [vw_lists]. destruct k; [by rewrite fn_lookup_insert_ne|by rewrite fn_lookup_insert].
    - rewrite Hu. destruct k; [done|]. apply (Hout _ eq_refl). unfold in_list. rewrite <-Ha. by flags. }
  unfold a_del. rewrite He. destruct (has (evt_flags evt) WBA_EVTLIST_REG) eqn:Hreg.
  - unfold a_unregister. rewrite a_deactivate_evts, a_unschedule_evts, !lookup_alter_eq, He.
    cbn [fmap option_fmap option_map]. unfold a_set. cbn [vw_lists].
    destruct (has _ WBA_EVTLIST_REG && wants_map _) eqn:Hw.
    + destruct (decide (k = Slot (slot_of (evt_fd evt)))) as [->|Hne].
      * cbn [set_flags evt_fd] in *. rewrite fn_lookup_insert, Hd. done.
      * cbn [set_flags evt_fd] in *. rewrite fn_lookup_insert_ne by done. rewrite Hd. destruct k as [i|]; [|done].
        apply (Hout _ eq_refl). unfold in_list. rewrite (bool_decide_false (slot_of _ = i)) by congruence.
        by rewrite andb_false_r.
    + rewrite Hd. destruct k as [i|]; [|done]. apply (Hout _ eq_refl). unfold in_list.
      assert (has (evt_flags evt) WBA_EVTLIST_REG && wants_map evt = false) as ->; [|done].
      rewrite <-Hw. f_equal. by flags.
  - rewrite Hd. destruct k as [i|]; [|done]. apply (Hout _ eq_refl). unfold in_list. by rewrite Hreg.
Qed.

(** ** Expiry *)

Lemma a_fire_active s b e evt vw :
  rep s b vw → vw_evts vw !! e = Some evt → evt_base evt = b →
  vw_lists (a_fire e vw) Active = rm e (vw_lists vw Active) ++ [e].
Proof.
  intros Hr He Hb. unfold a_fire, a_activate. rewrite a_del_evts, lookup_alter_eq, He.
  cbn [fmap option_fmap option_map].
  assert (has (evt_flags (set_flags idle evt)) WBA_EVTLIST_ACTIVE = false) as -> by (unfold idle; by flags).
  unfold a_set. cbn [vw_lists]. rewrite fn_lookup_insert. f_equal. by eapply a_del_lists.
Qed.

Lemma a_fire_time s b e evt vw :
  rep s b vw → vw_evts vw !! e = Some evt → evt_base evt = b → vw_time (a_fire e vw) = rm e (vw_time vw).
Proof. intros Hr He Hb. unfold a_fire. rewrite a_activate_time. by eapply a_del_time. Qed.

Lemma a_fire_tmo e vw x : tmo (vw_evts (a_fire e vw)) x = tmo (vw_evts vw) x.
Proof.
  unfold a_fire, tmo. rewrite a_activate_evts, a_del_evts. destruct (decide (x = e)) as [->|Hx].
  - rewrite !lookup_alter_eq. destruct (vw_evts vw !! e) as [evt|]; [|done]. cbn [fmap option_fmap option_map]. by destruct (has _ _).
  - by rewrite !lookup_alter_ne.
Qed.

Definition due (E : gmap Z wba_evt) (now : timeval) (l : list Z) : list Z := filter (λ e, tv_le (tmo E e) now) l.
Definition not_due (E : gmap Z wba_evt) (now : timeval) (l : list Z) : list Z := filter (λ e, ¬ tv_le (tmo E e) now) l.

Lemma due_fire e vw now l : due (vw_evts (a_fire e vw)) now l = due (vw_evts vw) now l.
Proof. apply list_filter_iff. intros x. by rewrite a_fire_tmo. Qed.

Lemma not_due_fire e vw now l : not_due (vw_evts (a_fire e vw)) now l = not_due (vw_evts vw) now l.
Proof. apply list_filter_iff. intros x. by rewrite a_fire_tmo. Qed.

(** Everything due fires, in deadline order, and nothing else. *)
Lemma a_expire_spec (fuel : nat) s b vw now :
  rep s b vw → (size (vw_evts vw) < fuel)%nat →
  let '(n, vw') := a_expire now (vw_time vw) vw in
  n = Z.of_nat (length (due (vw_evts vw) now (vw_time vw))) ∧
  vw_time vw' = not_due (vw_evts vw) now (vw_time vw) ∧
  vw_lists vw' Active =
    filter (λ e, e ∉ due (vw_evts vw) now (vw_time vw)) (vw_lists vw Active) ++ due (vw_evts vw) now (vw_time vw).
Proof.
  remember (vw_time vw) as l eqn:Hl. revert s vw Hl. induction l as [|e l IH]; intros s vw Hl Hr Hsz; simpl.
  { split_and!; [done|by rewrite <-Hl|]. rewrite app_nil_r. symmetry. apply filter_all. set_solver. }
  assert (e ∈ vw_time vw) as Hin by (rewrite <-Hl; set_solver).
  apply (rep_time _ _ _ Hr) in Hin as (evt & He & Hb & Ht).
  pose proof (rep_time_NoDup _ _ _ Hr) as Hnd. rewrite <-Hl in Hnd. apply NoDup_cons in Hnd as [Hel Hnd].
  pose proof (rep_sorted _ _ _ Hr) as Hs. rewrite <-Hl in Hs. apply StronglySorted_inv in Hs as [_ Hs].
  unfold due, not_due. rewrite !filter_cons. case_bool_decide as Hgt.
  - apply event_timecmp_gt in Hgt. rewrite (decide_False (P := tv_le _ _)), (decide_True (P := ¬ _)) by done.
    assert (∀ x, x ∈ l → ¬ tv_le (tmo (vw_evts vw) x) now) as Hrest.
    { intros x Hx Hle. rewrite Forall_forall in Hs. apply Hgt. etrans; [by apply Hs|done]. }
    assert (filter (λ e, tv_le (tmo (vw_evts vw) e) now) l = []) as ->.
    { apply list_nil_subseteq. intros x [Hx Hxl]%list_elem_of_filter. by destruct (Hrest x Hxl). }
    split_and!; [done| |].
    + rewrite <-Hl. f_equal. symmetry. apply filter_all. done.
    + rewrite app_nil_r. symmetry. apply filter_all. set_solver.
  - assert (tv_le (tmo (vw_evts vw) e) now) as Hle.
    { destruct (decide (tv_le (tmo (vw_evts vw) e) now)) as [|Hn]; [done|]. apply event_timecmp_gt in Hn. lia. }
    rewrite (decide_True (P := tv_le _ _)), (decide_False (P := ¬ _)) by tauto.
    destruct (refine_fire s b vw e evt fuel (λ s', rep s' b (a_fire e vw))) as ([] & s' & _ & Hr'); [done..|].
    specialize (IH s' (a_fire e vw)). rewrite (a_fire_time s b e evt vw), <-Hl, rm_head in IH by done.
    specialize (IH eq_refl Hr'). rewrite a_fire_size in IH. specialize (IH Hsz).
    destruct (a_expire now l (a_fire e vw)) as [n vw'].
    fold (due (vw_evts vw) now l). fold (not_due (vw_evts vw) now l).
    rewrite due_fire, not_due_fire, (a_fire_active s b e evt) in IH by done. destruct IH as (-> & -> & ->).
    assert (e ∉ due (vw_evts vw) now l) as Hed by (unfold due; rewrite list_elem_of_filter; tauto).
    split_and!; [simpl; lia|done|].
    rewrite filter_app, (filter_cons_True _ e []) by done. rewrite <-app_assoc. f_equal.
    unfold rm. rewrite list_filter_filter. apply list_filter_iff. set_solver.
Qed.

(** ** Activation of a slot *)

(** The event is not active yet and waits for one of [events]. *)
Definition wakes (E : gmap Z wba_evt) (events e : Z) : bool :=
  match E !! e with
  | Some evt => has (evt_events evt) events && negb (has (evt_flags evt) WBA_EVTLIST_ACTIVE)
  | None => false
  end.

Lemma a_map_active_one_active vw events e :
  vw_lists (a_map_active_one events vw e) Active =
  vw_lists vw Active ++ (if wakes (vw_evts vw) events e then [e] else []).
Proof.
  unfold wakes, a_map_active_one, a_activate. destruct (vw_evts vw !! e) as [evt|] eqn:He; [|by rewrite app_nil_r].
  destruct (has (evt_events evt) events); [|by rewrite app_nil_r].
  destruct (has (evt_flags evt) WBA_EVTLIST_ACTIVE); simpl; [by rewrite app_nil_r|].
  by rewrite fn_lookup_insert.
Qed.

Lemma a_map_active_one_wakes vw events e x :
  x ≠ e → wakes (vw_evts (a_map_active_one events vw e)) events x = wakes (vw_evts vw) events x.
Proof.
  intros Hx. unfold a_map_active_one. destruct (vw_evts vw !! e); [|done]. destruct (has _ _); [|done].
  unfold wakes. by rewrite a_activate_evts, lookup_alter_ne.
Qed.

(** A readiness report activates the waiting events of its slot, in order. *)
Lemma a_map_active_active s b vw fd events :
  rep s b vw → 0 ≤ fd →
  vw_lists (a_map_active fd events vw) Active =
  vw_lists vw Active ++ filter (λ e, wakes (vw_evts vw) events e = true) (vw_lists vw (Slot (slot_of fd))).
Proof.
  intros Hr Hfd. unfold a_map_active. rewrite bool_decide_false by lia.
  assert (NoDup (vw_lists vw (Slot (slot_of fd)))) as Hnd.
  { eapply rep_list_NoDup; [done|]. apply slot_of_range. }
  revert Hnd. generalize (vw_lists vw (Slot (slot_of fd))). intros l. clear Hr. revert vw.
  induction l as [|e l IH]; intros vw Hnd; simpl; [by rewrite app_nil_r|].
  apply NoDup_cons in Hnd as [He Hnd]. rewrite IH by done. rewrite a_map_active_one_active, filter_cons.
  rewrite (filter_ext_in _ (λ x, wakes (vw_evts vw) events x = true) l).
  - destruct (wakes (vw_evts vw) events e); by rewrite <-app_assoc.
  - intros x Hx. rewrite a_map_active_one_wakes; [done|]. by intros ->.
Qed.

(** ** The waiting time *)

(** Until the deadline, rounded up to a millisecond, if that fits [s32]. *)
Lemma wait_for_bounds d now ms :
  tv_normal d → tv_normal now → ¬ tv_le d now →
  tv_us d - tv_us now < 1000 * (2 ^ 31 - 1) → wait_for d now = Some ms →
  tv_us d - tv_us now < 1000 * ms ≤ tv_us d - tv_us now + 1000.
Proof.
  intros Hd Hn Hlt Hmax. unfold wait_for. rewrite bool_decide_false.
  2: { apply event_timecmp_gt in Hlt. lia. }
  destruct (event_timesub d now) as [tv|] eqn:Hsub; [|done].
  pose proof (event_timesub_us _ _ _ Hsub) as Hus. pose proof (event_timesub_normal _ _ _ Hd Hn Hsub) as Hnorm.
  rewrite tv_le_us in Hlt by done. unfold timeout_ms, s64, mbind, option_bind. unfold tv_us, tv_normal in *.
  rewrite Z.quot_div_nonneg by lia.
  pose proof (Z.div_mod (tv_usec tv) 1000). pose proof (Z.mod_pos_bound (tv_usec tv) 1000).
  repeat case_decide; try done. intros [= <-]. rewrite s32_small by lia. lia.
Qed.

Lemma wait_for_defined d now :
  tv_normal d → tv_normal now → 0 ≤ tv_sec d < 2 ^ 62 → 0 ≤ tv_sec now < 2 ^ 62 →
  tv_us d - tv_us now < 1000 * (2 ^ 31 - 1) → is_Some (wait_for d now).
Proof.
  intros Hd Hn Hds Hns Hmax. unfold wait_for. case_bool_decide as Hc; [by eexists|].
  destruct (event_timesub_total d now) as [tv Hsub]; [done..|unfold in_s64; lia|unfold in_s64; lia|].
  rewrite Hsub. pose proof (event_timesub_us _ _ _ Hsub) as Hus. pose proof (event_timesub_normal _ _ _ Hd Hn Hsub) as Hnorm.
  assert (¬ tv_le d now) as Hlt by (apply event_timecmp_gt; lia). rewrite tv_le_us in Hlt by done.
  simpl. unfold timeout_ms, tv_us, tv_normal in *. rewrite Z.quot_div_nonneg by lia.
  assert (0 ≤ tv_usec tv / 1000 < 1000) by (split; [apply Z.div_pos; lia|apply Z.div_lt_upper_bound; lia]).
  rewrite !s64_Some by (unfold in_s64; lia). simpl. rewrite s64_Some by (unfold in_s64; lia). simpl.
  rewrite s64_Some by (unfold in_s64; lia). by eexists.
Qed.

End spec.
