(* ===== verification/EvFree.v ===== *)
(** * Assigning events and freeing a base

    [wba_evtbase_free] deletes the events of every slot, frees the slot array and
    then deletes the events left in the timeout tree.  The second loop therefore
    runs without the slots: [tracks] says that a command does the same with the
    slot array as without it. *)

From stdpp Require Import gmap numbers functions sorting list.
From S2P Require Import Prelude ListH RbNode RbTree RbZip RbInv RbErase RbIter.
From S2P Require Import EvTime Rings EvLoop EvInv EvOps EvTree EvApi EvRun EvTurn EvAlloc EvSpec.

Local Open Scope Z_scope.

(** ** Views after a number of deletions *)

Lemma a_unregister_cfg e vw : vw_cfg (a_unregister e vw) = vw_cfg vw.
Proof. unfold a_unregister. by destruct (vw_evts vw !! e). Qed.

Lemma a_del_cfg e vw : vw_cfg (a_del e vw) = vw_cfg vw.
Proof.
  unfold a_del. destruct (vw_evts vw !! e) as [evt|]; [destruct (has _ _)|]; by rewrite ?a_unregister_cfg, a_deactivate_cfg, a_unschedule_cfg.
Qed.

Definition without (l xs : list Z) : list Z := filter (λ x, x ∉ l) xs.

(** [vw'] is [vw] after the deletion of the events [l]. *)
Record deleted (l : list Z) (vw vw' : evview) : Prop := {
  del_cfg : vw_cfg vw' = vw_cfg vw;
  del_evts : ∀ x, vw_evts vw' !! x = if decide (x ∈ l) then set_flags idle <$> vw_evts vw !! x else vw_evts vw !! x;
  del_lists : ∀ k, lid_ok k → vw_lists vw' k = without l (vw_lists vw k);
  del_time : vw_time vw' = without l (vw_time vw);
}.

Lemma without_nil xs : without [] xs = xs.
Proof. apply filter_all. intros x _. apply not_elem_of_nil. Qed.

Lemma rm_without e l xs : rm e (without l xs) = without (l ++ [e]) xs.
Proof.
  unfold rm, without. rewrite list_filter_filter. apply list_filter_iff. intros x. rewrite elem_of_app, list_elem_of_singleton. tauto.
Qed.

Lemma deleted_nil vw : deleted [] vw vw.
Proof. by constructor; intros; rewrite ?without_nil. Qed.

Lemma deleted_size l vw vw' : deleted l vw vw' → size (vw_evts vw') = size (vw_evts vw).
Proof.
  intros Hd. rewrite <-!size_dom. f_equal. apply set_eq. intros x. rewrite !elem_of_dom, (del_evts _ _ _ Hd).
  case_decide; [apply fmap_is_Some|done].
Qed.

Lemma deleted_live {l vw vw'} x evt :
  deleted l vw vw' → vw_evts vw' !! x = Some evt → x ∉ l → vw_evts vw !! x = Some evt.
Proof. intros Hd Hx Hn. by rewrite (del_evts _ _ _ Hd), decide_False in Hx. Qed.

Lemma in_without x l xs : x ∈ without l xs ↔ x ∈ xs ∧ x ∉ l.
Proof. unfold without. rewrite list_elem_of_filter. tauto. Qed.

Lemma without_prefix l vs us : NoDup (vs ++ us) → (∀ x, x ∈ vs ++ us → x ∉ l) → without (l ++ vs) (vs ++ us) = us.
Proof.
  intros (_ & Hd & _)%NoDup_app Hl. unfold without. rewrite filter_app, (filter_all _ us) by set_solver.
  assert (filter (λ x, x ∉ l ++ vs) vs = []) as ->; [|done]. apply elem_of_nil_inv. intros x. rewrite list_elem_of_filter. set_solver.
Qed.

(** ** Commands that do not notice a change of the state *)

Section tracks.
Context {S : Type} (f : S → S).

(** From [s] and from [f s] the command does the same. *)
Definition tracks {A} (c : cmd S A) (s : S) : Prop := ∀ a s', c s = Done (a, s') → c (f s) = Done (a, f s').

Lemma tracks_ret {A} (a : A) s : tracks (mret a) s.
Proof. by intros a' s' [= <- <-]. Qed.

Lemma tracks_bind {A B} (m : cmd S A) (k : A → cmd S B) s :
  tracks m s → (∀ a s', m s = Done (a, s') → tracks (k a) s') → tracks (m ≫= k) s.
Proof.
  intros Hm Hk b s'' H. unfold mbind, cmd_bind in *. destruct (m s) as [[a s']| |] eqn:E; try done.
  rewrite (Hm a s' E). by apply (Hk a s').
Qed.

(** The same with what is known of the intermediate state. *)
Lemma tracks_bind_wp {A B} (m : cmd S A) (k : A → cmd S B) (P : A → S → Prop) s :
  tracks m s → wp m P s → (∀ a s', P a s' → tracks (k a) s') → tracks (m ≫= k) s.
Proof.
  intros Hm (a & s' & E & HP) Hk. apply tracks_bind; [done|]. intros a1 s1 E1. rewrite E in E1. simplify_eq. auto.
Qed.

Lemma tracks_wp {A} (c : cmd S A) P s : tracks c s → wp c P s → wp c (λ a s1, ∃ s', s1 = f s' ∧ P a s') (f s).
Proof. intros Ht (a & s' & E & HP). exists a, (f s'). split; [by apply Ht|by exists s']. Qed.

(** A component's memory that [f] leaves alone. *)
Lemma tracks_zoom {T A} `{!Lens S T} (m : cmd T A) s :
  (∀ t s, view (f s) = view (S:=S) (T:=T) s ∧ update t (f s) = f (update t s)) → tracks (zoom m) s.
Proof.
  intros Hf a s' H. unfold zoom in *. rewrite (proj1 (Hf (view s) s)). destruct (m (view s)) as [[a' t]| |]; simplify_eq.
  by rewrite (proj2 (Hf t s)).
Qed.

(** One that it changes by [g]. *)
Lemma tracks_zoom_in {T A} `{!Lens S T} (g : T → T) (m : cmd T A) s :
  (∀ s, view (f s) = g (view s)) → (∀ t s, update (g t) (f s) = f (update t s)) →
  (∀ a t, m (view s) = Done (a, t) → m (g (view s)) = Done (a, g t)) → tracks (zoom m) s.
Proof.
  intros Hv Hu Hm a s' H. unfold zoom in *. rewrite Hv. destruct (m (view s)) as [[a' t]| |]; simplify_eq.
  by rewrite (Hm a t eq_refl), Hu.
Qed.

End tracks.

(** ** Heaps without the cells [X] *)

Lemma lookup_delete_heads X h x : delete_heads X h !! x = if decide (x ∈ X) then None else h !! x.
Proof.
  unfold delete_heads. induction X as [|y X IH]; simpl; [done|]. destruct (decide (x = y)) as [->|Hne].
  - rewrite lookup_delete_eq, decide_True; [done|set_solver].
  - rewrite lookup_delete_ne, IH by done. repeat case_decide; set_solver.
Qed.

Lemma delete_heads_insert X h x v : x ∉ X → delete_heads X (<[x:=v]> h) = <[x:=v]> (delete_heads X h).
Proof.
  intros Hx. apply map_eq. intros y. rewrite lookup_delete_heads. destruct (decide (y = x)) as [->|Hne].
  - by rewrite decide_False, !lookup_insert_eq.
  - by rewrite !lookup_insert_ne, lookup_delete_heads.
Qed.

Lemma tracks_load X x h : x ∉ X → tracks (delete_heads X) (load x) h.
Proof.
  intros Hx a h' H. unfold load in *. rewrite lookup_delete_heads, decide_False by done. by destruct (h !! x); simplify_eq.
Qed.

Lemma tracks_modify X x g h : x ∉ X → tracks (delete_heads X) (modify x g) h.
Proof.
  intros Hx a h' H. unfold modify in *. rewrite lookup_delete_heads, decide_False by done. destruct (h !! x); simplify_eq.
  by rewrite delete_heads_insert.
Qed.

Lemma tracks_list_del_init X x h n p :
  h !! x = Some (ListHead n p) → x ∉ X → n ∉ X → p ∉ X → tracks (delete_heads X) (list_del_init x) h.
Proof.
  intros Hh Hx Hn Hp. unfold list_del_init.
  eapply (tracks_bind_wp _ _ _ (λ q h', q = p ∧ h' = h)).
  { apply tracks_bind; [by apply tracks_load|intros; apply tracks_ret]. }
  { apply wp_bind. eapply wp_load; [exact Hh|]. by apply wp_ret. }
  intros q h' [-> ->]. eapply (tracks_bind_wp _ _ _ (λ q h', q = n)).
  { apply tracks_bind; [by apply tracks_load|intros; apply tracks_ret]. }
  { apply wp_bind. eapply wp_load; [exact Hh|]. by apply wp_ret. }
  intros q h' ->. unfold __list_del, INIT_LIST_HEAD, set_prev, set_next.
  repeat (apply tracks_bind; [|intros]); by apply tracks_modify.
Qed.

Section free_base.
Context {W : Type} `{!System W}.
Implicit Types (s : evstate W).

Lemma deleted_step s b l vw vw' e evt :
  rep s b vw' → deleted l vw vw' → vw_evts vw' !! e = Some evt → evt_base evt = b → e ∉ l →
  deleted (l ++ [e]) vw (a_del e vw').
Proof.
  intros Hr Hd He Hb Hn. constructor.
  - by rewrite a_del_cfg, (del_cfg _ _ _ Hd).
  - intros x. rewrite a_del_evts. destruct (decide (x = e)) as [->|Hne].
    + rewrite lookup_alter_eq, (del_evts _ _ _ Hd), decide_False, decide_True by set_solver. done.
    + rewrite lookup_alter_ne, (del_evts _ _ _ Hd) by done. repeat case_decide; set_solver.
  - intros k Hk. erewrite a_del_lists by done. by rewrite (del_lists _ _ _ Hd k Hk), rm_without.
  - erewrite a_del_time by done. by rewrite (del_time _ _ _ Hd), rm_without.
Qed.

(** ** The slots *)

Definition slot_events (vw : evview) (n : Z) : list Z := seqZ 0 n ≫= λ i, vw_lists vw (Slot i).

Lemma elem_of_slot_events x vw n : x ∈ slot_events vw n ↔ ∃ i, 0 ≤ i < n ∧ x ∈ vw_lists vw (Slot i).
Proof.
  unfold slot_events. rewrite list_elem_of_bind. setoid_rewrite elem_of_seqZ.
  split; intros (i & H1 & H2); exists i; (split; [done || lia|done || lia]).
Qed.

Lemma slot_events_succ vw n : 0 ≤ n → slot_events vw (n + 1) = slot_events vw n ++ vw_lists vw (Slot n).
Proof.
  intros Hn. unfold slot_events. rewrite (seqZ_app 0 n 1) by lia. rewrite bind_app. simpl. by rewrite app_nil_r, Z.add_0_l.
Qed.

(** No event is in two slots. *)
Lemma slot_unique s b vw i j x :
  rep s b vw → lid_ok (Slot i) → lid_ok (Slot j) → x ∈ vw_lists vw (Slot i) → x ∈ vw_lists vw (Slot j) → i = j.
Proof.
  intros Hr Hi Hj (e1 & H1 & _ & P1)%(rep_lists _ _ _ Hr (Slot i) Hi) (e2 & H2 & _ & P2)%(rep_lists _ _ _ Hr (Slot j) Hj).
  rewrite H1 in H2. simplify_eq. simpl in *. apply andb_true_iff in P1 as [_ P1%bool_decide_eq_true]. apply andb_true_iff in P2 as [_ P2%bool_decide_eq_true]. congruence.
Qed.

(** The inner loop, over one slot. *)
Lemma wp_free_slot s b l vw vw' i fuel Q :
  rep s b vw' → deleted l vw vw' → lid_ok (Slot i) → (size (vw_evts vw) < fuel)%nat →
  (∀ x, x ∈ vw_lists vw (Slot i) → x ∉ l) →
  (∀ s' vw'', rep s' b vw'' → deleted (l ++ vw_lists vw (Slot i)) vw vw'' → Q () s') →
  wp (list_for_each_entry_safe fuel off_evt_next (λ evt _, event_del fuel evt;; mret ())
        (cfg_arr (vw_cfg vw) + sizeof_list_head * i) ()) Q s.
Proof.
  intros Hr Hd Hi Hfuel Hl HQ. set (L := vw_lists vw (Slot i)) in *.
  assert (∀ vs us s1 vw1, L = vs ++ us → rep s1 b vw1 → deleted (l ++ vs) vw vw1 → vw_lists vw1 (Slot i) = us) as Hus.
  { intros vs us s1 vw1 HL Hr1 Hd1. rewrite (del_lists _ _ _ Hd1) by done. fold L.
    assert (NoDup L) as Hnd.
    { pose proof (rep_list_NoDup _ _ _ _ Hr Hi) as Hnd. rewrite (del_lists _ _ _ Hd) in Hnd by done.
      unfold without in Hnd. rewrite filter_all in Hnd by auto. done. }
    rewrite HL in *. by apply without_prefix. }
  assert (∀ s1 vw1 l1 us, rep s1 b vw1 → deleted l1 vw vw1 → vw_lists vw1 (Slot i) = us →
    ring (es_list s1) (cfg_arr (vw_cfg vw) + sizeof_list_head * i) (evt_next <$> us)) as Hring.
  { intros s1 vw1 l1 us Hr1 Hd1 <-. pose proof (rep_slot_ring _ _ _ _ Hr1 Hi) as H. by rewrite (del_cfg _ _ _ Hd1) in H. }
  pose (I := λ (zs : list Z) (_ : ()) s', ∃ vs us vw1, L = vs ++ us ∧ zs = evt_next <$> us ∧ rep s' b vw1 ∧ deleted (l ++ vs) vw vw1).
  eapply wp_mono; [apply (wp_list_for_each_entry_safe I _ _ _ _ (evt_next <$> L))|].
  - intros zs [] s' (vs & us & vw1 & HL & -> & Hr1 & Hd1). eapply ring_live; [by eapply Hring, Hus|set_solver].
  - intros x zs [] s' (vs & us & vw1 & HL & Hzs & Hr1 & Hd1). destruct us as [|u us]; [done|]. injection Hzs as -> ->.
    pose proof (Hring _ _ _ _ Hr1 Hd1 (Hus _ _ _ _ HL Hr1 Hd1)) as Hrg. cbn [fmap list_fmap] in Hrg.
    pose proof (ring_mid_fresh _ _ [] _ _ Hrg). split; [set_solver|]. by apply (ring_remove _ _ [] _ _ Hrg).
  - intros x zs [] s' (vs & us & vw1 & HL & Hzs & Hr1 & Hd1). destruct us as [|u us]; [done|]. injection Hzs as -> ->.
    replace (evt_next u - off_evt_next) with u by (unfold evt_next; lia).
    pose proof (Hus _ _ _ _ HL Hr1 Hd1) as Hu. destruct (rep_member _ _ _ (Slot i) u Hr1 Hi) as (evt & He & Hb & _); [rewrite Hu; set_solver|].
    apply wp_bind. eapply refine_event_del; [done..|by rewrite (deleted_size _ _ _ Hd1)|]. intros res s2 Hr2 _. apply wp_ret.
    exists (vs ++ [u]), us, (a_del u vw1). rewrite <-app_assoc, (assoc_L (++) l). split_and!; [done..|].
    eapply deleted_step; [done..|]. assert (u ∈ without (l ++ vs) L) as Hin by (unfold L; rewrite <-(del_lists _ _ _ Hd1 _ Hi), Hu; set_solver).
    by apply in_without in Hin as [_ ?].
  - eapply (ring_first _ _ (evt_next <$> L)). eapply Hring; [exact Hr|exact Hd|]. apply (Hus [] L s vw' eq_refl Hr). by rewrite app_nil_r.
  - rewrite length_fmap. assert (vw_lists vw' (Slot i) = L) as HL by (apply (Hus [] L s vw' eq_refl Hr); by rewrite app_nil_r).
    pose proof (rep_list_length _ _ _ _ Hr Hi) as Hlen. rewrite HL, (deleted_size _ _ _ Hd) in Hlen. lia.
  - exists [], L, vw'. by rewrite app_nil_r.
  - intros [] s' (vs & us & vw1 & HL & Hus' & Hr1 & Hd1). destruct us; [|done]. rewrite app_nil_r in HL. subst vs. by eapply HQ.
Qed.

(** The outer loop. *)
Lemma wp_free_slots s b vw fuel Q :
  rep s b vw → (size (vw_evts vw) < fuel)%nat → (Z.to_nat EVT_MAP_SIZE < fuel)%nat →
  (∀ s' vw', rep s' b vw' → deleted (slot_events vw EVT_MAP_SIZE) vw vw' → Q () s') →
  wp (loop fuel (λ i,
    base ← get_base b;
    if bool_decide (i < map_size base) then
      list_for_each_entry_safe fuel off_evt_next (λ evt _, event_del fuel evt;; mret ())
        (map_evt_list base + sizeof_list_head * i) ();;
      mret (inl (i + 1))
    else mret (inr ())) 0) Q s.
Proof.
  intros Hr Hfuel Hfuel2 HQ.
  apply (wp_loop_variant (λ m i s', 0 ≤ i ≤ EVT_MAP_SIZE ∧ m = Z.to_nat (EVT_MAP_SIZE - i) ∧
    ∃ vw', rep s' b vw' ∧ deleted (slot_events vw i) vw vw')) with (m := Z.to_nat EVT_MAP_SIZE); [|done|].
  2: { split_and!; [lia|done|done|]. exists vw. split; [done|]. apply deleted_nil. }
  intros m i s1 (Hi & -> & vw1 & Hr1 & Hd1). apply wp_bind. eapply wp_get_base; [by apply Hr1|].
  cbn [base_of map_size map_evt_list]. case_bool_decide as Hlt.
  - apply wp_bind. rewrite (del_cfg _ _ _ Hd1). eapply wp_free_slot; [exact Hr1|exact Hd1|split; lia|done| |].
    { intros x Hx (j & Hj & Hxj)%elem_of_slot_events. assert (i = j); [|lia].
      eapply (slot_unique _ _ _ _ _ x Hr); [split; lia|split; lia|done..]. }
    intros s2 vw2 Hr2 Hd2. apply wp_ret. exists (Z.to_nat (EVT_MAP_SIZE - (i + 1))). split; [lia|]. split_and!; [lia..|done|].
    exists vw2. rewrite slot_events_succ by lia. done.
  - apply wp_ret. eapply HQ; [exact Hr1|]. replace EVT_MAP_SIZE with i by lia. done.
Qed.

(** ** The timeout tree, without the slots *)

Section no_slots.
Context (X : list Z).

Definition drop_cells (s : evstate W) : evstate W :=
  EvState (delete_heads X (es_list s)) (es_rb s) (es_evts s) (es_bases s) (es_bufs s) (es_world s).

Lemma tracks_rb {A} (m : cmd rbmem A) s : tracks drop_cells (zoom m) s.
Proof. by apply tracks_zoom. Qed.
Lemma tracks_upd_evt e g s : tracks drop_cells (upd_evt e g) s.
Proof. by apply tracks_zoom. Qed.
Lemma tracks_get_evt e s : tracks drop_cells (get_evt e) s.
Proof. by apply tracks_zoom. Qed.
Lemma tracks_upd_base e g s : tracks drop_cells (upd_base e g) s.
Proof. by apply tracks_zoom. Qed.
Lemma tracks_get_base e s : tracks drop_cells (get_base e) s.
Proof. by apply tracks_zoom. Qed.
Lemma tracks_syscall {A} (g : W → A * W) s : tracks drop_cells (syscall g) s.
Proof. intros a s'. unfold syscall. simpl. destruct (g (es_world s)). by intros [= <- <-]. Qed.
Lemma tracks_debug s : tracks drop_cells event_debug s.
Proof. repeat (apply tracks_bind; [|intros]); apply tracks_syscall || apply tracks_ret. Qed.

Lemma tracks_if {A} (c : bool) (m1 m2 : cmd (evstate W) A) s :
  (c = true → tracks drop_cells m1 s) → (c = false → tracks drop_cells m2 s) → tracks drop_cells (if c then m1 else m2) s.
Proof. destruct c; auto. Qed.

Lemma tracks_remove_timeout fuel e s : tracks drop_cells (event_remove_timeout fuel e) s.
Proof.
  apply tracks_bind; [apply tracks_get_evt|]. intros evt s1 _. apply tracks_if; intros _; [|apply tracks_ret].
  apply tracks_bind; [apply tracks_rb|intros]. apply tracks_bind; [apply tracks_upd_evt|intros]. apply tracks_upd_base.
Qed.

Lemma tracks_guard {A} (c : bool) (m : cmd (evstate W) A) a s :
  (c = true → tracks drop_cells m s) → tracks drop_cells (if c then m else mret a) s.
Proof. intros Hm. apply tracks_if; [done|]. intros _. apply tracks_ret. Qed.

(** The active list has no cell in [X]. *)
Definition active_apart (b : Z) (vw : evview) : Prop :=
  ∀ x, x ∈ evt_active_list b :: (evt_active_next <$> vw_lists vw Active) → x ∉ X.

Lemma tracks_remove_active s b vw e evt :
  rep s b vw → vw_evts vw !! e = Some evt → evt_base evt = b → active_apart b vw → tracks drop_cells (event_remove_active e) s.
Proof.
  intros Hr He Hb HX. apply (tracks_bind_wp _ _ _ (λ v s1, v = evt ∧ s1 = s)); [apply tracks_get_evt| |].
  { eapply wp_get_evt; [by rewrite (rep_evts _ _ _ Hr)|done]. }
  intros v s1 [-> ->]. apply tracks_guard. intros Ha.
  assert (e ∈ vw_lists vw Active) as Hin by (by apply (members_in _ _ _ _ _ _ (rep_lists _ _ _ Hr Active I) He Hb)).
  pose proof (rep_slot_ring _ _ _ Active Hr I) as Hring. unfold active_apart in HX. simpl in Hring.
  apply list_elem_of_split in Hin as (ys & zs & Hl). rewrite Hl, fmap_app, fmap_cons in HX, Hring.
  destruct (ring_remove _ _ _ _ _ Hring) as (Hn & Hp & _). unfold nxt, prv in Hn, Hp.
  destruct (es_list s !! evt_active_next e) as [[n p]|] eqn:Hh; [|done]. injection Hn as ->. injection Hp as ->.
  apply tracks_bind; [|intros; apply tracks_bind; [apply tracks_upd_evt|intros; apply tracks_upd_base]].
  apply (tracks_zoom_in _ (delete_heads X)); [done..|]. eapply tracks_list_del_init; [exact Hh|..]; apply HX.
  - set_solver.
  - pose proof (cut_next_in (evt_active_list b) (evt_active_next <$> zs)). set_solver.
  - pose proof (cut_prev_in (evt_active_list b) (evt_active_next <$> ys)). set_solver.
Qed.

(** Deleting an event that is in no slot. *)
Lemma tracks_event_del s b vw e evt fuel :
  rep s b vw → vw_evts vw !! e = Some evt → evt_base evt = b → (size (vw_evts vw) < fuel)%nat →
  wants_map evt = false → active_apart b vw → tracks drop_cells (event_del fuel e) s.
Proof.
  intros Hr He Hb Hfuel Hw HX. unfold event_del. apply tracks_if; intros _; [apply tracks_ret|].
  apply (tracks_bind_wp _ _ _ (λ v s1, v = evt ∧ s1 = s)); [apply tracks_get_evt| |].
  { eapply wp_get_evt; [by rewrite (rep_evts _ _ _ Hr)|done]. }
  intros v s1 [-> ->]. apply tracks_if; intros _; [apply tracks_ret|].
  apply (tracks_bind_wp _ _ _ (λ _ s1, rep s1 b vw)); [apply tracks_debug|apply wp_event_debug; intros; by eapply same_data_rep|].
  intros [] s1 Hr1. apply tracks_if; intros _; [apply tracks_bind; [apply tracks_debug|intros; apply tracks_ret]|].
  set (evt2 := set_flags (clear_bits WBA_EVTLIST_TIMEOUT) evt). set (evt3 := set_flags (clear_bits WBA_EVTLIST_ACTIVE) evt2).
  apply (tracks_bind_wp _ _ _ (λ _ s1, rep s1 b (a_unschedule e vw))).
  { apply tracks_guard. intros _. apply tracks_remove_timeout. }
  { apply wp_if_guard; [intros _; by eapply refine_remove_timeout|]. intros Ht. unfold a_unschedule. by rewrite He, Ht. }
  intros [] s2 Hr2. assert (vw_evts (a_unschedule e vw) !! e = Some evt2) as He2 by (by rewrite a_unschedule_evts, lookup_alter_eq, He).
  apply (tracks_bind_wp _ _ _ (λ v s1, v = evt2 ∧ s1 = s2)); [apply tracks_get_evt| |].
  { eapply wp_get_evt; [by rewrite (rep_evts _ _ _ Hr2)|done]. }
  intros v s3 [-> ->]. apply (tracks_bind_wp _ _ _ (λ _ s1, rep s1 b (a_deactivate e (a_unschedule e vw)))).
  { apply tracks_guard. intros _. eapply tracks_remove_active; [done..|]. unfold active_apart, a_unschedule.
    rewrite He. by destruct (has _ _). }
  { apply wp_if_guard; [intros _; by eapply refine_remove_active|]. intros Ht. unfold a_deactivate. by rewrite He2, Ht. }
  intros [] s3 Hr3. assert (vw_evts (a_deactivate e (a_unschedule e vw)) !! e = Some evt3) as He3 by (by rewrite a_deactivate_evts, lookup_alter_eq, He2).
  apply tracks_bind; [apply tracks_get_evt|]. intros v s4 Hv. assert (s4 = s3) as ->.
  { unfold get_evt, zoom, load in Hv. simpl in Hv. destruct (es_evts s3 !! e); simplify_eq. by destruct s3. }
  clear Hv. apply tracks_bind; [|intros; apply tracks_ret]. apply tracks_guard. intros _. apply tracks_bind; [|intros; apply tracks_bind; [apply tracks_upd_evt|intros; apply tracks_ret]].
  apply (tracks_bind_wp _ _ _ (λ v s1, v = evt3 ∧ s1 = s3)); [apply tracks_get_evt| |].
  { eapply wp_get_evt; [by rewrite (rep_evts _ _ _ Hr3)|done]. }
  intros v' s5 [-> ->]. apply tracks_if; intros Hfd; [apply tracks_ret|]. unfold wants_map in Hw.
  change (evt_fd evt3) with (evt_fd evt) in *. change (evt_events evt3) with (evt_events evt).
  apply bool_decide_eq_false in Hfd. rewrite bool_decide_true in Hw by lia. cbn [andb] in Hw. rewrite Hw. apply tracks_ret.
Qed.

End no_slots.

Abbreviation slots_of vw := (slot_addrs (cfg_arr (vw_cfg vw)) EVT_MAP_SIZE).

Lemma rep_active_apart s b vw : rep s b vw → active_apart (slots_of vw) b vw.
Proof.
  intros Hr x Hx (i & -> & Hi)%elem_of_slot_addrs. destruct (rep_rings _ _ _ Hr) as [_ Hd].
  apply (Hd Active (Slot i) I Hi ltac:(done) _ Hx). apply elem_of_cons. by left.
Qed.

Definition slots_empty (vw : evview) : Prop := ∀ i, lid_ok (Slot i) → vw_lists vw (Slot i) = [].

(** A timer that is left when the slots are empty is in no slot. *)
Lemma timer_unmapped s b vw e evt :
  rep s b vw → slots_empty vw → e ∈ vw_time vw → vw_evts vw !! e = Some evt → evt_base evt = b → wants_map evt = false.
Proof.
  intros Hr Hs Ht He Hb. destruct (wants_map evt) eqn:Hw; [|done]. exfalso.
  apply (members_in _ _ _ _ _ _ (rep_time _ _ _ Hr) He Hb) in Ht. pose proof (rep_flags _ _ _ Hr e evt He Hb Ht) as Hreg.
  set (k := Slot (slot_of (evt_fd evt))). assert (lid_ok k) as Hk by apply slot_of_range.
  assert (e ∈ vw_lists vw k) as Hin.
  { apply (members_in _ _ _ _ _ _ (rep_lists _ _ _ Hr k Hk) He Hb). unfold in_list, k. by rewrite Hreg, Hw, bool_decide_true. }
  unfold k in Hin. rewrite Hs in Hin by done. by apply elem_of_nil in Hin.
Qed.

Definition free_time_body (fuel : nat) (node : Z) : cmd (evstate W) (Z + ()) :=
  if nonnull node then
    let tn := node in
    node ← zoom (rb_next fuel node);
    event_del fuel (rb_entry tn);;
    mret (inl node)
  else mret (inr ()).

Lemma wp_free_times b vw fuel n : ∀ s l vw' Q,
  rep s b vw' → deleted l vw vw' → slots_empty vw' → (size (vw_evts vw) < fuel)%nat → (length (vw_time vw') < n)%nat →
  (∀ s'' vw'', rep s'' b vw'' → deleted (l ++ vw_time vw') vw vw'' → Q () (drop_cells (slots_of vw) s'')) →
  wp (loop n (free_time_body fuel) (hd NULL (evt_time_node <$> vw_time vw'))) Q (drop_cells (slots_of vw) s).
Proof.
  induction n as [|n IH]; intros s l vw' Q Hr Hd He Hfuel Hn HQ; [lia|].
  apply wp_loop. unfold free_time_body at 1. rewrite (nonnull_hd _ _ _ _ Hr) by done.
  pose proof (rep_time _ _ _ Hr) as Htm. pose proof (rep_time_NoDup _ _ _ Hr) as Hnd.
  destruct (vw_time vw') as [|e tl] eqn:Htl; simpl in Hn.
  { apply wp_ret, wp_ret. eapply HQ; [exact Hr|]. by rewrite app_nil_r. }
  rewrite bool_decide_true by done. cbn [fmap list_fmap hd]. pose proof (deleted_size _ _ _ Hd) as Hsz.
  destruct (proj1 (Htm e) ltac:(set_solver)) as (evt & Hlive & Hb & _).
  apply NoDup_cons in Hnd as [Hni _]. assert (e ∉ l) as Hel.
  { assert (e ∈ without l (vw_time vw)) as Hin by (rewrite <-(del_time _ _ _ Hd), Htl; set_solver). by apply in_without in Hin as [_ ?]. }
  apply wp_bind. eapply wp_mono; [apply tracks_wp, (rep_next s b vw' e tl fuel (λ r s1, r = hd NULL (evt_time_node <$> tl) ∧ s1 = s)); [apply tracks_rb|done|done|lia|done]|].
  intros r s1 (s2 & -> & -> & ->). rewrite rb_entry_time_node. apply wp_bind.
  eapply wp_mono; [apply tracks_wp, (refine_event_del s b vw' e evt fuel (λ _ s1, rep s1 b (a_del e vw'))); [|done|done|done|lia|done]|].
  { eapply tracks_event_del; [exact Hr|done|done|lia| |].
    - eapply (timer_unmapped s b vw' e); [done|done|rewrite Htl; set_solver|done|done].
    - rewrite <-(del_cfg _ _ _ Hd). by eapply rep_active_apart. }
  intros res s1 (s2 & -> & Hr2). apply wp_ret.
  assert (vw_time (a_del e vw') = tl) as Htl2 by (erewrite a_del_time, Htl by done; by apply rm_head).
  pose proof (deleted_step _ _ _ _ _ _ _ Hr Hd Hlive Hb Hel) as Hd2. rewrite <-Htl2. eapply IH; [exact Hr2|exact Hd2| |done|rewrite Htl2; lia|].
  - intros i Hi. erewrite a_del_lists by done. by rewrite He.
  - intros s'' vw'' Hr'' Hd''. eapply HQ; [exact Hr''|]. by rewrite Htl2, <-app_assoc in Hd''.
Qed.

(** ** The whole function *)

(** The events the function finds: those in a slot, and the timers. *)
Definition found (b : Z) (evt : wba_evt) : bool :=
  bool_decide (evt_base evt = b) && (has (evt_flags evt) WBA_EVTLIST_REG && wants_map evt || in_time evt).
Definition detach (b : Z) (evt : wba_evt) : wba_evt := if found b evt then set_flags idle evt else evt.

Lemma in_slot_events s b vw x :
  rep s b vw → x ∈ slot_events vw EVT_MAP_SIZE ↔
  ∃ evt, vw_evts vw !! x = Some evt ∧ evt_base evt = b ∧ has (evt_flags evt) WBA_EVTLIST_REG && wants_map evt = true.
Proof.
  intros Hr. rewrite elem_of_slot_events. split.
  - intros (i & Hi & (evt & He & Hb & Hin%andb_true_iff)%(rep_lists _ _ _ Hr (Slot i) Hi)). exists evt. naive_solver.
  - intros (evt & He & Hb & Hin). exists (slot_of (evt_fd evt)). split; [apply slot_of_range|].
    apply (rep_lists _ _ _ Hr (Slot _)); [apply slot_of_range|]. exists evt. split_and!; [done..|]. simpl. by rewrite Hin, bool_decide_true.
Qed.

Lemma deleted_all s b vw vw' T :
  rep s b vw → deleted (slot_events vw EVT_MAP_SIZE ++ T) vw vw' → T = without (slot_events vw EVT_MAP_SIZE) (vw_time vw) →
  vw_evts vw' = detach b <$> vw_evts vw.
Proof.
  intros Hr Hd ->. apply map_eq. intros x. rewrite (del_evts _ _ _ Hd), lookup_fmap.
  destruct (vw_evts vw !! x) as [evt|] eqn:Hx; [|by case_decide]. simpl. unfold detach, found.
  destruct (decide (evt_base evt = b)) as [Hb|Hb].
  - rewrite (bool_decide_true (evt_base evt = b)) by done. cbn [andb].
    pose proof (in_slot_events _ _ _ x Hr) as Hslot. rewrite Hx in Hslot.
    pose proof (members_in _ _ _ _ _ _ (rep_time _ _ _ Hr) Hx Hb) as Htime.
    case_decide as Hin; rewrite elem_of_app, in_without in Hin.
    + assert (has (evt_flags evt) WBA_EVTLIST_REG && wants_map evt || in_time evt = true) as ->; [|done]. apply orb_true_iff. naive_solver.
    + assert (has (evt_flags evt) WBA_EVTLIST_REG && wants_map evt || in_time evt = false) as ->; [|done].
      apply not_true_iff_false. rewrite orb_true_iff. destruct (decide (x ∈ slot_events vw EVT_MAP_SIZE)); naive_solver.
  - rewrite (bool_decide_false (evt_base evt = b)) by done. rewrite decide_False; [done|]. rewrite elem_of_app, in_without.
    intros [(evt' & ? & ? & _)%(in_slot_events _ _ _ _ Hr)|[(evt' & ? & ? & _)%(rep_time _ _ _ Hr) _]]; congruence.
Qed.

Lemma slots_emptied s b vw vw' : rep s b vw → deleted (slot_events vw EVT_MAP_SIZE) vw vw' → slots_empty vw'.
Proof.
  intros Hr Hd i Hi. rewrite (del_lists _ _ _ Hd) by done. apply elem_of_nil_inv. intros x. rewrite in_without, elem_of_slot_events. naive_solver.
Qed.

(** What is left: no base, no buffer, no list heads, no tree. *)
Record base_gone (b : Z) (vw : evview) (s' : evstate W) : Prop := {
  gone_evts : es_evts s' = detach b <$> vw_evts vw;
  gone_base : es_bases s' !! b = None;
  gone_buf : es_bufs s' !! cfg_events (vw_cfg vw) = None;
  gone_slots : ∀ i, 0 ≤ i < EVT_MAP_SIZE → es_list s' !! (cfg_arr (vw_cfg vw) + sizeof_list_head * i) = None;
  gone_active : es_list s' !! evt_active_list b = None;
  gone_root : rb_roots (es_rb s') !! evt_time_root b = None;
  gone_calls : ∃ w, es_world s' = sys_free b (sys_close (cfg_epfd (vw_cfg vw)) (sys_free (cfg_events (vw_cfg vw)) w));
}.

Lemma refine_evtbase_free s b vw fuel :
  rep s b vw → (size (vw_evts vw) < fuel)%nat → (Z.to_nat EVT_MAP_SIZE < fuel)%nat →
  wp (wba_evtbase_free fuel b) (λ _ s', base_gone b vw s') s.
Proof.
  intros Hr Hfuel Hfuel2. destruct (lay_pos _ _ _ (rep_layout _ _ _ Hr)) as [Hb0 _]. unfold wba_evtbase_free.
  rewrite bool_decide_false by (unfold NULL; lia). apply wp_bind. eapply wp_free_slots; [done..|]. intros s1 vw1 Hr1 Hd1.
  apply wp_bind. eapply wp_get_base; [apply Hr1|]. cbn [base_of map_size map_evt_list]. rewrite (del_cfg _ _ _ Hd1).
  apply wp_bind. unfold free_slots. apply wp_bind, wp_set_list. eapply wp_syscall; [reflexivity|]. es.
  set (s2 := EvState (es_list s1) (es_rb s1) (es_evts s1) (es_bases s1) (es_bufs s1) (sys_free (cfg_arr (vw_cfg vw)) (es_world s1))).
  change (EvState _ _ _ _ _ _) with (drop_cells (slots_of vw) s2).
  assert (rep s2 b vw1) as Hr2 by (by apply (rep_ext s1)). pose proof (deleted_size _ _ _ Hd1) as Hsz.
  apply wp_bind. eapply wp_mono; [apply tracks_wp, (rep_first s2 b vw1 fuel (λ r s3, r = hd NULL (evt_time_node <$> vw_time vw1) ∧ s3 = s2)); [apply tracks_rb|done|lia|done]|].
  intros r s3 (s4 & -> & -> & ->). apply wp_bind. fold (free_time_body fuel).
  eapply wp_free_times; [exact Hr2|exact Hd1|exact (slots_emptied _ _ _ _ Hr Hd1)|done| |].
  { pose proof (rep_time_length _ _ _ Hr2). lia. }
  intros s3 vw3 Hr3 Hd3. apply wp_bind, wp_event_debug. intros s4 (E1 & E2 & E3 & E4 & E5). cbn [drop_cells es_list es_rb es_evts es_bases es_bufs] in *.
  apply wp_bind. eapply wp_get_base; [rewrite E4; apply Hr3|]. cbn [base_of base_events base_epfd]. rewrite (del_cfg _ _ _ Hd3).
  unfold free_buf, free_base. apply wp_bind, wp_bind, wp_set_bufs. eapply wp_syscall; [reflexivity|]. es.
  apply wp_bind. eapply wp_syscall; [reflexivity|]. es. apply wp_bind. eapply wp_get_base; [es; rewrite E4; apply Hr3|].
  apply wp_bind, wp_set_list, wp_bind, wp_set_rb, wp_bind, wp_set_bases. eapply wp_syscall; [reflexivity|]. es.
  constructor; es; simpl; rewrite ?lookup_delete_eq; try done.
  - rewrite E3, (rep_evts _ _ _ Hr3). eapply deleted_all; [exact Hr|exact Hd3|]. apply (del_time _ _ _ Hd1).
  - intros i Hi. rewrite lookup_delete, E1, lookup_delete_heads. case_decide; [done|]. rewrite decide_True; [done|]. apply elem_of_slot_addrs. by exists i.
  - by eexists.
Qed.

(** ** wba_event_assign *)

(** Zeroing an event that is on no list of the base. *)
Lemma rep_reset s s' b vw e evt evt' :
  rep s b vw → vw_evts vw !! e = Some evt → (evt_base evt = b → detached evt) → detached evt' →
  es_list s' = <[evt_active_next e := zero_head]> (<[evt_next e := zero_head]> (es_list s)) →
  es_rb s' = RbMem (<[evt_time_node e := zero_node]> (rb_nodes (es_rb s))) (rb_roots (es_rb s)) →
  es_evts s' = <[e:=evt']> (es_evts s) → es_bases s' = es_bases s → es_bufs s' = es_bufs s →
  rep s' b (vw_with_evts (<[e:=evt']> (vw_evts vw)) vw).
Proof.
  intros Hr He Hd Hd' Hl Hrb HE HB Hbuf.
  assert (∀ P l, members P (vw_evts vw) b l → (detached evt → P evt = false) → P evt' = false →
    members P (<[e:=evt']> (vw_evts vw)) b l ∧ e ∉ l) as Hm.
  { intros P l Hm HP HP'. assert (e ∉ l) as Hn.
    { intros (x & Hx & Hb & Hp)%Hm. rewrite He in Hx. simplify_eq. rewrite HP in Hp by auto. done. }
    split; [|done]. intros x. destruct (decide (x = e)) as [->|]; [|by rewrite lookup_insert_ne].
    rewrite lookup_insert_eq. split; [done|]. intros (? & [= <-] & _ & ?). congruence. }
  assert (∀ k, lid_ok k → members (in_list k) (<[e:=evt']> (vw_evts vw)) b (vw_lists vw k) ∧ e ∉ vw_lists vw k) as Hml.
  { intros k Hk. apply Hm; [by apply Hr|intros; by apply detached_not_in|by apply detached_not_in]. }
  destruct (Hm in_time (vw_time vw)) as [Hmt Hnt]; [apply Hr|intros; by apply (detached_not_in Active)|by apply (detached_not_in Active)|].
  assert (∀ {A} (m : gmap Z A) i j v, is_Some (m !! i) → is_Some (<[j:=v]> m !! i)) as Hins.
  { intros A m i j v Hi. rewrite lookup_insert. by case_decide. }
  constructor; simpl; try done; [by rewrite HE, (rep_evts _ _ _ Hr)|rewrite HB; apply Hr|rewrite Hbuf; apply Hr|
    eapply layout_insert; [apply Hr|done]|..].
  - unfold base_rings. simpl. rewrite Hl. eapply rings_frame; [apply Hr|]. intros k x Hk Hx.
    assert (∀ k', lid_ok k' → x ≠ lid_cell k' e) as Hne.
    { intros k' Hk' ->. revert Hx. eapply rep_cell_fresh; [done..|by eexists| |done]. intros k2 Hk2 _. by apply Hml. }
    rewrite !lookup_insert_ne; [done| |]; symmetry; [apply (Hne (Slot 0)); unfold lid_ok, EVT_MAP_SIZE; lia|by apply (Hne Active)].
  - destruct (rep_tree _ _ _ Hr) as (t & Ht & Hto). exists t. split; [|done].
    eapply (zip_frame (es_rb s) _ _ _ [evt_time_node e]); [done|rewrite ?Hrb; simpl..].
    + apply agree_off_insert. set_solver.
    + done.
    + intros x ->%list_elem_of_singleton. rewrite Hto. intros (y & Hy & Hin)%list_elem_of_fmap. apply (inj _) in Hy. by subst y.
  - rewrite Hl, Hrb. simpl. intros x Hx. assert (is_Some (vw_evts vw !! x)) as Hx'.
    { destruct (decide (x = e)) as [->|]; [by rewrite He|by rewrite lookup_insert_ne in Hx]. }
    destruct (rep_live _ _ _ Hr x Hx') as (? & ? & ?). split_and!; auto.
  - intros k Hk. by apply Hml.
  - apply sorted_insert_fresh; [done|apply Hr].
  - intros x evtx. destruct (decide (x = e)) as [->|].
    + rewrite lookup_insert_eq. intros [= <-] _. unfold in_time. destruct Hd' as (_ & _ & ->). done.
    + rewrite lookup_insert_ne by done. apply Hr.
Qed.

(** The event after a successful call. *)
Definition assigned_evt (b fd events fn arg : Z) : wba_evt :=
  WbaEvt fn arg (if bool_decide (fd < 0) then -1 else fd) b WBA_EVTLIST_INIT events 0 (Timeval 0 0) (Timeval 0 0).

Lemma refine_event_assign s b vw e evt fd events fn arg Q :
  rep s b vw → vw_evts vw !! e = Some evt → fn ≠ NULL →
  (evt_base evt = b → has (evt_flags evt) WBA_EVTLIST_REG = false → has (evt_flags evt) WBA_EVTLIST_ACTIVE = false) →
  (∀ r s', (if has (evt_flags evt) WBA_EVTLIST_REG then r = 0 ∧ rep s' b vw
            else r = 1 ∧ rep s' b (vw_with_evts (<[e:=assigned_evt b fd events fn arg]> (vw_evts vw)) vw)) → Q r s') →
  wp (wba_event_assign e b fd events fn arg) Q s.
Proof.
  intros Hr He Hfn Hact HQ. destruct (rep_evt_nonnull _ _ _ e Hr) as [Hen Hbn]; [by eexists|].
  unfold wba_event_assign. rewrite !bool_decide_false by done. cbn [orb]. apply wp_bind.
  eapply wp_get_evt; [by rewrite (rep_evts _ _ _ Hr)|]. destruct (has (evt_flags evt) WBA_EVTLIST_REG) eqn:Hreg.
  { apply wp_bind, wp_event_debug. intros s1 Hs1. apply wp_ret, HQ. split; [done|]. by apply (same_data_rep s). }
  assert (evt_base evt = b → detached evt) as Hd.
  { intros Hb. split_and!; [done|by apply Hact|]. destruct (has (evt_flags evt) WBA_EVTLIST_TIMEOUT) eqn:Ht; [|done].
    apply (rep_flags _ _ _ Hr e evt He Hb) in Ht. congruence. }
  destruct (rep_live _ _ _ Hr e) as (L1 & L2 & L3); [by eexists|]. unfold zero_live_evt.
  apply wp_bind, wp_bind, wp_list_op. eapply wp_store; [done|]. es.
  apply wp_bind, wp_list_op. eapply wp_store; [es; rewrite lookup_insert; by case_decide|]. es.
  destruct L3 as [nd L3]. apply wp_bind, wp_rb_op. apply wp_zoom. eapply wp_modify; [exact L3|]. es.
  eapply wp_upd_evt; [es; by rewrite (rep_evts _ _ _ Hr)|]. es.
  apply wp_bind. eapply wp_upd_evt; [apply lookup_insert_eq|]. apply wp_ret, HQ. split; [done|].
  eapply (rep_reset s); [exact Hr|exact He|done|..]; es; try done. by rewrite insert_insert_eq.
Qed.

End free_base.
