(* ===== verification/EvClient.v ===== *)
(** * Clients of the event loop (network/wba_event/test.c)

    The callbacks of the test program that add, delete, assign or free the event they
    are called for, the functions that start its timers, and its invariant: the argument
    of an event is the event itself, which is what [wba_event_selfptr] asks for, except
    where the callback does not look at it, and the static buffer of [io_read_cb03] holds
    a string.  What they print is not modelled, but that printf and strlen read a buffer
    up to its first zero is: without one they fault.  sleep(2) changes nothing. *)

From stdpp Require Import gmap numbers functions sorting list.
From S2P Require Import Prelude ListH RbNode RbTree RbZip RbInv.
From S2P Require Import EvTime Rings EvLoop EvInv EvOps EvTree EvApi EvRun EvTurn EvAlloc EvSpec EvFree.

Local Open Scope Z_scope.

(** ** Buffers *)

(** [sizeof(buf)], the buffer after a read stored [data] in it, and strlen. *)
Definition sizeof_buf : nat := 1024.
#[global] Arguments sizeof_buf : simpl never.
Definition stored (data buf : list Z) : list Z := data ++ drop (length data) buf.
Definition strlen (buf : list Z) : option nat := (list_find (λ c, c = 0) buf) ≫= λ '(i, _), Some i.

Lemma strlen_some buf : 0 ∈ buf → is_Some (strlen buf).
Proof.
  intros Hin. unfold strlen. destruct (list_find_elem_of (λ c, c = 0) buf 0 Hin eq_refl) as [[i c] ->]. by eexists.
Qed.

Lemma strlen_none buf : 0 ∉ buf → strlen buf = None.
Proof.
  intros Hn. unfold strlen. destruct (list_find (λ c, c = 0) buf) as [[i c]|] eqn:E; [|done].
  apply list_find_Some in E as (Hc & -> & _). by apply list_elem_of_lookup_2 in Hc.
Qed.

(** read(2) of up to 1024 bytes: its result and the bytes it stores; write(2); the static
    variable [buf] of [io_read_cb03], which is part of the world. *)
Class TestSystem (W : Type) := {
  sys_read : Z → W → Z * list Z * W;
  sys_write : Z → list Z → W → Z * W;
  static_buf : W → list Z;
  set_static_buf : list Z → W → W;
}.

(** A failing read and one at the end of the input store nothing, no read stores more than
    it was asked for, and no system call touches the program's variable. *)
Class TestOk (W : Type) `{!System W, !TestSystem W} : Prop := {
  read_ok : ∀ fd w, let '(ret, data, w') := sys_read fd w in
    (ret ≤ 0 → data = []) ∧ (length data ≤ sizeof_buf)%nat ∧ static_buf w' = static_buf w;
  write_ok : ∀ fd data w, static_buf (sys_write fd data w).2 = static_buf w;
  static_ok : ∀ buf w, static_buf (set_static_buf buf w) = buf;
  static_ctl : ∀ epfd op fd ev w, static_buf (sys_epoll_ctl epfd op fd ev w).2 = static_buf w;
  static_wait : ∀ epfd n timeout w, static_buf (sys_epoll_wait epfd n timeout w).2 = static_buf w;
  static_clock : ∀ w, static_buf (sys_clock_gettime w).2 = static_buf w;
  static_free : ∀ p w, static_buf (sys_free p w) = static_buf w;
}.

(** No peer fills the buffer without a zero byte. *)
Definition reads_terminated (W : Type) `{!TestSystem W} : Prop :=
  ∀ fd (w : W), let '(_, data, _) := sys_read fd w in 0 ∈ data ∨ (length data < sizeof_buf)%nat.

(** ** The callbacks *)

Section callbacks.
Context {W : Type} `{!System W, !TestSystem W} (fuel : nat).

Definition timeout_cb (fd events arg : Z) : cmd (evstate W) () := mret ().

Definition timeout_cb2 (fd events arg : Z) : cmd (evstate W) () :=
  wba_event_add fuel arg (Some (Timeval 3 100));; mret ().

Definition timeout_cb3 (fd events arg : Z) : cmd (evstate W) () :=
  wba_event_del fuel arg;; mret ().

(** A buffer as the argument of [%s]. *)
Definition print_s (buf : list Z) : cmd (evstate W) () := of_option (strlen buf);; mret ().

Definition io_read_cb01 (fd events arg : Z) : cmd (evstate W) () :=
  let buf := replicate sizeof_buf 0 in
  if has events WBA_EVT_TIMEOUT then wba_event_free fuel arg
  else if has events WBA_EVT_READ then
    '(ret, data) ← syscall (sys_read fd);
    let buf := stored data buf in
    if bool_decide (ret = 0) then wba_event_free fuel arg
    else if bool_decide (ret = -1) then wba_event_free fuel arg
    else print_s buf;; wba_event_add fuel arg (Some (Timeval 60 10086));; mret ()
  else mret ().

Definition io_read_cb02 (fd events arg : Z) : cmd (evstate W) () :=
  if has events WBA_EVT_CLOSED then wba_event_free fuel arg else mret ().

Definition io_read_cb04 (fd events arg : Z) : cmd (evstate W) () :=
  let buf := replicate sizeof_buf 0 in
  if has events WBA_EVT_TIMEOUT then wba_event_free fuel arg
  else if has events WBA_EVT_READ then
    '(ret, data) ← syscall (sys_read fd);
    let buf := stored data buf in
    if bool_decide (ret <= 0) then wba_event_free fuel arg else print_s buf
  else mret ().

Definition io_read_cb05 (fd events arg : Z) : cmd (evstate W) () :=
  let buf := replicate sizeof_buf 0 in
  buf ←
    (if has events WBA_EVT_READ then
       '(ret, data) ← syscall (sys_read fd);
       let buf := stored data buf in
       (if bool_decide (ret <= 0) then wba_event_free fuel arg else print_s buf);;
       mret buf
     else mret buf);
  if has events WBA_EVT_WRITE then
    n ← of_option (strlen buf);
    if bool_decide (0 < n)%nat then
      ret ← syscall (sys_write fd (take n buf));
      if bool_decide (ret <= 0) then wba_event_free fuel arg else print_s buf
    else mret ()
  else mret ().

(** The static buffer. *)
Definition get_static : cmd (evstate W) (list Z) := syscall (λ w, (static_buf w, w)).
Definition put_static (buf : list Z) : cmd (evstate W) () := syscall (λ w, ((), set_static_buf buf w)).

(** Reads and writes in turn: the event is assigned again for the other direction. *)
Definition io_read_cb03_at : Z := 7.
Definition io_read_cb03 (fd events arg : Z) : cmd (evstate W) () :=
  if has events WBA_EVT_READ then
    put_static (replicate sizeof_buf 0);;
    '(ret, data) ← syscall (sys_read fd);
    buf ← get_static;
    let buf := stored data buf in
    put_static buf;;
    if bool_decide (ret <= 0) then wba_event_free fuel arg
    else
      print_s buf;;
      evt ← get_evt arg;
      wba_event_assign arg (evt_base evt) fd WBA_EVT_WRITE io_read_cb03_at arg;;
      wba_event_add fuel arg (Some (Timeval 60 10086));; mret ()
  else if has events WBA_EVT_WRITE then
    buf ← get_static;
    n ← of_option (strlen buf);
    ret ← syscall (sys_write fd (take n buf));
    if bool_decide (ret <= 0) then wba_event_free fuel arg
    else
      print_s buf;;
      evt ← get_evt arg;
      wba_event_assign arg (evt_base evt) fd WBA_EVT_READ io_read_cb03_at arg;;
      wba_event_add fuel arg (Some (Timeval 60 10086));; mret ()
  else mret ().

(** A call through the function pointer: the callbacks are at the addresses 1 to 8. *)
Definition test_callback (fn fd events arg : Z) : cmd (evstate W) () :=
  match fn with
  | 1 => timeout_cb fd events arg
  | 2 => timeout_cb2 fd events arg
  | 3 => timeout_cb3 fd events arg
  | 4 => io_read_cb01 fd events arg
  | 5 => io_read_cb02 fd events arg
  | 6 => io_read_cb04 fd events arg
  | 7 => io_read_cb03 fd events arg
  | 8 => io_read_cb05 fd events arg
  | _ => fault
  end.

(** The functions that start the timers, with the static variable [event_selfptr]. *)
Context (event_selfptr : Z).

Definition timeout_test (b sec usec events arg : Z) : cmd (evstate W) () :=
  e ← wba_event_new event_selfptr b (-1) events 1 arg;
  wba_event_add fuel e (Some (Timeval sec usec));; mret ().

Definition timeout_test01 (b : Z) : cmd (evstate W) () :=
  timeout_test b 2 500 WBA_EVT_TIMEOUT NULL;;
  timeout_test b 4 0 WBA_EVT_TIMEOUT NULL;;
  timeout_test b 8 1000 WBA_EVT_TIMEOUT NULL;;
  timeout_test b 5 1000 (Z.lor WBA_EVT_TIMEOUT WBA_EVT_PERSIST) NULL;;
  timeout_test b 15 1000 WBA_EVT_PERSIST NULL.

Definition timeout_test02 (b : Z) : cmd (evstate W) () :=
  e ← wba_event_new event_selfptr b (-1) WBA_EVT_TIMEOUT 2 event_selfptr;
  wba_event_add fuel e (Some (Timeval 3 100));;
  timeout_test b 4 500 (Z.lor WBA_EVT_TIMEOUT WBA_EVT_PERSIST) NULL.

Definition timeout_test03 (b : Z) : cmd (evstate W) () :=
  e ← wba_event_new event_selfptr b (-1) (Z.lor WBA_EVT_TIMEOUT WBA_EVT_PERSIST) 3 event_selfptr;
  wba_event_add fuel e (Some (Timeval 3 100));;
  timeout_test b 4 500 (Z.lor WBA_EVT_TIMEOUT WBA_EVT_PERSIST) NULL.

End callbacks.

(** ** The client's invariant *)

(** Every event of the base [b] has one of the callbacks, and itself as argument
    unless the callback is [timeout_cb], which ignores it; the static buffer holds a
    string. *)
Definition test_client (W : Type) `{!TestSystem W} (b : Z) : Client W := {|
  client_inv shapes := map_Forall (λ e '(fn, arg, _, base, _), base = b → 1 ≤ fn ≤ 8 ∧ (fn ≠ 1 → arg = e)) shapes;
  client_world w := 0 ∈ static_buf w;
|}.

Section client.
Context {W : Type} `{!System W, !ClockOk W, !TestSystem W, !TestOk W} (fuel : nat) (b : Z).
Implicit Types (s : evstate W).
#[local] Instance the_client : Client W := test_client W b.

#[global] Instance test_client_ok : ClientOk W (client:=test_client W b).
Proof.
  constructor; simpl; intros; by rewrite ?static_ctl, ?static_wait, ?static_clock, ?static_free.
Qed.

#[local] Instance the_client_ok : ClientOk W (client:=the_client) := test_client_ok.

(** What a callback leaves, when it is called for [e]. *)
Definition kept (vw : evview) (s' : evstate W) : Prop :=
  ∃ vw', rep s' b vw' ∧ good fuel vw' ∧ mine s' ∧ vw_lists vw' Active = vw_lists vw Active.

Lemma self_argument vw e evt :
  good fuel vw → vw_evts vw !! e = Some evt → evt_base evt = b →
  1 ≤ cb_fn evt ≤ 8 ∧ (cb_fn evt ≠ 1 → cb_arg evt = e).
Proof.
  intros (_ & _ & Hi) He Hb. apply (Hi e (shape_of evt)); [by rewrite lookup_fmap, He|done].
Qed.

(** Assigning the event again, then adding it. *)
Lemma good_assigned vw e evt fd events :
  good fuel vw → vw_evts vw !! e = Some evt →
  good fuel (vw_with_evts (<[e:=assigned_evt b fd events io_read_cb03_at e]> (vw_evts vw)) vw).
Proof.
  intros (Hsz & HE & Hi) He. split_and!; simpl.
  - by rewrite map_size_insert_Some.
  - apply map_Forall_insert_2; [|done]. unfold times_ok, interval_ok, tv_normal. simpl. split_and!; (lia || done).
  - rewrite fmap_insert. apply map_Forall_insert_2; [|done]. unfold io_read_cb03_at. simpl. intros _. lia.
Qed.

(** [wba_event_add] with an interval of the test program. *)
Lemma refine_add s vw e evt tv (k : Z → cmd (evstate W) ()) Q :
  rep s b vw → good fuel vw → vw_evts vw !! e = Some evt → evt_base evt = b → interval_ok tv →
  (∀ res s' vw', add_outcome (W:=W) vw e evt (Some tv) false res vw' → rep s' b vw' → (mine s → mine s') → wp (k res) Q s') →
  wp (res ← wba_event_add fuel e (Some tv); k res) Q s.
Proof.
  intros Hr Hg He Hb Htv Hk. pose proof Htv as [Hn Hs]. unfold wba_event_add.
  rewrite !bool_decide_false by (unfold tv_normal in Hn; lia). cbn [orb]. apply wp_bind.
  assert (wp (event_add fuel e (Some tv) false)
    (λ res s', ∃ vw', add_outcome (W:=W) vw e evt (Some tv) false res vw' ∧ rep s' b vw') s) as (res & s' & Hrun & vw' & Hout & Hr').
  { eapply refine_event_add; [exact Hr|exact He|exact Hb|apply Hg| |by eauto].
    intros t [= <-] _ w. destruct (clock_ok w) as (sec & nsec & w' & Hc & Hsec & Hnsec).
    destruct (add_interval (Timeval sec (Z.quot nsec 1000)) tv) as (d & Hd & _); [|simpl; lia|done|].
    { apply clock_now. by exists w, w', sec, nsec. }
    by exists sec, nsec, w', d. }
  eapply wp_done; [exact Hrun|]. eapply Hk; [done..|]. intros HJ. by eapply keeps_event_add.
Qed.

Section one_event.
Context (e : Z) (evt : wba_evt) (s : evstate W) (vw : evview).
Hypothesis (Hr : rep s b vw) (Hg : good fuel vw) (HJ : mine s) (He : vw_evts vw !! e = Some evt) (Hb : evt_base evt = b)
  (Ha : has (evt_flags evt) WBA_EVTLIST_ACTIVE = false).

Lemma not_active : e ∉ vw_lists vw Active.
Proof. rewrite (members_in _ _ _ _ _ _ (rep_lists _ _ _ Hr Active I) He Hb). simpl. congruence. Qed.

Lemma add_keeps tv : interval_ok tv → wp (wba_event_add fuel e (Some tv);; mret ()) (λ _, kept vw) s.
Proof.
  intros Htv. eapply refine_add; [exact Hr|done|exact He|done|done|]. intros res s' vw' Hout Hr' HJ'. apply wp_ret.
  exists vw'. split_and!; [done| |auto|by eapply add_outcome_active]. by eapply good_add_relative.
Qed.

Lemma del_keeps : wp (wba_event_del fuel e;; mret ()) (λ _, kept vw) s.
Proof.
  apply wp_bind. unfold wba_event_del. keeping. eapply refine_event_del; [exact Hr|exact He|exact Hb|apply Hg|].
  intros res s' Hr' _ HJ'. apply wp_ret.
  exists (a_del e vw). split_and!; [done|by apply good_del|done|]. erewrite a_del_lists by done. apply rm_fresh, not_active.
Qed.

Lemma free_keeps : wp (wba_event_free fuel e) (λ _, kept vw) s.
Proof.
  keeping. eapply refine_event_free; [exact Hr|exact He|exact Hb|apply Hg|]. intros s' Hr' HJ'. eexists. split; [exact Hr'|].
  destruct Hg as (Hsz & HE & Hi). split; [split_and!|split; [done|]]; simpl.
  - eapply Nat.le_lt_trans; [|exact Hsz]. apply map_subseteq_size, delete_subseteq.
  - by apply map_Forall_delete.
  - rewrite fmap_delete. by apply map_Forall_delete.
  - erewrite a_del_lists by done. apply rm_fresh, not_active.
Qed.

Lemma nothing_keeps : kept vw s.
Proof. by exists vw. Qed.

End one_event.

Lemma assign_keeps e evt s vw fd events tv :
  rep s b vw → good fuel vw → mine s → vw_evts vw !! e = Some evt → evt_base evt = b →
  has (evt_flags evt) WBA_EVTLIST_ACTIVE = false → interval_ok tv →
  wp (evt ← get_evt e; wba_event_assign e (evt_base evt) fd events io_read_cb03_at e;; wba_event_add fuel e (Some tv);; mret ()) (λ _, kept vw) s.
Proof.
  intros Hr Hg HJ He Hb Ha Htv. apply wp_bind. eapply wp_get_evt; [by rewrite (rep_evts _ _ _ Hr)|]. rewrite Hb.
  apply wp_bind. keeping. eapply refine_event_assign; [exact Hr|exact He|done|done|]. intros r s1 H1 HJ1.
  destruct (has (evt_flags evt) WBA_EVTLIST_REG); destruct H1 as [_ Hr1].
  - by eapply add_keeps.
  - eapply wp_mono; [eapply (add_keeps e); [exact Hr1|by eapply good_assigned|done|apply lookup_insert_eq|done|done|done]|]. done.
Qed.

(** Starting an event: [wba_event_new], then [wba_event_add] whatever it returned. *)
Definition started (e : Z) (vw : evview) (s' : evstate W) : Prop :=
  ∃ vw', rep s' b vw' ∧ good fuel vw' ∧ vw_cfg vw' = vw_cfg vw ∧ dom (vw_evts vw') ⊆ {[e]} ∪ dom (vw_evts vw).

Lemma good_fresh vw e selfptr fd events fn arg :
  good fuel vw → (S (size (vw_evts vw)) < fuel)%nat → 1 ≤ fn ≤ 8 → (fn ≠ 1 → arg = selfptr) →
  good fuel (vw_with_evts (<[e:=fresh_evt selfptr e b fd events fn arg]> (vw_evts vw)) vw).
Proof.
  intros (_ & HE & Hi) Hsz Hfn Harg. split_and!; simpl.
  - rewrite map_size_insert. destruct (vw_evts vw !! e); simpl; lia.
  - apply map_Forall_insert_2; [|done]. unfold times_ok, interval_ok, tv_normal. simpl. split_and!; (lia || done).
  - rewrite fmap_insert. apply map_Forall_insert_2; [|done]. simpl. intros _. split; [done|].
    intros Hn. by rewrite (Harg Hn), bool_decide_true.
Qed.

Lemma refine_start selfptr fd events fn arg tv s vw e w :
  rep s b vw → good fuel vw → (S (size (vw_evts vw)) < fuel)%nat → interval_ok tv →
  1 ≤ fn ≤ 8 → (fn ≠ 1 → arg = selfptr) →
  sys_malloc sizeof_wba_evt (es_world s) = (e, w) → (e ≠ NULL → fresh_block (vw_evts vw) b (cfg_arr (vw_cfg vw)) e) →
  wp (e ← wba_event_new selfptr b fd events fn arg; wba_event_add fuel e (Some tv);; mret ()) (λ _, started e vw) s.
Proof.
  intros Hr Hg Hsz Htv Hfn Harg Hm Hf. apply wp_bind. eapply refine_event_new; [exact Hr|unfold NULL; lia|exact Hm|exact Hf|].
  intros s1 Hr1. case_bool_decide as He.
  - subst e. unfold wba_event_add, event_add. apply wp_bind.
    destruct (_ || _); apply wp_ret, wp_ret; exists vw; (split_and!; [done..|set_solver]).
  - eapply refine_add; [exact Hr1|by apply good_fresh|apply lookup_insert_eq|done|done|].
    intros res s' vw' Hout Hr' _. apply wp_ret. exists vw'. destruct (add_outcome_same _ _ _ _ _ _ _ Hout) as [Hcfg Hdom].
    split_and!; [done| |done|]; [|rewrite Hdom; simpl; set_solver].
    eapply good_add_relative; [exact Hout|by apply good_fresh|apply lookup_insert_eq|done|done].
Qed.

(** ** Reading, writing and printing *)

Lemma rep_world s vw w : rep s b vw → rep (with_world w s) b vw.
Proof. intros Hr. by eapply same_data_rep. Qed.

Hypothesis Hpeer : reads_terminated W.

Lemma stored_terminated data : (length data ≤ sizeof_buf)%nat → 0 ∈ data ∨ (length data < sizeof_buf)%nat → 0 ∈ stored data (replicate sizeof_buf 0).
Proof.
  intros Hlen Hz. unfold stored. rewrite elem_of_app. destruct Hz as [Hz|Hz]; [by left|right].
  rewrite drop_replicate. apply elem_of_replicate. split; [done|]. lia.
Qed.

Lemma wp_read {A} fd (k : Z * list Z → cmd (evstate W) A) Q s :
  (∀ ret data w, (ret ≤ 0 → data = []) → 0 ∈ stored data (replicate sizeof_buf 0) → static_buf w = static_buf (es_world s) →
     wp (k (ret, data)) Q (with_world w s)) →
  wp (syscall (sys_read fd) ≫= k) Q s.
Proof.
  intros Hk. pose proof (read_ok fd (es_world s)) as H1. pose proof (Hpeer fd (es_world s)) as H2.
  destruct (sys_read fd (es_world s)) as [[ret data] w] eqn:E. destruct H1 as (Hz & Hl & Hs).
  apply wp_bind. eapply wp_syscall; [exact E|]. apply Hk; [done| |done]. by apply stored_terminated.
Qed.

Lemma wp_write {A} fd data (k : Z → cmd (evstate W) A) Q s :
  (∀ ret w, static_buf w = static_buf (es_world s) → wp (k ret) Q (with_world w s)) →
  wp (syscall (sys_write fd data) ≫= k) Q s.
Proof.
  intros Hk. pose proof (write_ok fd data (es_world s)) as H1. destruct (sys_write fd data (es_world s)) as [ret w] eqn:E.
  apply wp_bind. eapply wp_syscall; [exact E|]. by apply Hk.
Qed.

Lemma wp_print_s buf (k : cmd (evstate W) ()) Q s : 0 ∈ buf → wp k Q s → wp (print_s buf;; k) Q s.
Proof.
  intros [n Hn]%strlen_some Hk. apply wp_bind. unfold print_s. apply wp_bind. eapply wp_of_option; [exact Hn|]. by apply wp_ret.
Qed.

Lemma wp_print_s_last buf Q s : 0 ∈ buf → Q () s → wp (print_s buf) Q s.
Proof. intros [n Hn]%strlen_some HQ. unfold print_s. apply wp_bind. eapply wp_of_option; [exact Hn|]. by apply wp_ret. Qed.

Lemma wp_get_static {A} (k : list Z → cmd (evstate W) A) Q s :
  wp (k (static_buf (es_world s))) Q (with_world (es_world s) s) → wp (get_static ≫= k) Q s.
Proof. intros Hk. apply wp_bind. by eapply wp_syscall. Qed.

Lemma wp_put_static {A} buf (k : cmd (evstate W) A) Q s :
  wp k Q (with_world (set_static_buf buf (es_world s)) s) → wp (put_static buf;; k) Q s.
Proof. intros Hk. apply wp_bind. by eapply wp_syscall. Qed.

Section callbacks_ok.
Context (e : Z) (evt : wba_evt) (s : evstate W) (vw : evview) (fd events : Z).
Hypothesis (Hr : rep s b vw) (Hg : good fuel vw) (HJ : mine s) (He : vw_evts vw !! e = Some evt) (Hb : evt_base evt = b)
  (Ha : has (evt_flags evt) WBA_EVTLIST_ACTIVE = false).

Lemma cb01_keeps : wp (io_read_cb01 fuel fd events e) (λ _, kept vw) s.
Proof.
  unfold io_read_cb01. destruct (has _ WBA_EVT_TIMEOUT); [by eapply free_keeps|].
  destruct (has _ WBA_EVT_READ); [|by apply wp_ret, nothing_keeps].
  apply wp_read. intros ret data w _ Hz Hw. assert (mine (with_world w s)) as HJ' by (unfold mine; simpl; by rewrite Hw).
  pose proof (rep_world _ _ w Hr). case_bool_decide; [by eapply free_keeps|]. case_bool_decide; [by eapply free_keeps|].
  apply wp_print_s; [done|]. eapply add_keeps; done.
Qed.

Lemma cb04_keeps : wp (io_read_cb04 fuel fd events e) (λ _, kept vw) s.
Proof.
  unfold io_read_cb04. destruct (has _ WBA_EVT_TIMEOUT); [by eapply free_keeps|].
  destruct (has _ WBA_EVT_READ); [|by apply wp_ret, nothing_keeps].
  apply wp_read. intros ret data w _ Hz Hw. assert (mine (with_world w s)) as HJ' by (unfold mine; simpl; by rewrite Hw).
  pose proof (rep_world _ _ w Hr). case_bool_decide; [by eapply free_keeps|]. apply wp_print_s_last; [done|]. by apply nothing_keeps.
Qed.

Lemma cb03_keeps : wp (io_read_cb03 fuel fd events e) (λ _, kept vw) s.
Proof.
  unfold io_read_cb03. destruct (has _ WBA_EVT_READ); [|destruct (has _ WBA_EVT_WRITE); [|by apply wp_ret, nothing_keeps]].
  - apply wp_put_static. apply wp_read. intros ret data w _ Hz Hw. simpl in Hw. rewrite static_ok in Hw.
    apply wp_get_static. cbn [es_world with_world]. rewrite Hw. apply wp_put_static.
    set (s' := with_world _ _). assert (mine s') as HJ' by (unfold mine; simpl; by rewrite static_ok).
    assert (rep s' b vw) by (by repeat apply rep_world).
    case_bool_decide; [by eapply free_keeps|]. apply wp_print_s; [done|]. eapply assign_keeps; done.
  - apply wp_get_static. destruct (strlen_some _ HJ) as [n Hn]. apply wp_bind. eapply wp_of_option; [exact Hn|].
    apply wp_write. intros ret w Hw. simpl in Hw. set (s' := with_world _ _).
    assert (mine s') as HJ' by (unfold mine; simpl; by rewrite Hw). assert (rep s' b vw) by (by repeat apply rep_world).
    case_bool_decide; [by eapply free_keeps|]. apply wp_print_s; [done|]. eapply assign_keeps; done.
Qed.

(** The second part of [io_read_cb05]. *)
Lemma cb05_write_keeps s1 buf :
  rep s1 b vw → mine s1 → 0 ∈ buf →
  wp (if has events WBA_EVT_WRITE then
        n ← of_option (strlen buf);
        if bool_decide (0 < n)%nat then
          ret ← syscall (sys_write fd (take n buf));
          if bool_decide (ret <= 0) then wba_event_free fuel e else print_s buf
        else mret ()
      else mret ()) (λ _, kept vw) s1.
Proof.
  intros Hr1 HJ1 Hz. destruct (has _ WBA_EVT_WRITE); [|by apply wp_ret, nothing_keeps].
  destruct (strlen_some _ Hz) as [n Hn]. apply wp_bind. eapply wp_of_option; [exact Hn|].
  case_bool_decide; [|by apply wp_ret, nothing_keeps]. apply wp_write. intros ret w Hw.
  assert (mine (with_world w s1)) as HJ' by (unfold mine; simpl; by rewrite Hw). pose proof (rep_world _ _ w Hr1).
  case_bool_decide; [by eapply free_keeps|]. apply wp_print_s_last; [done|]. by apply nothing_keeps.
Qed.

Lemma cb05_keeps : wp (io_read_cb05 fuel fd events e) (λ _, kept vw) s.
Proof.
  unfold io_read_cb05. assert (0 ∈ replicate sizeof_buf 0) as Hz0 by (apply elem_of_replicate; done).
  destruct (has _ WBA_EVT_READ); [|apply wp_bind, wp_ret; by apply cb05_write_keeps].
  apply wp_bind, wp_read. intros ret data w Hd Hz Hw.
  assert (mine (with_world w s)) as HJ' by (unfold mine; simpl; by rewrite Hw). pose proof (rep_world _ _ w Hr) as Hr'.
  apply wp_bind. case_bool_decide as Hret.
  - eapply wp_mono; [by eapply free_keeps|]. intros [] s2 Hk. apply wp_ret. rewrite (Hd Hret).
    change (stored [] (replicate sizeof_buf 0)) with (replicate sizeof_buf 0).
    destruct (has _ WBA_EVT_WRITE); [|by apply wp_ret]. apply wp_bind. eapply wp_of_option; [done|]. by apply wp_ret.
  - apply wp_print_s_last; [done|]. apply wp_ret. by apply cb05_write_keeps.
Qed.

End callbacks_ok.

(** The callbacks respect what the loop asks of them. *)
Lemma test_callback_ok : callback_ok fuel b (test_callback fuel).
Proof.
  intros e evt s vw Hr Hg HJ He Hb Ha. destruct (self_argument _ _ _ Hg He Hb) as [Hfn Harg].
  assert (cb_fn evt = 1 ∨ cb_fn evt = 2 ∨ cb_fn evt = 3 ∨ cb_fn evt = 4 ∨ cb_fn evt = 5 ∨ cb_fn evt = 6 ∨ cb_fn evt = 7 ∨ cb_fn evt = 8) as Hc by lia.
  destruct (decide (cb_fn evt = 1)) as [->|Hn1]; [by apply wp_ret, nothing_keeps|]. rewrite (Harg Hn1).
  destruct Hc as [?|[->|[->|[->|[->|[->|[->| ->]]]]]]]; [done|..]; cbn [test_callback].
  - eapply add_keeps; done.
  - by eapply del_keeps.
  - by eapply cb01_keeps.
  - unfold io_read_cb02. destruct (has _ WBA_EVT_CLOSED); [by eapply free_keeps|by apply wp_ret, nothing_keeps].
  - by eapply cb04_keeps.
  - by eapply cb03_keeps.
  - by eapply cb05_keeps.
Qed.

End client.
