(* ===== verification/EvModel.v ===== *)
(** * A concrete system for the event loop

    A bump allocator, a clock that stands at 100.0005 s, an epoll that never
    reports anything and descriptors that always deliver two bytes.  The states below are reached from the empty one by calls
    of the library: a base, an event for reading from descriptor 5, a timer, the
    event added, the timer added with a deadline in the past, the event active. *)

From stdpp Require Import gmap numbers functions sorting list.
From S2P Require Import Prelude ListH RbNode RbTree RbZip RbInv EvTime Rings EvLoop EvInv EvOps EvTree EvApi EvRun EvTurn EvAlloc EvSpec EvFree EvClient.

Local Open Scope Z_scope.

(** The next free address, and the static buffer of the test program. *)
Definition demo : Type := Z * list Z.
Definition zeroed : list Z := replicate sizeof_buf 0.

#[global] Instance demo_system : System demo := {|
  sys_epoll_create _ w := (3, w);
  sys_epoll_ctl _ _ _ _ w := (0, w);
  sys_epoll_wait _ n _ w := if bool_decide (0 < n) then (0, [], w) else (-1, [], w);
  sys_close _ w := w;
  sys_clock_gettime w := (Some (100, 500000), w);
  sys_malloc n w := (w.1, (w.1 + n, w.2));
  sys_free _ w := w;
  sys_indet _ := 0;
|}.

#[global] Instance demo_clock_ok : ClockOk demo.
Proof. intros w. exists 100, 500000, w. done. Qed.

Lemma demo_epoll_ok epfd : epoll_wait_ok (W:=demo) epfd.
Proof. intros n timeout w. simpl. case_bool_decide; [right; simpl; lia|by left]. Qed.

(** Every descriptor delivers the bytes "hi", and writing always succeeds. *)
#[global] Instance demo_test : TestSystem demo := {|
  sys_read _ w := (2, [104; 105], w);
  sys_write _ data w := (Z.of_nat (length data), w);
  static_buf w := w.2;
  set_static_buf buf w := (w.1, buf);
|}.

#[global] Instance demo_test_ok : TestOk demo.
Proof. constructor; simpl; try done; intros; repeat split; unfold sizeof_buf; simpl; try lia. by case_bool_decide. Qed.

Lemma demo_reads : reads_terminated demo.
Proof. intros fd w. right. unfold sizeof_buf. simpl. lia. Qed.

(** A client without a promise about its events and data. *)
#[global] Instance any_client : Client demo := {| client_inv _ := True; client_world _ := True |}.
#[global] Instance any_client_ok : ClientOk demo.
Proof. by constructor. Qed.

Definition exec {S A} (m : cmd S A) (s : S) : S := match m s with Done (_, s') => s' | _ => s end.

Lemma exec_wp {S A} (m : cmd S A) (Q : A → S → Prop) s : wp m Q s → ∃ a, Q a (exec m s).
Proof. intros (a & s' & Hm & HQ). exists a. unfold exec. by rewrite Hm. Qed.

Definition ev_empty : evstate demo := EvState ∅ (RbMem ∅ ∅) ∅ ∅ ∅ (4096, zeroed).
Definition ev_base : evstate demo := exec (wba_evtbase_new 40) ev_empty.
Definition ev_one : evstate demo := exec (wba_event_new 1 4096 5 17 77 0) ev_base.
Definition ev_two : evstate demo := exec (wba_event_new 1 4096 (-1) 0 77 0) ev_one.
Definition ev_io : evstate demo := exec (event_add 40 5064 None false) ev_two.
Definition ev_timer : evstate demo := exec (event_add 40 5192 (Some (Timeval 99 0)) true) ev_io.
Definition ev_active : evstate demo := exec (event_add_active 5064 1) ev_timer.

Definition io_evt : wba_evt := fresh_evt 1 5064 4096 5 17 77 0.
Definition timer_evt : wba_evt := fresh_evt 1 5192 4096 (-1) 0 77 0.

Definition vw_base : evview := empty_view 3 4168 4552 (replicate 32 (0, 0)) ∅.
Definition vw_two : evview := vw_with_evts {[5064 := io_evt; 5192 := timer_evt]} vw_base.
Definition vw_io : evview := a_register 5064 vw_two.
Definition vw_timer : evview := a_deadline 5192 None (Timeval 99 0) (a_register 5192 vw_io).
Definition vw_active : evview := a_activate 5064 1 vw_timer.

Ltac unfold_sizes :=
  unfold apart, sizeof_wba_evt, sizeof_wba_evtbase, sizeof_list_head, EVT_MAP_SIZE.

Lemma rep_ev_base : rep ev_base 4096 vw_base.
Proof.
  destruct (exec_wp (wba_evtbase_new 40) (λ r s', ∃ buf, rep s' 4096 (empty_view 3 4168 4552 buf ∅)) ev_empty) as (_ & buf & Hr).
  - eapply refine_evtbase_new with (w1 := (4096, zeroed)) (b := 4096) (w2 := (4168, zeroed)) (p := 4168) (w3 := (4552, zeroed)) (arr := 4552) (w4 := (5064, zeroed));
      try done.
    + constructor; try (intros e [? [=]]); try (intros e e' [? [=]]); unfold apart; try done. by left.
    + intros e [? [=]].
    + vm_compute. lia.
    + intros s' buf Hr. by exists buf.
  - pose proof (rep_buf _ _ _ Hr) as [Hb _].
    assert (es_bufs ev_base !! 4168 = Some (replicate 32 (0, 0))) as Hb' by (by vm_compute).
    simpl in Hb. fold ev_base in Hb. rewrite Hb' in Hb. by injection Hb as <-.
Qed.

Lemma rep_ev_two : rep ev_two 4096 vw_two.
Proof.
  destruct (exec_wp (wba_event_new 1 4096 5 17 77 0)
    (λ r s', rep s' 4096 (vw_with_evts {[5064 := io_evt]} vw_base)) ev_base) as (_ & H1).
  { eapply refine_event_new with (e := 5064) (w := (5192, zeroed)); [apply rep_ev_base|done|by vm_compute| |].
    - intros _. constructor; try (intros e' [? [=]]); cbn -[Z.divide]; unfold_sizes; [|lia..].
      split_and!; [lia..|by exists 633].
    - intros s' Hr. rewrite bool_decide_false in Hr by done. exact Hr. }
  fold ev_one in H1.
  destruct (exec_wp (wba_event_new 1 4096 (-1) 0 77 0)
    (λ r s', rep s' 4096 (vw_with_evts (<[5192 := timer_evt]> {[5064 := io_evt]}) vw_base)) ev_one) as (_ & H2).
  { eapply refine_event_new with (e := 5192) (w := (5320, zeroed)); [apply H1|done|by vm_compute| |].
    - intros _. constructor; unfold_sizes; simpl; [|intros e' [? [<- _]%lookup_singleton_Some]; lia|lia..].
      split_and!; [lia..|by exists 649].
    - intros s' Hr. rewrite bool_decide_false in Hr by done. exact Hr. }
  fold ev_two in H2. by replace vw_two with (vw_with_evts (<[5192 := timer_evt]> {[5064 := io_evt]}) vw_base) by done.
Qed.

Lemma rep_ev_io : rep ev_io 4096 vw_io.
Proof.
  destruct (exec_wp (event_add 40 5064 None false) (λ r s', rep s' 4096 vw_io) ev_two) as (_ & H); [|done].
  eapply refine_event_add; [apply rep_ev_two|by vm_compute|done|by vm_compute; lia|done|].
  intros res s' vw' Ho Hr. inversion Ho; simplify_eq; done.
Qed.

Lemma rep_ev_timer : rep ev_timer 4096 vw_timer.
Proof.
  destruct (exec_wp (event_add 40 5192 (Some (Timeval 99 0)) true) (λ r s', rep s' 4096 vw_timer) ev_io) as (_ & H); [|done].
  eapply refine_event_add; [apply rep_ev_io|by vm_compute|done|by vm_compute; lia|done|].
  intros res s' vw' Ho Hr. inversion Ho as [|w Hreg Hf| |w t d Hreg Ht Hd]; simplify_eq.
  simpl in Hd. subst d. exact Hr.
Qed.

Lemma rep_ev_active : rep ev_active 4096 vw_active.
Proof.
  destruct (exec_wp (event_add_active 5064 1) (λ r s', rep s' 4096 vw_active) ev_timer) as (_ & H); [|done].
  eapply refine_add_active; [apply rep_ev_timer|by vm_compute|done|]. done.
Qed.

Definition quiet_callback (fn fd res arg : Z) : cmd (evstate demo) () := mret ().

Lemma quiet_callback_ok fuel b : callback_ok fuel b quiet_callback.
Proof. intros e evt s vw Hr Hg HJ He Hb Ha. apply wp_ret. by exists vw. Qed.

Lemma good_ev_active : good 40 vw_active.
Proof.
  split_and!; [by vm_compute; lia| |done]. unfold evts_ok.
  apply (map_Forall_to_list (λ _, times_ok) (vw_evts vw_active)).
  replace (map_to_list (vw_evts vw_active)) with (map_to_list (vw_evts vw_active)) by done.
  set (l := map_to_list _). vm_compute in l. subst l. unfold times_ok, interval_ok, tv_normal.
  repeat constructor; simpl; (lia || done).
Qed.

(** The test program's [timeout_test02], run on the empty base: one timer that adds itself
    again, and a persistent one with a NULL argument. *)
Definition ev_test1 : evstate demo :=
  exec (e ← wba_event_new 1 4096 (-1) WBA_EVT_TIMEOUT 2 1; wba_event_add 40 e (Some (Timeval 3 100));; mret ()) ev_base.
Definition ev_test : evstate demo := exec (timeout_test 40 1 4096 4 500 (Z.lor WBA_EVT_TIMEOUT WBA_EVT_PERSIST) NULL) ev_test1.

Lemma ev_test_run : timeout_test02 40 1 4096 ev_base = Done (tt, ev_test).
Proof. by vm_compute. Qed.

Lemma ev_test_buf : 0 ∈ static_buf (es_world ev_test).
Proof.
  assert (static_buf (es_world ev_test) = 0 :: tail zeroed) as H by (by vm_compute). rewrite H. apply list_elem_of_here.
Qed.

Lemma good_vw_base : good (client:=test_client demo 4096) 40 vw_base.
Proof.
  split_and!; [by vm_compute; lia|by apply map_Forall_empty|]. intros e sh Hsh. by rewrite lookup_fmap in Hsh.
Qed.

Lemma rep_ev_test : ∃ vw, rep ev_test 4096 vw ∧ good (client:=test_client demo 4096) 40 vw.
Proof.
  assert (interval_ok (Timeval 3 100) ∧ interval_ok (Timeval 4 500)) as [H3 H4] by (unfold interval_ok, tv_normal; simpl; lia).
  destruct (exec_wp (S:=evstate demo) (e ← wba_event_new 1 4096 (-1) WBA_EVT_TIMEOUT 2 1; wba_event_add 40 e (Some (Timeval 3 100));; mret ())
    (λ _, started 40 4096 5064 vw_base) ev_base) as (_ & vw1 & Hr1 & Hg1 & Hc1 & Hd1).
  { eapply refine_start with (w := (5192, zeroed)); [apply rep_ev_base|apply good_vw_base|by vm_compute; lia|done|lia|done|by vm_compute|].
    intros _. constructor; try (intros e' [? [=]]); cbn -[Z.divide]; unfold_sizes; [|lia..].
    split_and!; [lia..|by exists 633]. }
  fold ev_test1 in Hr1. simpl in Hd1. rewrite dom_empty_L, union_empty_r_L in Hd1.
  destruct (exec_wp (timeout_test 40 1 4096 4 500 (Z.lor WBA_EVT_TIMEOUT WBA_EVT_PERSIST) NULL)
    (λ _, started 40 4096 5192 vw1) ev_test1) as (_ & vw2 & Hr2 & Hg2 & _); [|by exists vw2].
  eapply refine_start with (w := (5320, zeroed)); [exact Hr1|exact Hg1| |done|lia|done|by vm_compute|].
  - rewrite <-size_dom. apply subseteq_size in Hd1. rewrite size_singleton in Hd1. lia.
  - intros _. rewrite Hc1. constructor; cbn -[Z.divide]; unfold_sizes; [| |lia..].
    + split_and!; [lia..|by exists 649].
    + intros e' He'%elem_of_dom. apply Hd1 in He'. set_unfold. lia.
Qed.
