(* ===== verification/CAlloc.v ===== *)
(** * The C environment of the data-structure programs

    malloc, realloc and free, rand, and [int] arithmetic.  The allocator and
    the generator are parameters: their state is [W], what the programs rely on
    is stated in [AllocOk] and [RandOk]. *)

From stdpp Require Import gmap numbers list.
From S2P Require Import Prelude.

Local Open Scope Z_scope.

(** The C allocator; NULL reports failure. *)
Class Alloc (W : Type) := {
  alloc : Z → W → Z * W;
  resize : Z → Z → W → Z * W;
  dealloc : Z → W → W;
}.

(** [owned]: the blocks the program got and has not given back.  malloc returns
    NULL or a block that is not one of them. *)
Class AllocOk (W : Type) `{!Alloc W} := {
  owned : W → gset Z;
  alloc_ok : ∀ n w p w', alloc n w = (p, w') →
    p = NULL ∧ owned w' = owned w ∨ p ≠ NULL ∧ (p ∉ owned w) ∧ owned w' = {[p]} ∪ owned w;
  resize_ok : ∀ q n w p w', resize q n w = (p, w') →
    p = NULL ∧ owned w' = owned w ∨
    p ≠ NULL ∧ (p = q ∨ p ∉ owned w) ∧ owned w' = {[p]} ∪ owned w ∖ {[q]};
  dealloc_ok : ∀ p w, owned (dealloc p w) = owned w ∖ {[p]};
}.

Lemma not_owned_fresh {A} (m : gmap Z A) (O : gset Z) p : dom m ⊆ O → p ∉ O → m !! p = None.
Proof. intros Hm Hp. apply not_elem_of_dom. set_solver. Qed.

(** rand() and RAND_MAX, which [int] can hold. *)
Class Rand (W : Type) := {
  RAND_MAX : Z;
  rand : W → Z * W;
}.

Class RandOk (W : Type) `{!Alloc W, !AllocOk W, !Rand W} := {
  rand_max_ok : 0 < RAND_MAX < 2 ^ 31;
  rand_ok : ∀ w t w', rand w = (t, w') → 0 ≤ t ≤ RAND_MAX ∧ owned w' = owned w;
}.

(** Signed arithmetic that leaves the range of [int] is undefined. *)
Definition s32_value {S} (z : Z) : cmd S Z :=
  if bool_decide (- 2 ^ 31 <= z < 2 ^ 31) then mret z else fault.

Lemma wp_s32_value {S} z Q (s : S) : - 2 ^ 31 ≤ z < 2 ^ 31 → Q z s → wp (s32_value z) Q s.
Proof. intros Hz HQ. unfold s32_value. rewrite bool_decide_true by lia. by apply wp_ret. Qed.

(** The loop that both skip lists choose a height with: the first [i] for which the random
    number is above [RAND_MAX / 2^i], at most [M]. *)
Lemma wp_rand_loop {S W} `{!Rand W} (M t : Z) (Q : Z → S → Prop) (s : S) :
  0 < M ≤ 30 →
  (∀ i, 1 ≤ i ≤ M → (i = M ∨ RAND_MAX / 2 ^ i < t) → (∀ j, 1 ≤ j < i → t ≤ RAND_MAX / 2 ^ j) → Q i s) →
  wp (loop (Datatypes.S (Z.to_nat M)) (λ '(i, j),
        if bool_decide (i < M) then
          if bool_decide (RAND_MAX / j < t) then mret (inr i)
          else j' ← s32_value (j + j); mret (inl (i + 1, j'))
        else mret (inr i)) (1, 2)) Q s.
Proof.
  intros HM Hend.
  apply (wp_loop_variant (λ m '(i, j) s', s' = s ∧ m = Z.to_nat (M - i) ∧ j = 2 ^ i ∧
    1 ≤ i ≤ M ∧ ∀ j, 1 ≤ j < i → t ≤ RAND_MAX / 2 ^ j)) with (m := Z.to_nat (M - 1)).
  - intros m [i j] s' (-> & -> & -> & Hi & Hlow). case_bool_decide as Hlt.
    2: { apply wp_ret, Hend; [lia|left; lia|done]. }
    case_bool_decide as Hstop; [apply wp_ret, Hend; [lia|by right|done]|].
    assert (2 ^ (i + 1) = 2 ^ i + 2 ^ i) as Hpow by (rewrite Z.pow_add_r by lia; lia).
    assert (2 ^ i ≤ 2 ^ 29) by (apply Z.pow_le_mono_r; lia).
    assert (0 < 2 ^ i) by lia.
    apply wp_bind, wp_s32_value; [lia|]. apply wp_ret. eexists. split; [|split_and!; [done|done|lia|lia|lia|]].
    + lia.
    + intros j Hj. destruct (decide (j = i)) as [->|Hne]; [lia|]. apply Hlow. lia.
  - lia.
  - split_and!; done || lia.
Qed.

(** ** A concrete allocator and generator

    They satisfy [AllocOk] and [RandOk]: the state is the set of blocks in use;
    malloc returns an address above all of them, and malloc and realloc fail for
    more than [2^20] bytes.  rand is a constant. *)

Definition above_all (O : gset Z) : Z := 1 + foldr Z.max 0 (elements O).

Lemma foldr_max_bound (l : list Z) x : x ∈ l → x ≤ foldr Z.max 0 l.
Proof. induction l as [|y l IH]; [set_solver|]. simpl. intros [->|Hx]%elem_of_cons; [lia|]. specialize (IH Hx). lia. Qed.

Lemma above_all_pos O : 0 < above_all O.
Proof.
  unfold above_all. generalize (elements O). induction l as [|y l IH]; simpl; lia.
Qed.

Lemma above_all_fresh O : above_all O ∉ O.
Proof. intros Hin. apply elem_of_elements, foldr_max_bound in Hin. unfold above_all in Hin at 1. lia. Qed.

#[global] Instance demo_alloc : Alloc (gset Z) := {|
  alloc n O := if bool_decide (n <= 2 ^ 20) then (above_all O, {[above_all O]} ∪ O) else (NULL, O);
  resize q n O := if bool_decide (n <= 2 ^ 20) then (above_all O, {[above_all O]} ∪ O ∖ {[q]}) else (NULL, O);
  dealloc p O := O ∖ {[p]};
|}.

#[global] Instance demo_alloc_ok : AllocOk (gset Z).
Proof.
  refine {| owned := id |}; simpl; intros; unfold id, NULL in *; try done; case_bool_decide; simplify_eq; auto;
    right; match goal with |- context [above_all ?O] => pose proof (above_all_pos O); pose proof (above_all_fresh O) end;
    split_and!; auto; lia.
Defined.

#[global] Instance demo_rand : Rand (gset Z) := {| RAND_MAX := 2147483647; rand w := (1000000000, w) |}.

#[global] Instance demo_rand_ok : RandOk (gset Z).
Proof. constructor; [done|]. simpl. intros w t w' [= <- <-]. done. Qed.

(** ** operator new

    [new_addr used] is the address of a new object when [used] are the addresses
    in use: it is none of them and not null.  The components that allocate C++
    objects are proved for every such function; [demo_new] is one. *)

Class New := {
  new_addr : gset Z → Z;
  new_addr_fresh : ∀ used, new_addr used ∉ used;
  new_addr_nonnull : ∀ used, new_addr used ≠ NULL;
}.

#[global] Instance demo_new : New.
Proof.
  refine {| new_addr := above_all |}; intros used; [apply above_all_fresh|].
  pose proof (above_all_pos used). unfold NULL. lia.
Defined.
