(* ===== verification/WbaStr.v ===== *)
(** * Growable strings (c_data_structure/wba_str/wba_str.h, wba_str.c)

    A string is a header with a length, a capacity (not counting the
    terminator) and a buffer.  Buffers are blocks of bytes; a byte that was
    never written is [None].  Copying outside a block faults.  Source strings
    are passed by contents ([None] for a NULL pointer) and do not overlap the
    destination's buffer.  One command per function of the C file. *)

From stdpp Require Import gmap numbers list.
From S2P Require Import Prelude CAlloc.

Local Open Scope Z_scope.

(** ** State *)

(** [size_t] arithmetic. *)
Definition size_t (z : Z) : Z := z mod 2 ^ 64.

Record wba_str := WbaStr { str_len : Z; str_cap : Z; str_buf : Z }.

#[global] Instance wba_str_eq_dec : EqDecision wba_str.
Proof. solve_decision. Defined.

Abbreviation block := (list (option Z)).

(** String headers, byte buffers, tables of tokens, and the allocator's state. *)
Record strmem (W : Type) := StrMem {
  sm_strs : gmap Z wba_str;
  sm_bufs : gmap Z block;
  sm_tabs : gmap Z block;
  sm_world : W;
}.

Arguments StrMem {W} _ _ _ _.
Arguments sm_strs {W} _.
Arguments sm_bufs {W} _.
Arguments sm_tabs {W} _.
Arguments sm_world {W} _.

#[global] Instance sm_strs_lens W : Lens (strmem W) (gmap Z wba_str).
Proof.
  by refine {| view := sm_strs; update := λ x s, StrMem x (sm_bufs s) (sm_tabs s) (sm_world s) |};
    intros; destruct s.
Defined.

Section wba_str.
Context {W : Type} `{!Alloc W}.

Definition call {A} (f : W → A * W) : cmd (strmem W) A :=
  λ s, let '(a, w) := f (sm_world s) in Done (a, StrMem (sm_strs s) (sm_bufs s) (sm_tabs s) w).
Definition set_strs (f : gmap Z wba_str → gmap Z wba_str) : cmd (strmem W) () :=
  λ s, Done ((), StrMem (f (sm_strs s)) (sm_bufs s) (sm_tabs s) (sm_world s)).
Definition set_bufs (f : gmap Z block → gmap Z block) : cmd (strmem W) () :=
  λ s, Done ((), StrMem (sm_strs s) (f (sm_bufs s)) (sm_tabs s) (sm_world s)).
Definition set_tabs (f : gmap Z block → gmap Z block) : cmd (strmem W) () :=
  λ s, Done ((), StrMem (sm_strs s) (sm_bufs s) (f (sm_tabs s)) (sm_world s)).

Definition get_str (ws : Z) : cmd (strmem W) wba_str := zoom (load ws).
Definition put_str (ws : Z) (v : wba_str) : cmd (strmem W) () := zoom (store ws v).

(** Overwrite [bs] at offset [i] of a block; outside the block is a fault. *)
Definition splice (i : Z) (bs : block) (blk : block) : option block :=
  if decide (0 ≤ i ∧ i + Z.of_nat (length bs) ≤ Z.of_nat (length blk))
  then Some (take (Z.to_nat i) blk ++ bs ++ drop (Z.to_nat i + length bs) blk) else None.

Definition write_bytes (p i : Z) (bs : list Z) : cmd (strmem W) () :=
  λ s, match sm_bufs s !! p with
       | Some blk =>
           match splice i (Some <$> bs) blk with
           | Some blk' => Done ((), StrMem (sm_strs s) (<[p:=blk']> (sm_bufs s)) (sm_tabs s) (sm_world s))
           | None => Fault
           end
       | None => Fault
       end.

(** [memcpy(buf + i, src, n)]: reading past the source faults too. *)
Definition memcpy (p i : Z) (src : list Z) (n : Z) : cmd (strmem W) () :=
  if decide (n ≤ Z.of_nat (length src)) then write_bytes p i (take (Z.to_nat n) src) else fault.
Definition memset0 (p n : Z) : cmd (strmem W) () := write_bytes p 0 (replicate (Z.to_nat n) 0).

(** malloc of [n] bytes. *)
Definition new_buf (n : Z) : cmd (strmem W) Z :=
  p ← call (alloc n);
  if bool_decide (p = NULL) then mret NULL
  else set_bufs (<[p := replicate (Z.to_nat n) None]>);; mret p.

Definition free_buf (p : Z) : cmd (strmem W) () :=
  set_bufs (delete p);; call (λ w, ((), dealloc p w)).

(** realloc: the common prefix is kept. *)
Definition realloc_buf (p n : Z) : cmd (strmem W) Z :=
  q ← call (resize p n);
  if bool_decide (q = NULL) then mret NULL else
  blk ← (λ s, match sm_bufs s !! p with Some blk => Done (blk, s) | None => Fault end);
  set_bufs (λ m, <[q := take (Z.to_nat n) blk ++ replicate (Z.to_nat n - length blk) None]> (delete p m));;
  mret q.

(** strlen of a source buffer: the offset of the first zero byte, which has to
    be inside it. *)
Fixpoint strlen (l : list Z) : option Z :=
  match l with
  | [] => None
  | c :: l' => if bool_decide (c = 0) then Some 0 else n ← strlen l'; Some (n + 1)
  end.

(** ** Creation and destruction *)

Definition sizeof_wba_str : Z := 24.

Definition wba_strnewlen (init : option (list Z)) (initlen : Z) : cmd (strmem W) Z :=
  ws ← call (alloc sizeof_wba_str);
  if bool_decide (ws = NULL) then mret NULL else
  set_strs (<[ws := WbaStr 0 0 0]>);;
  buf ← new_buf (size_t (initlen + 1));
  if bool_decide (buf = NULL) then
    set_strs (delete ws);; call (λ w, ((), dealloc ws w));; mret NULL
  else
  put_str ws (WbaStr initlen initlen buf);;
  (match init with
   | None => memset0 buf initlen
   | Some src => memcpy buf 0 src initlen
   end);;
  write_bytes buf initlen [0];;
  mret ws.

Definition wba_strnew (cap : Z) : cmd (strmem W) Z :=
  ws ← call (alloc sizeof_wba_str);
  if bool_decide (ws = NULL) then mret NULL else
  set_strs (<[ws := WbaStr 0 0 0]>);;
  buf ← new_buf (size_t (cap + 1));
  if bool_decide (buf = NULL) then
    set_strs (delete ws);; call (λ w, ((), dealloc ws w));; mret NULL
  else
  put_str ws (WbaStr 0 cap buf);;
  memset0 buf (size_t (cap + 1));;
  mret ws.

Definition wba_strnew2 (str : option (list Z)) : cmd (strmem W) Z :=
  len ← (match str with Some l => of_option (strlen l) | None => mret 0 end);
  wba_strnewlen str len.

Definition wba_strfree (ws : Z) : cmd (strmem W) () :=
  if bool_decide (ws = NULL) then mret () else
  v ← get_str ws;
  (if bool_decide (str_buf v = NULL) then mret () else free_buf (str_buf v));;
  set_strs (delete ws);;
  call (λ w, ((), dealloc ws w)).

Definition wba_strclr (ws : Z) : cmd (strmem W) () :=
  if bool_decide (ws = NULL) then mret () else
  v ← get_str ws;
  put_str ws (WbaStr 0 (str_cap v) (str_buf v));;
  write_bytes (str_buf v) 0 [0].

(** ** Capacity *)

Definition wba_strgrow (ws cap : Z) : cmd (strmem W) Z :=
  if bool_decide (ws = NULL) then mret ws else
  v ← get_str ws;
  if bool_decide (cap <= str_cap v) then mret ws else
  buf ← realloc_buf (str_buf v) (size_t (cap + 1));
  if bool_decide (buf = NULL) then mret NULL else
  put_str ws (WbaStr (str_len v) cap buf);;
  mret ws.

Definition WBA_STR_MAX_RESERVE_SIZE : Z := 1024 * 1024.

Definition wba_str_reserve (ws cap : Z) : cmd (strmem W) Z :=
  v ← get_str ws;
  if bool_decide (cap <= str_cap v) then mret ws else
  if bool_decide (cap < WBA_STR_MAX_RESERVE_SIZE) then wba_strgrow ws (size_t (cap * 2))
  else wba_strgrow ws (size_t (cap + WBA_STR_MAX_RESERVE_SIZE)).

(** ** Copying and appending *)

Definition wba_strncpy (ws : Z) (str : option (list Z)) (len : Z) : cmd (strmem W) Z :=
  match str with
  | None => mret ws
  | Some src =>
      if bool_decide (ws = NULL) || bool_decide (len = 0) then mret ws else
      r ← wba_str_reserve ws len;
      if bool_decide (r = NULL) then mret NULL else
      v ← get_str ws;
      memcpy (str_buf v) 0 src len;;
      put_str ws (WbaStr len (str_cap v) (str_buf v));;
      write_bytes (str_buf v) len [0];;
      mret ws
  end.

Definition wba_strcpy (ws : Z) (str : option (list Z)) : cmd (strmem W) Z :=
  match str with
  | None => mret ws
  | Some src =>
      if bool_decide (ws = NULL) then mret ws else
      n ← of_option (strlen src);
      wba_strncpy ws str n
  end.

Definition wba_strncat (ws : Z) (str : option (list Z)) (len : Z) : cmd (strmem W) Z :=
  match str with
  | None => mret ws
  | Some src =>
      if bool_decide (ws = NULL) || bool_decide (len = 0) then mret ws else
      v ← get_str ws;
      r ← wba_str_reserve ws (size_t (str_len v + len));
      if bool_decide (r = NULL) then mret NULL else
      v ← get_str ws;
      memcpy (str_buf v) (str_len v) src len;;
      let len' := size_t (str_len v + len) in
      put_str ws (WbaStr len' (str_cap v) (str_buf v));;
      write_bytes (str_buf v) len' [0];;
      mret ws
  end.

Definition wba_strcat (ws : Z) (str : option (list Z)) : cmd (strmem W) Z :=
  match str with
  | None => mret ws
  | Some src =>
      if bool_decide (ws = NULL) then mret ws else
      n ← of_option (strlen src);
      wba_strncat ws str n
  end.

(** [text] is what vsnprintf produces for the format and its arguments, [None]
    when it reports an error; vsnprintf writes it with its terminator. *)
Definition wba_strcat_vprintf (ws : Z) (text : option (list Z)) : cmd (strmem W) Z :=
  if bool_decide (ws = NULL) then mret NULL else
  match text with
  | None => mret NULL
  | Some src =>
      let len := Z.of_nat (length src) in
      v ← get_str ws;
      r ← wba_str_reserve ws (size_t (str_len v + len));
      if bool_decide (r = NULL) then mret NULL else
      v ← get_str ws;
      write_bytes (str_buf v) (str_len v) (src ++ [0]);;
      put_str ws (WbaStr (size_t (str_len v + len)) (str_cap v) (str_buf v));;
      mret ws
  end.

Definition wba_strcat_printf (ws : Z) (text : option (list Z)) : cmd (strmem W) Z :=
  wba_strcat_vprintf ws text.

(** ** Tokens *)

Definition get_tab (p : Z) : cmd (strmem W) block :=
  λ s, match sm_tabs s !! p with Some t => Done (t, s) | None => Fault end.

Definition wba_strfree_tokens (fuel : nat) (wss cnt : Z) : cmd (strmem W) () :=
  if bool_decide (wss = NULL) then mret () else
  loop fuel (λ i,
    if bool_decide (i < cnt) then
      tab ← get_tab wss;
      e ← of_option (tab !! Z.to_nat i);
      w ← of_option e;
      (if bool_decide (w = NULL) then mret () else wba_strfree w);;
      mret (inl (i + 1))
    else mret (inr ())) 0;;
  set_tabs (delete wss);;
  call (λ w, ((), dealloc wss w)).

(** malloc and realloc of the token table, in entries. *)
Definition new_tab (slots : Z) : cmd (strmem W) Z :=
  p ← call (alloc (8 * slots));
  if bool_decide (p = NULL) then mret NULL
  else set_tabs (<[p := replicate (Z.to_nat slots) None]>);; mret p.

Definition realloc_tab (p slots : Z) : cmd (strmem W) Z :=
  q ← call (resize p (8 * slots));
  if bool_decide (q = NULL) then mret NULL else
  t ← get_tab p;
  set_tabs (λ m, <[q := take (Z.to_nat slots) t ++ replicate (Z.to_nat slots - length t) None]> (delete p m));;
  mret q.

Definition put_tab (p i ws : Z) : cmd (strmem W) () :=
  λ s, match sm_tabs s !! p with
       | Some t =>
           match splice i [Some ws] t with
           | Some t' => Done ((), StrMem (sm_strs s) (sm_bufs s) (<[p:=t']> (sm_tabs s)) (sm_world s))
           | None => Fault
           end
       | None => Fault
       end.

(** The inner loop over the [n] separators: it stops at the first that matches,
    and reading past the separator string faults ([None]). *)
Fixpoint hit (n : nat) (sep : list Z) (c : Z) : option bool :=
  match n with
  | O => Some false
  | S n' =>
      match sep with
      | [] => None
      | q :: sep' => if bool_decide (c = q) then Some true else hit n' sep' c
      end
  end.

Record tokstate := TokState {
  tk_m : Z; tk_start : option Z; tk_end : option Z; tk_wss : Z; tk_slots : Z; tk_cnt : Z }.

Definition is_some {A} (o : option A) : bool := match o with Some _ => true | None => false end.

(** The complete token [str[st .. en)] is stored in the table. *)
Definition wba_strntok_store (fuel : nat) (str : list Z) (st en : Z) (m wss slots cnt : Z) :
    cmd (strmem W) (tokstate + Z * Z) :=
  '(wss', slots) ←
    (if bool_decide (slots - 1 <= cnt) then
       slots ← s32_value (slots * 2);
       tmp ← realloc_tab wss slots;
       mret (tmp, slots)
     else mret (wss, slots));
  if bool_decide (wss' = NULL) then
    wba_strfree_tokens fuel wss cnt;; mret (inr (NULL, cnt))
  else
  ws ← wba_strnew (en - st);
  if bool_decide (ws = NULL) then
    wba_strfree_tokens fuel wss' cnt;; mret (inr (NULL, cnt))
  else
  wba_strncpy ws (Some (drop (Z.to_nat st) str)) (en - st);;
  put_tab wss' cnt ws;;
  mret (inl (TokState (m + 1) None None wss' slots (cnt + 1))).

(** One character: the result is the next state, or the value returned and
    [*cnt].  Pointers into [str] are offsets. *)
Definition wba_strntok_body (fuel : nat) (str : list Z) (len : Z) (sep : list Z) (seplen : Z)
    (k : tokstate) :
    cmd (strmem W) (tokstate + Z * Z) :=
  let '(TokState m start end_ wss slots cnt) := k in
  if bool_decide (m < len) then
    c ← of_option (str !! Z.to_nat m);
    hit ← of_option (hit (Z.to_nat seplen) sep c);
    let end_ := if (hit : bool) then (if is_some start then Some m else end_) else end_ in
    let start := if (hit : bool) then start else if is_some start then start else Some m in
    let end_ := if is_some start && negb (is_some end_) && bool_decide (m = len - 1)
                then Some (m + 1) else end_ in
    match start, end_ with
    | Some st, Some en =>
        wba_strntok_store fuel str st en m wss slots cnt
    | _, _ => mret (inl (TokState (m + 1) start end_ wss slots cnt))
    end
  else mret (inr (wss, cnt)).

(** The value returned and the value of [*cnt] ([cnt] itself is not NULL). *)
Definition wba_strntok (fuel : nat) (str : option (list Z)) (len : Z) (sep : option (list Z)) (seplen : Z) :
    cmd (strmem W) (Z * Z) :=
  match str, sep with
  | Some str, Some sep =>
      if bool_decide (seplen = 0) then mret (NULL, 0) else
      wss ← new_tab 5;
      if bool_decide (wss = NULL) then mret (NULL, 0) else
      loop fuel (wba_strntok_body fuel str len sep seplen) (TokState 0 None None wss 5 0)
  | _, _ => mret (NULL, 0)
  end.

Definition wba_strtok (fuel : nat) (str sep : option (list Z)) : cmd (strmem W) (Z * Z) :=
  match str, sep with
  | Some s, Some p =>
      n ← of_option (strlen s);
      m ← of_option (strlen p);
      wba_strntok fuel str n sep m
  | _, _ => mret (NULL, 0)
  end.

End wba_str.
