(* ===== verification/WbaStrSpec.v ===== *)
(** * Correctness of the growable strings

    [str_at s ws buf c cap]: the header at [ws] and its buffer [buf] hold the
    byte string [c], terminated, within a capacity [cap]. *)

From stdpp Require Import gmap numbers list.
From S2P Require Import Prelude CAlloc WbaStr.

Local Open Scope Z_scope.

(** A terminated string at the start of a block. *)
Definition holds (blk : block) (c : list Z) : Prop := ∃ rest, blk = (Some <$> c) ++ Some 0 :: rest.

Section spec.
Context {W : Type} `{!Alloc W}.
Implicit Types (s : strmem W).

Record str_at s (ws buf : Z) (c : list Z) (cap : Z) : Prop := {
  sa_hdr : sm_strs s !! ws = Some (WbaStr (Z.of_nat (length c)) cap buf);
  sa_buf : ∃ blk, sm_bufs s !! buf = Some blk ∧ Z.of_nat (length blk) = cap + 1 ∧ holds blk c;
  sa_nonnull : ws ≠ NULL ∧ buf ≠ NULL;
  sa_cap : cap + 1 < 2 ^ 64;
}.

Lemma str_at_len s ws buf c cap : str_at s ws buf c cap → Z.of_nat (length c) ≤ cap.
Proof.
  intros [_ (blk & _ & Hl & rest & ->) _ _]. rewrite length_app, length_fmap in Hl. simpl in Hl. lia.
Qed.

(** ** Steps *)

Lemma size_t_small z : 0 ≤ z < 2 ^ 64 → size_t z = z.
Proof. apply Z.mod_small. Qed.

Lemma wp_call {A} s (f : W → A * W) a w Q :
  f (sm_world s) = (a, w) → Q a (StrMem (sm_strs s) (sm_bufs s) (sm_tabs s) w) → wp (call f) Q s.
Proof. intros Hf HQ. eapply wp_done; [|exact HQ]. unfold call. by rewrite Hf. Qed.

Lemma wp_set_strs s f Q :
  Q () (StrMem (f (sm_strs s)) (sm_bufs s) (sm_tabs s) (sm_world s)) → wp (set_strs f) Q s.
Proof. intros HQ. by eapply wp_done. Qed.
Lemma wp_set_sbufs s f Q :
  Q () (StrMem (sm_strs s) (f (sm_bufs s)) (sm_tabs s) (sm_world s)) → wp (set_bufs f) Q s.
Proof. intros HQ. by eapply wp_done. Qed.
Lemma wp_set_tabs s f Q :
  Q () (StrMem (sm_strs s) (sm_bufs s) (f (sm_tabs s)) (sm_world s)) → wp (set_tabs f) Q s.
Proof. intros HQ. by eapply wp_done. Qed.

Lemma wp_get_str s ws v Q : sm_strs s !! ws = Some v → Q v s → wp (get_str ws) Q s.
Proof. intros Hv HQ. apply wp_zoom. eapply wp_load; [done|]. by destruct s. Qed.

Lemma wp_put_str s ws v Q :
  is_Some (sm_strs s !! ws) →
  Q () (StrMem (<[ws:=v]> (sm_strs s)) (sm_bufs s) (sm_tabs s) (sm_world s)) → wp (put_str ws v) Q s.
Proof. intros Hv HQ. apply wp_zoom. by apply wp_store. Qed.

(** The block after writing [bs] at offset [i]. *)
Definition patch (i : nat) (bs : block) (blk : block) : block :=
  take i blk ++ bs ++ drop (i + length bs) blk.

Lemma length_patch i bs blk : (i + length bs ≤ length blk)%nat → length (patch i bs blk) = length blk.
Proof. intros H. unfold patch. rewrite !length_app, length_take, length_drop. lia. Qed.

Lemma splice_patch i bs blk :
  (i + length bs ≤ length blk)%nat → splice (Z.of_nat i) bs blk = Some (patch i bs blk).
Proof. intros H. unfold splice, patch. rewrite decide_True by lia. by rewrite Nat2Z.id. Qed.

Lemma patch_prefix pre bs blk' :
  patch (length pre) bs (pre ++ blk') = pre ++ bs ++ drop (length bs) blk'.
Proof.
  unfold patch. rewrite take_app_length. do 2 f_equal. rewrite drop_app_ge by lia. f_equal. lia.
Qed.

Lemma patch_str (c : list Z) bs blk' :
  patch (length c) bs ((Some <$> c) ++ blk') = (Some <$> c) ++ bs ++ drop (length bs) blk'.
Proof. pose proof (patch_prefix (Some <$> c) bs blk') as H. by rewrite length_fmap in H. Qed.

Lemma wp_write_bytes s p z i bs blk Q :
  z = Z.of_nat i → sm_bufs s !! p = Some blk → (i + length bs ≤ length blk)%nat →
  Q () (StrMem (sm_strs s) (<[p:=patch i (Some <$> bs) blk]> (sm_bufs s)) (sm_tabs s) (sm_world s)) →
  wp (write_bytes p z bs) Q s.
Proof.
  intros -> Hp Hl HQ. eapply wp_done; [|exact HQ]. unfold write_bytes. rewrite Hp.
  by rewrite splice_patch by (by rewrite length_fmap).
Qed.

(** Writing a string and its terminator after the first [n] bytes. *)
Lemma patch_terminated pre bs blk' :
  (length bs < length blk')%nat →
  holds (patch (length pre + length bs) [Some 0]
           (patch (length pre) (Some <$> bs) ((Some <$> pre) ++ blk'))) (pre ++ bs).
Proof.
  intros Hl. rewrite patch_str, app_assoc, <-fmap_app, <-length_app, patch_str. by eexists.
Qed.

(** ** Creation *)

(** The two ways an allocation can fail leave no string behind. *)
Lemma wp_strnewlen s init initlen Q :
  0 ≤ initlen → initlen + 1 < 2 ^ 64 →
  (∀ src, init = Some src → initlen ≤ Z.of_nat (length src)) →
  (∀ s', sm_tabs s' = sm_tabs s → sm_bufs s' = sm_bufs s → Q NULL s') →
  (∀ s' ws buf c, c = match init with Some src => take (Z.to_nat initlen) src
                      | None => replicate (Z.to_nat initlen) 0 end →
     str_at s' ws buf c initlen → sm_tabs s' = sm_tabs s → Q ws s') →
  wp (wba_strnewlen init initlen) Q s.
Proof.
  intros H0 Hmax Hsrc HN HQ. unfold wba_strnewlen, new_buf. apply wp_bind.
  destruct (alloc sizeof_wba_str (sm_world s)) as [ws w] eqn:Ha. eapply wp_call; [done|].
  case_bool_decide as Hws; [by apply wp_ret, HN|]. apply wp_bind, wp_set_strs.
  rewrite size_t_small by lia. apply wp_bind, wp_bind. cbn [sm_strs sm_bufs sm_tabs sm_world].
  destruct (alloc (initlen + 1) w) as [buf w'] eqn:Hb. eapply wp_call; [done|].
  case_bool_decide as Hbuf.
  { apply wp_ret. rewrite bool_decide_true by done. apply wp_bind, wp_set_strs, wp_bind.
    eapply wp_call; [done|]. by apply wp_ret, HN. }
  apply wp_bind, wp_set_sbufs, wp_ret. rewrite bool_decide_false by done.
  apply wp_bind, wp_put_str; [cbn [sm_strs]; rewrite lookup_insert_eq; by eexists|].
  cbn [sm_strs sm_bufs sm_tabs sm_world].
  set (c := match init with Some src => take (Z.to_nat initlen) src
            | None => replicate (Z.to_nat initlen) 0 end).
  assert (length c = Z.to_nat initlen) as Hc.
  { unfold c. destruct init as [src|]; [|apply length_replicate]. rewrite length_take.
    specialize (Hsrc src eq_refl). lia. }
  set (blk := replicate (Z.to_nat (initlen + 1)) (@None Z)).
  assert (length blk = S (length c)) as Hblk by (unfold blk; rewrite length_replicate; lia).
  apply wp_bind.
  apply wp_mono with (Q := λ _ s', s' = StrMem (<[ws:=WbaStr initlen initlen buf]> (<[ws:=WbaStr 0 0 0]> (sm_strs s)))
    (<[buf:=patch 0 (Some <$> c) blk]> (<[buf:=blk]> (sm_bufs s))) (sm_tabs s) w').
  { assert (wp (write_bytes buf (Z.of_nat 0) c) (λ _ s', s' = StrMem (<[ws:=WbaStr initlen initlen buf]>
      (<[ws:=WbaStr 0 0 0]> (sm_strs s))) (<[buf:=patch 0 (Some <$> c) blk]> (<[buf:=blk]> (sm_bufs s)))
      (sm_tabs s) w') (StrMem (<[ws:=WbaStr initlen initlen buf]> (<[ws:=WbaStr 0 0 0]> (sm_strs s)))
      (<[buf:=blk]> (sm_bufs s)) (sm_tabs s) w')) as Hw.
    { eapply (wp_write_bytes _ _ _ 0); [done|apply lookup_insert_eq|lia|done]. }
    destruct init as [src|]; [|exact Hw]. unfold memcpy.
    rewrite decide_True by (by apply Hsrc). exact Hw. }
  intros [] s' ->. apply wp_bind.
  eapply (wp_write_bytes _ _ _ (length c)); [lia|apply lookup_insert_eq|rewrite length_patch; rewrite ?length_fmap; cbn [length]; lia|].
  cbn [sm_strs sm_bufs sm_tabs sm_world]. apply wp_ret. eapply (HQ _ ws buf c); [done| |done]. constructor; simpl.
  - rewrite insert_insert_eq, lookup_insert_eq. do 2 f_equal. lia.
  - rewrite lookup_insert_eq. eexists. split; [done|]. split.
    + rewrite !length_patch; rewrite ?length_patch; rewrite ?length_fmap; cbn [length]; lia.
    + apply (patch_terminated [] c blk). lia.
  - done.
  - done.
Qed.

Lemma wp_strnew s cap Q :
  0 ≤ cap → cap + 1 < 2 ^ 64 →
  (∀ w, alloc sizeof_wba_str (sm_world s) = (NULL, w) →
     Q NULL (StrMem (sm_strs s) (sm_bufs s) (sm_tabs s) w)) →
  (∀ ws w w', alloc sizeof_wba_str (sm_world s) = (ws, w) → ws ≠ NULL →
     alloc (cap + 1) w = (NULL, w') →
     Q NULL (StrMem (delete ws (sm_strs s)) (sm_bufs s) (sm_tabs s) (dealloc ws w'))) →
  (∀ ws w buf w', alloc sizeof_wba_str (sm_world s) = (ws, w) → alloc (cap + 1) w = (buf, w') →
     ws ≠ NULL → buf ≠ NULL →
     Q ws (StrMem (<[ws:=WbaStr 0 cap buf]> (sm_strs s))
             (<[buf:=replicate (Z.to_nat (cap + 1)) (Some 0)]> (sm_bufs s)) (sm_tabs s) w')) →
  wp (wba_strnew cap) Q s.
Proof.
  intros H0 Hmax HN HN' HQ. unfold wba_strnew, new_buf. apply wp_bind.
  destruct (alloc sizeof_wba_str (sm_world s)) as [ws w] eqn:Ha. eapply wp_call; [done|].
  case_bool_decide as Hws; [subst ws; by apply wp_ret, HN|]. apply wp_bind, wp_set_strs.
  rewrite size_t_small by lia. apply wp_bind, wp_bind. cbn [sm_strs sm_bufs sm_tabs sm_world].
  destruct (alloc (cap + 1) w) as [buf w'] eqn:Hb. eapply wp_call; [done|].
  case_bool_decide as Hbuf.
  { apply wp_ret. rewrite bool_decide_true by done. apply wp_bind, wp_set_strs, wp_bind.
    eapply wp_call; [done|]. subst buf. apply wp_ret. simpl. rewrite delete_insert_eq. by eapply HN'. }
  apply wp_bind, wp_set_sbufs, wp_ret. rewrite bool_decide_false by done.
  apply wp_bind, wp_put_str; [cbn [sm_strs]; rewrite lookup_insert_eq; by eexists|].
  cbn [sm_strs sm_bufs sm_tabs sm_world]. apply wp_bind. unfold memset0.
  eapply (wp_write_bytes _ _ _ 0); [done|apply lookup_insert_eq|rewrite !length_replicate; lia|].
  cbn [sm_strs sm_bufs sm_tabs sm_world]. apply wp_ret. rewrite !insert_insert_eq.
  replace (patch 0 (Some <$> replicate (Z.to_nat (cap + 1)) 0) (replicate (Z.to_nat (cap + 1)) None))
    with (replicate (Z.to_nat (cap + 1)) (Some 0)).
  - by eapply HQ.
  - unfold patch. simpl. rewrite length_fmap, length_replicate, drop_ge by (by rewrite length_replicate).
    by rewrite app_nil_r, fmap_replicate.
Qed.

(** ** Growing *)

Lemma wp_strgrow s ws buf c cap newcap Q :
  str_at s ws buf c cap → newcap + 1 < 2 ^ 64 →
  (∀ s' buf', str_at s' ws buf' c (Z.max cap newcap) → sm_tabs s' = sm_tabs s → Q ws s') →
  (∀ s', str_at s' ws buf c cap → cap < newcap → sm_tabs s' = sm_tabs s → Q NULL s') →
  wp (wba_strgrow ws newcap) Q s.
Proof.
  intros Hs Hmax HQ HN. pose proof (str_at_len _ _ _ _ _ Hs) as Hlen.
  destruct Hs as [Hh (blk & Hb & Hl & rest & Hr) [Hws Hbuf] Hcap]. unfold wba_strgrow, realloc_buf.
  rewrite bool_decide_false by done. apply wp_bind. eapply wp_get_str; [done|]. simpl.
  case_bool_decide as Hle.
  { apply wp_ret. eapply HQ; [|done]. rewrite Z.max_l by lia. constructor; eauto. by exists blk; split_and!; [..|exists rest]. }
  rewrite size_t_small by lia. apply wp_bind, wp_bind.
  destruct (resize buf (newcap + 1) (sm_world s)) as [q w] eqn:Hq. eapply wp_call; [done|].
  case_bool_decide as Hqn.
  { apply wp_ret. rewrite bool_decide_true by done. apply wp_ret, HN; [|lia|done].
    constructor; eauto. by exists blk; split_and!; [..|exists rest]. }
  apply wp_bind. eapply wp_done; [cbn [sm_bufs]; by rewrite Hb|]. apply wp_bind, wp_set_sbufs, wp_ret.
  rewrite bool_decide_false by done. cbn [sm_strs sm_bufs sm_tabs sm_world].
  apply wp_bind, wp_put_str; [by eexists|]. apply wp_ret. rewrite Z.max_r in HQ by lia.
  eapply HQ; [|done]. constructor; simpl; [by rewrite lookup_insert_eq| |done|done].
  rewrite lookup_insert_eq. eexists. split; [done|].
  rewrite length_app, length_take, length_replicate. split; [lia|].
  rewrite take_ge by lia. rewrite Hr. eexists. by rewrite <-app_assoc.
Qed.

(** The capacity after reserving [need] bytes. *)
Definition reserved (cap need : Z) : Z :=
  if bool_decide (need <= cap) then cap
  else if bool_decide (need < WBA_STR_MAX_RESERVE_SIZE) then need * 2
  else need + WBA_STR_MAX_RESERVE_SIZE.

Lemma wp_str_reserve s ws buf c cap need Q :
  str_at s ws buf c cap → 0 < need → need + WBA_STR_MAX_RESERVE_SIZE + 1 < 2 ^ 64 →
  (∀ s' buf', str_at s' ws buf' c (reserved cap need) → need ≤ reserved cap need →
     sm_tabs s' = sm_tabs s → Q ws s') →
  (∀ s', str_at s' ws buf c cap → cap < need → sm_tabs s' = sm_tabs s → Q NULL s') →
  wp (wba_str_reserve ws need) Q s.
Proof.
  intros Hs H0 Hmax HQ HN. unfold wba_str_reserve, reserved in *.
  apply wp_bind. eapply wp_get_str; [apply Hs|]. simpl.
  unfold WBA_STR_MAX_RESERVE_SIZE in *.
  case_bool_decide as Hle; [by apply wp_ret; eapply HQ|].
  case_bool_decide as Hlt; rewrite size_t_small by lia.
  - eapply wp_strgrow; [done|lia|..].
    + intros s' buf'. rewrite Z.max_r by lia. intros Hs' ?. eapply HQ; [done|lia|done].
    + intros s' Hs' _ ?. by apply HN; [|lia|].
  - eapply wp_strgrow; [done|lia|..].
    + intros s' buf'. rewrite Z.max_r by lia. intros Hs' ?. eapply HQ; [done|lia|done].
    + intros s' Hs' _ ?. by apply HN; [|lia|].
Qed.

(** ** Copying and appending *)

(** Storing [bs] behind the first [length pre] bytes of a string that has the
    room for it. *)
Lemma str_at_store s ws buf c cap pre bs blk w :
  str_at s ws buf c cap → sm_bufs s !! buf = Some blk → (∃ tl, blk = (Some <$> pre) ++ tl) →
  Z.of_nat (length pre + length bs) ≤ cap →
  str_at (StrMem (<[ws:=WbaStr (Z.of_nat (length pre + length bs)) cap buf]> (sm_strs s))
    (<[buf:=patch (length pre + length bs) [Some 0] (patch (length pre) (Some <$> bs) blk)]> (sm_bufs s))
    (sm_tabs s) w) ws buf (pre ++ bs) cap.
Proof.
  intros [Hh (blk0 & Hb & Hl & Hr) Hn Hc] Hb' [tl ->] Hcap. rewrite Hb in Hb'. injection Hb' as ->.
  rewrite length_app, length_fmap in Hl.
  constructor; simpl; [by rewrite lookup_insert_eq, length_app| |done|done].
  rewrite lookup_insert_eq. eexists. split; [done|]. split.
  - set (blk := (Some <$> pre) ++ tl).
    assert (length blk = (length pre + length tl)%nat) as Hlb by (unfold blk; by rewrite length_app, length_fmap).
    assert (length (patch (length pre) (Some <$> bs) blk) = length blk) as Hl1
      by (apply length_patch; rewrite length_fmap; lia).
    rewrite length_patch; cbn [length]; lia.
  - apply patch_terminated. lia.
Qed.

(** [s'] has the other strings of [s]. *)
Definition only_at (ws buf : Z) s s' : Prop :=
  (∀ x, x ≠ ws → sm_strs s' !! x = sm_strs s !! x) ∧ (∀ x, x ≠ buf → sm_bufs s' !! x = sm_bufs s !! x).

(** The body shared by the copies: [bs] is stored at offset [length pre]. *)
Lemma wp_store_bytes s ws buf c cap pre bs src len Q :
  str_at s ws buf c cap → (∃ blk tl, sm_bufs s !! buf = Some blk ∧ blk = (Some <$> pre) ++ tl) →
  bs = take (Z.to_nat len) src → 0 ≤ len ≤ Z.of_nat (length src) →
  Z.of_nat (length pre) + len ≤ cap →
  (∀ s', str_at s' ws buf (pre ++ bs) cap → sm_tabs s' = sm_tabs s →
     only_at ws buf s s' → sm_world s' = sm_world s → Q ws s') →
  wp (memcpy buf (Z.of_nat (length pre)) src len;;
      put_str ws (WbaStr (Z.of_nat (length pre) + len) cap buf);;
      write_bytes buf (Z.of_nat (length pre) + len) [0];;
      mret ws) Q s.
Proof.
  intros Hs (blk & tl & Hb & Htl) Hbs Hlen Hcap HQ.
  assert (Z.of_nat (length bs) = len) as Hlb by (rewrite Hbs, length_take; lia).
  assert (length blk = Z.to_nat (cap + 1)) as Hlblk.
  { destruct Hs as [_ (blk' & Hb' & Hl & _) _ _]. rewrite Hb in Hb'. injection Hb' as ->. lia. }
  apply wp_bind. unfold memcpy. rewrite decide_True by lia. rewrite <-Hbs.
  eapply wp_write_bytes; [done..|lia|]. apply wp_bind, wp_put_str; [cbn [sm_strs]; rewrite (sa_hdr _ _ _ _ _ Hs); by eexists|].
  cbn [sm_strs sm_bufs sm_tabs sm_world]. apply wp_bind.
  eapply (wp_write_bytes _ _ _ (length pre + length bs)); [lia|apply lookup_insert_eq| |].
  { rewrite length_patch; rewrite ?length_fmap; cbn [length]; lia. }
  apply wp_ret. cbn [sm_strs sm_bufs sm_tabs sm_world]. rewrite insert_insert_eq.
  apply HQ; [|done| |done].
  - replace (Z.of_nat (length pre) + len) with (Z.of_nat (length pre + length bs)) by lia.
    eapply str_at_store; [done..|by exists tl|lia].
  - split; intros x Hx; simpl; by rewrite lookup_insert_ne.
Qed.

Lemma holds_prefix s ws buf c cap pre :
  str_at s ws buf c cap → pre `prefix_of` c →
  ∃ blk tl, sm_bufs s !! buf = Some blk ∧ blk = (Some <$> pre) ++ tl.
Proof.
  intros [_ (blk & Hb & _ & rest & ->) _ _] [k ->]. eexists _, _. split; [done|].
  by rewrite fmap_app, <-app_assoc.
Qed.

(** Room for the largest string the size arithmetic supports. *)
Definition size_ok (n : Z) : Prop := 0 < n ∧ n + WBA_STR_MAX_RESERVE_SIZE + 1 < 2 ^ 64.

Lemma wp_strncpy s ws buf c cap src len Q :
  str_at s ws buf c cap → 0 ≤ len ≤ Z.of_nat (length src) → (len ≠ 0 → size_ok len) →
  (∀ s' buf' c' cap', c' = (if decide (len = 0) then c else take (Z.to_nat len) src) →
     cap' = (if decide (len = 0) then cap else reserved cap len) →
     str_at s' ws buf' c' cap' → sm_tabs s' = sm_tabs s → Q ws s') →
  (∀ s', str_at s' ws buf c cap → cap < len → sm_tabs s' = sm_tabs s → Q NULL s') →
  wp (wba_strncpy ws (Some src) len) Q s.
Proof.
  intros Hs Hlen Hok HQ HN. unfold wba_strncpy. pose proof (sa_nonnull _ _ _ _ _ Hs) as [Hws _].
  rewrite (bool_decide_false (ws = NULL)) by done. cbn [orb]. case_bool_decide as H0.
  { apply wp_ret. eapply HQ; [by rewrite decide_True..|done|done]. }
  rewrite decide_False in HQ by done. rewrite decide_False in HQ by done.
  destruct (Hok H0) as [Hpos Hmax].
  apply wp_bind. eapply wp_str_reserve; [done..| |].
  - intros s1 buf1 Hs1 Hcap1 Ht1. rewrite bool_decide_false by done. apply wp_bind.
    eapply wp_get_str; [apply Hs1|]. cbn [str_buf str_cap].
    eapply (wp_store_bytes s1 ws buf1 c _ []); [done| |done|done|simpl; lia|].
    + eapply holds_prefix; [done|]. by exists c.
    + intros s2 Hs2 Ht2 _ _. eapply HQ; [done..|exact Hs2|congruence].
  - intros s1 Hs1 Hlt Ht1. rewrite bool_decide_true by done. by apply wp_ret, HN.
Qed.

(** A copy that fits does not move the buffer. *)
Lemma wp_strncpy_fits s ws buf c cap src len Q :
  str_at s ws buf c cap → 0 < len ≤ Z.of_nat (length src) → len ≤ cap →
  (∀ s', str_at s' ws buf (take (Z.to_nat len) src) cap → sm_tabs s' = sm_tabs s →
     only_at ws buf s s' → sm_world s' = sm_world s → Q ws s') →
  wp (wba_strncpy ws (Some src) len) Q s.
Proof.
  intros Hs Hlen Hfit HQ. unfold wba_strncpy. pose proof (sa_nonnull _ _ _ _ _ Hs) as [Hws _].
  rewrite (bool_decide_false (ws = NULL)), (bool_decide_false (len = 0)) by (done || lia).
  cbn [orb]. apply wp_bind. unfold wba_str_reserve. apply wp_bind.
  eapply wp_get_str; [apply Hs|]. cbn [str_cap]. rewrite bool_decide_true by lia. apply wp_ret.
  rewrite bool_decide_false by done. apply wp_bind. eapply wp_get_str; [apply Hs|].
  cbn [str_buf str_cap]. eapply (wp_store_bytes s ws buf c _ []); [done| |done|lia|simpl; lia|done].
  eapply holds_prefix; [done|]. by exists c.
Qed.

Lemma wp_strncat s ws buf c cap src len Q :
  str_at s ws buf c cap → 0 ≤ len ≤ Z.of_nat (length src) →
  (len ≠ 0 → size_ok (Z.of_nat (length c) + len)) →
  (∀ s' buf' cap', str_at s' ws buf' (c ++ take (Z.to_nat len) src) cap' →
     sm_tabs s' = sm_tabs s → Q ws s') →
  (∀ s', str_at s' ws buf c cap → cap < Z.of_nat (length c) + len → sm_tabs s' = sm_tabs s → Q NULL s') →
  wp (wba_strncat ws (Some src) len) Q s.
Proof.
  intros Hs Hlen Hok HQ HN. unfold wba_strncat. pose proof (sa_nonnull _ _ _ _ _ Hs) as [Hws _].
  rewrite (bool_decide_false (ws = NULL)) by done. cbn [orb]. case_bool_decide as H0.
  { apply wp_ret. eapply HQ; [|done]. subst len. rewrite app_nil_r. exact Hs. }
  destruct (Hok H0) as [Hpos Hmax]. apply wp_bind. eapply wp_get_str; [apply Hs|].
  cbn [str_len]. unfold WBA_STR_MAX_RESERVE_SIZE in Hmax.
  rewrite size_t_small by lia. apply wp_bind.
  eapply wp_str_reserve; [done..| |].
  - intros s1 buf1 Hs1 Hcap1 Ht1. rewrite bool_decide_false by done. apply wp_bind.
    eapply wp_get_str; [apply Hs1|]. cbn [str_buf str_cap str_len]. rewrite size_t_small by lia.
    eapply (wp_store_bytes s1 ws buf1 c _ c); [done| |done|done|lia|].
    + by eapply holds_prefix.
    + intros s2 Hs2 Ht2 _ _. eapply HQ; [exact Hs2|congruence].
  - intros s1 Hs1 Hlt Ht1. rewrite bool_decide_true by done. by apply wp_ret, HN.
Qed.

Lemma wp_strcat_vprintf s ws buf c cap text Q :
  str_at s ws buf c cap → size_ok (Z.of_nat (length c) + Z.of_nat (length text)) →
  (∀ s' buf' cap', str_at s' ws buf' (c ++ text) cap' → sm_tabs s' = sm_tabs s → Q ws s') →
  (∀ s', str_at s' ws buf c cap → sm_tabs s' = sm_tabs s → Q NULL s') →
  wp (wba_strcat_vprintf ws (Some text)) Q s.
Proof.
  intros Hs [Hpos Hmax] HQ HN. unfold wba_strcat_vprintf. pose proof (sa_nonnull _ _ _ _ _ Hs) as [Hws _].
  rewrite (bool_decide_false (ws = NULL)) by done. apply wp_bind. eapply wp_get_str; [apply Hs|].
  cbn [str_len]. unfold WBA_STR_MAX_RESERVE_SIZE in Hmax.
  rewrite size_t_small by lia. apply wp_bind. eapply wp_str_reserve; [done..| |].
  - intros s1 buf1 Hs1 Hcap1 Ht1. rewrite bool_decide_false by done. apply wp_bind.
    eapply wp_get_str; [apply Hs1|]. cbn [str_buf str_cap str_len]. rewrite size_t_small by lia.
    destruct Hs1 as [Hh1 (blk & Hb & Hl & rest & ->) Hn1 Hc1]. rewrite length_app, length_fmap in Hl.
    simpl in Hl. apply wp_bind.
    eapply wp_write_bytes; [done..| |].
    { rewrite !length_app, length_fmap. simpl. lia. }
    apply wp_bind, wp_put_str; [cbn [sm_strs]; rewrite Hh1; by eexists|]. apply wp_ret.
    eapply HQ; [|done]. cbn [sm_strs sm_bufs sm_tabs sm_world].
    rewrite patch_str.
    constructor; cbn [sm_strs sm_bufs]; [rewrite lookup_insert_eq; do 2 f_equal; rewrite length_app; lia| |done|done].
    rewrite lookup_insert_eq. eexists. split; [done|]. split.
    + rewrite !length_app, !length_fmap, length_drop, length_app. simpl. lia.
    + rewrite fmap_app, app_assoc, app_assoc, <-fmap_app, <-app_assoc. by eexists.
  - intros s1 Hs1 Hlt Ht1. rewrite bool_decide_true by done. by apply wp_ret, HN.
Qed.

Lemma wp_strclr s ws buf c cap Q :
  str_at s ws buf c cap →
  (∀ s', str_at s' ws buf [] cap → sm_tabs s' = sm_tabs s → Q () s') →
  wp (wba_strclr ws) Q s.
Proof.
  intros Hs HQ. pose proof (str_at_len _ _ _ _ _ Hs). destruct Hs as [Hh (blk & Hb & Hl & Hr) [Hws Hbn] Hc].
  unfold wba_strclr. rewrite bool_decide_false by done. apply wp_bind. eapply wp_get_str; [done|].
  apply wp_bind, wp_put_str; [by eexists|]. cbn [str_buf str_cap].
  eapply (wp_write_bytes _ _ _ 0); [done..|cbn [length]; lia|]. apply HQ; [|done].
  constructor; cbn [sm_strs sm_bufs]; [by rewrite lookup_insert_eq| |done|done].
  rewrite lookup_insert_eq. eexists. split; [done|]. split.
  - rewrite length_patch; cbn [length fmap list_fmap]; lia.
  - unfold patch. by eexists.
Qed.

(** ** C strings *)

Lemma strlen_spec l n :
  strlen l = Some n → 0 ≤ n < Z.of_nat (length l) ∧ l !! Z.to_nat n = Some 0 ∧
                      0 ∉ take (Z.to_nat n) l.
Proof.
  revert n. induction l as [|c l IH]; intros n; simpl; [done|]. case_bool_decide as Hc.
  - intros [= <-]. subst c. simpl. split_and!; [lia|lia|done|set_solver].
  - intros (m & Hm & [= <-])%bind_Some. destruct (IH m Hm) as (Hr & Hz & Hn).
    replace (Z.to_nat (m + 1)) with (S (Z.to_nat m)) by lia. simpl.
    split_and!; [lia|lia|done|]. rewrite not_elem_of_cons. done.
Qed.

Lemma strlen_app c l : 0 ∉ c → strlen (c ++ 0 :: l) = Some (Z.of_nat (length c)).
Proof.
  induction c as [|x c IH]; simpl; [done|]. intros [Hx Hc]%not_elem_of_cons.
  rewrite bool_decide_false by congruence. rewrite IH by done. simpl. f_equal. lia.
Qed.

End spec.
