(* ===== verification/WbaTok.v ===== *)
(** * The tokenizer (wba_strntok, wba_strfree_tokens)

    The code's single pass with [start] and [end] pointers is compared with the
    reference definition: split the text at every separator and drop the empty
    pieces. *)

From stdpp Require Import gmap numbers list.
From S2P Require Import Prelude CAlloc WbaStr WbaStrSpec.

Local Open Scope Z_scope.

(** ** Reference definition *)

Fixpoint split_on (sep : list Z) (l : list Z) : list (list Z) :=
  match l with
  | [] => [[]]
  | c :: l' =>
      if decide (c ∈ sep) then [] :: split_on sep l'
      else match split_on sep l' with
           | [] => [[c]]
           | w :: ws => (c :: w) :: ws
           end
  end.

Definition tokens (sep l : list Z) : list (list Z) := filter (λ w, w ≠ []) (split_on sep l).

Lemma split_on_nonempty sep l : split_on sep l ≠ [].
Proof. destruct l as [|c l]; simpl; [done|]. case_decide; [done|]. by destruct (split_on sep l). Qed.

Lemma tokens_sep sep c l : c ∈ sep → tokens sep (c :: l) = tokens sep l.
Proof. intros Hc. unfold tokens. simpl. rewrite decide_True by done. by rewrite filter_cons_False by naive_solver. Qed.

(** A run of ordinary characters is the start of one piece. *)
Lemma split_on_run sep w l :
  Forall (λ c, c ∉ sep) w →
  ∃ p ps, split_on sep l = p :: ps ∧ split_on sep (w ++ l) = (w ++ p) :: ps.
Proof.
  intros Hw. induction Hw as [|c w Hc _ (p & ps & Hl & IH)].
  - destruct (split_on sep l) as [|p ps] eqn:Hl; [by apply split_on_nonempty in Hl|]. by exists p, ps.
  - exists p, ps. split; [done|]. simpl. by rewrite decide_False, IH.
Qed.

Lemma tokens_run_sep sep w c l :
  Forall (λ c, c ∉ sep) w → w ≠ [] → c ∈ sep → tokens sep (w ++ c :: l) = w :: tokens sep l.
Proof.
  intros Hw Hne Hc. destruct (split_on_run sep w (c :: l) Hw) as (p & ps & Hl & Hwl).
  simpl in Hl. rewrite decide_True in Hl by done. injection Hl as <- <-.
  unfold tokens. rewrite Hwl, app_nil_r. by rewrite filter_cons_True.
Qed.

Lemma tokens_run_end sep w : Forall (λ c, c ∉ sep) w → w ≠ [] → tokens sep w = [w].
Proof.
  intros Hw Hne. destruct (split_on_run sep w [] Hw) as (p & ps & Hl & Hwl).
  injection Hl as <- <-. rewrite !app_nil_r in Hwl. unfold tokens. rewrite Hwl.
  by rewrite filter_cons_True.
Qed.

(** There are no more tokens than characters. *)
Lemma tokens_length sep l : (length (tokens sep l) ≤ length l)%nat.
Proof.
  unfold tokens. assert (length (filter (λ w, w ≠ []) (split_on sep l)) ≤ length (concat (split_on sep l)))%nat as H1.
  { generalize (split_on sep l). induction l0 as [|w ws IH]; [done|]. rewrite filter_cons. simpl. rewrite length_app.
    case_decide; [|lia]. destruct w; [done|]. simpl. lia. }
  etrans; [exact H1|]. clear H1. induction l as [|c l IH]; [done|]. simpl. case_decide; [simpl; lia|].
  pose proof (split_on_nonempty sep l). destruct (split_on sep l); [done|]. simpl in *. lia.
Qed.

Lemma hit_spec n sep c : (n ≤ length sep)%nat → hit n sep c = Some (bool_decide (c ∈ take n sep)).
Proof.
  revert sep. induction n as [|n IH]; intros [|q sep] Hn; simpl in *; try (done || lia).
  case_bool_decide as Hq.
  - subst q. by rewrite bool_decide_true by set_solver.
  - rewrite IH by lia. f_equal. apply bool_decide_ext. set_solver.
Qed.

Section tok.
Context {W : Type} `{!Alloc W, !AllocOk W}.
Implicit Types (s : strmem W).

(** Everything in memory is owned, and no block has two uses. *)
Definition heap_ok s : Prop :=
  (dom (sm_strs s) ⊆ owned (sm_world s) ∧ dom (sm_bufs s) ⊆ owned (sm_world s) ∧
   dom (sm_tabs s) ⊆ owned (sm_world s)) ∧
  dom (sm_strs s) ## dom (sm_bufs s) ∧ dom (sm_strs s) ## dom (sm_tabs s) ∧
  dom (sm_bufs s) ## dom (sm_tabs s).

(** A token: header, buffer, contents. *)
Record token := Token { tok_ws : Z; tok_buf : Z; tok_str : list Z }.

Definition tok_at s (t : token) : Prop :=
  str_at s (tok_ws t) (tok_buf t) (tok_str t) (Z.of_nat (length (tok_str t))).

(** [s] is [s0] with the tokens [ts] added. *)
Record toks_added s0 s (ts : list token) : Prop := {
  ta_toks : Forall (tok_at s) ts;
  ta_ws : NoDup (tok_ws <$> ts);
  ta_bufs : NoDup (tok_buf <$> ts);
  ta_strs_frame : ∀ x, x ∉ tok_ws <$> ts → sm_strs s !! x = sm_strs s0 !! x;
  ta_bufs_frame : ∀ x, x ∉ tok_buf <$> ts → sm_bufs s !! x = sm_bufs s0 !! x;
  ta_fresh : ∀ t, t ∈ ts → sm_strs s0 !! tok_ws t = None ∧ sm_bufs s0 !! tok_buf t = None;
  ta_heap : heap_ok s;
}.

Lemma tok_at_live s t : tok_at s t → is_Some (sm_strs s !! tok_ws t) ∧ is_Some (sm_bufs s !! tok_buf t).
Proof. intros [Hh (blk & Hb & _) _ _]. split; by eexists. Qed.

Lemma tok_at_frame s s' t :
  tok_at s t → sm_strs s' !! tok_ws t = sm_strs s !! tok_ws t →
  sm_bufs s' !! tok_buf t = sm_bufs s !! tok_buf t → tok_at s' t.
Proof. intros [Hh Hb Hn Hc] H1 H2. constructor; rewrite ?H1, ?H2; done. Qed.

Lemma toks_added_world s0 s ts w :
  toks_added s0 s ts → owned w = owned (sm_world s) →
  toks_added s0 (StrMem (sm_strs s) (sm_bufs s) (sm_tabs s) w) ts.
Proof.
  intros [Hts ? ? ? ? ? Hh] Ho. constructor; try done.
  - eapply Forall_impl; [exact Hts|]. intros t Ht. by eapply tok_at_frame.
  - unfold heap_ok in *. simpl. by rewrite Ho.
Qed.

(** ** One token *)

Lemma wp_new_token {A} s0 s ts src len (mfail : cmd (strmem W) A) (mok : Z → cmd (strmem W) A) Q :
  toks_added s0 s ts → 0 < len ≤ Z.of_nat (length src) → len + 1 < 2 ^ 64 →
  (∀ s', toks_added s0 s' ts → sm_tabs s' = sm_tabs s → wp mfail Q s') →
  (∀ s' t, toks_added s0 s' (ts ++ [t]) → tok_str t = take (Z.to_nat len) src → tok_ws t ≠ NULL →
     sm_tabs s' = sm_tabs s → wp (mok (tok_ws t)) Q s') →
  wp (ws ← wba_strnew len;
      if bool_decide (ws = NULL) then mfail
      else wba_strncpy ws (Some src) len;; mok ws) Q s.
Proof.
  intros Ht Hlen Hmax HN HQ. pose proof (ta_heap _ _ _ Ht) as ((Hd1 & Hd2 & Hd3) & Hx1 & Hx2 & Hx3). apply wp_bind.
  eapply wp_strnew; [lia|lia|..].
  - intros w Ha. rewrite bool_decide_true by done. apply HN; [|done].
    apply alloc_ok in Ha as [[_ Ho]|[? _]]; [|done]. by apply (toks_added_world s0 s).
  - intros ws w w' Ha Hws Ha'. rewrite bool_decide_true by done. apply HN; [|done].
    apply alloc_ok in Ha as [[? _]|(_ & Hfr & Ho)]; [done|].
    apply alloc_ok in Ha' as [[_ Ho']|[? _]]; [|done].
    rewrite delete_id by (by eapply not_owned_fresh). apply (toks_added_world s0 s); [done|].
    rewrite dealloc_ok, Ho', Ho. set_solver.
  - intros ws w buf w' Ha Ha' Hws Hbuf. rewrite bool_decide_false by done.
    apply alloc_ok in Ha as [[? _]|(_ & Hfr & Ho)]; [done|].
    apply alloc_ok in Ha' as [[? _]|(_ & Hfr' & Ho')]; [done|].
    set (s1 := StrMem _ _ _ w').
    assert (str_at s1 ws buf [] len) as Hs1.
    { constructor; simpl; [by rewrite lookup_insert_eq| |done|lia].
      rewrite lookup_insert_eq. eexists. split; [done|]. rewrite length_replicate. split; [lia|].
      replace (Z.to_nat (len + 1)) with (S (Z.to_nat len)) by lia. by eexists. }
    apply wp_bind. eapply wp_strncpy_fits; [exact Hs1|done|lia|].
    intros s2 Hs2 Htab [Hf1 Hf2] Hw2.
    apply (HQ s2 (Token ws buf (take (Z.to_nat len) src))); [|done|done|done].
    assert (ws ∉ tok_ws <$> ts) as Hwn.
    { intros (t & -> & Hin)%list_elem_of_fmap. pose proof (ta_toks _ _ _ Ht) as Hts.
      rewrite Forall_forall in Hts. destruct (tok_at_live _ _ (Hts t Hin)) as [[v Hv] _].
      apply Hfr. apply elem_of_dom_2 in Hv. set_solver. }
    assert (buf ∉ tok_buf <$> ts) as Hbn.
    { intros (t & -> & Hin)%list_elem_of_fmap. pose proof (ta_toks _ _ _ Ht) as Hts.
      rewrite Forall_forall in Hts. destruct (tok_at_live _ _ (Hts t Hin)) as [_ [v Hv]].
      apply Hfr'. apply elem_of_dom_2 in Hv. set_solver. }
    assert (∀ x, x ≠ ws → sm_strs s2 !! x = sm_strs s !! x) as Hstr2.
    { intros x Hx. rewrite Hf1 by done. simpl. by rewrite lookup_insert_ne. }
    assert (∀ x, x ≠ buf → sm_bufs s2 !! x = sm_bufs s !! x) as Hbuf2.
    { intros x Hx. rewrite Hf2 by done. simpl. by rewrite lookup_insert_ne. }
    assert (∀ t, t ∈ ts → tok_ws t ≠ ws ∧ tok_buf t ≠ buf) as Hne.
    { intros t Hin. split; intros <-; [apply Hwn|apply Hbn]; by apply list_elem_of_fmap_2. }
    constructor; rewrite ?fmap_app; cbn [fmap list_fmap tok_ws tok_buf].
    + apply Forall_app. split; [|apply Forall_singleton].
      * pose proof (ta_toks _ _ _ Ht) as Hts. rewrite Forall_forall in Hts |- *. intros t Hin.
        destruct (Hne t Hin). eapply tok_at_frame; [by apply Hts|by apply Hstr2|by apply Hbuf2].
      * unfold tok_at. simpl. rewrite length_take. replace (Z.of_nat _) with len by lia. done.
    + apply NoDup_app. split_and!; [apply Ht|set_solver|apply NoDup_singleton].
    + apply NoDup_app. split_and!; [apply Ht|set_solver|apply NoDup_singleton].
    + intros x Hx. rewrite Hstr2 by set_solver. apply Ht. set_solver.
    + intros x Hx. rewrite Hbuf2 by set_solver. apply Ht. set_solver.
    + intros t. rewrite elem_of_app, list_elem_of_singleton. intros [Hin| ->]; [by apply Ht|]. simpl.
      rewrite <-(ta_strs_frame _ _ _ Ht ws), <-(ta_bufs_frame _ _ _ Ht buf) by done.
      split; (eapply not_owned_fresh; [eassumption|set_solver]).
    + assert (dom (sm_strs s2) ⊆ {[ws]} ∪ dom (sm_strs s)) as Hds.
      { intros x [v Hx]%elem_of_dom. destruct (decide (x = ws)) as [->|Hxn]; [set_solver|].
        rewrite Hstr2 in Hx by done. apply elem_of_dom_2 in Hx. set_solver. }
      assert (dom (sm_bufs s2) ⊆ {[buf]} ∪ dom (sm_bufs s)) as Hdb.
      { intros x [v Hx]%elem_of_dom. destruct (decide (x = buf)) as [->|Hxn]; [set_solver|].
        rewrite Hbuf2 in Hx by done. apply elem_of_dom_2 in Hx. set_solver. }
      unfold heap_ok. rewrite Hw2, Htab. simpl. rewrite Ho', Ho. split_and!; set_solver.
Qed.

(** ** Freeing tokens *)

Lemma wp_strfree s ws buf c cap Q :
  str_at s ws buf c cap →
  Q () (StrMem (delete ws (sm_strs s)) (delete buf (sm_bufs s)) (sm_tabs s)
          (dealloc ws (dealloc buf (sm_world s)))) →
  wp (wba_strfree ws) Q s.
Proof.
  intros [Hh _ [Hws Hbuf] _] HQ. unfold wba_strfree, free_buf. rewrite bool_decide_false by done.
  apply wp_bind. eapply wp_get_str; [done|]. cbn [str_buf]. rewrite bool_decide_false by done.
  apply wp_bind, wp_bind, wp_set_sbufs. eapply wp_call; [done|].
  apply wp_bind, wp_set_strs. by eapply wp_call.
Qed.

Lemma toks_added_free s0 s t ts :
  toks_added s0 s (t :: ts) →
  toks_added s0 (StrMem (delete (tok_ws t) (sm_strs s)) (delete (tok_buf t) (sm_bufs s)) (sm_tabs s)
    (dealloc (tok_ws t) (dealloc (tok_buf t) (sm_world s)))) ts.
Proof.
  intros [Hts Hws Hbs Hf1 Hf2 Hfr Hh]. simpl in *. apply Forall_cons in Hts as [Ht Hts].
  apply NoDup_cons in Hws as [Hwn Hws]. apply NoDup_cons in Hbs as [Hbn Hbs].
  assert (∀ u, u ∈ ts → tok_ws u ≠ tok_ws t ∧ tok_buf u ≠ tok_buf t) as Hne.
  { intros u Hin. split; intros Heq; [apply Hwn|apply Hbn]; rewrite <-Heq; by apply list_elem_of_fmap_2. }
  constructor; simpl; try done.
  - rewrite Forall_forall in Hts |- *. intros u Hin. destruct (Hne u Hin).
    eapply tok_at_frame; [by apply Hts|..]; simpl; by rewrite lookup_delete_ne.
  - intros x Hx. destruct (decide (x = tok_ws t)) as [->|].
    + rewrite lookup_delete_eq. symmetry. apply (Hfr t). set_solver.
    + rewrite lookup_delete_ne by done. apply Hf1. set_solver.
  - intros x Hx. destruct (decide (x = tok_buf t)) as [->|].
    + rewrite lookup_delete_eq. symmetry. apply (Hfr t). set_solver.
    + rewrite lookup_delete_ne by done. apply Hf2. set_solver.
  - intros u Hin. apply Hfr. set_solver.
  - destruct (tok_at_live _ _ Ht) as [[v1 Hv1%elem_of_dom_2] [v2 Hv2%elem_of_dom_2]].
    unfold heap_ok in *. simpl. rewrite !dealloc_ok, !dom_delete_L. set_solver.
Qed.

Lemma toks_added_nil s0 s : toks_added s0 s [] → sm_strs s = sm_strs s0 ∧ sm_bufs s = sm_bufs s0.
Proof.
  intros [_ _ _ Hf1 Hf2 _ _]. split; apply map_eq; intros x; [apply Hf1|apply Hf2]; set_solver.
Qed.

(** Freeing the tokens restores the memory from before the call. *)
Lemma wp_strfree_tokens s0 s ts tab rest fuel Q :
  toks_added s0 s ts → tab ≠ NULL → sm_tabs s !! tab = Some ((Some <$> (tok_ws <$> ts)) ++ rest) →
  (length ts < fuel)%nat →
  (∀ s', sm_strs s' = sm_strs s0 → sm_bufs s' = sm_bufs s0 → sm_tabs s' = delete tab (sm_tabs s) → Q () s') →
  wp (wba_strfree_tokens fuel tab (Z.of_nat (length ts))) Q s.
Proof.
  intros Ht Htab Htabs Hfuel HQ. unfold wba_strfree_tokens. rewrite bool_decide_false by done.
  apply wp_bind.
  apply (wp_loop_variant (λ m i s', ∃ vs us, ts = vs ++ us ∧ i = Z.of_nat (length vs) ∧
    m = length us ∧ toks_added s0 s' us ∧ sm_tabs s' = sm_tabs s)) with (m := length ts); [|done|].
  2: { by exists [], ts. }
  intros m i s' (vs & us & Hts & -> & -> & Hus & Htb). destruct us as [|u us].
  - rewrite app_nil_r in Hts. subst vs. rewrite bool_decide_false by lia. apply wp_ret.
    apply toks_added_nil in Hus as [? ?]. apply wp_bind, wp_set_tabs. eapply wp_call; [done|].
    apply HQ; simpl; congruence.
  - rewrite bool_decide_true by (rewrite Hts, length_app; simpl; lia).
    apply wp_bind. eapply wp_done; [unfold get_tab; by rewrite Htb, Htabs|].
    apply wp_bind. apply wp_of_option with (a := Some (tok_ws u)).
    { rewrite Nat2Z.id, Hts. rewrite lookup_app_l by (rewrite !length_fmap, length_app; simpl; lia).
      rewrite !list_lookup_fmap, lookup_app_r, Nat.sub_diag by lia. done. }
    apply wp_bind, wp_ret. pose proof (ta_toks _ _ _ Hus) as [Hu _]%Forall_cons.
    pose proof (sa_nonnull _ _ _ _ _ Hu) as [Hun _]. rewrite bool_decide_false by done.
    apply wp_bind. eapply wp_strfree; [exact Hu|]. apply wp_ret. exists (length us).
    split; [simpl; lia|]. exists (vs ++ [u]), us. split_and!; try done.
    + by rewrite <-app_assoc.
    + rewrite length_app. simpl. lia.
    + by apply toks_added_free.
Qed.

(** ** The table *)

Record tab_at s0 s (wss slots : Z) (ts : list token) : Prop := {
  tb_nonnull : wss ≠ NULL;
  tb_block : ∃ rest, sm_tabs s !! wss = Some ((Some <$> (tok_ws <$> ts)) ++ rest) ∧
    Z.of_nat (length ts + length rest) = slots;
  tb_frame : ∀ x, x ≠ wss → sm_tabs s !! x = sm_tabs s0 !! x;
  tb_fresh : sm_tabs s0 !! wss = None;
}.

Lemma tab_at_ext s0 s s' wss slots ts : tab_at s0 s wss slots ts → sm_tabs s' = sm_tabs s → tab_at s0 s' wss slots ts.
Proof. intros [] Heq. constructor; rewrite ?Heq; done. Qed.

(** The memory of the call is given back. *)
Definition same_mem s0 s : Prop :=
  sm_strs s = sm_strs s0 ∧ sm_bufs s = sm_bufs s0 ∧ sm_tabs s = sm_tabs s0.

Lemma wp_abandon s0 s wss slots ts fuel Q :
  toks_added s0 s ts → tab_at s0 s wss slots ts → (length ts < fuel)%nat →
  (∀ s', same_mem s0 s' → Q () s') → wp (wba_strfree_tokens fuel wss (Z.of_nat (length ts))) Q s.
Proof.
  intros Ht [Hn (rest & Hb & _) Hf Hfr] Hfuel HQ. eapply wp_strfree_tokens; [done..|].
  intros s' H1 H2 H3. apply HQ. split_and!; [done..|]. rewrite H3. apply map_eq. intros x.
  destruct (decide (x = wss)) as [->|Hx]; [by rewrite lookup_delete_eq|].
  rewrite lookup_delete_ne by done. by apply Hf.
Qed.

(** Making room: twice the slots once only one is left. *)
Lemma wp_room {A} s0 s ts wss slots (K : Z * Z → cmd (strmem W) A) Q :
  toks_added s0 s ts → tab_at s0 s wss slots ts → Z.of_nat (length ts) < slots → 1 < slots →
  2 * Z.of_nat (length ts) + 2 < 2 ^ 31 →
  (∀ s' wss' slots', toks_added s0 s' ts → tab_at s0 s' wss' slots' ts →
     Z.of_nat (length ts) + 1 < slots' → wp (K (wss', slots')) Q s') →
  (∀ s' slots', toks_added s0 s' ts → tab_at s0 s' wss slots ts → wp (K (NULL, slots')) Q s') →
  wp (ws ← (if bool_decide (slots - 1 <= Z.of_nat (length ts)) then
              slots ← s32_value (slots * 2);
              tmp ← realloc_tab wss slots;
              mret (tmp, slots)
            else mret (wss, slots)); K ws) Q s.
Proof.
  intros Ht Hb Hlt H1 Hmax HK HN. apply wp_bind. case_bool_decide as Hfull.
  2: { apply wp_ret, HK; [done..|lia]. }
  apply wp_bind, wp_s32_value; [lia|].
  destruct Hb as [Hn (rest & Htab & Hlen) Hf Hfr]. unfold realloc_tab. apply wp_bind, wp_bind.
  destruct (resize wss (8 * (slots * 2)) (sm_world s)) as [q w] eqn:Hq. eapply wp_call; [done|].
  apply resize_ok in Hq as [[-> Ho]|(Hqn & Hq & Ho)].
  { rewrite bool_decide_true by done. apply wp_ret, wp_ret.
    apply HN; [by apply toks_added_world|]. constructor; simpl; try done. by exists rest. }
  rewrite bool_decide_false by done. apply wp_bind.
  eapply wp_done; [unfold get_tab; simpl; by rewrite Htab|]. apply wp_bind, wp_set_tabs, wp_ret, wp_ret.
  cbn [sm_strs sm_bufs sm_tabs sm_world].
  pose proof (ta_heap _ _ _ Ht) as ((Hd1 & Hd2 & Hd3) & Hx1 & Hx2 & Hx3).
  assert (wss ∈ dom (sm_tabs s)) as Hwd by (by apply elem_of_dom_2 in Htab).
  apply HK; [| |lia].
  - destruct Ht as [Hts ? ? ? ? ? Hh]. constructor; try done.
    + eapply Forall_impl; [exact Hts|]. intros t Htt. by eapply tok_at_frame.
    + unfold heap_ok. simpl. rewrite Ho, dom_insert_L, dom_delete_L.
      assert (q = wss ∨ q ∉ dom (sm_strs s) ∧ q ∉ dom (sm_bufs s)) as Hq' by set_solver.
      split_and!; set_solver.
  - constructor; simpl; [done|..].
    + rewrite lookup_insert_eq. rewrite take_ge by (rewrite length_app, !length_fmap; lia).
      eexists. rewrite <-app_assoc. split; [done|].
      rewrite !length_app, !length_fmap, length_replicate. lia.
    + intros x Hx. rewrite lookup_insert_ne by done. destruct (decide (x = wss)) as [->|Hxw].
      * by rewrite lookup_delete_eq.
      * rewrite lookup_delete_ne by done. by apply Hf.
    + destruct Hq as [->|Hq]; [done|]. destruct (decide (q = wss)) as [->|Hqw]; [done|].
      rewrite <-Hf by done. eapply not_owned_fresh; [exact Hd3|done].
Qed.

(** Storing a pointer in the next slot. *)
Lemma wp_put_tab s0 s wss slots ts t Q :
  toks_added s0 s (ts ++ [t]) → tab_at s0 s wss slots ts → Z.of_nat (length ts) < slots →
  (∀ s', toks_added s0 s' (ts ++ [t]) → tab_at s0 s' wss slots (ts ++ [t]) → Q () s') →
  wp (put_tab wss (Z.of_nat (length ts)) (tok_ws t)) Q s.
Proof.
  intros Ht [Hn (rest & Htab & Hlen) Hf Hfr] Hlt HQ.
  destruct rest as [|r rest]; [simpl in Hlen; lia|].
  eapply wp_done.
  { unfold put_tab. rewrite Htab, splice_patch; [reflexivity|].
    rewrite length_app, !length_fmap. simpl. lia. }
  rewrite <-(length_fmap tok_ws ts), patch_str. simpl. rewrite drop_0.
  assert (dom (<[wss:=(Some <$> (tok_ws <$> ts)) ++ Some (tok_ws t) :: rest]> (sm_tabs s)) = dom (sm_tabs s)) as Hdom.
  { rewrite dom_insert_L. apply elem_of_dom_2 in Htab. set_solver. }
  apply HQ.
  - destruct Ht as [Hts ? ? ? ? ? Hh]. constructor; try done.
    + eapply Forall_impl; [exact Hts|]. intros u Hu. by eapply tok_at_frame.
    + unfold heap_ok in *. simpl. by rewrite Hdom.
  - constructor; simpl; try done.
    + rewrite lookup_insert_eq. exists rest. rewrite fmap_app, fmap_app, <-app_assoc. split; [done|].
      rewrite length_app. simpl in *. lia.
    + intros x Hx. rewrite lookup_insert_ne by done. by apply Hf.
Qed.

(** ** The scan *)

Lemma wp_strntok_store s0 s ts wss slots fuel str pre w rest m Q :
  toks_added s0 s ts → tab_at s0 s wss slots ts → Z.of_nat (length ts) < slots → 1 < slots →
  2 * Z.of_nat (length ts) + 2 < 2 ^ 31 → (length ts < fuel)%nat →
  str = pre ++ w ++ rest → w ≠ [] → Z.of_nat (length w) + 1 < 2 ^ 64 →
  (∀ s' cnt, same_mem s0 s' → Q (inr (NULL, cnt)) s') →
  (∀ s' t wss' slots', toks_added s0 s' (ts ++ [t]) → tab_at s0 s' wss' slots' (ts ++ [t]) →
     tok_str t = w → Z.of_nat (length (ts ++ [t])) < slots' →
     Q (inl (TokState (m + 1) None None wss' slots' (Z.of_nat (length (ts ++ [t]))))) s') →
  wp (wba_strntok_store fuel str (Z.of_nat (length pre)) (Z.of_nat (length pre + length w)) m wss slots
        (Z.of_nat (length ts))) Q s.
Proof.
  intros Ht Hb Hlt H1 Hmax Hfuel -> Hw Hlen HN HQ. unfold wba_strntok_store.
  eapply wp_room; [done..| |].
  - intros s1 wss' slots' Ht1 Hb1 Hlt1. cbv beta iota.
    rewrite bool_decide_false by apply Hb1.
    replace (Z.of_nat (length pre + length w) - Z.of_nat (length pre)) with (Z.of_nat (length w)) by lia.
    rewrite Nat2Z.id, drop_app_length. assert (0 < length w)%nat by (destruct w; simpl; [done|lia]).
    eapply wp_new_token; [done|rewrite length_app; lia|lia|..].
    + intros s2 Ht2 Htab. apply wp_bind. eapply wp_abandon; [done|by eapply tab_at_ext|done|].
      intros s3 Hs. by apply wp_ret, HN.
    + intros s2 t Ht2 Htok Hnn Htab. rewrite Nat2Z.id, take_app_length in Htok. apply wp_bind.
      eapply wp_put_tab; [done|by eapply tab_at_ext|lia|]. intros s3 Ht3 Hb3. apply wp_ret.
      assert (Z.of_nat (length ts) + 1 = Z.of_nat (length (ts ++ [t]))) as Hc
        by (rewrite length_app; simpl; lia).
      rewrite Hc. apply HQ; [done..|lia].
  - intros s1 slots' Ht1 Hb1. cbv beta iota. rewrite bool_decide_true by done. apply wp_bind.
    eapply wp_abandon; [done..|]. intros s2 Hs. by apply wp_ret, HN.
Qed.

(** Between two characters: [cur] is the unfinished token after [pre]. *)
Record scanning (s0 : strmem W) (sep text : list Z) s (k : tokstate) (pre cur suf : list Z)
    (ts : list token) : Prop := {
  sc_text : text = pre ++ cur ++ suf;
  sc_pos : tk_m k = Z.of_nat (length pre + length cur);
  sc_start : tk_start k = if decide (cur = []) then None else Some (Z.of_nat (length pre));
  sc_end : tk_end k = None;
  sc_cur : Forall (λ c, c ∉ sep) cur;
  sc_more : suf = [] → cur = [];
  sc_found : tokens sep text = (tok_str <$> ts) ++ tokens sep (cur ++ suf);
  sc_cnt : tk_cnt k = Z.of_nat (length ts);
  sc_few : (length ts ≤ length pre)%nat;
  sc_toks : toks_added s0 s ts;
  sc_tab : tab_at s0 s (tk_wss k) (tk_slots k) ts;
  sc_room : Z.of_nat (length ts) < tk_slots k ∧ 1 < tk_slots k;
}.

Definition tok_result (s0 : strmem W) (sep text : list Z) (r : Z * Z) s : Prop :=
  r.1 = NULL ∧ same_mem s0 s ∨
  ∃ ts slots, toks_added s0 s ts ∧ tab_at s0 s r.1 slots ts ∧ r.2 = Z.of_nat (length ts) ∧
    tok_str <$> ts = tokens sep text.

Lemma wp_strntok_body s0 s sep seplen text extra fuel k pre cur suf ts :
  scanning s0 (take (Z.to_nat seplen) sep) text s k pre cur suf ts →
  seplen ≤ Z.of_nat (length sep) → Z.of_nat (length text) < 2 ^ 30 - 1 → (length text < fuel)%nat →
  wp (wba_strntok_body fuel (text ++ extra) (Z.of_nat (length text)) sep seplen k)
    (λ r s', match r with
             | inl k' => ∃ pre' cur' suf' ts', (length suf' < length suf)%nat ∧
                 scanning s0 (take (Z.to_nat seplen) sep) text s' k' pre' cur' suf' ts'
             | inr res => tok_result s0 (take (Z.to_nat seplen) sep) text res s'
             end) s.
Proof.
  intros [Htext Hm Hst Hen Hcur Hmore Hfound Hcnt Hfew Ht Hb [Hr1 Hr2]] Hsep Hlen Hfuel.
  destruct k as [m start end_ wss slots cnt]. simpl in *. subst m start end_ cnt. unfold wba_strntok_body.
  set (S := take (Z.to_nat seplen) sep) in *.
  assert (length text = length pre + length cur + length suf)%nat as Hl
    by (rewrite Htext, !length_app; lia).
  destruct suf as [|c suf].
  { rewrite (Hmore eq_refl) in *. simpl in *. rewrite bool_decide_false by lia. apply wp_ret. right.
    exists ts, slots. split_and!; [done..|]. rewrite Hfound. simpl. by rewrite app_nil_r. }
  rewrite bool_decide_true by (simpl in *; lia). apply wp_bind. apply wp_of_option with (a := c).
  { rewrite Nat2Z.id, Htext, <-!app_assoc, app_assoc, <-length_app.
    rewrite lookup_app_r, Nat.sub_diag by lia. done. }
  apply wp_bind. eapply wp_of_option; [apply hit_spec; lia|]. fold S. cbv zeta.
  case_bool_decide as Hc.
  - case_decide as Hcn.
    + subst cur. simpl. apply wp_ret. exists (pre ++ [c]), [], suf, ts. split; [lia|].
      constructor; simpl; try done.
      * by rewrite Htext, <-app_assoc.
      * rewrite length_app. simpl. lia.
      * rewrite Hfound. simpl. by rewrite tokens_sep.
      * rewrite length_app. lia.
    + simpl. eapply wp_strntok_store with (pre := pre) (w := cur) (rest := c :: suf ++ extra); try done.
      * lia.
      * lia.
      * rewrite Htext, <-!app_assoc. done.
      * lia.
      * intros s' cnt Hs. by left.
      * intros s' t wss' slots' Ht' Hb' Htok Hlt. exists (pre ++ cur ++ [c]), [], suf, (ts ++ [t]).
        split; [lia|]. constructor; simpl; try done.
        -- rewrite Htext, <-!app_assoc. done.
        -- rewrite !length_app. simpl. lia.
        -- rewrite Hfound, tokens_run_sep, fmap_app, <-app_assoc by done. simpl. by rewrite Htok.
        -- rewrite !length_app. simpl. lia.
        -- rewrite length_app in *. simpl in *. lia.
  - assert (∀ b, is_some (if is_some (if decide (cur = []) then None else Some (Z.of_nat (length pre)))
      then (if decide (cur = []) then None else Some (Z.of_nat (length pre)))
      else Some (Z.of_nat (length pre + length cur))) && negb (is_some (@None Z)) && b = b) as Hb1
      by (intros b; by case_decide).
    assert ((if is_some (if decide (cur = []) then None else Some (Z.of_nat (length pre)))
      then (if decide (cur = []) then None else Some (Z.of_nat (length pre)))
      else Some (Z.of_nat (length pre + length cur))) = Some (Z.of_nat (length pre))) as Hst.
    { case_decide as Hcn; [|done]. subst cur. simpl. do 2 f_equal. lia. }
    rewrite Hb1, Hst. clear Hb1 Hst.
    assert (Forall (λ c, c ∉ S) (cur ++ [c])) as Hrun by (apply Forall_app; auto).
    assert (cur ++ [c] ≠ []) as Hne by (by destruct cur).
    destruct suf as [|c' suf].
    + rewrite bool_decide_true by (simpl in *; lia).
      replace (Z.of_nat (length pre + length cur) + 1) with (Z.of_nat (length pre + length (cur ++ [c])))
        by (rewrite length_app; simpl; lia).
      simpl in Hl. eapply wp_strntok_store with (pre := pre) (w := cur ++ [c]) (rest := extra); try done.
      * lia.
      * lia.
      * rewrite Htext, <-!app_assoc. done.
      * rewrite length_app. simpl. lia.
      * intros s' cnt Hs. by left.
      * intros s' t wss' slots' Ht' Hb' Htok Hlt. exists (pre ++ cur ++ [c]), [], [], (ts ++ [t]).
        split; [simpl; lia|]. constructor; simpl; try done.
        -- rewrite Htext, app_nil_r. done.
        -- rewrite !length_app. simpl. lia.
        -- rewrite Hfound, tokens_run_end, fmap_app, <-app_assoc by done. simpl. by rewrite Htok.
        -- rewrite !length_app. simpl. lia.
        -- rewrite length_app in *. simpl in *. lia.
    + rewrite bool_decide_false by (simpl in *; lia). apply wp_ret.
      exists pre, (cur ++ [c]), (c' :: suf), ts. split; [simpl; lia|]. constructor; simpl; try done.
      * by rewrite Htext, <-app_assoc.
      * rewrite length_app. simpl. lia.
      * by rewrite decide_False by done.
      * by rewrite Hfound, <-app_assoc.
Qed.

(** wba_strntok: the table of the tokens of the text, in order, or NULL with
    the memory as it was. *)
Lemma wp_strntok s sep seplen text extra fuel Q :
  heap_ok s → 0 < seplen ≤ Z.of_nat (length sep) → Z.of_nat (length text) < 2 ^ 30 - 1 →
  (length text < fuel)%nat →
  (∀ r s', tok_result s (take (Z.to_nat seplen) sep) text r s' → Q r s') →
  wp (wba_strntok fuel (Some (text ++ extra)) (Z.of_nat (length text)) (Some sep) seplen) Q s.
Proof.
  intros Hh Hsep Hlen Hfuel HQ. unfold wba_strntok, new_tab. rewrite bool_decide_false by lia.
  apply wp_bind, wp_bind. destruct (alloc (8 * 5) (sm_world s)) as [p w] eqn:Hp.
  eapply wp_call; [done|]. apply alloc_ok in Hp as [[-> Ho]|(Hpn & Hfr & Ho)].
  { rewrite bool_decide_true by done. apply wp_ret. rewrite bool_decide_true by done.
    apply wp_ret, HQ. by left. }
  rewrite bool_decide_false by done. apply wp_bind, wp_set_tabs, wp_ret.
  rewrite bool_decide_false by done. cbn [sm_strs sm_bufs sm_tabs sm_world].
  pose proof Hh as ((Hd1 & Hd2 & Hd3) & Hx1 & Hx2 & Hx3).
  apply (wp_loop_variant (λ m k s', ∃ pre cur suf ts, m = length suf ∧
    scanning s (take (Z.to_nat seplen) sep) text s' k pre cur suf ts)) with (m := length text); [|done|].
  - intros m k s' (pre & cur & suf & ts & -> & Hsc).
    eapply wp_mono; [eapply wp_strntok_body; [exact Hsc|lia..]|].
    intros [k'|r] s''; [|apply HQ]. intros (pre' & cur' & suf' & ts' & Hlt & Hsc').
    eexists. split; [exact Hlt|]. by exists pre', cur', suf', ts'.
  - exists [], [], text, []. split; [done|]. constructor; simpl; try (done || lia).
    + constructor; try done; try apply NoDup_nil_2; [set_solver|].
      unfold heap_ok. simpl. rewrite Ho, dom_insert_L. split_and!; set_solver.
    + constructor; simpl; [done|..].
      * rewrite lookup_insert_eq. eexists. split; [done|]. done.
      * intros x Hx. by rewrite lookup_insert_ne.
      * eapply not_owned_fresh; [exact Hd3|done].
Qed.

End tok.
