(* ===== verification/Chain.v ===== *)
(** * Singly linked chains and sorted lists

    What the two skip lists and the plain list share: a chain of nodes given by
    its next-pointer function, cutting a sorted list at a key, and how the
    levels of a skip list (each a sublist of the one below) behave under
    insertion and removal. *)

From stdpp Require Import gmap numbers sorting list.
From S2P Require Import Prelude.

Local Open Scope Z_scope.

(** ** Chains *)

(** [path nx p xs q]: following [nx] from [p] visits [xs] and then [q]. *)
Fixpoint path (nx : Z → option Z) (p : Z) (xs : list Z) (q : Z) : Prop :=
  match xs with
  | [] => nx p = Some q
  | x :: xs' => nx p = Some x ∧ path nx x xs' q
  end.

(** The last node before a position, the successor at a position. *)
Definition cursor (p : Z) (A : list Z) : Z := default p (last A).
Definition follow (B : list Z) (q : Z) : Z := default q (head B).

Lemma cursor_cons p x A : cursor p (x :: A) = cursor x A.
Proof. unfold cursor. rewrite last_cons. by destruct (last A). Qed.

Lemma cursor_app p A B : cursor p (A ++ B) = cursor (cursor p A) B.
Proof. unfold cursor. rewrite last_app. by destruct (last B). Qed.

Lemma cursor_elem p A : cursor p A ∈ p :: A.
Proof.
  unfold cursor. destruct (last A) as [x|] eqn:Hl; simpl; [|set_solver].
  apply last_Some in Hl as [l' ->]. set_solver.
Qed.

Lemma cursor_eq p A : p ∉ A → cursor p A = p → A = [].
Proof. intros Hp Hc. destruct A as [|x A]; [done|]. exfalso. apply Hp. rewrite <-Hc, cursor_cons. apply cursor_elem. Qed.

Lemma path_ext nx nx' p xs q :
  (∀ x, x ∈ p :: xs → nx' x = nx x) → path nx p xs q → path nx' p xs q.
Proof.
  revert p. induction xs as [|x xs IH]; simpl; intros p Hx.
  - rewrite Hx; [done|set_solver].
  - intros [H1 H2]. rewrite Hx by set_solver. split; [done|]. apply IH; [set_solver|done].
Qed.

Lemma path_split nx p A y B q : path nx p (A ++ y :: B) q ↔ path nx p A y ∧ path nx y B q.
Proof. revert p. induction A as [|x A IH]; simpl; intros p; [done|]. rewrite IH. naive_solver. Qed.

(** The successor of the cursor is the first element after it. *)
Lemma path_next nx p A B q : path nx p (A ++ B) q → nx (cursor p A) = Some (follow B q).
Proof.
  revert p. induction A as [|x A IH]; simpl; intros p.
  - unfold cursor, follow. destruct B; simpl; [done|]. by intros [? _].
  - intros [_ H]. rewrite cursor_cons. by apply IH.
Qed.

Lemma path_from nx p x A B q : x ∈ p :: A → path nx p (A ++ B) q →
  ∃ A1 A2, p :: A = A1 ++ x :: A2 ∧ path nx x (A2 ++ B) q ∧ cursor x A2 = cursor p A.
Proof.
  intros Hx. revert p Hx. induction A as [|y A IH]; intros p [->|Hx]%elem_of_cons.
  - by exists [], [].
  - by apply not_elem_of_nil in Hx.
  - intros H. by exists [], (y :: A).
  - intros [_ H]. destruct (IH y Hx H) as (A1 & A2 & Heq & Hp & Hc).
    exists (p :: A1), A2. rewrite cursor_cons. split_and!; [by rewrite Heq|done..].
Qed.

Lemma path_suffix nx p x A B q : x ∈ p :: A → path nx p (A ++ B) q →
  ∃ A2, path nx x (A2 ++ B) q ∧ cursor x A2 = cursor p A ∧ A2 ⊆ A ∧ (length A2 ≤ length A)%nat.
Proof.
  intros Hx Hp. destruct (path_from _ _ _ _ _ _ Hx Hp) as (A1 & A2 & Heq & Hp2 & Hc). exists A2.
  split_and!; [done..| |].
  - destruct A1; simplify_list_eq; [done|set_solver].
  - apply (f_equal length) in Heq. rewrite length_app in Heq. simpl in Heq. lia.
Qed.

(** Linking [x] in after the cursor. *)
Lemma path_insert nx nx' p A x B q :
  path nx p (A ++ B) q → NoDup (p :: A ++ B) → x ∉ p :: A ++ B →
  nx' (cursor p A) = Some x → nx' x = Some (follow B q) →
  (∀ y, y ≠ cursor p A → y ≠ x → nx' y = nx y) → path nx' p (A ++ x :: B) q.
Proof.
  intros Hp Hnd Hx Hc Hnx Hf. revert p Hp Hnd Hx Hc Hf. induction A as [|y A IH]; intros p Hp Hnd Hx Hc Hf; simpl in *.
  - unfold cursor in *. simpl in *. split; [done|]. destruct B as [|b B]; [done|]. simpl in *. split; [done|].
    eapply path_ext; [|by apply Hp]. intros z Hz. apply Hf; [|set_solver].
    apply NoDup_cons in Hnd as [Hn _]. set_solver.
  - destruct Hp as [Hy Hp]. apply NoDup_cons in Hnd as [Hn Hnd]. split.
    + rewrite Hf; [done| |set_solver]. rewrite cursor_cons. pose proof (cursor_elem y A). set_solver.
    + rewrite cursor_cons in *. apply IH; try done. set_solver.
Qed.

(** Unlinking the node after the cursor. *)
Lemma path_remove nx nx' p A y B q :
  path nx p (A ++ y :: B) q → NoDup (p :: A ++ y :: B) →
  nx' (cursor p A) = Some (follow B q) → (∀ z, z ≠ cursor p A → nx' z = nx z) → path nx' p (A ++ B) q.
Proof.
  intros Hp Hnd Hc Hf. revert p Hp Hnd Hc Hf. induction A as [|a A IH]; intros p Hp Hnd Hc Hf; simpl in *.
  - unfold cursor in *. simpl in *. destruct B as [|b B]; [done|]. simpl in *. split; [done|].
    eapply path_ext; [|by apply Hp]. intros z Hz. apply Hf.
    apply NoDup_cons in Hnd as [Hn _]. set_solver.
  - destruct Hp as [Ha Hp]. apply NoDup_cons in Hnd as [Hn Hnd]. rewrite cursor_cons in *. split.
    + rewrite Hf; [done|]. pose proof (cursor_elem a A). set_solver.
    + by apply IH.
Qed.

(** ** Cutting a sorted list *)

Section sorted.
Context (R : relation Z).
Implicit Types (l : list Z).

(** A property of small keys cuts a sorted list in two. *)
Lemma sorted_cut (P : Z → Prop) `{!∀ x, Decision (P x)} l :
  StronglySorted R l → (∀ x y, R x y → P y → P x) → l = filter P l ++ filter (λ x, ¬ P x) l.
Proof.
  intros Hs HP. induction Hs as [|x l Hs IH Hx]; [done|]. destruct (decide (P x)) as [Hp|Hp].
  - rewrite filter_cons_True, filter_cons_False by naive_solver. simpl. by f_equal.
  - rewrite filter_cons_False, filter_cons_True by done.
    assert (filter P l = []) as Hn.
    { apply list_nil_subseteq. intros y [Hy Hin]%list_elem_of_filter.
      rewrite Forall_forall in Hx. destruct Hp. eauto. }
    rewrite Hn in *. simpl in *. by f_equal.
Qed.

Lemma sublist_filter_mono (P : Z → Prop) `{!∀ x, Decision (P x)} l1 l2 :
  l1 `sublist_of` l2 → filter P l1 `sublist_of` filter P l2.
Proof.
  induction 1 as [|x l1 l2 _ IH|x l1 l2 _ IH]; [done|..]; rewrite ?filter_cons; case_decide; try done;
    by constructor.
Qed.

Lemma sublist_sorted l1 l2 : l1 `sublist_of` l2 → StronglySorted R l2 → StronglySorted R l1.
Proof.
  induction 1 as [|x l1 l2 Hs IH|x l1 l2 Hs IH]; [done|..]; intros [Hl Hx]%StronglySorted_inv; [|by auto].
  constructor; [by auto|]. rewrite Forall_forall in *. intros y Hy. apply Hx.
  by eapply sublist_subseteq.
Qed.

Lemma sorted_app_intro l1 l2 :
  StronglySorted R l1 → StronglySorted R l2 → (∀ x y, x ∈ l1 → y ∈ l2 → R x y) →
  StronglySorted R (l1 ++ l2).
Proof.
  intros H1 H2 H12. induction H1 as [|x l1 H1 IH Hx]; [done|]. simpl. constructor.
  - apply IH. intros. apply H12; set_solver.
  - apply Forall_app. split; [done|]. apply Forall_forall. intros y Hy. apply H12; set_solver.
Qed.

End sorted.
