(* ===== verification/SkipList.v ===== *)
(** * The skip list (c_data_structure/skiplist/skiplist.h, skiplist.c)

    A circular list per level through the head node; [prev] links the bottom
    level backwards.  Nodes and list headers live in two memories; the client's
    objects are opaque addresses, their keys are what [get_key] returns ([K] is
    the type of what a key pointer points to; a NULL key pointer is [None]).
    One command per function of the C file. *)

From stdpp Require Import gmap numbers list.
From S2P Require Import Prelude CAlloc.

Local Open Scope Z_scope.

(** ** State *)

Record sknode := SkNode {
  sk_arr : Z;          (* address of the array [link] *)
  sk_link : list Z;    (* its contents *)
  sk_prev : Z;
  sk_level : Z;
  sk_obj : Z;
}.

#[global] Instance sknode_eq_dec : EqDecision sknode.
Proof. solve_decision. Defined.

Definition with_link (f : list Z → list Z) (n : sknode) : sknode :=
  SkNode (sk_arr n) (f (sk_link n)) (sk_prev n) (sk_level n) (sk_obj n).
Definition with_prev (p : Z) (n : sknode) : sknode :=
  SkNode (sk_arr n) (sk_link n) p (sk_level n) (sk_obj n).

(** The list header: the callbacks may be NULL. *)
Record sklist (K W : Type) := SkList {
  sl_head : Z;
  sl_max_level : Z;
  sl_level : Z;
  sl_size : Z;
  sl_cmp_key : option (K → K → Z);
  sl_get_key : option (Z → K);
  sl_destroy : option (Z → W → W);
}.

Arguments SkList {K W} _ _ _ _ _ _ _.
Arguments sl_head {K W} _.
Arguments sl_max_level {K W} _.
Arguments sl_level {K W} _.
Arguments sl_size {K W} _.
Arguments sl_cmp_key {K W} _.
Arguments sl_get_key {K W} _.
Arguments sl_destroy {K W} _.

Definition with_level {K W} (n : Z) (L : sklist K W) : sklist K W :=
  SkList (sl_head L) (sl_max_level L) n (sl_size L) (sl_cmp_key L) (sl_get_key L) (sl_destroy L).
Definition with_size {K W} (n : Z) (L : sklist K W) : sklist K W :=
  SkList (sl_head L) (sl_max_level L) (sl_level L) n (sl_cmp_key L) (sl_get_key L) (sl_destroy L).

Record skmem (K W : Type) := SkMem {
  sk_lists : gmap Z (sklist K W);
  sk_nodes : gmap Z sknode;
  sk_world : W;
}.

Arguments SkMem {K W} _ _ _.
Arguments sk_lists {K W} _.
Arguments sk_nodes {K W} _.
Arguments sk_world {K W} _.

#[global] Instance sk_nodes_lens K W : Lens (skmem K W) (gmap Z sknode).
Proof.
  by refine {| view := sk_nodes; update := λ x s, SkMem (sk_lists s) x (sk_world s) |};
    intros; destruct s.
Defined.

#[global] Instance sk_lists_lens K W : Lens (skmem K W) (gmap Z (sklist K W)).
Proof.
  by refine {| view := sk_lists; update := λ x s, SkMem x (sk_nodes s) (sk_world s) |};
    intros; destruct s.
Defined.

Section skiplist.
Context {K W : Type} `{!Alloc W, !Rand W}.
Implicit Types (s : skmem K W).
Abbreviation cmd := (cmd (skmem K W)).

Definition sk_call {A} (f : W → A * W) : cmd A :=
  λ s, let '(a, w) := f (sk_world s) in Done (a, SkMem (sk_lists s) (sk_nodes s) w).
Definition set_nodes (f : gmap Z sknode → gmap Z sknode) : cmd () :=
  λ s, Done ((), SkMem (sk_lists s) (f (sk_nodes s)) (sk_world s)).
Definition set_lists (f : gmap Z (sklist K W) → gmap Z (sklist K W)) : cmd () :=
  λ s, Done ((), SkMem (f (sk_lists s)) (sk_nodes s) (sk_world s)).

Definition get_list (p : Z) : cmd (sklist K W) := zoom (load p).
Definition mod_list (p : Z) (f : sklist K W → sklist K W) : cmd () := zoom (modify p f).
Definition get_node (p : Z) : cmd sknode := zoom (load p).
Definition mod_node (p : Z) (f : sknode → sknode) : cmd () := zoom (modify p f).

(** [p->link[i]], read and written; outside the array is a fault. *)
Definition get_link (p : Z) (i : nat) : cmd Z :=
  n ← get_node p; of_option (sk_link n !! i).
Definition set_link (p : Z) (i : nat) (v : Z) : cmd () :=
  n ← get_node p;
  if decide (i < length (sk_link n))%nat then mod_node p (with_link (<[i:=v]>)) else fault.

(** ** Nodes *)

Definition sizeof_sknode : Z := 32.
Definition sizeof_sklist : Z := 48.

Definition new_node (obj n : Z) : cmd Z :=
  node ← sk_call (alloc sizeof_sknode);
  if bool_decide (node = NULL) then mret NULL else
  set_nodes (<[node := SkNode 0 [] 0 0 0]>);;
  link ← sk_call (alloc (8 * n));
  if bool_decide (link = NULL) then
    set_nodes (delete node);; sk_call (λ w, ((), dealloc node w));; mret NULL
  else
  set_nodes (<[node := SkNode link (replicate (Z.to_nat n) NULL) 0 n obj]>);;
  mret node.

Definition destroy_node (sk node : Z) : cmd () :=
  if bool_decide (node = NULL) then mret () else
  L ← get_list sk;
  n ← get_node node;
  (match sl_destroy L with
   | Some destroy =>
       if bool_decide (sk_obj n = NULL) then mret () else sk_call (λ w, ((), destroy (sk_obj n) w))
   | None => mret ()
   end);;
  sk_call (λ w, ((), dealloc (sk_arr n) w));;
  set_nodes (delete node);;
  sk_call (λ w, ((), dealloc node w)).

(** ** Walking *)

(** The inner loop: along level [i] until the head comes round or [stop] holds
    of the next object's key. *)
Definition advance (fuel : nat) (head : Z) (i : nat) (stop : Z → bool) (node : Z) : cmd Z :=
  loop fuel (λ node,
    nx ← get_link node i;
    if bool_decide (nx = head) then mret (inr node) else
    n ← get_node nx;
    if stop (sk_obj n) then mret (inr node) else mret (inl nx)) node.

(** [while (i--)] counts down from a level that is not negative. *)
Definition countdown (level : Z) : cmd nat := if bool_decide (0 <= level) then mret (Z.to_nat level) else fault.

(** ** Search *)

(** The object found and the value of [*pos]. *)
Fixpoint search_levels (fuel : nat) (head : Z) (cmp : K → K → Z) (get_key : Z → K) (key : K)
    (i : nat) (node : Z) : cmd (Z * Z) :=
  match i with
  | O => mret (NULL, node)
  | S i =>
      node ← advance fuel head i (λ obj, bool_decide (cmp key (get_key obj) <= 0)) node;
      nx ← get_link node i;
      if bool_decide (nx = head) then search_levels fuel head cmp get_key key i node else
      n ← get_node nx;
      if bool_decide (cmp key (get_key (sk_obj n)) = 0) then mret (sk_obj n, nx)
      else search_levels fuel head cmp get_key key i node
  end.

Definition search_node (fuel : nat) (sk : Z) (key : option K) : cmd (Z * Z) :=
  if bool_decide (sk = NULL) then mret (NULL, NULL) else
  L ← get_list sk;
  match key, sl_get_key L, sl_cmp_key L with
  | Some key, Some get_key, Some cmp =>
      if bool_decide (sl_head L = NULL) then mret (NULL, NULL) else
      i ← countdown (sl_level L);
      search_levels fuel (sl_head L) cmp get_key key i (sl_head L)
  | _, _, _ => mret (NULL, NULL)
  end.

Definition sklist_search (fuel : nat) (sk : Z) (key : option K) : cmd Z :=
  '(obj, _) ← search_node fuel sk key; mret obj.

Definition sklist_search_ext (fuel : nat) (sk : Z) (key : option K) : cmd (Z * Z) :=
  search_node fuel sk key.

(** ** Insertion *)

Definition rand_level (sk : Z) : cmd Z :=
  t ← sk_call rand;
  L ← get_list sk;
  i ← loop (S (Z.to_nat (sl_max_level L))) (λ '(i, j),
        if bool_decide (i < sl_max_level L) then
          if bool_decide (RAND_MAX / j < t) then mret (inr i)
          else j' ← s32_value (j + j); mret (inl (i + 1, j'))
        else mret (inr i)) (1, 2);
  (if bool_decide (sl_level L < i) then mod_list sk (with_level i) else mret ());;
  mret i.

Fixpoint insert_levels (fuel : nat) (head : Z) (cmp : K → K → Z) (get_key : Z → K) (obj new : Z)
    (i : nat) (node : Z) : cmd () :=
  match i with
  | O => mret ()
  | S i =>
      node ← advance fuel head i (λ o, bool_decide (cmp (get_key obj) (get_key o) < 0)) node;
      n ← get_node new;
      (if bool_decide (Z.of_nat i < sk_level n) then
         nx ← get_link node i;
         set_link new i nx;;
         set_link node i new;;
         (if bool_decide (i = O) then
            mod_node new (with_prev node);;
            nx ← get_link new i;
            mod_node nx (with_prev new)
          else mret ())
       else mret ());;
      insert_levels fuel head cmp get_key obj new i node
  end.

Definition sklist_insert (fuel : nat) (sk : Z) (obj : Z) : cmd Z :=
  if bool_decide (sk = NULL) then mret (-1) else
  L ← get_list sk;
  if bool_decide (sl_head L = NULL) || bool_decide (obj = NULL) then mret (-1) else
  match sl_get_key L, sl_cmp_key L with
  | Some get_key, Some cmp =>
      lv ← rand_level sk;
      new ← new_node obj lv;
      if bool_decide (new = NULL) then mret (-1) else
      L ← get_list sk;
      i ← countdown (sl_level L);
      insert_levels fuel (sl_head L) cmp get_key obj new i (sl_head L);;
      L ← get_list sk;
      size ← s32_value (sl_size L + 1);
      mod_list sk (with_size size);;
      mret 0
  | _, _ => mret (-1)
  end.

(** ** Deletion *)

(** The first match of level [i], if there is one, is unlinked from it. *)
Definition delete_level (sk head : Z) (cmp : K → K → Z) (get_key : Z → K) (key : K) (i : nat) (node : Z) :
    cmd () :=
  nx ← get_link node i;
  if bool_decide (nx = head) then mret () else
  n ← get_node nx;
  if bool_decide (cmp key (get_key (sk_obj n)) = 0) then
    nx2 ← get_link nx i;
    set_link node i nx2;;
    (if bool_decide (node = nx2) then mod_list sk (λ L, with_level (sl_level L - 1) L) else mret ());;
    (if bool_decide (i = O) then
       nx2 ← get_link nx i;
       mod_node nx2 (with_prev node);;
       destroy_node sk nx;;
       mod_list sk (λ L, with_size (sl_size L - 1) L)
     else mret ())
  else mret ().

Fixpoint delete_levels (fuel : nat) (sk head : Z) (cmp : K → K → Z) (get_key : Z → K) (key : K)
    (i : nat) (node : Z) : cmd () :=
  match i with
  | O => mret ()
  | S i =>
      node ← advance fuel head i (λ o, bool_decide (cmp key (get_key o) <= 0)) node;
      delete_level sk head cmp get_key key i node;;
      delete_levels fuel sk head cmp get_key key i node
  end.

Definition sklist_delete (fuel : nat) (sk : Z) (key : option K) : cmd Z :=
  if bool_decide (sk = NULL) then mret (-1) else
  L ← get_list sk;
  match key, sl_get_key L, sl_cmp_key L with
  | Some key, Some get_key, Some cmp =>
      if bool_decide (sl_head L = NULL) then mret (-1) else
      i ← countdown (sl_level L);
      delete_levels fuel sk (sl_head L) cmp get_key key i (sl_head L);;
      mret 0
  | _, _, _ => mret (-1)
  end.

(** ** Creation and destruction *)

(** [for (i = ...; i < max_level; i++) head->link[i] = head], [n] rounds left. *)
Fixpoint link_head (head : Z) (i n : nat) : cmd () :=
  match n with
  | O => mret ()
  | S n => set_link head i head;; link_head head (S i) n
  end.

Definition sklist_init (max_level : Z) : cmd Z :=
  if bool_decide (max_level <= 0) then mret NULL else
  sk ← sk_call (alloc sizeof_sklist);
  if bool_decide (sk = NULL) then mret NULL else
  set_lists (<[sk := SkList 0 0 0 0 None None None]>);;
  head ← new_node NULL max_level;
  if bool_decide (head = NULL) then
    set_lists (delete sk);; sk_call (λ w, ((), dealloc sk w));; mret NULL
  else
  mod_list sk (λ _, SkList head max_level 0 0 None None None);;
  link_head head 0 (Z.to_nat max_level);;
  mod_node head (with_prev head);;
  mret sk.

(** The key of each node is taken and the first node with that key deleted. *)
Definition sklist_free (fuel : nat) (sk : Z) : cmd () :=
  if bool_decide (sk = NULL) then mret () else
  L ← get_list sk;
  node ← get_link (sl_head L) 0;
  loop fuel (λ node,
    if bool_decide (node = sl_head L) then mret (inr ()) else
    next ← get_link node 0;
    n ← get_node node;
    match sl_get_key L with
    | None => fault
    | Some get_key => sklist_delete fuel sk (Some (get_key (sk_obj n)));; mret (inl next)
    end) node;;
  destroy_node sk (sl_head L);;
  set_lists (delete sk);;
  sk_call (λ w, ((), dealloc sk w)).

(** ** Traversal *)

(** The nodes [sklist_foreach] and [sklist_foreach_reverse] bind, with their
    objects, in order. *)
Definition sklist_foreach (fuel : nat) (sk : Z) : cmd (list (Z * Z)) :=
  L ← get_list sk;
  node ← get_link (sl_head L) 0;
  loop fuel (λ '(node, acc),
    n ← get_node node;
    if bool_decide (node = sl_head L) then mret (inr acc) else
    next ← get_link node 0;
    mret (inl (next, acc ++ [(node, sk_obj n)]))) (node, []).

Definition sklist_foreach_reverse (fuel : nat) (sk : Z) : cmd (list (Z * Z)) :=
  L ← get_list sk;
  h ← get_node (sl_head L);
  loop fuel (λ '(node, acc),
    n ← get_node node;
    if bool_decide (node = sl_head L) then mret (inr acc) else
    mret (inl (sk_prev n, acc ++ [(node, sk_obj n)]))) (sk_prev h, []).

End skiplist.
