(* ===== verification/SkipRep.v ===== *)
(** * The skip list's representation and its walks

    [chains]: what the links of each level spell; the rules for reading and
    writing a link; the inner loop stops at the cut of a sorted level. *)

From stdpp Require Import gmap numbers sorting list.
From S2P Require Import Prelude CAlloc Chain SkipList.

Local Open Scope Z_scope.

Implicit Types (h : gmap Z sknode).

(** ** Reading the links *)

Definition nxt h (i : nat) (p : Z) : option Z := n ← h !! p; sk_link n !! i.
Definition prv h (p : Z) : option Z := sk_prev <$> h !! p.

(** Everything about a node but its links. *)
Definition info (n : sknode) : Z * Z * Z * nat := (sk_arr n, sk_level n, sk_obj n, length (sk_link n)).
Definition same_info h h' : Prop := ∀ x, info <$> h' !! x = info <$> h !! x.

Lemma same_info_refl h : same_info h h.
Proof. by intros x. Qed.

Lemma same_info_trans h1 h2 h3 : same_info h1 h2 → same_info h2 h3 → same_info h1 h3.
Proof. intros H1 H2 x. by rewrite H2, H1. Qed.

Lemma same_info_lookup h h' x n : same_info h h' → h !! x = Some n → ∃ n', h' !! x = Some n' ∧ info n' = info n.
Proof.
  intros Hs Hx. specialize (Hs x). rewrite Hx in Hs. simpl in Hs.
  apply fmap_Some in Hs as (n' & Hn & Heq). eauto.
Qed.

Lemma same_info_dom h h' : same_info h h' → dom h' = dom h.
Proof.
  intros Hs. apply set_eq. intros x. by rewrite !elem_of_dom, <-(fmap_is_Some info), Hs, fmap_is_Some.
Qed.

Lemma same_info_insert h p n n' : h !! p = Some n → info n' = info n → same_info h (<[p:=n']> h).
Proof.
  intros Hp Hi x. destruct (decide (x = p)) as [->|Hx].
  - rewrite lookup_insert_eq, Hp. simpl. by rewrite Hi.
  - by rewrite lookup_insert_ne.
Qed.

Lemma info_link i v n : info (with_link (<[i:=v]>) n) = info n.
Proof. unfold info. simpl. by rewrite length_insert. Qed.

Lemma nxt_link h p n i v j q :
  h !! p = Some n → (i < length (sk_link n))%nat →
  nxt (<[p:=with_link (<[i:=v]>) n]> h) j q = if decide (q = p ∧ j = i) then Some v else nxt h j q.
Proof.
  intros Hp Hi. unfold nxt. destruct (decide (q = p)) as [->|Hq].
  - rewrite lookup_insert_eq, Hp. simpl. destruct (decide (j = i)) as [->|Hj].
    + rewrite decide_True by done. by rewrite list_lookup_insert_eq.
    + rewrite decide_False by naive_solver. by rewrite list_lookup_insert_ne.
  - rewrite lookup_insert_ne by done. by rewrite decide_False by naive_solver.
Qed.

Lemma nxt_prev h p n v j q : h !! p = Some n → nxt (<[p:=with_prev v n]> h) j q = nxt h j q.
Proof.
  intros Hp. unfold nxt. destruct (decide (q = p)) as [->|Hq].
  - by rewrite lookup_insert_eq, Hp.
  - by rewrite lookup_insert_ne.
Qed.

Lemma prv_link h p n f q : h !! p = Some n → prv (<[p:=with_link f n]> h) q = prv h q.
Proof.
  intros Hp. unfold prv. destruct (decide (q = p)) as [->|Hq].
  - by rewrite lookup_insert_eq, Hp.
  - by rewrite lookup_insert_ne.
Qed.

Lemma prv_prev h p n v q :
  prv (<[p:=with_prev v n]> h) q = if decide (q = p) then Some v else prv h q.
Proof.
  unfold prv. case_decide as Hq.
  - subst q. by rewrite lookup_insert_eq.
  - by rewrite lookup_insert_ne.
Qed.

Lemma nxt_some h i p q : nxt h i p = Some q → ∃ n, h !! p = Some n ∧ sk_link n !! i = Some q ∧ (i < length (sk_link n))%nat.
Proof.
  unfold nxt. intros (n & Hp & Hi)%bind_Some. exists n. split_and!; [done..|]. by eapply lookup_lt_Some.
Qed.

Section rules.
Context {K W : Type} `{!Alloc W, !Rand W}.
Implicit Types (s : skmem K W).

Definition with_nodes h s : skmem K W := SkMem (sk_lists s) h (sk_world s).

Lemma wp_get_link p i q Q s : nxt (sk_nodes s) i p = Some q → Q q s → wp (get_link p i) Q s.
Proof.
  intros (n & Hn & Hi & _)%nxt_some HQ. apply wp_bind, wp_zoom. eapply wp_load; [done|].
  rewrite update_view. by eapply wp_of_option.
Qed.

Lemma wp_get_node p n Q s : sk_nodes s !! p = Some n → Q n s → wp (get_node p) Q s.
Proof. intros Hn HQ. apply wp_zoom. eapply wp_load; [done|]. by rewrite update_view. Qed.

Lemma wp_get_list p L Q s : sk_lists s !! p = Some L → Q L s → wp (get_list p) Q s.
Proof. intros Hn HQ. apply wp_zoom. eapply wp_load; [done|]. by rewrite update_view. Qed.

Lemma wp_mod_node p f n Q s :
  sk_nodes s !! p = Some n → Q () (with_nodes (<[p:=f n]> (sk_nodes s)) s) → wp (mod_node p f) Q s.
Proof. intros Hn HQ. apply wp_zoom. by eapply wp_modify. Qed.

Lemma wp_mod_list p f L Q s :
  sk_lists s !! p = Some L → Q () (SkMem (<[p:=f L]> (sk_lists s)) (sk_nodes s) (sk_world s)) →
  wp (mod_list p f) Q s.
Proof. intros Hn HQ. apply wp_zoom. by eapply wp_modify. Qed.

Lemma wp_set_link p i v n Q s :
  sk_nodes s !! p = Some n → (i < length (sk_link n))%nat →
  Q () (with_nodes (<[p:=with_link (<[i:=v]>) n]> (sk_nodes s)) s) → wp (set_link p i v) Q s.
Proof.
  intros Hn Hi HQ. apply wp_bind. eapply wp_get_node; [done|]. rewrite decide_True by done.
  by eapply wp_mod_node.
Qed.

Lemma wp_sk_call {A} (f : W → A * W) a w Q s :
  f (sk_world s) = (a, w) → Q a (SkMem (sk_lists s) (sk_nodes s) w) → wp (sk_call f) Q s.
Proof. intros Hf HQ. eapply wp_done; [|exact HQ]. unfold sk_call. by rewrite Hf. Qed.

Lemma wp_set_nodes f Q s : Q () (with_nodes (f (sk_nodes s)) s) → wp (set_nodes f) Q s.
Proof. intros HQ. by eapply wp_done. Qed.

Lemma wp_set_lists f Q s : Q () (SkMem (f (sk_lists s)) (sk_nodes s) (sk_world s)) → wp (set_lists f) Q s.
Proof. intros HQ. by eapply wp_done. Qed.

Lemma wp_countdown n Q s : 0 ≤ n → Q (Z.to_nat n) s → wp (countdown n) Q s.
Proof. intros Hn HQ. unfold countdown. rewrite bool_decide_true by done. by apply wp_ret. Qed.

(** ** The inner loop *)

(** The objects of the nodes in [xs]. *)
Definition objs_at h (ob : Z → Z) (xs : list Z) : Prop :=
  ∀ x, x ∈ xs → ∃ n, h !! x = Some n ∧ sk_obj n = ob x.

Lemma objs_at_same h h' ob xs : same_info h h' → objs_at h ob xs → objs_at h' ob xs.
Proof.
  intros Hs Ho x Hx. destruct (Ho x Hx) as (n & Hn & Hob).
  destruct (same_info_lookup _ _ _ _ Hs Hn) as (n' & Hn' & Hi). exists n'. split; [done|].
  unfold info in Hi. congruence.
Qed.

Lemma wp_advance fuel head i stop A B ob node Q s :
  path (nxt (sk_nodes s) i) head (A ++ B) head → head ∉ A ++ B → objs_at (sk_nodes s) ob (A ++ B) →
  node ∈ head :: A → (∀ x, x ∈ A → stop (ob x) = false) →
  (∀ x, List.head B = Some x → stop (ob x) = true) →
  (length A < fuel)%nat → Q (cursor head A) s →
  wp (advance fuel head i stop node) Q s.
Proof.
  intros Hp Hh Ho Hn HA HB Hfuel HQ.
  destruct (path_from _ _ _ _ _ _ Hn Hp) as (A1 & A2 & Heq & Hp2 & Hc).
  assert (A2 ⊆ A) as HA2.
  { destruct A1 as [|a A1]; simplify_list_eq; [done|]. set_solver. }
  apply (wp_loop_variant (λ m node s', s' = s ∧ ∃ A', m = length A' ∧ path (nxt (sk_nodes s) i) node (A' ++ B) head ∧
    cursor node A' = cursor head A ∧ A' ⊆ A)) with (m := length A2).
  - clear A2 HA2 Hp2 Hc Heq Hn node. intros m node s' (-> & A2 & -> & Hp2 & Hc & HA2).
    destruct A2 as [|x A2].
    + unfold cursor in Hc at 1. simpl in Hc. subst node. apply wp_bind. eapply wp_get_link; [by eapply (path_next _ _ A B)|].
      destruct B as [|b B]; cbn -[bool_decide].
      * rewrite bool_decide_true by done. by apply wp_ret.
      * rewrite bool_decide_false by set_solver. apply wp_bind.
        destruct (Ho b) as (n & Hb & Hob); [set_solver|]. eapply wp_get_node; [done|].
        rewrite Hob, (HB b) by done. by apply wp_ret.
    + simpl in Hp2. destruct Hp2 as [Hx Hp2]. apply wp_bind. eapply wp_get_link; [done|].
      assert (x ∈ A) as HxA by set_solver. rewrite bool_decide_false by set_solver. apply wp_bind.
      destruct (Ho x) as (n & Hn & Hob); [set_solver|]. eapply wp_get_node; [done|].
      rewrite Hob, HA by done. apply wp_ret. exists (length A2). split; [simpl; lia|].
      split; [done|]. exists A2. rewrite cursor_cons in Hc. split_and!; [done..|set_solver].
  - assert (length (head :: A) = length (A1 ++ node :: A2)) as Hl by (by rewrite Heq).
    rewrite length_app in Hl. simpl in Hl. lia.
  - split; [done|]. by exists A2.
Qed.

End rules.
