(* ===== verification/SkipSpec.v ===== *)
(** * The skip list's invariant, and search

    [skrep]: every level is a circular chain of nodes, sorted by key, and a
    sublist of the level below; the bottom level is linked backwards too. *)

From stdpp Require Import gmap numbers sorting list.
From S2P Require Import Prelude CAlloc Chain SkipList SkipRep.

Local Open Scope Z_scope.

(** What the list relies on of the client's comparison: a total preorder,
    reported by sign. *)
Class KeyOrder {K : Type} (cmp : K → K → Z) : Prop := {
  cmp_refl : ∀ a, cmp a a = 0;
  cmp_opp : ∀ a b, Z.sgn (cmp b a) = - Z.sgn (cmp a b);
  cmp_le_trans : ∀ a b c, cmp a b ≤ 0 → cmp b c ≤ 0 → cmp a c ≤ 0;
}.

Lemma cmp_flip {K} (cmp : K → K → Z) `{!KeyOrder cmp} a b : cmp a b ≤ 0 ↔ 0 ≤ cmp b a.
Proof. pose proof (cmp_opp a b). destruct (cmp a b), (cmp b a); simpl in *; lia. Qed.

Section keys.
Context {K : Type} (cmp : K → K → Z) `{!KeyOrder cmp} (get_key : Z → K) (ob : Z → Z).
Implicit Types (l : list Z) (k : K) (ls : nat → list Z).

(** The key of the object at a node. *)
Definition kof (x : Z) : K := get_key (ob x).
Definition key_le (x y : Z) : Prop := cmp (kof x) (kof y) ≤ 0.

#[global] Instance key_le_preorder : PreOrder key_le.
Proof.
  split; [intros x; unfold key_le; by rewrite cmp_refl|].
  intros x y z. apply cmp_le_trans.
Qed.

(** The two cuts of a level, and its matches. *)
Definition below k l : list Z := filter (λ x, 0 < cmp k (kof x)) l.
Definition from k l : list Z := filter (λ x, ¬ 0 < cmp k (kof x)) l.
Definition upto k l : list Z := filter (λ x, 0 ≤ cmp k (kof x)) l.
Definition above k l : list Z := filter (λ x, ¬ 0 ≤ cmp k (kof x)) l.
Definition matching k l : list Z := filter (λ x, cmp k (kof x) = 0) l.

Lemma cut_below k l : StronglySorted key_le l → l = below k l ++ from k l.
Proof.
  intros Hl. apply (sorted_cut key_le); [done|]. unfold key_le. intros x y Hxy Hy.
  destruct (decide (cmp k (kof x) ≤ 0)) as [Hk|]; [|lia].
  pose proof (cmp_le_trans _ _ _ Hk Hxy). lia.
Qed.

Lemma cut_upto k l : StronglySorted key_le l → l = upto k l ++ above k l.
Proof.
  intros Hl. apply (sorted_cut key_le); [done|]. unfold key_le. intros x y Hxy Hy.
  apply (cmp_flip cmp) in Hy. apply (cmp_flip cmp). by eapply cmp_le_trans.
Qed.

(** The first match of a sorted level is the first element from the key on. *)
Lemma first_match k l :
  StronglySorted key_le l →
  head (matching k l) = match from k l with
                        | x :: _ => if decide (cmp k (kof x) = 0) then Some x else None
                        | [] => None
                        end.
Proof.
  intros Hl. rewrite (cut_below k l Hl) at 1. unfold matching. rewrite filter_app.
  assert (filter (λ x, cmp k (kof x) = 0) (below k l) = []) as Hb.
  { apply list_nil_subseteq. intros x [Hx [Hx' _]%list_elem_of_filter]%list_elem_of_filter. lia. }
  rewrite Hb. simpl. destruct (from k l) as [|x r] eqn:Hf; [done|]. rewrite filter_cons.
  case_decide as Hx; [done|].
  assert (filter (λ x, cmp k (kof x) = 0) r = []) as Hr; [|by rewrite Hr].
  assert (StronglySorted key_le (x :: r)) as [_ Hxr]%StronglySorted_inv.
  { rewrite <-Hf. eapply sublist_sorted; [|exact Hl]. apply sublist_filter. }
  assert (¬ 0 < cmp k (kof x)) as Hk.
  { assert (x ∈ from k l) as [? _]%list_elem_of_filter; [|done]. rewrite Hf. set_solver. }
  apply list_nil_subseteq. intros y [Hy Hin]%list_elem_of_filter.
  rewrite Forall_forall in Hxr. pose proof (Hxr y Hin) as Hxy. unfold key_le in Hxy.
  assert (cmp (kof y) k ≤ 0) as Hyk by (apply (cmp_flip cmp); lia).
  pose proof (cmp_le_trans _ _ _ Hxy Hyk) as Hxk. apply (cmp_flip cmp) in Hxk. lia.
Qed.

(** ** Insertion and removal in one level *)

Definition ins (x : Z) l : list Z := upto (kof x) l ++ x :: above (kof x) l.

Definition del k l : list Z :=
  below k l ++ match from k l with
               | x :: r => if decide (cmp k (kof x) = 0) then r else x :: r
               | [] => []
               end.

Lemma ins_perm x l : StronglySorted key_le l → ins x l ≡ₚ x :: l.
Proof. intros Hl. unfold ins. rewrite <-Permutation_middle. by rewrite <-cut_upto. Qed.

Lemma ins_sorted x l : StronglySorted key_le l → StronglySorted key_le (ins x l).
Proof.
  intros Hl.
  assert (∀ l', l' `sublist_of` l → StronglySorted key_le l') as Hsub by (intros; by eapply sublist_sorted).
  assert (∀ y, y ∈ upto (kof x) l → key_le y x) as Hlow.
  { intros y [Hy _]%list_elem_of_filter. unfold key_le. by apply (cmp_flip cmp). }
  assert (∀ y, y ∈ above (kof x) l → key_le x y) as Hhigh.
  { intros y [Hy _]%list_elem_of_filter. unfold key_le. lia. }
  apply sorted_app_intro; [apply Hsub, sublist_filter|..].
  - constructor; [apply Hsub, sublist_filter|]. apply Forall_forall. auto.
  - intros y z Hy [->|Hz]%elem_of_cons; [by apply Hlow|]. transitivity x; [by apply Hlow|by apply Hhigh].
Qed.

Lemma ins_sub x l1 l2 : l1 `sublist_of` l2 → ins x l1 `sublist_of` ins x l2.
Proof.
  intros Hs. apply sublist_app; [|apply sublist_skip]; by apply sublist_filter_mono.
Qed.

Lemma ins_sub_l x l1 l2 : StronglySorted key_le l1 → l1 `sublist_of` l2 → l1 `sublist_of` ins x l2.
Proof.
  intros Hl Hs. etrans; [|apply ins_sub, Hs]. rewrite (cut_upto (kof x) l1 Hl) at 1.
  apply sublist_app; [done|]. by apply sublist_cons.
Qed.

(** Removal takes out the first match, or nothing. *)
Lemma del_cases k l :
  StronglySorted key_le l →
  (matching k l = [] ∧ del k l = l) ∨
  (∃ x r, from k l = x :: r ∧ cmp k (kof x) = 0 ∧ l = below k l ++ x :: r ∧ del k l = below k l ++ r).
Proof.
  intros Hl. pose proof (first_match k l Hl) as Hm. pose proof (cut_below k l Hl) as Hc. unfold del.
  destruct (from k l) as [|x r].
  - left. rewrite <-Hc. by destruct (matching k l).
  - destruct (decide (cmp k (kof x) = 0)).
    + right. by exists x, r.
    + left. rewrite <-Hc. by destruct (matching k l).
Qed.

Lemma del_sublist k l : StronglySorted key_le l → del k l `sublist_of` l.
Proof.
  intros Hl. destruct (del_cases k l Hl) as [[_ ->]|(x & r & _ & _ & Hx & ->)]; [done|].
  rewrite Hx at 2. apply sublist_app; [done|]. by apply sublist_cons.
Qed.

Lemma del_sub k l1 l2 :
  StronglySorted key_le l2 → l1 `sublist_of` l2 → del k l1 `sublist_of` del k l2.
Proof.
  intros Hl2 Hs. assert (StronglySorted key_le l1) as Hl1 by by eapply sublist_sorted.
  assert (from k l1 `sublist_of` from k l2) as Hf by by apply sublist_filter_mono.
  pose proof (first_match k l1 Hl1) as Hm1. pose proof (first_match k l2 Hl2) as Hm2.
  unfold del. apply sublist_app; [by apply sublist_filter_mono|].
  assert (matching k l1 `sublist_of` matching k l2) as Hm by by apply sublist_filter_mono.
  destruct (from k l2) as [|y r2]; [apply sublist_nil_r in Hf; by rewrite Hf|].
  destruct (from k l1) as [|x r1]; [apply sublist_nil_l|].
  destruct (decide (cmp k (kof x) = 0)) as [Hx|Hx].
  - rewrite decide_True.
    + apply sublist_cons_r in Hf as [Hf|(? & [= -> ->] & Hf)]; [|done].
      etrans; [|exact Hf]. by apply sublist_cons.
    + destruct (decide (cmp k (kof y) = 0)); [done|]. destruct (matching k l2); [|done].
      apply sublist_nil_r in Hm. by rewrite Hm in Hm1.
  - destruct (decide (cmp k (kof y) = 0)); [|done].
    apply sublist_cons_r in Hf as [Hf|(? & [= -> ->] & Hf)]; [done|]. done.
Qed.

(** ** All levels *)

Definition levels_ok ls : Prop := ∀ i, ls (S i) `sublist_of` ls i.

Lemma levels_le ls i j : levels_ok ls → (i ≤ j)%nat → ls j `sublist_of` ls i.
Proof. intros Hls Hij. induction Hij as [|j _ IH]; [done|]. etrans; [apply Hls|done]. Qed.

(** The first match of the highest of the levels below [i] that has one. *)
Fixpoint top_match (ls : nat → list Z) k (i : nat) : option Z :=
  match i with
  | O => None
  | S i => match head (matching k (ls i)) with Some x => Some x | None => top_match ls k i end
  end.

Lemma top_match_some ls k i x : levels_ok ls → top_match ls k i = Some x → x ∈ ls 0%nat ∧ cmp k (kof x) = 0.
Proof.
  intros Hls. induction i as [|i IH]; simpl; [done|].
  destruct (head (matching k (ls i))) as [y|] eqn:Hy; [|done]. intros [= ->].
  assert (x ∈ matching k (ls i)) as [Hx Hin]%list_elem_of_filter.
  { destruct (matching k (ls i)); simplify_eq/=. set_solver. }
  split; [|done]. eapply sublist_subseteq; [apply levels_le; [done|lia]|done].
Qed.

(** Nothing is found only when there is nothing to find. *)
Lemma top_match_none ls k i :
  top_match ls k i = None → (0 < i)%nat → ∀ x, x ∈ ls 0%nat → cmp k (kof x) ≠ 0.
Proof.
  intros Hn Hi x Hx Hk. induction i as [|i IH]; [lia|]. simpl in Hn.
  destruct (head (matching k (ls i))) as [y|] eqn:Hy; [done|]. destruct i as [|i]; [|apply IH; [done|lia]].
  assert (x ∈ matching k (ls 0%nat)) as Hm by (by apply list_elem_of_filter).
  destruct (matching k (ls 0%nat)); [set_solver|done].
Qed.

(** ** The representation *)

Record skrep (h : gmap Z sknode) (hd : Z) (ml : nat) ls : Prop := {
  sr_head : hd ≠ NULL;
  sr_paths : ∀ i, (i < ml)%nat → path (nxt h i) hd (ls i) hd;
  sr_high : ∀ i, (ml ≤ i)%nat → ls i = [];
  sr_levels : levels_ok ls;
  sr_nodup : NoDup (hd :: ls 0%nat);
  sr_prev : path (prv h) hd (reverse (ls 0%nat)) hd;
  sr_sorted : StronglySorted key_le (ls 0%nat);
  sr_objs : objs_at h ob (ls 0%nat);
  sr_nonnull : ∀ x, x ∈ ls 0%nat → ob x ≠ NULL ∧ x ≠ NULL;
}.

Section levels.
Context (h : gmap Z sknode) (hd : Z) (ml : nat) (ls : nat → list Z) (R : skrep h hd ml ls).

Lemma level_sub i : ls i `sublist_of` ls 0%nat.
Proof using R. apply levels_le; [apply R|lia]. Qed.

Lemma level_sorted i : StronglySorted key_le (ls i).
Proof using R. eapply sublist_sorted; [apply level_sub|apply R]. Qed.

Lemma level_nodup i : NoDup (hd :: ls i).
Proof using R. eapply sublist_NoDup; [apply R|apply sublist_skip, level_sub]. Qed.

Lemma level_objs i : objs_at h ob (ls i).
Proof using R. intros x Hx. apply R. eapply sublist_subseteq; [apply level_sub|done]. Qed.

Lemma level_length i : (length (ls i) ≤ length (ls 0%nat))%nat.
Proof using R. apply sublist_length, level_sub. Qed.

Lemma below_down k i j x : (i ≤ j)%nat → x ∈ hd :: below k (ls j) → x ∈ hd :: below k (ls i).
Proof using R.
  intros Hij. rewrite !elem_of_cons. intros [->|Hx]; [by left|right].
  eapply sublist_subseteq; [apply sublist_filter_mono|exact Hx]. apply levels_le; [apply R|done].
Qed.

Lemma upto_down k i j x : (i ≤ j)%nat → x ∈ hd :: upto k (ls j) → x ∈ hd :: upto k (ls i).
Proof using R.
  intros Hij. rewrite !elem_of_cons. intros [->|Hx]; [by left|right].
  eapply sublist_subseteq; [apply sublist_filter_mono|exact Hx]. apply levels_le; [apply R|done].
Qed.

End levels.

(** ** Search *)

Section search.
Context {W : Type} `{!Alloc W, !Rand W}.
Implicit Types (s : skmem K W).

(** Search and deletion stop at the first key that is not smaller. *)
Lemma wp_advance_below fuel k hd l i node Q s :
  StronglySorted key_le l → path (nxt (sk_nodes s) i) hd l hd → hd ∉ l → objs_at (sk_nodes s) ob l →
  node ∈ hd :: below k l → (length l < fuel)%nat → Q (cursor hd (below k l)) s →
  wp (advance fuel hd i (λ obj, bool_decide (cmp k (get_key obj) <= 0)) node) Q s.
Proof.
  intros Hs Hp Hhd Ho Hn Hfuel HQ. pose proof (cut_below k l Hs) as Hcut. rewrite Hcut in Hp, Ho, Hhd.
  eapply wp_advance; [exact Hp|exact Hhd|exact Ho|done|..]; [| | |done].
  - intros x [Hx _]%list_elem_of_filter. apply bool_decide_false. unfold kof in Hx. lia.
  - intros x Hx. apply bool_decide_true.
    assert (x ∈ from k l) as [? _]%list_elem_of_filter; [|unfold kof in *; lia].
    destruct (from k l); simplify_eq/=. set_solver.
  - assert (length (below k l) ≤ length l)%nat; [|lia]. apply sublist_length, sublist_filter.
Qed.

Lemma wp_search_levels fuel k hd ml ls i node Q s :
  skrep (sk_nodes s) hd ml ls → (i ≤ ml)%nat → (length (ls 0%nat) < fuel)%nat →
  (∀ j, (j < i)%nat → node ∈ hd :: below k (ls j)) →
  (i = O → node = cursor hd (below k (ls 0%nat))) →
  match top_match ls k i with
  | Some x => Q (ob x, x) s
  | None => Q (NULL, cursor hd (below k (ls 0%nat))) s
  end →
  wp (search_levels fuel hd cmp get_key k i node) Q s.
Proof.
  intros R. revert node. induction i as [|i IH]; intros node Hi Hfuel Hnode Hzero HQ; simpl in *.
  { rewrite Hzero by done. by apply wp_ret. }
  pose proof (level_sorted _ _ _ _ R i) as Hs. pose proof (cut_below k _ Hs) as Hcut.
  pose proof (sr_paths _ _ _ _ R i) as Hp. rewrite Hcut in Hp.
  assert (hd ∉ ls i) as Hhd by (by pose proof (level_nodup _ _ _ _ R i) as [? _]%NoDup_cons).
  pose proof (level_objs _ _ _ _ R i) as Ho. rewrite Hcut in Ho.
  rewrite (first_match k _ Hs) in HQ.
  apply wp_bind. eapply wp_advance_below; [exact Hs|by apply R|done|by eapply level_objs|by apply Hnode; lia|..].
  - pose proof (level_length _ _ _ _ R i). lia.
  - set (c := cursor hd (below k (ls i))).
    assert (match top_match ls k i with
      | Some x => Q (ob x, x) s
      | None => Q (NULL, cursor hd (below k (ls 0%nat))) s
      end → wp (search_levels fuel hd cmp get_key k i c) Q s) as Hrest.
    { intros HQ'. apply IH; [lia|done|..]; [|by intros ->|done].
      intros j Hj. eapply (below_down _ _ _ _ R k j i); [lia|]. apply cursor_elem. }
    apply wp_bind. eapply wp_get_link; [by eapply path_next, Hp|].
    destruct (from k (ls i)) as [|x r] eqn:Hfr; cbn [follow head default from_option id].
    + rewrite bool_decide_true by done. by apply Hrest.
    + assert (x ∈ ls i) as Hx by (rewrite Hcut; set_solver).
      unfold follow. simpl. rewrite bool_decide_false by set_solver. apply wp_bind.
      destruct (Ho x) as (n & Hn & Hob); [set_solver|]. eapply wp_get_node; [done|]. rewrite Hob.
      unfold kof in HQ. case_bool_decide as Hk.
      * rewrite decide_True in HQ by done. by apply wp_ret.
      * rewrite decide_False in HQ by done. by apply Hrest.
Qed.

End search.
End keys.
