(* ===== verification/SkipInsert.v ===== *)
(** * Insertion into the skip list

    The new node goes into each of its levels behind the nodes whose key is not
    larger, the level of the node is between 1 and [max_level]. *)

From stdpp Require Import gmap numbers sorting list.
From S2P Require Import Prelude CAlloc Chain SkipList SkipRep SkipSpec.

Local Open Scope Z_scope.

Section insert.
Context {K W : Type} `{!Alloc W, !Rand W}.
Implicit Types (s : skmem K W).

(** ** Linking the node into one level *)

Lemma wp_link_in i c new v nn Q s :
  sk_nodes s !! new = Some nn → (i < length (sk_link nn))%nat → nxt (sk_nodes s) i c = Some v →
  c ≠ new → is_Some (sk_nodes s !! v) →
  (∀ h', same_info (sk_nodes s) h' →
     (∀ j q, nxt h' j q = if decide (q = c ∧ j = i) then Some new
                          else if decide (q = new ∧ j = i) then Some v else nxt (sk_nodes s) j q) →
     (∀ q, prv h' q = if decide (i = 0%nat)
                      then if decide (q = v) then Some new else if decide (q = new) then Some c
                           else prv (sk_nodes s) q
                      else prv (sk_nodes s) q) →
     Q () (with_nodes h' s)) →
  wp (nx ← get_link c i;
      set_link new i nx;;
      set_link c i new;;
      (if bool_decide (i = O) then
         mod_node new (with_prev c);;
         nx ← get_link new i;
         mod_node nx (with_prev new)
       else mret ())) Q s.
Proof.
  intros Hnew Hi Hc Hne [nv Hv] HQ. destruct (nxt_some _ _ _ _ Hc) as (nc & Hnc & _ & Hci).
  apply wp_bind. eapply wp_get_link; [done|].
  apply wp_bind. eapply wp_set_link; [done..|].
  set (h1 := <[new:=_]> (sk_nodes s)).
  assert (h1 !! c = Some nc) as Hc1 by (unfold h1; by rewrite lookup_insert_ne).
  assert (same_info (sk_nodes s) h1) as Hs1 by (eapply same_info_insert; [done|apply info_link]).
  apply wp_bind. eapply wp_set_link; [done..|]. cbn [with_nodes sk_nodes sk_lists sk_world].
  set (h2 := <[c:=_]> h1).
  assert (same_info (sk_nodes s) h2) as Hs2.
  { eapply same_info_trans; [done|]. eapply same_info_insert; [done|apply info_link]. }
  assert (∀ j q, nxt h2 j q = if decide (q = c ∧ j = i) then Some new
    else if decide (q = new ∧ j = i) then Some v else nxt (sk_nodes s) j q) as Hx2.
  { intros j q. unfold h2. rewrite nxt_link by done. destruct (decide (q = c ∧ j = i)); [done|]. unfold h1. by rewrite nxt_link. }
  assert (∀ q, prv h2 q = prv (sk_nodes s) q) as Hp2.
  { intros q. unfold h2. rewrite prv_link by done. unfold h1. by rewrite prv_link. }
  case_bool_decide as Hz.
  2: { apply wp_ret, HQ; [done..|]. intros q. rewrite decide_False by done. apply Hp2. }
  destruct (same_info_lookup _ _ _ _ Hs2 Hnew) as (nn2 & Hnn2 & _).
  apply wp_bind. eapply wp_mod_node; [exact Hnn2|]. cbn [with_nodes sk_nodes sk_lists sk_world].
  set (h3 := <[new:=_]> h2).
  apply wp_bind. eapply wp_get_link.
  { simpl. unfold h3. rewrite nxt_prev, Hx2 by done. rewrite decide_False by naive_solver.
    by rewrite decide_True. }
  assert (same_info (sk_nodes s) h3) as Hs3.
  { eapply same_info_trans; [done|]. by eapply same_info_insert. }
  destruct (same_info_lookup _ _ _ _ Hs3 Hv) as (nv3 & Hnv3 & _).
  eapply wp_mod_node; [exact Hnv3|]. cbn [with_nodes sk_nodes sk_lists sk_world]. apply HQ.
  - eapply same_info_trans; [done|]. by eapply same_info_insert.
  - intros j q. rewrite nxt_prev by done. unfold h3. by rewrite nxt_prev.
  - intros q. rewrite decide_True by done. rewrite prv_prev. destruct (decide (q = v)); [done|].
    unfold h3. rewrite prv_prev. destruct (decide (q = new)); [done|]. apply Hp2.
Qed.

(** ** All levels *)

Section levels.
Context (cmp : K → K → Z) `{!KeyOrder cmp} (get_key : Z → K) (ob : Z → Z).
Abbreviation skrep := (skrep cmp get_key ob).
Abbreviation ins := (ins cmp get_key ob).
Abbreviation kof := (kof get_key ob).

(** The levels once those from [i] on are done, for a node with [n] levels. *)
Definition ins_from (new : Z) (n i : nat) (ls : nat → list Z) (j : nat) : list Z :=
  if decide (j < i)%nat then ls j else if decide (j < n)%nat then ins new (ls j) else ls j.

Lemma ins_from_step new n i ls j :
  j ≠ i → ins_from new n (S i) ls j = ins_from new n i ls j.
Proof.
  intros Hj. unfold ins_from. destruct (decide (j < i)%nat).
  - by rewrite decide_True by lia.
  - by rewrite decide_False by lia.
Qed.

Lemma cursor_reverse hd B : cursor hd (reverse B) = follow B hd.
Proof. unfold cursor, follow. by rewrite last_reverse. Qed.

Lemma follow_reverse hd A : follow (reverse A) hd = cursor hd A.
Proof. unfold cursor, follow. by rewrite head_reverse. Qed.

Context (h0 : gmap Z sknode) (hd : Z) (ml : nat) (ls : nat → list Z) (R : skrep h0 hd ml ls)
  (new obj : Z) (n : nat) (nn : sknode) (Hnew : h0 !! new = Some nn) (Hfresh : new ∉ hd :: ls 0%nat)
  (Hlink : length (sk_link nn) = n) (Hlevel : sk_level nn = Z.of_nat n) (Hob : ob new = obj).

Lemma fresh_level i : new ∉ hd :: ls i.
Proof using All.
  intros [->|Hin]%elem_of_cons; apply Hfresh; [set_solver|]. apply elem_of_cons. right.
  by eapply sublist_subseteq; [eapply level_sub|].
Qed.

(** One level of the descent. *)
Lemma wp_insert_level i c Q s :
  let A := upto cmp get_key ob (kof new) (ls i) in
  let B := above cmp get_key ob (kof new) (ls i) in
  (i < ml)%nat → same_info h0 (sk_nodes s) → c = cursor hd A →
  (∀ j, (j < ml)%nat → path (nxt (sk_nodes s) j) hd (ins_from new n (S i) ls j) hd) →
  path (prv (sk_nodes s)) hd (reverse (ins_from new n (S i) ls 0%nat)) hd →
  (∀ h', same_info h0 h' →
     (∀ j, (j < ml)%nat → path (nxt h' j) hd (ins_from new n i ls j) hd) →
     path (prv h') hd (reverse (ins_from new n i ls 0%nat)) hd → Q () (with_nodes h' s)) →
  wp (n ← get_node new;
      if bool_decide (Z.of_nat i < sk_level n) then
        nx ← get_link c i;
        set_link new i nx;;
        set_link c i new;;
        (if bool_decide (i = O) then
           mod_node new (with_prev c);;
           nx ← get_link new i;
           mod_node nx (with_prev new)
         else mret ())
      else mret ()) Q s.
Proof using All.
  intros A B Hi Hsame -> Hpaths Hprev HQ.
  destruct (same_info_lookup _ _ _ _ Hsame Hnew) as (nn' & Hnn' & Hinfo).
  assert (length (sk_link nn') = n ∧ sk_level nn' = Z.of_nat n) as [Hl Hlv].
  { unfold info in Hinfo. split; congruence. }
  apply wp_bind. eapply wp_get_node; [done|]. rewrite Hlv.
  assert (ls i = A ++ B) as Hcut by (apply cut_upto; [done|]; by eapply level_sorted).
  case_bool_decide as Hin.
  2: { apply wp_ret. replace s with (with_nodes (sk_nodes s) s) by by destruct s. apply HQ; [done|..].
    - intros j Hj. specialize (Hpaths j Hj). destruct (decide (j = i)) as [->|Hne].
      + unfold ins_from in *. rewrite decide_True in Hpaths by lia.
        by rewrite decide_False, decide_False by lia.
      + by rewrite <-ins_from_step.
    - destruct (decide (i = 0%nat)) as [->|Hne]; [|by rewrite <-ins_from_step].
      unfold ins_from in *. rewrite decide_True in Hprev by lia. by rewrite decide_False, decide_False by lia. }
  pose proof (Hpaths i Hi) as Hpi. unfold ins_from in Hpi. rewrite decide_True in Hpi by lia.
  rewrite Hcut in Hpi. pose proof (fresh_level i) as Hfi. rewrite Hcut in Hfi.
  pose proof (level_nodup _ _ _ _ _ _ _ R i) as Hnd. rewrite Hcut in Hnd.
  assert (cursor hd A ≠ new) as HcA.
  { intros Heq. apply Hfi. rewrite <-Heq. pose proof (cursor_elem hd A) as HcA.
    rewrite elem_of_cons, elem_of_app in *. tauto. }
  assert (new ≠ follow B hd) as HnB.
  { intros Heq. apply Hfi. rewrite Heq. unfold follow. rewrite elem_of_cons, elem_of_app.
    destruct B; simpl; [by left|right; right; by left]. }
  eapply wp_link_in with (v := follow B hd); [done|lia|by eapply path_next|done|..].
  { assert (is_Some (h0 !! follow B hd)) as [nv Hv].
    { destruct B as [|b B'] eqn:HB.
      - destruct (nxt_some h0 i hd (follow (ls i) hd)) as (nh & Hh & _); [|by eexists].
        apply (path_next _ hd [] (ls i)). by apply R.
      - destruct (level_objs _ _ _ _ _ _ _ R i b) as (nb & Hb & _); [rewrite Hcut; set_solver|]. by eexists. }
    destruct (same_info_lookup _ _ _ _ Hsame Hv) as (nv' & Hv' & _). by eexists. }
  intros h' Hsame' Hnx Hpv. apply HQ; [by eapply same_info_trans|..].
  - intros j Hj. specialize (Hpaths j Hj). destruct (decide (j = i)) as [->|Hne].
    + unfold ins_from. rewrite decide_False, decide_True by lia.
      eapply path_insert; [exact Hpi|done|done|..].
      * rewrite Hnx. by rewrite decide_True.
      * rewrite Hnx. rewrite decide_False by naive_solver. by rewrite decide_True.
      * intros y Hy1 Hy2. rewrite Hnx. by rewrite decide_False, decide_False by naive_solver.
    + rewrite <-ins_from_step by done. eapply path_ext; [|exact Hpaths]. intros y _. rewrite Hnx.
      by rewrite decide_False, decide_False by naive_solver.
  - destruct (decide (i = 0%nat)) as [->|Hne].
    2: { rewrite <-ins_from_step by done. eapply path_ext; [|exact Hprev]. intros y _. by rewrite Hpv. }
    unfold ins_from in *. rewrite decide_True in Hprev by lia. rewrite decide_False, decide_True by lia.
    rewrite Hcut, reverse_app in Hprev. unfold SkipSpec.ins. rewrite reverse_app, reverse_cons, <-app_assoc.
    eapply path_insert; [exact Hprev|..].
    + rewrite <-reverse_app. apply NoDup_cons in Hnd as [H1 H2]. apply NoDup_cons.
      split; [by rewrite elem_of_reverse|]. by rewrite reverse_Permutation.
    + rewrite <-reverse_app, elem_of_cons, elem_of_reverse. by rewrite elem_of_cons in Hfi.
    + rewrite cursor_reverse, Hpv. by rewrite decide_True.
    + rewrite follow_reverse, Hpv. by rewrite decide_False, decide_True.
    + rewrite cursor_reverse. intros y Hy1 Hy2. rewrite Hpv. by rewrite !decide_False.
Qed.

Lemma wp_insert_levels fuel i node Q s :
  (i ≤ ml)%nat → (length (ls 0%nat) < fuel)%nat → same_info h0 (sk_nodes s) →
  (∀ j, (j < i)%nat → node ∈ hd :: upto cmp get_key ob (kof new) (ls j)) →
  (∀ j, (j < ml)%nat → path (nxt (sk_nodes s) j) hd (ins_from new n i ls j) hd) →
  path (prv (sk_nodes s)) hd (reverse (ins_from new n i ls 0%nat)) hd →
  (∀ h', same_info h0 h' →
     (∀ j, (j < ml)%nat → path (nxt h' j) hd (ins_from new n 0 ls j) hd) →
     path (prv h') hd (reverse (ins_from new n 0 ls 0%nat)) hd → Q () (with_nodes h' s)) →
  wp (insert_levels fuel hd cmp get_key obj new i node) Q s.
Proof using All.
  revert node s. induction i as [|i IH]; intros node s Hi Hfuel Hsame Hnode Hpaths Hprev HQ.
  { simpl. apply wp_ret. replace s with (with_nodes (sk_nodes s) s) by by destruct s. by apply HQ. }
  simpl. set (A := upto cmp get_key ob (kof new) (ls i)).
  pose proof (level_sorted _ _ _ _ _ _ _ R i) as Hs. pose proof (cut_upto _ _ _ (kof new) _ Hs) as Hcut.
  pose proof (Hpaths i Hi) as Hpi. unfold ins_from in Hpi. rewrite decide_True in Hpi by lia.
  pose proof (objs_at_same _ _ _ _ Hsame (level_objs _ _ _ _ _ _ _ R i)) as Ho.
  assert (hd ∉ ls i) as Hhd by (by pose proof (level_nodup _ _ _ _ _ _ _ R i) as [? _]%NoDup_cons).
  rewrite Hcut in Hpi, Ho, Hhd.
  apply wp_bind. eapply wp_advance; [exact Hpi|exact Hhd|exact Ho|..].
  - by apply Hnode; lia.
  - intros x [Hx _]%list_elem_of_filter. apply bool_decide_false. unfold SkipSpec.kof in Hx. rewrite Hob in Hx. lia.
  - intros x Hx. apply bool_decide_true.
    assert (x ∈ above cmp get_key ob (kof new) (ls i)) as [Hx' _]%list_elem_of_filter.
    { destruct (above cmp get_key ob (kof new) (ls i)); simplify_eq/=. set_solver. }
    unfold SkipSpec.kof in Hx'. rewrite Hob in Hx'. lia.
  - pose proof (level_length _ _ _ _ _ _ _ R i).
    assert (length (upto cmp get_key ob (kof new) (ls i)) ≤ length (ls i))%nat; [|lia].
    apply sublist_length, sublist_filter.
  - apply wp_bind_assoc, wp_bind. eapply wp_insert_level; [lia|done|done|done|done|].
    intros h' Hsame' Hpaths' Hprev'. eapply IH; [lia|done|exact Hsame'|..]; [|done|done|].
    + intros j Hj. eapply (upto_down _ _ _ _ _ _ _ R _ j i); [lia|]. apply cursor_elem.
    + intros h'' H1 H2 H3. by apply HQ.
Qed.

End levels.
(** ** The height of the new node *)

Lemma wp_rand_level sk L Q s :
  sk_lists s !! sk = Some L → 0 < sl_max_level L ≤ 30 →
  (∀ n t w, rand (sk_world s) = (t, w) → 1 ≤ n ≤ sl_max_level L →
     (n = sl_max_level L ∨ RAND_MAX / 2 ^ n < t) →
     (∀ j, 1 ≤ j < n → t ≤ RAND_MAX / 2 ^ j) →
     Q n (SkMem (<[sk:=with_level (Z.max (sl_level L) n) L]> (sk_lists s)) (sk_nodes s) w)) →
  wp (rand_level sk) Q s.
Proof.
  intros HL Hmax HQ. unfold rand_level. destruct (rand (sk_world s)) as [t w] eqn:Ht.
  apply wp_bind. eapply wp_sk_call; [done|]. apply wp_bind. eapply wp_get_list; [done|].
  apply wp_bind. set (s1 := SkMem _ _ w).
  assert (∀ i, 1 ≤ i ≤ sl_max_level L → (i = sl_max_level L ∨ RAND_MAX / 2 ^ i < t) →
    (∀ j, 1 ≤ j < i → t ≤ RAND_MAX / 2 ^ j) →
    wp ((if bool_decide (sl_level L < i) then mod_list sk (with_level i) else mret ());; mret i) Q s1) as Hend.
  { intros i Hi Hstop Hlow. specialize (HQ i t w eq_refl Hi Hstop Hlow). apply wp_bind.
    case_bool_decide as Hlv.
    - eapply wp_mod_list; [done|]. apply wp_ret. simpl. by replace (Z.max (sl_level L) i) with i in HQ by lia.
    - apply wp_ret, wp_ret. replace (Z.max (sl_level L) i) with (sl_level L) in HQ by lia.
      rewrite insert_id in HQ; [done|]. rewrite HL. by destruct L. }
  by apply wp_rand_loop.
Qed.

(** ** Memory *)

Section heap.
Context `{!AllocOk W}.

(** Every node, array and header is a block of its own that the program owns. *)
Record sk_heap s : Prop := {
  sh_nodes : dom (sk_nodes s) ⊆ owned (sk_world s);
  sh_lists : dom (sk_lists s) ⊆ owned (sk_world s);
  sh_nl : dom (sk_nodes s) ## dom (sk_lists s);
  sh_arrs : ∀ x n, sk_nodes s !! x = Some n →
    sk_arr n ∈ owned (sk_world s) ∧ (sk_arr n ∉ dom (sk_nodes s)) ∧ sk_arr n ∉ dom (sk_lists s);
  sh_inj : ∀ x y n m, sk_nodes s !! x = Some n → sk_nodes s !! y = Some m → sk_arr n = sk_arr m → x = y;
}.

(** Changing links, header fields or the client's state keeps it. *)
Lemma sk_heap_same s s' :
  sk_heap s → same_info (sk_nodes s) (sk_nodes s') → dom (sk_lists s') = dom (sk_lists s) →
  owned (sk_world s') = owned (sk_world s) → sk_heap s'.
Proof.
  intros [H1 H2 H3 H4 H5] Hs Hl Ho. pose proof (same_info_dom _ _ Hs) as Hd.
  assert (∀ x n', sk_nodes s' !! x = Some n' → ∃ n, sk_nodes s !! x = Some n ∧ sk_arr n = sk_arr n') as Hback.
  { intros x n' Hx. specialize (Hs x). rewrite Hx in Hs. simpl in Hs. symmetry in Hs.
    apply fmap_Some in Hs as (n & Hn & Hi). exists n. split; [done|]. unfold info in Hi. congruence. }
  constructor; rewrite ?Hd, ?Hl, ?Ho; try done.
  - intros x n' (n & Hn & <-)%Hback. by apply (H4 x).
  - intros x y n' m' (n & Hn & <-)%Hback (m & Hm & <-)%Hback. by apply H5.
Qed.

Lemma wp_new_node obj n Q s :
  sk_heap s →
  (∀ w, owned w = owned (sk_world s) → Q NULL (SkMem (sk_lists s) (sk_nodes s) w)) →
  (∀ new arr w, new ≠ NULL → sk_nodes s !! new = None →
     let s' := SkMem (sk_lists s) (<[new := SkNode arr (replicate (Z.to_nat n) NULL) 0 n obj]> (sk_nodes s)) w in
     sk_heap s' → Q new s') →
  wp (new_node obj n) Q s.
Proof.
  intros [H1 H2 H3 H4 H5] HN HQ. unfold new_node. apply wp_bind.
  destruct (alloc sizeof_sknode (sk_world s)) as [new w] eqn:Ha. eapply wp_sk_call; [done|].
  apply alloc_ok in Ha as [[-> Ho]|(Hn & Hfr & Ho)].
  { rewrite bool_decide_true by done. by apply wp_ret, HN. }
  rewrite bool_decide_false by done. apply wp_bind, wp_set_nodes. apply wp_bind. cbn [with_nodes sk_lists sk_nodes sk_world].
  assert (sk_nodes s !! new = None) as Hnew by (by eapply not_owned_fresh).
  destruct (alloc (8 * n) w) as [arr w'] eqn:Ha. eapply wp_sk_call; [done|].
  apply alloc_ok in Ha as [[-> Ho']|(Hn' & Hfr' & Ho')].
  { rewrite bool_decide_true by done. apply wp_bind, wp_set_nodes. apply wp_bind. eapply wp_sk_call; [done|]. apply wp_ret.
    cbn [with_nodes sk_lists sk_nodes sk_world]. rewrite delete_insert_id by done. apply HN.
    rewrite dealloc_ok, Ho', Ho. set_solver. }
  rewrite bool_decide_false by done. apply wp_bind, wp_set_nodes, wp_ret.
  cbn [with_nodes sk_lists sk_nodes sk_world]. rewrite insert_insert_eq. apply HQ; [done..|].
  constructor; simpl; rewrite ?Ho', ?Ho, ?dom_insert_L; [set_solver..| |].
  - intros x m. rewrite lookup_insert_Some. intros [[<- <-]|[Hx Hm]]; simpl.
    + split_and!; set_solver.
    + destruct (H4 x m Hm) as (? & ? & ?). split_and!; set_solver.
  - intros x y m m'. rewrite !lookup_insert_Some.
    intros [[<- <-]|[Hx Hm]] [[<- <-]|[Hy Hm']]; simpl; intros Heq; try done.
    + destruct (H4 y m' Hm') as (? & ? & ?). set_solver.
    + destruct (H4 x m Hm) as (? & ? & ?). set_solver.
    + by eapply H5.
Qed.

End heap.
End insert.
