(* ===== verification/SkipOps.v ===== *)
(** * The skip list's operations

    The invariant of a whole list, header included, and what sklist_search and
    sklist_insert do to it. *)

From stdpp Require Import gmap numbers functions sorting list.
From S2P Require Import Prelude CAlloc Chain SkipList SkipRep SkipSpec SkipInsert.

Local Open Scope Z_scope.

Section ops.
Context {K W : Type} `{!Alloc W, !Rand W, !AllocOk W, !RandOk W}.
Context (cmp : K → K → Z) `{!KeyOrder cmp} (get_key : Z → K).
Implicit Types (s : skmem K W) (ob : Z → Z) (ls : nat → list Z).

(** The header [L] at [sk] and its levels [ls], whose nodes hold the objects
    [ob].  The client's destructor leaves the list's memory alone. *)
Record list_rep s (sk : Z) (L : sklist K W) ls ob : Prop := {
  lr_sk : sk ≠ NULL;
  lr_list : sk_lists s !! sk = Some L;
  lr_cmp : sl_cmp_key L = Some cmp;
  lr_get : sl_get_key L = Some get_key;
  lr_rep : skrep cmp get_key ob (sk_nodes s) (sl_head L) (Z.to_nat (sl_max_level L)) ls;
  lr_max : 0 < sl_max_level L;
  lr_level : 0 ≤ sl_level L ≤ sl_max_level L;
  lr_top : ∀ i, sl_level L ≤ Z.of_nat i → ls i = [];
  lr_size : sl_size L = Z.of_nat (length (ls 0%nat));
  lr_destroy : ∀ d o w, sl_destroy L = Some d → owned (d o w) = owned w;
}.

(** ** Search *)

Lemma wp_search_node fuel sk L ls ob k Q s :
  list_rep s sk L ls ob → (length (ls 0%nat) < fuel)%nat →
  match top_match cmp get_key ob ls k (Z.to_nat (sl_level L)) with
  | Some x => Q (ob x, x) s
  | None => Q (NULL, cursor (sl_head L) (below cmp get_key ob k (ls 0%nat))) s
  end →
  wp (search_node fuel sk (Some k)) Q s.
Proof.
  intros [Hsk HL Hc Hg R Hm Hlv Htop Hsz _] Hfuel HQ. unfold search_node.
  rewrite bool_decide_false by done. apply wp_bind. eapply wp_get_list; [done|]. rewrite Hc, Hg.
  rewrite bool_decide_false by apply R. apply wp_bind, wp_countdown; [lia|].
  eapply wp_search_levels; [done|exact R|lia|done|..]; [| |done].
  - intros j _. set_solver.
  - intros Hz. rewrite Htop by lia. done.
Qed.

(** ** Changing the object map, adding a node *)

Lemma skrep_ext ob ob' h hd ml ls :
  skrep cmp get_key ob h hd ml ls → (∀ x, x ∈ ls 0%nat → ob' x = ob x) → skrep cmp get_key ob' h hd ml ls.
Proof.
  intros [? ? ? ? ? ? Hs Ho Hn] Heq. constructor; try done.
  - revert Hs Heq. generalize (ls 0%nat). induction 1 as [|x l Hl IH Hx]; intros Heq; constructor.
    + apply IH. set_solver.
    + rewrite Forall_forall in *. intros y Hy. unfold key_le, kof. rewrite !Heq by set_solver. by apply Hx.
  - intros x Hx. rewrite Heq by done. by apply Ho.
  - intros x Hx. rewrite Heq by done. by apply Hn.
Qed.

Lemma skrep_fresh ob h hd ml ls new n :
  skrep cmp get_key ob h hd ml ls → h !! new = None → (0 < ml)%nat →
  skrep cmp get_key ob (<[new:=n]> h) hd ml ls ∧ new ∉ hd :: ls 0%nat.
Proof.
  intros R Hnew Hml. pose proof R as [H1 H2 H3 H4 H5 H6 H7 H8 H9].
  assert (new ∉ ls 0%nat) as Hn0.
  { intros Hin. destruct (H8 _ Hin) as (? & ? & _). congruence. }
  assert (new ≠ hd) as Hnh.
  { intros ->. destruct (nxt_some h 0 hd (follow (ls 0%nat) hd)) as (? & ? & _); [|congruence].
    apply (path_next _ hd [] (ls 0%nat)). by apply H2. }
  assert (new ∉ hd :: ls 0%nat) as Hnew' by set_solver.
  split; [|done]. constructor; try done.
  - intros i Hi. eapply path_ext; [|by apply H2]. intros x Hx. unfold nxt. rewrite lookup_insert_ne; [done|].
    intros ->. apply Hnew'. apply elem_of_cons in Hx as [->|Hx]; [set_solver|].
    apply elem_of_cons. right. by eapply sublist_subseteq; [by eapply level_sub|].
  - eapply path_ext; [|exact H6]. intros x Hx. unfold prv. rewrite lookup_insert_ne; [done|].
    intros ->. apply Hnew'. rewrite elem_of_cons, elem_of_reverse in Hx. by apply elem_of_cons.
  - intros x Hx. rewrite lookup_insert_ne by set_solver. by apply H8.
Qed.

(** The levels after inserting a node with [n] levels. *)
Definition inserted ob (new : Z) (n : nat) ls (j : nat) : list Z :=
  if decide (j < n)%nat then ins cmp get_key ob new (ls j) else ls j.

Lemma skrep_inserted ob h h' hd ml ls new n nn :
  skrep cmp get_key ob h hd ml ls → new ∉ hd :: ls 0%nat → (0 < n ≤ ml)%nat →
  h !! new = Some nn → sk_obj nn = ob new → ob new ≠ NULL → new ≠ NULL → same_info h h' →
  (∀ j, (j < ml)%nat → path (nxt h' j) hd (inserted ob new n ls j) hd) →
  path (prv h') hd (reverse (inserted ob new n ls 0%nat)) hd →
  skrep cmp get_key ob h' hd ml (inserted ob new n ls).
Proof.
  intros R Hf Hn Hnew Hob Hon Hnn Hs Hp Hpv.
  assert (inserted ob new n ls 0%nat = ins cmp get_key ob new (ls 0%nat)) as H0
    by (unfold inserted; by rewrite decide_True by lia).
  pose proof (ins_perm cmp get_key ob new _ (sr_sorted _ _ _ _ _ _ _ R)) as Hperm.
  constructor; try done.
  - apply R.
  - intros i Hi. unfold inserted. rewrite decide_False by lia. by apply R.
  - intros i. unfold inserted. destruct (decide (S i < n)%nat).
    + rewrite decide_True by lia. apply ins_sub, R.
    + case_decide; [|apply R]. apply ins_sub_l; [done| |apply R]. by eapply level_sorted.
  - rewrite H0. apply NoDup_cons. rewrite Hperm. pose proof (sr_nodup _ _ _ _ _ _ _ R) as [? ?]%NoDup_cons.
    split; [set_solver|]. apply NoDup_cons. split; [set_solver|done].
  - rewrite H0. apply ins_sorted; [done|apply R].
  - intros x. rewrite H0, Hperm, elem_of_cons. intros Hx. apply (objs_at_same h _ _ (new :: ls 0%nat)); [done| |set_solver].
    intros y [->|Hy]%elem_of_cons; [by eexists|by apply R].
  - intros x. rewrite H0, Hperm, elem_of_cons. intros [->|Hx]; [done|by apply R].
Qed.

(** ** Insertion *)

Lemma wp_sklist_insert fuel sk L ls ob obj Q s :
  list_rep s sk L ls ob → sk_heap s → obj ≠ NULL → sl_max_level L ≤ 30 →
  (length (ls 0%nat) < fuel)%nat → sl_size L + 1 < 2 ^ 31 →
  (∀ s' lv, list_rep s' sk (with_level lv L) ls ob → sk_heap s' → sl_level L ≤ lv → Q (-1) s') →
  (∀ s' new n, new ∉ ls 0%nat → let L' := with_size (sl_size L + 1) (with_level (Z.max (sl_level L) n) L) in
     1 ≤ n ≤ sl_max_level L →
     list_rep s' sk L' (inserted (<[new:=obj]> ob) new (Z.to_nat n) ls) (<[new:=obj]> ob) →
     sk_heap s' → Q 0 s') →
  wp (sklist_insert fuel sk obj) Q s.
Proof.
  intros [Hsk HL Hc Hg R Hm Hlv Htop Hsz Hd] Hh Hobj Hmax Hfuel Hover HN HQ. unfold sklist_insert.
  rewrite bool_decide_false by done. apply wp_bind. eapply wp_get_list; [done|].
  rewrite (bool_decide_false (sl_head L = NULL)) by apply R. rewrite bool_decide_false by done. cbn [orb].
  rewrite Hc, Hg. apply wp_bind. eapply wp_rand_level; [done|lia|]. intros n t w Hr Hn _ _.
  set (L1 := with_level (Z.max (sl_level L) n) L). set (s1 := SkMem _ _ w).
  assert (owned w = owned (sk_world s)) as Hw by (by destruct (rand_ok _ _ _ Hr)).
  assert (sk_heap s1) as Hh1.
  { eapply sk_heap_same; [exact Hh|apply same_info_refl| |done]. simpl. rewrite dom_insert_L.
    apply elem_of_dom_2 in HL. set_solver. }
  apply wp_bind. eapply wp_new_node; [exact Hh1|..].
  - intros w' Hw'. rewrite bool_decide_true by done. apply wp_ret, (HN _ (Z.max (sl_level L) n)); [|by eapply sk_heap_same|lia].
    constructor; simpl; try done; [by rewrite lookup_insert_eq|lia|]. intros i Hi. apply Htop. lia.
  - intros new arr w' Hnn Hnew s2 Hh2. rewrite bool_decide_false by done. simpl in Hnew.
    assert (sk_lists s2 !! sk = Some L1) as HL2 by (simpl; by rewrite lookup_insert_eq).
    apply wp_bind. eapply wp_get_list; [exact HL2|]. apply wp_bind, wp_countdown; [simpl; lia|].
    assert (new ∉ sl_head L :: ls 0%nat) as Hf.
    { destruct (skrep_fresh _ _ _ _ _ new (SkNode 0 [] 0 0 0) R Hnew) as [_ ?]; [lia|done]. }
    assert (skrep cmp get_key (<[new:=obj]> ob) (sk_nodes s2) (sl_head L) (Z.to_nat (sl_max_level L)) ls) as R2.
    { eapply skrep_fresh; [|done|lia]. eapply skrep_ext; [exact R|]. intros x Hx. apply fn_lookup_insert_ne. set_solver. }
    assert ((<[new:=obj]> ob : Z → Z) new = obj) as Hobn by apply fn_lookup_insert.
    assert (∀ j, ins_from cmp get_key (<[new:=obj]> ob) new (Z.to_nat n) (Z.to_nat (sl_level L1)) ls j = ls j) as Hstart.
    { intros j. unfold ins_from. case_decide; [done|]. simpl in *. by rewrite decide_False by lia. }
    apply wp_bind. eapply wp_insert_levels with (n := Z.to_nat n) (ls := ls) (ml := Z.to_nat (sl_max_level L));
      [done|exact R2| |exact Hf| | |exact Hobn|simpl; lia|done|apply same_info_refl|..].
    + simpl. by rewrite lookup_insert_eq.
    + simpl. by rewrite length_replicate.
    + simpl. lia.
    + intros j _. set_solver.
    + intros j Hj. rewrite Hstart. by apply R2.
    + rewrite Hstart. apply R2.
    + intros h' Hs Hp Hpv. apply wp_bind. eapply wp_get_list; [exact HL2|]. apply wp_bind, wp_s32_value; [simpl; lia|].
      apply wp_bind. eapply wp_mod_list; [exact HL2|]. apply wp_ret. cbn [with_nodes sk_lists sk_nodes sk_world].
      apply (HQ _ new n); [set_solver|done|..].
      * constructor; try done; [simpl; by rewrite lookup_insert_eq|..]; [|simpl; lia|..].
        -- eapply (skrep_inserted _ (sk_nodes s2)); try done; [simpl; lia|simpl; by rewrite lookup_insert_eq|simpl; by rewrite Hobn|by rewrite Hobn].
        -- intros i Hi. unfold inserted. simpl in Hi. rewrite decide_False by lia. apply Htop. lia.
        -- unfold inserted. rewrite decide_True by lia. rewrite ins_perm; [|done|apply R2]. simpl. lia.
      * eapply sk_heap_same; [exact Hh2|exact Hs| |done]. simpl. rewrite !dom_insert_L. set_solver.
Qed.

End ops.
