(* ===== verification/SkipDelete.v ===== *)
(** * Deletion from the skip list

    On every level the first node with the key is unlinked; the one of the
    bottom level, which is then on no level, is destroyed. *)

From stdpp Require Import gmap numbers functions sorting list.
From S2P Require Import Prelude CAlloc Chain SkipList SkipRep SkipSpec SkipInsert SkipOps.

Local Open Scope Z_scope.

Section delete.
Context {K W : Type} `{!Alloc W, !Rand W}.
Context (cmp : K → K → Z) `{!KeyOrder cmp} (get_key : Z → K) (ob : Z → Z).
Implicit Types (s : skmem K W) (ls : nat → list Z).
Abbreviation below := (below cmp get_key ob).
Abbreviation from := (from cmp get_key ob).
Abbreviation del := (del cmp get_key ob).
Abbreviation matching := (matching cmp get_key ob).
Abbreviation skrep := (skrep cmp get_key ob).

(** The levels once those from [i] on are done. *)
Definition del_from (k : K) (i : nat) ls (j : nat) : list Z :=
  if decide (j < i)%nat then ls j else del k (ls j).

Lemma del_from_step k i ls j : j ≠ i → del_from k (S i) ls j = del_from k i ls j.
Proof.
  intros Hj. unfold del_from. destruct (decide (j < i)%nat).
  - by rewrite decide_True by lia.
  - by rewrite decide_False by lia.
Qed.

(** ** destroy_node *)

(** The world after the client's destructor and the two calls of free. *)
Definition destroyed (L : sklist K W) (x : Z) (n : sknode) (w : W) : W :=
  dealloc x (dealloc (sk_arr n)
    (match sl_destroy L with
     | Some d => if bool_decide (sk_obj n = NULL) then w else d (sk_obj n) w
     | None => w
     end)).

Lemma wp_destroy_node sk L x n Q s :
  sk_lists s !! sk = Some L → x ≠ NULL → sk_nodes s !! x = Some n →
  Q () (SkMem (sk_lists s) (delete x (sk_nodes s)) (destroyed L x n (sk_world s))) →
  wp (destroy_node sk x) Q s.
Proof.
  intros HL Hx Hn HQ. unfold destroy_node. rewrite bool_decide_false by done.
  apply wp_bind. eapply wp_get_list; [done|]. apply wp_bind. eapply wp_get_node; [done|].
  unfold destroyed in HQ. apply wp_bind.
  destruct (sl_destroy L) as [d|]; [case_bool_decide|];
    (apply wp_ret || (eapply wp_sk_call; [done|]));
    (apply wp_bind; eapply wp_sk_call; [done|]; apply wp_bind, wp_set_nodes; by eapply wp_sk_call).
Qed.

(** ** Unlinking from one level *)

Definition unlink_rest (sk : Z) (i : nat) (c x : Z) : cmd (skmem K W) () :=
  if bool_decide (i = O) then
    nx2 ← get_link x i;
    mod_node nx2 (with_prev c);;
    destroy_node sk x;;
    mod_list sk (λ L, with_size (sl_size L - 1) L)
  else mret ().

Context (h0 : gmap Z sknode) (hd : Z) (ml : nat) (ls : nat → list Z) (R : skrep h0 hd ml ls).
Context (k : K).

Lemma cursor_is_follow (A : list Z) x r :
  NoDup (hd :: A ++ x :: r) → cursor hd A = follow r hd ↔ A ++ r = [].
Proof.
  intros [Hhd Hnd]%NoDup_cons. split.
  - intros Heq. destruct A as [|a A].
    + destruct r as [|y r]; [done|]. unfold cursor, follow in Heq. simpl in Heq. set_solver.
    + exfalso. rewrite cursor_cons in Heq. pose proof (cursor_elem a A) as Hin.
      rewrite Heq in Hin. unfold follow in Hin. destruct r as [|y r]; simpl in *; [set_solver|].
      apply NoDup_cons in Hnd as [Ha Hnd]. apply NoDup_app in Hnd as (_ & Hd & _).
      apply elem_of_cons in Hin as [->|Hin]; [set_solver|]. apply (Hd y); set_solver.
  - intros [-> ->]%app_nil. done.
Qed.

(** The level [i] when the levels above it are done: its chain is still the old one. *)
Lemma wp_delete_level sk L i Q s :
  (i < ml)%nat → same_info h0 (sk_nodes s) → path (nxt (sk_nodes s) i) hd (ls i) hd →
  sk_lists s !! sk = Some L →
  let c := cursor hd (below k (ls i)) in
  match from k (ls i) with
  | x :: r =>
      if decide (cmp k (kof get_key ob x) = 0) then
        ∃ nc, sk_nodes s !! c = Some nc ∧ (i < length (sk_link nc))%nat ∧
          wp (unlink_rest sk i c x) Q
            (SkMem (if decide (below k (ls i) ++ r = []) then <[sk:=with_level (sl_level L - 1) L]> (sk_lists s)
                    else sk_lists s)
               (<[c:=with_link (<[i:=follow r hd]>) nc]> (sk_nodes s)) (sk_world s))
      else Q () s
  | [] => Q () s
  end →
  wp (delete_level sk hd cmp get_key k i c) Q s.
Proof using R KeyOrder0.
  intros Hi Hsame Hp HL c HQ. unfold delete_level.
  pose proof (level_sorted _ _ _ _ _ _ _ R i) as Hs. pose proof (cut_below _ _ _ k _ Hs) as Hcut.
  pose proof (level_nodup _ _ _ _ _ _ _ R i) as Hnd.
  pose proof (objs_at_same _ _ _ _ Hsame (level_objs _ _ _ _ _ _ _ R i)) as Ho.
  rewrite Hcut in Hp, Hnd, Ho.
  apply wp_bind. eapply wp_get_link; [by eapply path_next|].
  destruct (from k (ls i)) as [|x r] eqn:Hf; cbn [follow]; unfold follow at 1; simpl head; cbn [default from_option id].
  { rewrite bool_decide_true by done. by apply wp_ret. }
  assert (x ≠ hd) as Hxhd by (intros ->; apply NoDup_cons in Hnd as [Hnd _]; set_solver).
  rewrite bool_decide_false by done. apply wp_bind.
  destruct (Ho x) as (n & Hn & Hob); [set_solver|]. eapply wp_get_node; [done|]. rewrite Hob.
  fold (kof get_key ob x). case_decide as Hk; [|by rewrite bool_decide_false; [apply wp_ret|]].
  rewrite bool_decide_true by done. destruct HQ as (nc & Hnc & Hci & HQ).
  apply wp_bind. eapply wp_get_link.
  { pose proof (path_next (nxt (sk_nodes s) i) hd (below k (ls i) ++ [x]) r hd) as Hx. rewrite <-app_assoc in Hx.
    rewrite cursor_app in Hx. apply Hx, Hp. }
  apply wp_bind. eapply wp_set_link; [done..|]. apply wp_bind.
  assert (c = follow r hd ↔ below k (ls i) ++ r = []) as Hiff by (by apply cursor_is_follow with (x := x)).
  fold (unlink_rest sk i c x). case_bool_decide as Hc.
  - rewrite decide_True in HQ by tauto. eapply wp_mod_list; [done|]. exact HQ.
  - rewrite decide_False in HQ by tauto. apply wp_ret. exact HQ.
Qed.

(** The chain without [x]. *)
Lemma paths_unlinked h i nc x r c :
  (i < ml)%nat → c = cursor hd (below k (ls i)) → from k (ls i) = x :: r → cmp k (kof get_key ob x) = 0 →
  h !! c = Some nc → (i < length (sk_link nc))%nat →
  (∀ j, (j < ml)%nat → path (nxt h j) hd (del_from k (S i) ls j) hd) →
  ∀ j, (j < ml)%nat → path (nxt (<[c:=with_link (<[i:=follow r hd]>) nc]> h) j) hd (del_from k i ls j) hd.
Proof using R KeyOrder0.
  intros Hi -> Hf Hk Hc Hci Hpaths j Hj. specialize (Hpaths j Hj). destruct (decide (j = i)) as [->|Hne].
  - unfold del_from in *. rewrite decide_True in Hpaths by lia. rewrite decide_False by lia.
    pose proof (cut_below _ _ _ k _ (level_sorted _ _ _ _ _ _ _ R i)) as Hcut.
    pose proof (level_nodup _ _ _ _ _ _ _ R i) as Hnd. rewrite Hcut, Hf in Hpaths, Hnd.
    unfold SkipSpec.del. rewrite Hf, decide_True by done. eapply path_remove; [exact Hpaths|done|..].
    + rewrite nxt_link by done. by rewrite decide_True.
    + intros z Hz. rewrite nxt_link by done. by rewrite decide_False by naive_solver.
  - rewrite <-del_from_step by done. eapply path_ext; [|exact Hpaths]. intros z _.
    rewrite nxt_link by done. by rewrite decide_False by naive_solver.
Qed.

(** ** All levels *)

Lemma wp_advance_del fuel i node Q s :
  same_info h0 (sk_nodes s) → path (nxt (sk_nodes s) i) hd (ls i) hd →
  node ∈ hd :: below k (ls i) → (length (ls 0%nat) < fuel)%nat →
  Q (cursor hd (below k (ls i))) s →
  wp (advance fuel hd i (λ obj, bool_decide (cmp k (get_key obj) <= 0)) node) Q s.
Proof using R KeyOrder0.
  intros Hsame Hp Hn Hfuel HQ. eapply wp_advance_below; [done|by eapply level_sorted|done|..|done].
  - by pose proof (level_nodup _ _ _ _ _ _ _ R i) as [? _]%NoDup_cons.
  - eapply objs_at_same; [done|]. by eapply level_objs.
  - done.
  - pose proof (level_length _ _ _ _ _ _ _ R i). lia.
Qed.

Lemma cursor_down i j : (j < i)%nat → cursor hd (below k (ls i)) ∈ hd :: below k (ls j).
Proof using R. intros Hj. eapply (below_down _ _ _ _ _ _ _ R k j i); [lia|]. apply cursor_elem. Qed.

(** A key that is not in the list: nothing happens. *)
Lemma wp_delete_absent fuel sk L i node Q s :
  (i ≤ ml)%nat → (length (ls 0%nat) < fuel)%nat → h0 = sk_nodes s → sk_lists s !! sk = Some L →
  matching k (ls 0%nat) = [] → (∀ j, (j < i)%nat → node ∈ hd :: below k (ls j)) → Q () s →
  wp (delete_levels fuel sk hd cmp get_key k i node) Q s.
Proof using R KeyOrder0.
  intros Hi Hfuel Hh HL Habs. revert node. induction i as [|i IH]; intros node Hnode HQ; [by apply wp_ret|].
  assert (same_info h0 (sk_nodes s)) as Hsame by (rewrite Hh; apply same_info_refl).
  assert (path (nxt (sk_nodes s) i) hd (ls i) hd) as Hp by (rewrite <-Hh; apply R; lia).
  assert (∀ c, (∀ j, (j < i)%nat → c ∈ hd :: below k (ls j)) → wp (delete_levels fuel sk hd cmp get_key k i c) Q s) as Hrest.
  { intros c Hc. apply IH; [lia|done..]. }
  simpl. apply wp_bind. eapply wp_advance_del; [done|exact Hp|apply Hnode; lia|done|]. apply wp_bind.
  eapply wp_delete_level; [lia|done|done|done|].
  assert (matching k (ls i) = []) as Hmi.
  { apply sublist_nil_r. rewrite <-Habs. apply sublist_filter_mono. by eapply level_sub. }
  pose proof (first_match _ _ _ k _ (level_sorted _ _ _ _ _ _ _ R i)) as Hm. rewrite Hmi in Hm. simpl in Hm.
  destruct (SkipSpec.from cmp get_key ob k (ls i)) as [|x r]; [|case_decide; [done|]]; apply Hrest, cursor_down.
Qed.

(** The state the levels are in before level [i - 1] is visited. *)
Record deleting (s0 : skmem K W) (sk : Z) (L : sklist K W) (i : nat) (lv : Z) s : Prop := {
  dl_info : same_info h0 (sk_nodes s);
  dl_lists : sk_lists s = <[sk:=with_level lv L]> (sk_lists s0);
  dl_world : sk_world s = sk_world s0;
  dl_paths : ∀ j, (j < ml)%nat → path (nxt (sk_nodes s) j) hd (del_from k i ls j) hd;
  dl_prev : path (prv (sk_nodes s)) hd (reverse (ls 0%nat)) hd;
  dl_level : 0 ≤ lv ≤ sl_level L;
  dl_top : ∀ j, lv ≤ Z.of_nat j → del_from k i ls j = [];
}.

(** The new value of [level] still bounds the levels in use. *)
Lemma top_after i lv x r :
  from k (ls i) = x :: r → cmp k (kof get_key ob x) = 0 →
  (∀ j, lv ≤ Z.of_nat j → del_from k (S i) ls j = []) →
  (∀ j, (if decide (below k (ls i) ++ r = []) then lv - 1 else lv) ≤ Z.of_nat j → del_from k i ls j = []) ∧
  Z.of_nat i < lv.
Proof using R KeyOrder0.
  intros Hf Hk Htop. pose proof (cut_below _ _ _ k _ (level_sorted _ _ _ _ _ _ _ R i)) as Hcut. rewrite Hf in Hcut.
  assert (Z.of_nat i < lv) as Hlv.
  { destruct (decide (lv ≤ Z.of_nat i)) as [Hle|]; [|lia]. specialize (Htop i Hle).
    unfold del_from in Htop. rewrite decide_True in Htop by lia. rewrite Htop in Hcut.
    destruct (SkipSpec.below _ _ _ _ _); done. }
  split; [|done]. intros j Hj. destruct (decide (j < i)%nat); [case_decide; lia|]. destruct (decide (j = i)) as [->|Hne].
  - unfold del_from, SkipSpec.del. rewrite decide_False, Hf, decide_True by done. case_decide; [done|lia].
  - case_decide as He.
    + assert (del k (ls j) `sublist_of` del k (ls i)) as Hsub.
      { apply del_sub; [done|by eapply level_sorted|]. apply levels_le; [apply R|lia]. }
      unfold del_from. rewrite decide_False by lia. apply sublist_nil_r. rewrite <-He.
      unfold SkipSpec.del in Hsub at 2. by rewrite Hf, decide_True in Hsub.
    + rewrite <-del_from_step by done. by apply Htop.
Qed.

Lemma deleting_step s0 sk L i lv x r nc s :
  deleting s0 sk L (S i) lv s → (i < ml)%nat → from k (ls i) = x :: r → cmp k (kof get_key ob x) = 0 →
  let c := cursor hd (below k (ls i)) in
  sk_nodes s !! c = Some nc → (i < length (sk_link nc))%nat →
  ∃ lv', deleting s0 sk L i lv'
    (SkMem (if decide (below k (ls i) ++ r = []) then <[sk:=with_level (lv - 1) L]> (sk_lists s)
            else sk_lists s)
       (<[c:=with_link (<[i:=follow r hd]>) nc]> (sk_nodes s)) (sk_world s)).
Proof using R KeyOrder0.
  intros [Hinfo Hl Hw Hp Hpv Hlv Htop] Hi Hf Hk c Hnc Hci. destruct (top_after i lv x r Hf Hk Htop) as [Htop' Hil].
  exists (if decide (below k (ls i) ++ r = []) then lv - 1 else lv). constructor; simpl; try done.
  - eapply same_info_trans; [done|]. eapply same_info_insert; [done|apply info_link].
  - rewrite Hl. case_decide; [by rewrite insert_insert_eq|done].
  - by eapply paths_unlinked.
  - eapply path_ext; [|exact Hpv]. intros y _. by rewrite prv_link.
  - case_decide; lia.
Qed.

(** The bottom level: the node is unlinked both ways and destroyed. *)
Lemma wp_unlink_bottom sk L lv s0 s x r Q :
  deleting s0 sk L 0 lv s → (0 < ml)%nat → from k (ls 0%nat) = x :: r → cmp k (kof get_key ob x) = 0 →
  nxt (sk_nodes s) 0 x = Some (follow r hd) →
  (∀ h' n, same_info h0 h' → h0 !! x = Some n →
     (∀ j, (j < ml)%nat → path (nxt h' j) hd (del k (ls j)) hd) →
     path (prv h') hd (reverse (del k (ls 0%nat))) hd →
     Q () (SkMem (<[sk:=with_size (sl_size L - 1) (with_level lv L)]> (sk_lists s0)) (delete x h')
             (destroyed L x n (sk_world s0)))) →
  wp (unlink_rest sk 0 (cursor hd (below k (ls 0%nat))) x) Q s.
Proof using R KeyOrder0.
  intros [Hinfo Hl Hw Hp Hpv Hlv Htop] Hml Hf Hk Hnx HQ. unfold unlink_rest. rewrite bool_decide_true by done.
  pose proof (cut_below _ _ _ k _ (sr_sorted _ _ _ _ _ _ _ R)) as Hcut. rewrite Hf in Hcut.
  destruct (sr_objs _ _ _ _ _ _ _ R x) as (n & Hn & _); [rewrite Hcut; set_solver|].
  destruct (sr_nonnull _ _ _ _ _ _ _ R x) as [_ Hxn]; [rewrite Hcut; set_solver|].
  assert (is_Some (h0 !! follow r hd)) as [nf Hnf].
  { destruct r as [|y r]; unfold follow; simpl.
    - destruct (nxt_some h0 0 hd (follow (ls 0%nat) hd)) as (nh & Hh & _); [|by eexists].
      apply (path_next _ hd [] (ls 0%nat)). by apply R.
    - destruct (sr_objs _ _ _ _ _ _ _ R y) as (ny & Hy & _); [rewrite Hcut; set_solver|]. by eexists. }
  destruct (same_info_lookup _ _ _ _ Hinfo Hnf) as (nf' & Hnf' & _).
  apply wp_bind. eapply wp_get_link; [done|]. apply wp_bind. eapply wp_mod_node; [done|].
  set (h' := <[follow r hd:=_]> (sk_nodes s)).
  assert (same_info h0 h') as Hinfo'.
  { eapply same_info_trans; [done|]. by eapply same_info_insert. }
  destruct (same_info_lookup _ _ _ _ Hinfo' Hn) as (n' & Hn' & Heq).
  apply wp_bind. eapply wp_destroy_node; [simpl; rewrite Hl; apply lookup_insert_eq|done|exact Hn'|].
  cbn [with_nodes sk_lists sk_nodes sk_world]. eapply wp_mod_list; [simpl; rewrite Hl; apply lookup_insert_eq|].
  cbn [sk_lists sk_nodes sk_world]. rewrite Hl, insert_insert_eq, Hw.
  assert (destroyed (with_level lv L) x n' (sk_world s0) = destroyed L x n (sk_world s0)) as ->.
  { unfold destroyed. unfold info in Heq. simpl.
    assert (sk_arr n' = sk_arr n ∧ sk_obj n' = sk_obj n) as [-> ->]; [split; congruence|done]. }
  apply HQ; [done..| |].
  - intros j Hj. specialize (Hp j Hj). eapply path_ext; [|exact Hp]. intros y _. unfold h'. by rewrite nxt_prev.
  - rewrite Hcut, reverse_app, reverse_cons, <-app_assoc in Hpv.
    unfold SkipSpec.del. rewrite Hf, decide_True, reverse_app by done.
    assert (NoDup (hd :: reverse r ++ [x] ++ reverse (below k (ls 0%nat)))) as Hnd.
    { pose proof (sr_nodup _ _ _ _ _ _ _ R) as [H1 H2]%NoDup_cons. rewrite Hcut in H1, H2.
      apply NoDup_cons. rewrite !reverse_Permutation. rewrite (Permutation_app_comm r). simpl.
      by rewrite Permutation_middle. }
    eapply path_remove; [exact Hpv|exact Hnd|..].
    + rewrite cursor_reverse, follow_reverse. unfold h'. rewrite prv_prev. by rewrite decide_True.
    + intros y. rewrite cursor_reverse. intros Hy. unfold h'. rewrite prv_prev. by rewrite decide_False.
Qed.

Lemma level_cursor_live h i :
  same_info h0 h → (i < ml)%nat →
  ∃ nc, h !! cursor hd (below k (ls i)) = Some nc ∧ (i < length (sk_link nc))%nat.
Proof using R KeyOrder0.
  intros Hs Hi. destruct (nxt_some h0 i (cursor hd (below k (ls i))) (follow (from k (ls i)) hd)) as (n & Hn & _ & Hl).
  { apply path_next. rewrite <-cut_below; [by apply R|done|by eapply level_sorted]. }
  destruct (same_info_lookup _ _ _ _ Hs Hn) as (n' & Hn' & Heq). exists n'. split; [done|].
  unfold info in Heq. injection Heq as _ _ _ Heq. lia.
Qed.

Lemma wp_delete_present fuel sk L s0 x r Q :
  (length (ls 0%nat) < fuel)%nat → from k (ls 0%nat) = x :: r → cmp k (kof get_key ob x) = 0 →
  (∀ h' n lv, same_info h0 h' → h0 !! x = Some n →
     (∀ j, (j < ml)%nat → path (nxt h' j) hd (del k (ls j)) hd) →
     path (prv h') hd (reverse (del k (ls 0%nat))) hd →
     0 ≤ lv ≤ sl_level L → (∀ j, lv ≤ Z.of_nat j → del k (ls j) = []) →
     Q () (SkMem (<[sk:=with_size (sl_size L - 1) (with_level lv L)]> (sk_lists s0)) (delete x h')
             (destroyed L x n (sk_world s0)))) →
  ∀ i lv node s, deleting s0 sk L i lv s → (0 < i ≤ ml)%nat →
    (∀ j, (j < i)%nat → node ∈ hd :: below k (ls j)) →
    wp (delete_levels fuel sk hd cmp get_key k i node) Q s.
Proof using R KeyOrder0.
  intros Hfuel Hf0 Hk0 HQ i. induction i as [|i IH]; intros lv node s Hdl Hi Hnode; [lia|].
  assert (path (nxt (sk_nodes s) i) hd (ls i) hd) as Hp.
  { pose proof (dl_paths _ _ _ _ _ _ Hdl i) as Hp. unfold del_from in Hp. rewrite decide_True in Hp by lia.
    apply Hp. lia. }
  simpl. apply wp_bind. eapply wp_advance_del; [apply Hdl|done|by apply Hnode; lia|done|].
  apply wp_bind. eapply wp_delete_level with (L := with_level lv L); [lia|apply Hdl|done|..].
  { rewrite (dl_lists _ _ _ _ _ _ Hdl). by rewrite lookup_insert_eq. }
  destruct (level_cursor_live (sk_nodes s) i) as (nc & Hnc & Hci); [apply Hdl|lia|].
  destruct i as [|i].
  - rewrite Hf0, decide_True by done. exists nc. split; [done|]. split; [done|].
    destruct (deleting_step _ _ _ _ _ _ _ _ _ Hdl ltac:(lia) Hf0 Hk0 Hnc Hci) as [lv' Hdl'].
    eapply (wp_unlink_bottom _ L lv' s0); [exact Hdl'|lia|done|done|..].
    + simpl. rewrite nxt_link by done. rewrite decide_False.
      * pose proof (cut_below _ _ _ k _ (sr_sorted _ _ _ _ _ _ _ R)) as Hcut. rewrite Hf0 in Hcut. rewrite Hcut in Hp.
        pose proof (path_next (nxt (sk_nodes s) 0) hd (below k (ls 0%nat) ++ [x]) r hd) as Hx. rewrite <-app_assoc in Hx.
        rewrite cursor_app in Hx. apply Hx, Hp.
      * intros [Heq _]. pose proof (level_nodup _ _ _ _ _ _ _ R 0) as Hnd.
        pose proof (cut_below _ _ _ k _ (sr_sorted _ _ _ _ _ _ _ R)) as Hcut. rewrite Hf0 in Hcut. rewrite Hcut in Hnd.
        pose proof (cursor_elem hd (below k (ls 0%nat))) as Hin. rewrite <-Heq in Hin.
        rewrite app_comm_cons in Hnd. apply NoDup_app in Hnd as (_ & Hd & _). apply (Hd x Hin). set_solver.
    + intros h' n Hs Hn Hps Hpv. simpl. apply wp_ret, HQ with (lv := lv'); try done; [apply Hdl'|].
      intros j Hj. apply (dl_top _ _ _ _ _ _ Hdl' j) in Hj. unfold del_from in Hj. by rewrite decide_False in Hj by lia.
  - assert (∀ lv' s', deleting s0 sk L (S i) lv' s' →
      wp (delete_levels fuel sk hd cmp get_key k (S i) (cursor hd (below k (ls (S i))))) Q s') as Hnext.
    { intros lv' s' Hdl'. eapply IH; [exact Hdl'|lia|]. intros j Hj. apply cursor_down. lia. }
    assert (del k (ls (S i)) = ls (S i) → deleting s0 sk L (S i) lv s) as Hsame.
    { intros Hd. destruct Hdl as [? ? ? Hps ? ? Htop]. assert (∀ j, del_from k (S (S i)) ls j = del_from k (S i) ls j) as Heq.
      { intros j. destruct (decide (j = S i)) as [->|]; [|by apply del_from_step]. unfold del_from.
        by rewrite decide_True, decide_False by lia. }
      constructor; try done.
      - intros j Hj. rewrite <-Heq. by apply Hps.
      - intros j Hj. rewrite <-Heq. by apply Htop. }
    destruct (del_cases _ get_key ob k _ (level_sorted _ _ _ _ _ _ _ R (S i))) as [[Hm Hd]|(y & q & Hf & Hk & _ & _)].
    + pose proof (first_match _ _ _ k _ (level_sorted _ _ _ _ _ _ _ R (S i))) as Hfm. rewrite Hm in Hfm. simpl in Hfm.
      destruct (SkipSpec.from cmp get_key ob k (ls (S i))) as [|y q]; [|case_decide; [done|]]; eapply Hnext, Hsame, Hd.
    + rewrite Hf, decide_True by done. exists nc. split; [done|]. split; [done|].
      destruct (deleting_step _ _ _ _ _ _ _ _ _ Hdl ltac:(lia) Hf Hk Hnc Hci) as [lv' Hdl'].
      apply wp_ret. by eapply Hnext.
Qed.

End delete.
