(* ===== verification/SkipFree.v ===== *)
(** * Whole-list operations of the skip list: delete, init, traversal, free *)

From stdpp Require Import gmap numbers functions sorting list.
From S2P Require Import Prelude CAlloc Chain SkipList SkipRep SkipSpec SkipInsert SkipOps SkipDelete.

Local Open Scope Z_scope.

Section free.
Context {K W : Type} `{!Alloc W, !Rand W, !AllocOk W, !RandOk W}.
Context (cmp : K → K → Z) `{!KeyOrder cmp} (get_key : Z → K).
Implicit Types (s : skmem K W) (ob : Z → Z) (ls : nat → list Z).
Abbreviation list_rep := (list_rep cmp get_key).

(** ** sklist_delete *)

Definition deleted ob (k : K) ls (j : nat) : list Z := del cmp get_key ob k (ls j).

Lemma skrep_deleted ob h h' hd ml ls k x r :
  skrep cmp get_key ob h hd ml ls → from cmp get_key ob k (ls 0%nat) = x :: r → cmp k (kof get_key ob x) = 0 →
  same_info h h' →
  (∀ j, (j < ml)%nat → path (nxt h' j) hd (deleted ob k ls j) hd) →
  path (prv h') hd (reverse (deleted ob k ls 0%nat)) hd →
  skrep cmp get_key ob (delete x h') hd ml (deleted ob k ls) ∧ ls 0%nat ≡ₚ x :: deleted ob k ls 0%nat.
Proof.
  intros R Hf Hk Hs Hp Hpv.
  pose proof (cut_below _ _ _ k _ (sr_sorted _ _ _ _ _ _ _ R)) as Hcut. rewrite Hf in Hcut.
  assert (deleted ob k ls 0%nat = below cmp get_key ob k (ls 0%nat) ++ r) as Hd0.
  { unfold deleted, del. by rewrite Hf, decide_True. }
  assert (ls 0%nat ≡ₚ x :: deleted ob k ls 0%nat) as Hperm.
  { rewrite Hcut at 1. rewrite Hd0. by rewrite <-Permutation_middle. }
  assert (∀ j, deleted ob k ls j `sublist_of` ls j) as Hsub.
  { intros j. apply del_sublist; [done|]. by eapply level_sorted. }
  assert (levels_ok (deleted ob k ls)) as Hlv.
  { intros j. apply del_sub; [done|by eapply level_sorted|apply R]. }
  assert (NoDup (hd :: x :: deleted ob k ls 0%nat)) as Hnd.
  { rewrite <-Hperm. apply R. }
  assert (∀ j, x ∉ hd :: deleted ob k ls j) as Hx.
  { intros j. apply NoDup_cons in Hnd as [Hh Hnd]. apply NoDup_cons in Hnd as [Hx _].
    rewrite elem_of_cons. intros [->|Hin]; [set_solver|]. apply Hx.
    eapply sublist_subseteq; [apply levels_le; [exact Hlv|]|exact Hin]. lia. }
  split; [|done]. constructor; try done.
  - apply R.
  - intros j Hj. eapply path_ext; [|by apply Hp]. intros y Hy. unfold nxt.
    rewrite lookup_delete_ne; [done|]. intros ->. by apply (Hx j).
  - intros j Hj. apply sublist_nil_r. rewrite <-(sr_high _ _ _ _ _ _ _ R j Hj). apply Hsub.
  - apply NoDup_cons in Hnd as [Hh Hnd]. apply NoDup_cons in Hnd as [_ Hnd]. apply NoDup_cons. set_solver.
  - eapply path_ext; [|exact Hpv]. intros y Hy. unfold prv. rewrite lookup_delete_ne; [done|]. intros ->.
    apply (Hx 0%nat). by rewrite elem_of_cons, elem_of_reverse in *.
  - eapply sublist_sorted; [apply Hsub|apply R].
  - intros y Hy. specialize (Hx 0%nat). rewrite lookup_delete_ne by set_solver.
    eapply objs_at_same; [exact Hs|apply R|]. eapply sublist_subseteq; [apply Hsub|done].
  - intros y Hy. apply R. eapply sublist_subseteq; [apply Hsub|done].
Qed.

Lemma owned_destroyed (L : sklist K W) x n w :
  (∀ d o w, sl_destroy L = Some d → owned (d o w) = owned w) →
  owned (destroyed L x n w) = owned w ∖ {[sk_arr n]} ∖ {[x]}.
Proof.
  intros Hd. unfold destroyed. rewrite !dealloc_ok. do 2 f_equal.
  destruct (sl_destroy L) as [d|]; [|done]. case_bool_decide; [done|]. by apply Hd.
Qed.

Lemma sk_heap_destroyed s h' (lists : gmap Z (sklist K W)) x n (L : sklist K W) :
  sk_heap s → same_info (sk_nodes s) h' → dom lists = dom (sk_lists s) → sk_nodes s !! x = Some n →
  (∀ d o w, sl_destroy L = Some d → owned (d o w) = owned w) →
  sk_heap (SkMem lists (delete x h') (destroyed L x n (sk_world s))).
Proof.
  intros Hh Hs Hl Hn Hd. destruct (same_info_lookup _ _ _ _ Hs Hn) as (n' & Hn' & Heq).
  assert (sk_arr n = sk_arr n') as Harr by (unfold info in Heq; congruence).
  assert (sk_heap (SkMem lists h' (sk_world s))) as [H1 H2 H3 H4 H5] by (eapply sk_heap_same; eauto).
  simpl in *. pose proof Hn' as Hxd%elem_of_dom_2. destruct (H4 x n' Hn') as (Ha1 & Ha2 & Ha3). rewrite <-Harr in *.
  constructor; simpl; rewrite ?(owned_destroyed _ _ _ _ Hd), ?dom_delete_L; [set_solver..| |].
  - intros y m [Hy Hm]%lookup_delete_Some. destruct (H4 y m Hm) as (? & ? & ?).
    assert (sk_arr m ≠ sk_arr n) by (intros Hc; apply Hy; symmetry; eapply H5; [done..|by rewrite Hc]).
    split_and!; set_solver.
  - intros y z m m' [_ Hm]%lookup_delete_Some [_ Hm']%lookup_delete_Some. by eapply H5.
Qed.

Lemma wp_sklist_delete fuel sk L ls ob k Q s :
  list_rep s sk L ls ob → sk_heap s → (length (ls 0%nat) < fuel)%nat →
  (matching cmp get_key ob k (ls 0%nat) = [] → Q 0 s) →
  (∀ x r h' n lv, from cmp get_key ob k (ls 0%nat) = x :: r → cmp k (kof get_key ob x) = 0 →
     sk_nodes s !! x = Some n → sk_obj n = ob x → ls 0%nat ≡ₚ x :: deleted ob k ls 0%nat →
     let L' := with_size (sl_size L - 1) (with_level lv L) in
     let s' := SkMem (<[sk:=L']> (sk_lists s)) (delete x h') (destroyed L x n (sk_world s)) in
     same_info (sk_nodes s) h' → list_rep s' sk L' (deleted ob k ls) ob → sk_heap s' → Q 0 s') →
  wp (sklist_delete fuel sk (Some k)) Q s.
Proof.
  intros [Hsk HL Hc Hg R Hm Hlv Htop Hsz Hd] Hh Hfuel HN HQ. unfold sklist_delete.
  rewrite bool_decide_false by done. apply wp_bind. eapply wp_get_list; [done|]. rewrite Hc, Hg.
  rewrite bool_decide_false by apply R. apply wp_bind, wp_countdown; [lia|]. apply wp_bind.
  destruct (del_cases _ get_key ob k _ (sr_sorted _ _ _ _ _ _ _ R)) as [[Hno _]|(x & r & Hf & Hk & Hcut & _)].
  { eapply wp_delete_absent; [done|exact R|lia|done|done|done|done|set_solver|]. apply wp_ret. by apply HN. }
  assert (0 < sl_level L) as Hpos.
  { destruct (decide (sl_level L ≤ 0)) as [Hle|]; [|lia]. rewrite Htop in Hf by lia. done. }
  eapply wp_delete_present with (s0 := s) (L := L) (lv := sl_level L); [done|exact R|done|exact Hf|exact Hk|..].
  - intros h' n lv Hs Hn Hp Hpv Hlv' Htop'. apply wp_ret.
    destruct (skrep_deleted _ _ _ _ _ _ _ _ _ R Hf Hk Hs Hp Hpv) as [R' Hperm].
    destruct (sr_objs _ _ _ _ _ _ _ R x) as (n' & Hn' & Hob); [rewrite Hcut; set_solver|].
    apply (HQ x r h' n lv); try done; [congruence|..].
    + constructor; simpl; try done; [by rewrite lookup_insert_eq|lia|].
      rewrite Hsz, Hperm. simpl. lia.
    + eapply sk_heap_destroyed; try done. rewrite dom_insert_L. apply elem_of_dom_2 in HL. set_solver.
  - constructor; try done.
    + rewrite insert_id; [done|]. rewrite HL. by destruct L.
    + intros j Hj. unfold del_from. case_decide; [by apply R|].
      pose proof (sr_paths _ _ _ _ _ _ _ R j Hj) as Hp. rewrite Htop in * by lia. done.
    + apply R.
    + lia.
    + intros j Hj. unfold del_from. rewrite decide_False by lia. by rewrite Htop.
  - lia.
  - set_solver.
Qed.

(** ** sklist_init *)

Lemma wp_link_head hd i n nn Q s :
  sk_nodes s !! hd = Some nn → length (sk_link nn) = (i + n)%nat → take i (sk_link nn) = replicate i hd →
  Q () (with_nodes (<[hd:=with_link (λ _, replicate (i + n) hd) nn]> (sk_nodes s)) s) →
  wp (link_head hd i n) Q s.
Proof.
  revert i nn s. induction n as [|n IH]; intros i nn s Hn Hl Ht HQ; simpl.
  - apply wp_ret. rewrite Nat.add_0_r in *. rewrite take_ge in Ht by lia.
    rewrite insert_id in HQ; [by destruct s|]. rewrite Hn. f_equal. destruct nn; simpl in *. unfold with_link. simpl. by rewrite Ht.
  - apply wp_bind. eapply wp_set_link; [done|lia|]. eapply IH.
    + simpl. by rewrite lookup_insert_eq.
    + simpl. rewrite length_insert. lia.
    + simpl. rewrite take_S_r with (x := hd).
      * rewrite take_insert_ge, Ht by lia. by rewrite <-replicate_cons_app.
      * apply list_lookup_insert_eq. lia.
    + replace (S i + n)%nat with (i + S n)%nat by lia. cbn [with_nodes sk_nodes]. rewrite insert_insert_eq. exact HQ.
Qed.

(** A new list is empty; the client fills in the callbacks. *)
Lemma wp_sklist_init ml Q s :
  sk_heap s → 0 < ml →
  (∀ w, owned w = owned (sk_world s) → Q NULL (SkMem (sk_lists s) (sk_nodes s) w)) →
  (∀ sk hd arr w, sk ≠ NULL → sk_lists s !! sk = None → sk_nodes s !! hd = None → hd ≠ NULL →
     let n := SkNode arr (replicate (Z.to_nat ml) hd) hd ml NULL in
     let s' := SkMem (<[sk:=SkList hd ml 0 0 None None None]> (sk_lists s)) (<[hd:=n]> (sk_nodes s)) w in
     sk_heap s' → skrep cmp get_key id (sk_nodes s') hd (Z.to_nat ml) (λ _, []) → Q sk s') →
  wp (sklist_init ml) Q s.
Proof.
  intros Hh Hml HN HQ. unfold sklist_init. rewrite bool_decide_false by lia. apply wp_bind.
  destruct (alloc sizeof_sklist (sk_world s)) as [sk w] eqn:Ha. eapply wp_sk_call; [done|].
  apply alloc_ok in Ha as [[-> Ho]|(Hsk & Hfr & Ho)].
  { rewrite bool_decide_true by done. apply wp_ret. by apply HN. }
  rewrite bool_decide_false by done. apply wp_bind, wp_set_lists. cbn [sk_lists sk_nodes sk_world].
  pose proof Hh as [H1 H2 H3 H4 H5].
  assert (sk_lists s !! sk = None) as Hnone by (by eapply not_owned_fresh).
  set (s1 := SkMem _ _ w). assert (sk_heap s1) as Hh1.
  { constructor; simpl; rewrite ?Ho, ?dom_insert_L; [set_solver..| |done].
    intros x n Hx. destruct (H4 x n Hx) as (? & ? & ?). split_and!; set_solver. }
  apply wp_bind. eapply wp_new_node; [exact Hh1|..].
  - intros w' Hw'. rewrite bool_decide_true by done. apply wp_bind, wp_set_lists. apply wp_bind. eapply wp_sk_call; [done|].
    apply wp_ret. simpl. rewrite delete_insert_id by done. apply HN. rewrite dealloc_ok, Hw'. simpl. rewrite Ho. set_solver.
  - intros hd arr w' Hhd Hfresh s2 Hh2. rewrite bool_decide_false by done. simpl in Hfresh.
    apply wp_bind. eapply wp_mod_list; [simpl; apply lookup_insert_eq|]. apply wp_bind.
    eapply wp_link_head; [simpl; apply lookup_insert_eq|simpl; by rewrite length_replicate|done|].
    apply wp_bind. eapply wp_mod_node; [simpl; apply lookup_insert_eq|]. apply wp_ret.
    cbn [with_nodes sk_lists sk_nodes sk_world]. subst s2. cbn [sk_lists sk_nodes sk_world s1].
    rewrite !insert_insert_eq. unfold with_prev, with_link. cbn [sk_arr sk_link sk_prev sk_level sk_obj].
    apply HQ; try done.
    + eapply sk_heap_same; [exact Hh2| | |done]; simpl.
      * intros x. destruct (decide (x = hd)) as [->|Hx].
        -- rewrite !lookup_insert_eq. unfold info. simpl. by rewrite !length_replicate.
        -- by rewrite !lookup_insert_ne.
      * by rewrite !dom_insert_L.
    + constructor; [done|..].
      * intros i Hi. simpl. unfold nxt. rewrite lookup_insert_eq. simpl. by rewrite lookup_replicate_2.
      * done.
      * intros i. apply sublist_nil_l.
      * apply NoDup_singleton.
      * simpl. unfold prv. by rewrite lookup_insert_eq.
      * constructor.
      * by intros x Hx%not_elem_of_nil.
      * by intros x Hx%not_elem_of_nil.
Qed.

(** ** Traversal *)

Lemma wp_sklist_foreach fuel sk L ls ob Q s :
  list_rep s sk L ls ob → (length (ls 0%nat) < fuel)%nat →
  Q ((λ x, (x, ob x)) <$> ls 0%nat) s → wp (sklist_foreach fuel sk) Q s.
Proof.
  intros [Hsk HL Hc Hg R Hm Hlv Htop Hsz _] Hfuel HQ. unfold sklist_foreach.
  apply wp_bind. eapply wp_get_list; [done|].
  pose proof (sr_paths _ _ _ _ _ _ _ R 0%nat) as Hp. specialize (Hp ltac:(lia)).
  apply wp_bind. eapply wp_get_link; [by apply (path_next _ _ [])|].
  apply (wp_loop_variant (λ m '(node, acc) s', s' = s ∧ ∃ xs ys, ls 0%nat = xs ++ ys ∧ m = length ys ∧
    node = follow ys (sl_head L) ∧ acc = (λ x, (x, ob x)) <$> xs)) with (m := length (ls 0%nat)); [|done|].
  2: { split; [done|]. by exists [], (ls 0%nat). }
  intros m [node acc] s' (-> & xs & ys & Hl & -> & -> & ->). rewrite Hl in Hp.
  destruct ys as [|y ys]; unfold follow; simpl.
  - destruct (nxt_some _ _ _ _ (path_next _ _ [] _ _ Hp)) as (nh & Hh & _).
    apply wp_bind. eapply wp_get_node; [exact Hh|]. rewrite bool_decide_true by done. apply wp_ret.
    by rewrite Hl, app_nil_r in HQ.
  - destruct (sr_objs _ _ _ _ _ _ _ R y) as (n & Hn & Hob); [rewrite Hl; set_solver|].
    apply wp_bind. eapply wp_get_node; [done|]. rewrite bool_decide_false.
    2: { intros ->. pose proof (sr_nodup _ _ _ _ _ _ _ R) as [Hn' _]%NoDup_cons. rewrite Hl in Hn'. set_solver. }
    apply wp_bind. eapply wp_get_link.
    { pose proof (path_next (nxt (sk_nodes s) 0) (sl_head L) (xs ++ [y]) ys (sl_head L)) as Hx.
      rewrite <-app_assoc, cursor_app in Hx. apply Hx, Hp. }
    apply wp_ret. exists (length ys). split; [simpl; lia|]. split; [done|]. exists (xs ++ [y]), ys.
    split_and!; [by rewrite <-app_assoc|done|done|]. by rewrite fmap_app, Hob.
Qed.

(** Backwards, along [prev]. *)
Lemma wp_sklist_foreach_reverse fuel sk L ls ob Q s :
  list_rep s sk L ls ob → (length (ls 0%nat) < fuel)%nat →
  Q ((λ x, (x, ob x)) <$> reverse (ls 0%nat)) s → wp (sklist_foreach_reverse fuel sk) Q s.
Proof.
  intros [Hsk HL Hc Hg R Hm Hlv Htop Hsz _] Hfuel HQ. unfold sklist_foreach_reverse.
  apply wp_bind. eapply wp_get_list; [done|]. pose proof (sr_prev _ _ _ _ _ _ _ R) as Hp.
  assert (∀ xs ys, reverse (ls 0%nat) = xs ++ ys → ∃ n, sk_nodes s !! cursor (sl_head L) xs = Some n ∧
    sk_prev n = follow ys (sl_head L)) as Hstep.
  { intros xs ys Hl. rewrite Hl in Hp. apply path_next in Hp. unfold prv in Hp.
    apply fmap_Some in Hp as (n & Hn & Heq). by exists n. }
  destruct (Hstep [] _ eq_refl) as (nh & Hh & Hph).
  apply wp_bind. eapply wp_get_node; [exact Hh|].
  apply (wp_loop_variant (λ m '(node, acc) s', s' = s ∧ ∃ xs ys, reverse (ls 0%nat) = xs ++ ys ∧ m = length ys ∧
    node = follow ys (sl_head L) ∧ acc = (λ x, (x, ob x)) <$> xs)) with (m := length (ls 0%nat)); [|done|].
  2: { split; [done|]. exists [], (reverse (ls 0%nat)). rewrite length_reverse. done. }
  intros m [node acc] s' (-> & xs & ys & Hl & -> & -> & ->).
  destruct ys as [|y ys]; unfold follow; simpl.
  - apply wp_bind. eapply wp_get_node; [exact Hh|]. rewrite bool_decide_true by done. apply wp_ret.
    by rewrite Hl, app_nil_r in HQ.
  - assert (y ∈ ls 0%nat) as Hy by (apply elem_of_reverse; rewrite Hl; set_solver).
    destruct (sr_objs _ _ _ _ _ _ _ R y Hy) as (n & Hn & Hob).
    apply wp_bind. eapply wp_get_node; [done|]. rewrite bool_decide_false.
    2: { intros ->. by pose proof (sr_nodup _ _ _ _ _ _ _ R) as [Hn' _]%NoDup_cons. }
    apply wp_ret. exists (length ys). split; [simpl; lia|]. split; [done|]. exists (xs ++ [y]), ys.
    destruct (Hstep (xs ++ [y]) ys) as (n' & Hn' & Hpn); [by rewrite <-app_assoc|].
    rewrite cursor_app in Hn'. change (cursor _ [y]) with y in Hn'. unfold follow in Hpn.
    split_and!; [by rewrite <-app_assoc|done|congruence|]. by rewrite fmap_app, Hob.
Qed.

(** ** sklist_free *)

(** The world after destroying the nodes [xs] in order. *)
Definition wipe (L : sklist K W) (h : gmap Z sknode) (xs : list Z) (w : W) : W :=
  foldl (λ w x, match h !! x with Some n => destroyed L x n w | None => w end) w xs.

Lemma destroyed_ext (L L' : sklist K W) x n n' w :
  sl_destroy L' = sl_destroy L → info n' = info n → destroyed L' x n' w = destroyed L x n w.
Proof.
  unfold destroyed, info. intros -> Hi. assert (sk_arr n' = sk_arr n ∧ sk_obj n' = sk_obj n) as [-> ->];
    [split; congruence|done].
Qed.

(** The first of the sorted nodes is the first node with its own key. *)
Lemma from_first ob x l :
  StronglySorted (key_le cmp get_key ob) (x :: l) →
  from cmp get_key ob (kof get_key ob x) (x :: l) = x :: l ∧
  del cmp get_key ob (kof get_key ob x) (x :: l) = l.
Proof.
  intros [Hl Hx]%StronglySorted_inv.
  assert (below cmp get_key ob (kof get_key ob x) (x :: l) = []) as Hb.
  { apply list_nil_subseteq. intros y [Hy Hin]%list_elem_of_filter.
    apply elem_of_cons in Hin as [->|Hin]; [rewrite cmp_refl in Hy; lia|].
    rewrite Forall_forall in Hx. specialize (Hx y Hin). unfold key_le in Hx. lia. }
  assert (from cmp get_key ob (kof get_key ob x) (x :: l) = x :: l) as Hf.
  { pose proof (cut_below cmp get_key ob (kof get_key ob x) (x :: l)) as Hc. rewrite Hb in Hc. simpl in Hc.
    symmetry. apply Hc. by constructor. }
  split; [done|]. unfold del. rewrite Hb, Hf, decide_True by apply cmp_refl. done.
Qed.

(** Every object is destroyed once, in key order, and nothing of the list is left. *)
Lemma wp_sklist_free fuel sk L ls ob nh Q s :
  list_rep s sk L ls ob → sk_heap s → (length (ls 0%nat) < fuel)%nat → sk_nodes s !! sl_head L = Some nh →
  (∀ s', sk_lists s' = delete sk (sk_lists s) →
     (∀ x, sk_nodes s' !! x = None ∨ info <$> sk_nodes s' !! x = info <$> sk_nodes s !! x) →
     (∀ x, x ∈ sl_head L :: ls 0%nat → sk_nodes s' !! x = None) →
     (∀ x, x ∉ sl_head L :: ls 0%nat → info <$> sk_nodes s' !! x = info <$> sk_nodes s !! x) →
     sk_world s' = dealloc sk (destroyed L (sl_head L) nh (wipe L (sk_nodes s) (ls 0%nat) (sk_world s))) →
     Q () s') →
  wp (sklist_free fuel sk) Q s.
Proof.
  intros Hrep Hh Hfuel Hnh HQ. unfold sklist_free. rewrite bool_decide_false by apply Hrep.
  apply wp_bind. eapply wp_get_list; [apply Hrep|]. pose proof (lr_rep _ _ _ _ _ _ _ Hrep) as R.
  assert (0 < Z.to_nat (sl_max_level L))%nat as Hml by (pose proof (lr_max _ _ _ _ _ _ _ Hrep); lia).
  apply wp_bind. eapply wp_get_link; [apply (path_next _ _ []), R; lia|]. apply wp_bind.
  apply (wp_loop_variant (λ m node s', ∃ xs ys L' ls', ls 0%nat = xs ++ ys ∧ m = length ys ∧
    node = follow ys (sl_head L) ∧ ls' 0%nat = ys ∧ list_rep s' sk L' ls' ob ∧ sk_heap s' ∧
    sl_head L' = sl_head L ∧ sl_destroy L' = sl_destroy L ∧ sl_max_level L' = sl_max_level L ∧
    sk_lists s' = <[sk:=L']> (sk_lists s) ∧ sk_world s' = wipe L (sk_nodes s) xs (sk_world s) ∧
    (∀ x, x ∈ xs → sk_nodes s' !! x = None) ∧
    (∀ x, x ∉ xs → info <$> sk_nodes s' !! x = info <$> sk_nodes s !! x))) with (m := length (ls 0%nat)); [|done|].
  2: { exists [], (ls 0%nat), L, ls. split_and!; try done; [|set_solver].
       rewrite insert_id; [done|apply Hrep]. }
  intros m node s' (xs & ys & L' & ls' & Hl & -> & -> & Hys & Hrep' & Hh' & Hhd & Hds & Hmx & Hls & Hw & Hgone & Hkeep).
  pose proof (lr_rep _ _ _ _ _ _ _ Hrep') as R'. rewrite Hhd, Hmx in R'.
  pose proof (sr_nodup _ _ _ _ _ _ _ R) as Hnd. rewrite Hl in Hnd.
  destruct ys as [|y ys]; unfold follow; simpl.
  - rewrite bool_decide_true by done. apply wp_ret. rewrite app_nil_r in *. subst xs.
    apply NoDup_cons in Hnd as [Hhn _].
    pose proof (Hkeep (sl_head L) Hhn) as Hih. rewrite Hnh in Hih. simpl in Hih.
    apply fmap_Some in Hih as (nh' & Hnh' & Hinf).
    apply wp_bind. eapply wp_destroy_node; [apply Hrep'|apply R|done|].
    apply wp_bind, wp_set_lists. eapply wp_sk_call; [done|]. cbn [sk_lists sk_nodes sk_world]. apply HQ; simpl.
    + rewrite Hls. by rewrite delete_insert_eq.
    + intros x. destruct (decide (x = sl_head L)) as [->|Hx]; [left; apply lookup_delete_eq|].
      rewrite lookup_delete_ne by done. destruct (decide (x ∈ ls 0%nat)); [left; by apply Hgone|right; by apply Hkeep].
    + intros x [->|Hx]%elem_of_cons; [apply lookup_delete_eq|].
      rewrite lookup_delete_ne by set_solver. by apply Hgone.
    + intros x Hx. rewrite lookup_delete_ne by set_solver. apply Hkeep. set_solver.
    + rewrite Hw. f_equal. by apply destroyed_ext.
  - assert (y ∉ xs) as Hyx by (apply NoDup_cons in Hnd as [_ (_ & Hd & _)%NoDup_app]; set_solver).
    assert (y ≠ sl_head L) as Hyh by (apply NoDup_cons in Hnd as [Hd _]; set_solver).
    rewrite bool_decide_false by done.
    apply wp_bind. eapply wp_get_link.
    { pose proof (sr_paths _ _ _ _ _ _ _ R' 0%nat Hml) as Hp. rewrite Hys in Hp.
      apply (path_next _ _ [y] ys) in Hp. exact Hp. }
    destruct (sr_objs _ _ _ _ _ _ _ R' y) as (n & Hn & Hob); [rewrite Hys; set_solver|].
    apply wp_bind. eapply wp_get_node; [done|]. rewrite (lr_get _ _ _ _ _ _ _ Hrep), Hob.
    fold (kof get_key ob y). pose proof (sr_sorted _ _ _ _ _ _ _ R') as Hs. rewrite Hys in Hs.
    destruct (from_first ob y ys Hs) as [Hfr Hde].
    apply wp_bind. eapply wp_sklist_delete; [exact Hrep'|done| |..].
    + rewrite Hys. rewrite Hl, length_app in Hfuel. simpl in *. lia.
    + rewrite Hys. intros Hm. exfalso. assert (y ∈ @nil Z); [|set_solver]. rewrite <-Hm.
      apply list_elem_of_filter. split; [apply cmp_refl|set_solver].
    + intros x r h' n' lv Hf Hk Hn' Hob' Hperm L2 s2 Hsame Hrep2 Hh2. apply wp_ret.
      rewrite Hys, Hfr in Hf. injection Hf as <- <-. rewrite Hn in Hn'. injection Hn' as <-.
      exists (length ys). split; [simpl; lia|]. exists (xs ++ [y]), ys, L2, (deleted ob (kof get_key ob y) ls').
      assert (info <$> sk_nodes s !! y = Some (info n)) as Hiy by (rewrite <-Hkeep, Hn by done; done).
      apply fmap_Some in Hiy as (ny & Hny & Hiny).
      split_and!; try done.
      * by rewrite Hl, <-app_assoc.
      * unfold deleted. by rewrite Hys.
      * simpl. by rewrite Hls, insert_insert_eq.
      * simpl. unfold wipe. rewrite foldl_app. simpl. rewrite Hny, Hw. by apply destroyed_ext.
      * intros x [Hx|Hx]%elem_of_app; simpl.
        -- rewrite lookup_delete_ne by set_solver. specialize (Hsame x). rewrite (Hgone x Hx) in Hsame.
           simpl in Hsame. by apply fmap_None in Hsame.
        -- apply list_elem_of_singleton in Hx as ->. apply lookup_delete_eq.
      * intros x Hx. simpl. rewrite lookup_delete_ne by set_solver. rewrite Hsame. apply Hkeep. set_solver.
Qed.

End free.
