(* ===== verification/SkipListR.v ===== *)
(** * The recursive skip list (c_data_structure/skiplist/skiplist.r.h, skiplist.r.c)

    The earlier version: integer keys, levels ended by NULL, recursion instead of
    loops.  Reading [link[-1]], which the entry points do on a list that never
    had an element, is a fault here; so is counting past the range of [int].
    One command per function of the C file; its trace output is left out. *)

From stdpp Require Import gmap numbers list.
From S2P Require Import Prelude CAlloc.

Local Open Scope Z_scope.

(** ** State *)

Record rnode := RNode {
  rn_arr : Z;          (* address of the array [link] *)
  rn_link : list Z;    (* its contents *)
  rn_level : Z;
  rn_key : Z;
}.

Definition r_with_link (f : list Z → list Z) (n : rnode) : rnode :=
  RNode (rn_arr n) (f (rn_link n)) (rn_level n) (rn_key n).

Record rlist := RList { rl_head : Z; rl_max_level : Z; rl_level : Z; rl_size : Z }.

Definition r_with_level (n : Z) (L : rlist) : rlist := RList (rl_head L) (rl_max_level L) n (rl_size L).
Definition r_with_size (n : Z) (L : rlist) : rlist := RList (rl_head L) (rl_max_level L) (rl_level L) n.

(** Headers, nodes, the global counter of comparisons, the rest of the world. *)
Record rmem (W : Type) := RMem {
  rm_lists : gmap Z rlist;
  rm_nodes : gmap Z rnode;
  rm_COUNT : Z;
  rm_world : W;
}.

Arguments RMem {W} _ _ _ _.
Arguments rm_lists {W} _.
Arguments rm_nodes {W} _.
Arguments rm_COUNT {W} _.
Arguments rm_world {W} _.

#[global] Instance rm_nodes_lens W : Lens (rmem W) (gmap Z rnode).
Proof.
  by refine {| view := rm_nodes; update := λ x s, RMem (rm_lists s) x (rm_COUNT s) (rm_world s) |};
    intros; destruct s.
Defined.

#[global] Instance rm_lists_lens W : Lens (rmem W) (gmap Z rlist).
Proof.
  by refine {| view := rm_lists; update := λ x s, RMem x (rm_nodes s) (rm_COUNT s) (rm_world s) |};
    intros; destruct s.
Defined.

Section skiplist_r.
Context {W : Type} `{!Alloc W, !Rand W}.
Implicit Types (s : rmem W).
Abbreviation cmd := (cmd (rmem W)).

Definition r_call {A} (f : W → A * W) : cmd A :=
  λ s, let '(a, w) := f (rm_world s) in Done (a, RMem (rm_lists s) (rm_nodes s) (rm_COUNT s) w).
Definition r_set_nodes (f : gmap Z rnode → gmap Z rnode) : cmd () :=
  λ s, Done ((), RMem (rm_lists s) (f (rm_nodes s)) (rm_COUNT s) (rm_world s)).
Definition r_set_lists (f : gmap Z rlist → gmap Z rlist) : cmd () :=
  λ s, Done ((), RMem (f (rm_lists s)) (rm_nodes s) (rm_COUNT s) (rm_world s)).

(** [COUNT++] *)
Definition tick : cmd () :=
  λ s, match s32_value (rm_COUNT s + 1) () with
       | Done (c, _) => Done ((), RMem (rm_lists s) (rm_nodes s) c (rm_world s))
       | _ => Fault
       end.

Definition r_get_list (p : Z) : cmd rlist := zoom (load p).
Definition r_mod_list (p : Z) (f : rlist → rlist) : cmd () := zoom (modify p f).
Definition r_get_node (p : Z) : cmd rnode := zoom (load p).

(** [p->link[n]], read and written; outside the array is a fault. *)
Definition r_get_link (p n : Z) : cmd Z :=
  v ← r_get_node p;
  if bool_decide (0 <= n) then of_option (rn_link v !! Z.to_nat n) else fault.
Definition r_set_link (p n q : Z) : cmd () :=
  v ← r_get_node p;
  if decide (0 <= n < Z.of_nat (length (rn_link v)))
  then zoom (modify p (r_with_link (<[Z.to_nat n:=q]>))) else fault.

(** ** Nodes *)

Definition sizeof_rnode : Z := 16.
Definition sizeof_rlist : Z := 24.

Definition r_new_node (key n : Z) : cmd Z :=
  node ← r_call (alloc sizeof_rnode);
  if bool_decide (node = NULL) then mret NULL else
  r_set_nodes (<[node := RNode 0 [] 0 0]>);;
  link ← r_call (alloc (8 * n));
  if bool_decide (link = NULL) then
    r_set_nodes (delete node);; r_call (λ w, ((), dealloc node w));; mret NULL
  else
  r_set_nodes (<[node := RNode link (replicate (Z.to_nat n) NULL) n key]>);;
  mret node.

Definition r_destroy_node (node : Z) : cmd () :=
  if bool_decide (node = NULL) then mret () else
  n ← r_get_node node;
  r_call (λ w, ((), dealloc (rn_arr n) w));;
  r_set_nodes (delete node);;
  r_call (λ w, ((), dealloc node w)).

(** [!p || test] where [test] looks at the key of the node at [p]. *)
Definition null_or (p : Z) (test : Z → bool) : cmd bool :=
  if bool_decide (p = NULL) then mret true else v ← r_get_node p; mret (test (rn_key v)).

(** ** Search *)

Fixpoint r_search_node (fuel : nat) (node key n : Z) : cmd Z :=
  match fuel with
  | O => out_of_fuel
  | S fuel =>
      if bool_decide (node = NULL) then mret NULL else
      v ← r_get_node node;
      tick;;
      if bool_decide (rn_key v = key) then mret node else
      tick;;
      nx ← r_get_link node n;
      stop ← null_or nx (λ k, bool_decide (key < k));
      if (stop : bool) then
        if bool_decide (n = 0) then mret NULL else r_search_node fuel node key (n - 1)
      else r_search_node fuel nx key n
  end.

Definition r_sklist_search (fuel : nat) (sk key : Z) : cmd Z :=
  L ← r_get_list sk;
  r_search_node fuel (rl_head L) key (rl_level L - 1).

(** ** Insertion *)

Definition r_rand_level (sk : Z) : cmd Z :=
  t ← r_call rand;
  L ← r_get_list sk;
  i ← loop (S (Z.to_nat (rl_max_level L))) (λ '(i, j),
        if bool_decide (i < rl_max_level L) then
          if bool_decide (RAND_MAX / j < t) then mret (inr i)
          else j' ← s32_value (j + j); mret (inl (i + 1, j'))
        else mret (inr i)) (1, 2);
  (if bool_decide (rl_level L < i) then r_mod_list sk (r_with_level i) else mret ());;
  mret i.

Fixpoint r_insert_node (fuel : nat) (node new n : Z) : cmd () :=
  match fuel with
  | O => out_of_fuel
  | S fuel =>
      nx ← r_get_link node n;
      stop ← (if bool_decide (nx = NULL) then mret true
              else v ← r_get_node new; w ← r_get_node nx; mret (bool_decide (rn_key v < rn_key w)));
      if (stop : bool) then
        v ← r_get_node new;
        (if bool_decide (n < rn_level v) then
           r_set_link new n nx;;
           r_set_link node n new
         else mret ());;
        if bool_decide (n = 0) then mret () else r_insert_node fuel node new (n - 1)
      else r_insert_node fuel nx new n
  end.

Definition r_sklist_insert (fuel : nat) (sk key : Z) : cmd () :=
  lv ← r_rand_level sk;
  node ← r_new_node key lv;
  L ← r_get_list sk;
  r_insert_node fuel (rl_head L) node (rl_level L - 1);;
  L ← r_get_list sk;
  size ← s32_value (rl_size L + 1);
  r_mod_list sk (r_with_size size).

(** ** Deletion *)

Fixpoint r_delete_node (fuel : nat) (node key n : Z) : cmd () :=
  match fuel with
  | O => out_of_fuel
  | S fuel =>
      nx ← r_get_link node n;
      stop ← null_or nx (λ k, bool_decide (key <= k));
      if (stop : bool) then
        hit ← (if bool_decide (nx = NULL) then mret false
               else v ← r_get_node nx; mret (bool_decide (key = rn_key v)));
        if (hit : bool) then
          nx2 ← r_get_link nx n;
          r_set_link node n nx2;;
          if bool_decide (n = 0) then r_destroy_node nx else r_delete_node fuel node key (n - 1)
        else if bool_decide (n = 0) then mret () else r_delete_node fuel node key (n - 1)
      else r_delete_node fuel nx key n
  end.

Definition r_sklist_delete (fuel : nat) (sk key : Z) : cmd () :=
  L ← r_get_list sk;
  r_delete_node fuel (rl_head L) key (rl_level L - 1);;
  L ← r_get_list sk;
  size ← s32_value (rl_size L - 1);
  r_mod_list sk (r_with_size size).

(** ** Creation *)

Definition r_sklist_init (max_level : Z) : cmd Z :=
  sk ← r_call (alloc sizeof_rlist);
  if bool_decide (sk = NULL) then mret NULL else
  r_set_lists (<[sk := RList 0 0 0 0]>);;
  head ← r_new_node (-1) max_level;
  if bool_decide (head = NULL) then
    r_set_lists (delete sk);; r_call (λ w, ((), dealloc sk w));; mret NULL
  else
  r_mod_list sk (λ _, RList head max_level 0 0);;
  mret sk.

End skiplist_r.
