(* ===== verification/SkipRSpec.v ===== *)
(** * The recursive skip list: representation and search *)

From stdpp Require Import gmap numbers sorting list.
From S2P Require Import Prelude CAlloc Chain SkipSpec SkipListR.

Local Open Scope Z_scope.

(** Integer keys. *)
Definition int_cmp (a b : Z) : Z := a - b.

#[global] Instance int_cmp_order : KeyOrder int_cmp.
Proof.
  unfold int_cmp. constructor; intros; [lia| |lia].
  destruct (Z.lt_trichotomy a b) as [H|[->|H]].
  - rewrite (Z.sgn_pos (b - a)), (Z.sgn_neg (a - b)) by lia. done.
  - by rewrite Z.sub_diag.
  - rewrite (Z.sgn_neg (b - a)), (Z.sgn_pos (a - b)) by lia. done.
Qed.

Section rep.
Context (kf : Z → Z).
Implicit Types (h : gmap Z rnode) (ls : nat → list Z).

Abbreviation rbelow := (below int_cmp id kf).
Abbreviation rfrom := (from int_cmp id kf).

Lemma below_lt k l x : x ∈ rbelow k l → kf x < k.
Proof. intros [Hx _]%list_elem_of_filter. unfold int_cmp, kof, id in Hx. lia. Qed.

Lemma from_ge k l x : head (rfrom k l) = Some x → k ≤ kf x.
Proof.
  intros Hx. assert (x ∈ rfrom k l) as [Hin _]%list_elem_of_filter.
  { destruct (SkipSpec.from int_cmp id kf k l); simplify_eq/=. set_solver. }
  unfold int_cmp, kof, id in Hin. lia.
Qed.

Definition rnxt h (i : nat) (p : Z) : option Z := n ← h !! p; rn_link n !! i.

Lemma rnxt_some h i p q : rnxt h i p = Some q → ∃ n, h !! p = Some n ∧ rn_link n !! i = Some q ∧ (i < length (rn_link n))%nat.
Proof.
  unfold rnxt. intros (n & Hp & Hi)%bind_Some. exists n. split_and!; [done..|]. by eapply lookup_lt_Some.
Qed.

(** As for the circular list, with NULL at the end of every level. *)
Record rrep h (hd : Z) (ml : nat) ls : Prop := {
  rr_paths : ∀ i, (i < ml)%nat → path (rnxt h i) hd (ls i) NULL;
  rr_high : ∀ i, (ml ≤ i)%nat → ls i = [];
  rr_levels : levels_ok ls;
  rr_nodup : NoDup (NULL :: hd :: ls 0%nat);
  rr_sorted : StronglySorted (key_le int_cmp id kf) (ls 0%nat);
  rr_keys : ∀ x, x ∈ ls 0%nat → ∃ n, h !! x = Some n ∧ rn_key n = kf x;
}.

Section levels.
Context (h : gmap Z rnode) (hd : Z) (ml : nat) (ls : nat → list Z) (R : rrep h hd ml ls).

Lemma r_level_sub i : ls i `sublist_of` ls 0%nat.
Proof using R. apply levels_le; [apply R|lia]. Qed.

Lemma r_level_sorted i : StronglySorted (key_le int_cmp id kf) (ls i).
Proof using R. eapply sublist_sorted; [apply r_level_sub|apply R]. Qed.

Lemma r_level_nodup i : NoDup (NULL :: hd :: ls i).
Proof using R. eapply sublist_NoDup; [apply R|]. do 2 apply sublist_skip. apply r_level_sub. Qed.

Lemma r_level_keys i x : x ∈ ls i → ∃ n, h !! x = Some n ∧ rn_key n = kf x.
Proof using R. intros Hx. apply R. eapply sublist_subseteq; [apply r_level_sub|done]. Qed.

Lemma r_level_length i : (length (ls i) ≤ length (ls 0%nat))%nat.
Proof using R. apply sublist_length, r_level_sub. Qed.

Lemma r_below_down k i j x : (i ≤ j)%nat → x ∈ hd :: rbelow k (ls j) → x ∈ hd :: rbelow k (ls i).
Proof using R.
  intros Hij. rewrite !elem_of_cons. intros [->|Hx]; [by left|right].
  eapply sublist_subseteq; [apply sublist_filter_mono|exact Hx]. apply levels_le; [apply R|done].
Qed.

(** A walk on level [i] that starts before the cut of the level. *)
Lemma r_walk_setup i A B p :
  ls i = A ++ B → (i < ml)%nat → p ∈ hd :: A →
  ∃ A2, path (rnxt h i) p (A2 ++ B) NULL ∧ cursor p A2 = cursor hd A ∧ A2 ⊆ A ∧
    (length A2 ≤ length (ls 0%nat))%nat ∧ p ≠ NULL ∧ (NULL ∉ A2 ++ B) ∧
    (∀ x, x ∈ A2 ++ B → ∃ n, h !! x = Some n ∧ rn_key n = kf x).
Proof using R.
  intros Hcut Hi Hp. pose proof (rr_paths _ _ _ _ R i Hi) as Hpath. rewrite Hcut in Hpath.
  destruct (path_suffix _ _ _ _ _ _ Hp Hpath) as (A2 & Hp2 & Hcur & HA2 & Hl).
  pose proof (r_level_nodup i) as Hnd. rewrite Hcut in Hnd. apply NoDup_cons in Hnd as [Hnull _].
  exists A2. split; [done|]. split; [done|]. split; [done|]. split_and!.
  - pose proof (r_level_length i) as Hi'. rewrite Hcut, length_app in Hi'. lia.
  - intros ->. set_solver.
  - set_solver.
  - intros x Hx. apply (r_level_keys i). rewrite Hcut. set_solver.
Qed.

End levels.

(** ** Rules *)

Section rules.
Context {W : Type} `{!Alloc W, !Rand W}.
Implicit Types (s : rmem W).

Lemma wp_r_get_node p n Q s : rm_nodes s !! p = Some n → Q n s → wp (r_get_node p) Q s.
Proof. intros Hn HQ. apply wp_zoom. eapply wp_load; [done|]. by rewrite update_view. Qed.

Lemma wp_r_get_list p L Q s : rm_lists s !! p = Some L → Q L s → wp (r_get_list p) Q s.
Proof. intros Hn HQ. apply wp_zoom. eapply wp_load; [done|]. by rewrite update_view. Qed.

Lemma wp_r_get_link p (i : nat) q Q s : rnxt (rm_nodes s) i p = Some q → Q q s → wp (r_get_link p (Z.of_nat i)) Q s.
Proof.
  intros (n & Hn & Hi & _)%rnxt_some HQ. apply wp_bind. eapply wp_r_get_node; [done|].
  rewrite bool_decide_true, Nat2Z.id by lia. by eapply wp_of_option.
Qed.

(** Only the counter differs, by at most [m]. *)
Definition counted (m : Z) s s' : Prop :=
  rm_lists s' = rm_lists s ∧ rm_nodes s' = rm_nodes s ∧ rm_world s' = rm_world s ∧
  rm_COUNT s ≤ rm_COUNT s' ≤ rm_COUNT s + m.

Lemma counted_weaken m m' s s' : counted m s s' → m ≤ m' → counted m' s s'.
Proof. unfold counted. intros (? & ? & ? & ?) ?. split_and!; (done || lia). Qed.

Lemma counted_trans m1 m2 m s1 s2 s3 : counted m1 s1 s2 → counted m2 s2 s3 → m1 + m2 ≤ m → counted m s1 s3.
Proof.
  unfold counted. intros (H1 & H2 & H3 & ?) (H4 & H5 & H6 & ?) ?. rewrite H4, H5, H6. split_and!; (done || lia).
Qed.

Lemma wp_tick Q s :
  - 2 ^ 31 ≤ rm_COUNT s + 1 < 2 ^ 31 →
  Q () (RMem (rm_lists s) (rm_nodes s) (rm_COUNT s + 1) (rm_world s)) → wp tick Q s.
Proof. intros Hc HQ. eapply wp_done; [|exact HQ]. unfold tick, s32_value. by rewrite bool_decide_true. Qed.

(** Whether the walk stops before [q]: at the end, or by its key. *)
Definition stops_at (test : Z → bool) (q : Z) : bool := if bool_decide (q = NULL) then true else test (kf q).

Lemma wp_null_or test q Q s :
  (q = NULL ∨ ∃ n, rm_nodes s !! q = Some n ∧ rn_key n = kf q) → Q (stops_at test q) s →
  wp (null_or q test) Q s.
Proof.
  intros Hq HQ. unfold null_or, stops_at in *. case_bool_decide as Hn; [by apply wp_ret|].
  destruct Hq as [|(n & Hq & Hk)]; [done|]. apply wp_bind. eapply wp_r_get_node; [done|]. rewrite Hk. by apply wp_ret.
Qed.

(** ** Search *)

(** A node with another key: two comparisons, then the next node is looked at. *)
Lemma wp_r_search_step fuel p n (i : nat) k q Q s :
  p ≠ NULL → rm_nodes s !! p = Some n → rn_key n ≠ k → rnxt (rm_nodes s) i p = Some q →
  (q = NULL ∨ ∃ n, rm_nodes s !! q = Some n ∧ rn_key n = kf q) →
  - 2 ^ 31 ≤ rm_COUNT s → rm_COUNT s + 2 < 2 ^ 31 →
  (∀ s', counted 2 s s' →
     if stops_at (λ k', bool_decide (k < k')) q
     then match i with O => Q NULL s' | S j => wp (r_search_node fuel p k (Z.of_nat j)) Q s' end
     else wp (r_search_node fuel q k (Z.of_nat i)) Q s') →
  wp (r_search_node (S fuel) p k (Z.of_nat i)) Q s.
Proof.
  intros Hp Hn Hk Hq Hlive Hc1 Hc2 HQ. cbn [r_search_node]. rewrite bool_decide_false by done.
  apply wp_bind. eapply wp_r_get_node; [done|]. apply wp_bind, wp_tick; [lia|].
  rewrite bool_decide_false by done. apply wp_bind, wp_tick; [simpl; lia|]. cbn [rm_lists rm_nodes rm_COUNT rm_world].
  set (s' := RMem _ _ _ _). apply wp_bind. eapply wp_r_get_link; [done|].
  apply wp_bind. eapply wp_null_or; [done|].
  assert (counted 2 s s') as Hs' by (unfold counted; simpl; split_and!; (done || lia)). specialize (HQ s' Hs').
  destruct (stops_at _ q); [|done]. destruct i as [|i].
  - rewrite bool_decide_true by done. by apply wp_ret.
  - rewrite bool_decide_false by lia. by replace (Z.of_nat (S i) - 1) with (Z.of_nat i) by lia.
Qed.

(** Along one level, from [p] to the last smaller key, then down or found. *)
Lemma wp_r_search_level fuel m (i : nat) k p n A B Q s :
  path (rnxt (rm_nodes s) i) p (A ++ B) NULL → p ≠ NULL → (NULL ∉ A ++ B) →
  rm_nodes s !! p = Some n → rn_key n ≠ k →
  (∀ x, x ∈ A ++ B → ∃ n, rm_nodes s !! x = Some n ∧ rn_key n = kf x) →
  (∀ x, x ∈ A → kf x < k) → (∀ x, head B = Some x → k ≤ kf x) →
  (length A + 2 + m ≤ fuel)%nat → - 2 ^ 31 ≤ rm_COUNT s → rm_COUNT s + 2 * Z.of_nat fuel < 2 ^ 31 →
  (∀ s' fuel', counted (2 * Z.of_nat (fuel - fuel')) s s' → (m ≤ fuel' ≤ fuel)%nat →
     match B with
     | x :: _ => if decide (kf x = k) then Q x s'
                 else match i with O => Q NULL s' | S j => wp (r_search_node fuel' (cursor p A) k (Z.of_nat j)) Q s' end
     | [] => match i with O => Q NULL s' | S j => wp (r_search_node fuel' (cursor p A) k (Z.of_nat j)) Q s' end
     end) →
  wp (r_search_node fuel p k (Z.of_nat i)) Q s.
Proof.
  revert fuel p n s. induction A as [|a A IH]; intros fuel p n s Hp Hpn Hnull Hn Hk Hkeys HA HB Hf Hc1 Hc2 HQ;
    (destruct fuel as [|fuel]; [simpl in Hf; lia|]); simpl in Hp.
  - eapply wp_r_search_step; [done..|by apply (path_next _ _ [])| | |lia|].
    { destruct B as [|x B]; [by left|right]. apply Hkeys. set_solver. }
    { done. }
    intros s1 Hs1. destruct B as [|x B].
    + change (stops_at _ (follow [] NULL)) with true. cbv iota. specialize (HQ s1 fuel). destruct i; apply HQ; try lia;
        eapply counted_weaken; (done || lia).
    + assert (x ≠ NULL) as Hxn by (intros ->; set_solver). specialize (HB x eq_refl).
      change (follow (x :: B) NULL) with x. unfold stops_at. rewrite bool_decide_false by done.
      destruct (decide (kf x = k)) as [Hx|Hx].
      * rewrite bool_decide_false by lia. destruct fuel as [|fuel]; [simpl in Hf; lia|]. cbn [r_search_node].
        rewrite bool_decide_false by done. destruct (Hkeys x) as (nx & Hnx & Hkx); [set_solver|].
        destruct Hs1 as (H1 & H2 & H3 & H4).
        apply wp_bind. eapply wp_r_get_node; [by rewrite H2|]. apply wp_bind, wp_tick; [lia|].
        rewrite bool_decide_true by congruence. apply wp_ret, (HQ _ fuel); [|lia].
        unfold counted. simpl. split_and!; [done..|lia|lia].
      * rewrite bool_decide_true by lia. specialize (HQ s1 fuel). destruct i; apply HQ; try lia;
          eapply counted_weaken; (done || lia).
  - destruct Hp as [Ha Hp]. destruct (Hkeys a) as (na & Hna & Hka); [set_solver|].
    assert (a ≠ NULL) as Han by (intros ->; set_solver). assert (kf a < k) as Hlt by (apply HA; set_solver).
    eapply wp_r_search_step; [done..|right; by exists na|done|lia|].
    intros s1 Hs1. unfold stops_at. rewrite bool_decide_false by done. rewrite bool_decide_false by lia.
    pose proof Hs1 as (H1 & H2 & H3 & H4). eapply (IH fuel a na s1); rewrite ?H2; try done; try lia.
    + set_solver.
    + intros x Hx. apply Hkeys. set_solver.
    + intros x Hx. apply HA. set_solver.
    + simpl in Hf. lia.
    + intros s' fuel' Hs' Hf'. rewrite <-cursor_cons with (p := p). apply HQ; [|lia].
      eapply counted_trans; [done..|lia].
Qed.

(** The whole descent finds what the reference finds. *)
Lemma wp_r_search_node fuel hd ml ls k (i : nat) p n Q s :
  rrep (rm_nodes s) hd ml ls → (i < ml)%nat → p ∈ hd :: rbelow k (ls i) → rm_nodes s !! p = Some n → rn_key n ≠ k →
  (S i * (length (ls 0%nat) + 2) ≤ fuel)%nat → - 2 ^ 31 ≤ rm_COUNT s → rm_COUNT s + 2 * Z.of_nat fuel < 2 ^ 31 →
  (∀ s', counted (2 * Z.of_nat fuel) s s' → Q (default NULL (top_match int_cmp id kf ls k (S i))) s') →
  wp (r_search_node fuel p k (Z.of_nat i)) Q s.
Proof.
  revert fuel p n s Q. induction i as [|i IH]; intros fuel p n s Q R Hi Hp Hn Hk Hf Hc1 Hc2 HQ.
  - pose proof (r_level_sorted _ _ _ _ R 0) as Hs. pose proof (first_match int_cmp id kf k _ Hs) as Hfm.
    destruct (r_walk_setup _ _ _ _ R 0 _ _ p (cut_below int_cmp id kf k _ Hs) Hi Hp) as (A2 & Hp2 & Hcur & HA & HlA & Hpn & Hnull & Hkeys).
    eapply (wp_r_search_level fuel 0); [exact Hp2|done|done|done|done|done| | |simpl in Hf; lia|done|done|].
    + intros x Hx. by apply HA, below_lt in Hx.
    + intros x Hx. by apply from_ge in Hx.
    + intros s' fuel' Hs' Hf'. assert (counted (2 * Z.of_nat fuel) s s') as Hs'' by (eapply counted_weaken; [done|lia]).
      specialize (HQ s' Hs''). simpl in HQ. rewrite Hfm in HQ.
      destruct (SkipSpec.from int_cmp id kf k (ls 0%nat)) as [|x r]; [done|].
      unfold int_cmp, kof, id in HQ. destruct (decide (kf x = k)).
      * by rewrite decide_True in HQ by lia.
      * by rewrite decide_False in HQ by lia.
  - pose proof (r_level_sorted _ _ _ _ R (S i)) as Hs. pose proof (first_match int_cmp id kf k _ Hs) as Hfm.
    destruct (r_walk_setup _ _ _ _ R (S i) _ _ p (cut_below int_cmp id kf k _ Hs) Hi Hp) as (A2 & Hp2 & Hcur & HA & HlA & Hpn & Hnull & Hkeys).
    eapply (wp_r_search_level fuel (S i * (length (ls 0%nat) + 2))); [exact Hp2|done|done|done|done|done| | |simpl in *; lia|done|done|].
    + intros x Hx. by apply HA, below_lt in Hx.
    + intros x Hx. by apply from_ge in Hx.
    + intros s' fuel' Hs' Hf'.
      assert ((∀ s'', counted (2 * Z.of_nat fuel) s s'' → Q (default NULL (top_match int_cmp id kf ls k (S i))) s'') →
        wp (r_search_node fuel' (cursor p A2) k (Z.of_nat i)) Q s') as Hdown.
      { intros HQ'. pose proof Hs' as (H1 & H2 & H3 & H4).
        assert (∃ n', rm_nodes s !! cursor p A2 = Some n' ∧ rn_key n' ≠ k) as (n' & Hn' & Hk').
        { pose proof (cursor_elem p A2) as Hc. apply elem_of_cons in Hc as [->|Hc]; [by exists n|].
          destruct (Hkeys (cursor p A2)) as (n' & Hn' & Hk'); [set_solver|]. exists n'. split; [done|].
          apply HA, below_lt in Hc. lia. }
        eapply (IH fuel' _ n' s'); rewrite ?H2; try done; try lia.
        - rewrite Hcur. eapply (r_below_down _ _ _ _ R k i (S i)); [lia|apply cursor_elem].
        - intros s'' Hs''. apply HQ'. eapply counted_trans; [done..|lia]. }
      cbn [top_match] in HQ. rewrite Hfm in HQ.
      destruct (SkipSpec.from int_cmp id kf k (ls (S i))) as [|x r]; [by apply Hdown|].
      unfold int_cmp, kof, id in HQ. destruct (decide (kf x = k)).
      * rewrite decide_True in HQ by lia. apply HQ. eapply counted_weaken; [done|lia].
      * rewrite decide_False in HQ by lia. by apply Hdown.
Qed.

End rules.
End rep.
