(* ===== verification/SkipRUpd.v ===== *)
(** * The recursive skip list: insertion and deletion along the levels *)

From stdpp Require Import gmap numbers functions sorting list.
From S2P Require Import Prelude CAlloc Chain SkipSpec SkipInsert SkipDelete SkipListR SkipRSpec.

Local Open Scope Z_scope.

(** Everything about a node but its links. *)
Definition rinfo (n : rnode) : Z * Z * Z * nat := (rn_arr n, rn_level n, rn_key n, length (rn_link n)).
Definition same_rinfo (h h' : gmap Z rnode) : Prop := ∀ x, rinfo <$> h' !! x = rinfo <$> h !! x.

Lemma same_rinfo_trans h1 h2 h3 : same_rinfo h1 h2 → same_rinfo h2 h3 → same_rinfo h1 h3.
Proof. intros H1 H2 x. by rewrite H2, H1. Qed.

Lemma same_rinfo_lookup h h' x n : same_rinfo h h' → h !! x = Some n → ∃ n', h' !! x = Some n' ∧ rinfo n' = rinfo n.
Proof.
  intros Hs Hx. specialize (Hs x). rewrite Hx in Hs. simpl in Hs.
  apply fmap_Some in Hs as (n' & Hn & Heq). eauto.
Qed.

Lemma same_rinfo_link h p n i v : h !! p = Some n → same_rinfo h (<[p:=r_with_link (<[i:=v]>) n]> h).
Proof.
  intros Hp x. destruct (decide (x = p)) as [->|Hx].
  - rewrite lookup_insert_eq, Hp. unfold rinfo. simpl. by rewrite length_insert.
  - by rewrite lookup_insert_ne.
Qed.

Lemma rnxt_link h p n (i : nat) v j q :
  h !! p = Some n → (i < length (rn_link n))%nat →
  rnxt (<[p:=r_with_link (<[i:=v]>) n]> h) j q = if decide (q = p ∧ j = i) then Some v else rnxt h j q.
Proof.
  intros Hp Hi. unfold rnxt. destruct (decide (q = p)) as [->|Hq].
  - rewrite lookup_insert_eq, Hp. simpl. destruct (decide (j = i)) as [->|Hj].
    + rewrite decide_True by done. by rewrite list_lookup_insert_eq.
    + rewrite decide_False by naive_solver. by rewrite list_lookup_insert_ne.
  - rewrite lookup_insert_ne by done. by rewrite decide_False by naive_solver.
Qed.

Section upd.
Context {W : Type} `{!Alloc W, !Rand W} (kf : Z → Z).
Implicit Types (s : rmem W) (ls : nat → list Z).
Abbreviation rrep := (rrep kf).
Abbreviation ins_from := (ins_from int_cmp id kf).
Abbreviation del_from := (del_from int_cmp id kf).

Definition r_with_nodes (h : gmap Z rnode) s : rmem W := RMem (rm_lists s) h (rm_COUNT s) (rm_world s).

Definition rkeys_at (h : gmap Z rnode) (xs : list Z) : Prop := ∀ x, x ∈ xs → ∃ n, h !! x = Some n ∧ rn_key n = kf x.

Lemma rkeys_at_same h h' xs : same_rinfo h h' → rkeys_at h xs → rkeys_at h' xs.
Proof.
  intros Hs Hk x Hx. destruct (Hk x Hx) as (n & Hn & Heq). destruct (same_rinfo_lookup _ _ _ _ Hs Hn) as (n' & Hn' & Hi).
  exists n'. split; [done|]. unfold rinfo in Hi. congruence.
Qed.

Lemma wp_r_set_link p (i : nat) v n Q s :
  rm_nodes s !! p = Some n → (i < length (rn_link n))%nat →
  Q () (r_with_nodes (<[p:=r_with_link (<[i:=v]>) n]> (rm_nodes s)) s) → wp (r_set_link p (Z.of_nat i) v) Q s.
Proof.
  intros Hn Hi HQ. apply wp_bind. eapply wp_r_get_node; [done|]. rewrite decide_True by lia. rewrite Nat2Z.id.
  apply wp_zoom. by eapply wp_modify.
Qed.

Lemma wp_r_call {A} (f : W → A * W) a w Q s :
  f (rm_world s) = (a, w) → Q a (RMem (rm_lists s) (rm_nodes s) (rm_COUNT s) w) → wp (r_call f) Q s.
Proof. intros Hf HQ. eapply wp_done; [|exact HQ]. unfold r_call. by rewrite Hf. Qed.

(** ** Insertion: along one level *)

(** What insert_node does where it stops. *)
Definition r_link_level (fuel : nat) (c new nx : Z) (n : Z) : cmd (rmem W) () :=
  v ← r_get_node new;
  (if bool_decide (n < rn_level v) then r_set_link new n nx;; r_set_link c n new else mret ());;
  if bool_decide (n = 0) then mret () else r_insert_node fuel c new (n - 1).

Lemma wp_r_insert_walk fuel m (i : nat) new nn p A B Q s :
  path (rnxt (rm_nodes s) i) p (A ++ B) NULL → (NULL ∉ A ++ B) →
  rm_nodes s !! new = Some nn → rn_key nn = kf new → rkeys_at (rm_nodes s) (A ++ B) →
  (∀ x, x ∈ A → kf x ≤ kf new) → (∀ x, head B = Some x → kf new < kf x) →
  (length A + 1 + m ≤ fuel)%nat →
  (∀ fuel', (m ≤ fuel')%nat → wp (r_link_level fuel' (cursor p A) new (follow B NULL) (Z.of_nat i)) Q s) →
  wp (r_insert_node fuel p new (Z.of_nat i)) Q s.
Proof.
  revert fuel p. induction A as [|a A IH]; intros fuel p Hp Hnull Hnew Hkn Hkeys HA HB Hf HQ;
    (destruct fuel as [|fuel]; [simpl in Hf; lia|]); cbn [r_insert_node]; simpl in Hp.
  - apply wp_bind. eapply wp_r_get_link; [by apply (path_next _ _ [])|]. apply wp_bind.
    specialize (HQ fuel). destruct B as [|x B].
    + change (follow [] NULL) with NULL. rewrite bool_decide_true by done. apply wp_ret. apply HQ. simpl in Hf. lia.
    + change (follow (x :: B) NULL) with x. rewrite bool_decide_false by (intros ->; set_solver).
      apply wp_bind. eapply wp_r_get_node; [done|]. apply wp_bind.
      destruct (Hkeys x) as (nx & Hnx & Hkx); [set_solver|]. eapply wp_r_get_node; [done|]. apply wp_ret.
      rewrite bool_decide_true by (rewrite Hkn, Hkx; by apply HB). apply HQ. simpl in Hf. lia.
  - destruct Hp as [Ha Hp]. apply wp_bind. eapply wp_r_get_link; [done|]. apply wp_bind.
    rewrite bool_decide_false by (intros ->; set_solver). apply wp_bind. eapply wp_r_get_node; [done|].
    apply wp_bind. destruct (Hkeys a) as (na & Hna & Hka); [set_solver|]. eapply wp_r_get_node; [done|]. apply wp_ret.
    assert (kf a ≤ kf new) by (apply HA; set_solver). rewrite bool_decide_false by lia.
    apply IH; try done; [set_solver|intros x Hx; apply Hkeys; set_solver|intros x Hx; apply HA; set_solver|simpl in Hf; lia|].
    intros fuel' Hf'. rewrite <-cursor_cons with (p := p). by apply HQ.
Qed.

Context (h0 : gmap Z rnode) (hd : Z) (ml : nat) (ls : nat → list Z) (R : rrep h0 hd ml ls).

Section insert.
Context (new : Z) (n : nat) (nn : rnode) (Hnew : h0 !! new = Some nn) (Hfresh : new ∉ hd :: ls 0%nat)
  (Hnn : new ≠ NULL) (Hlink : length (rn_link nn) = n) (Hlevel : rn_level nn = Z.of_nat n) (Hkey : rn_key nn = kf new).

Lemma r_fresh_level i : new ∉ hd :: ls i.
Proof using All.
  intros [->|Hin]%elem_of_cons; apply Hfresh; [set_solver|]. apply elem_of_cons. right.
  by eapply sublist_subseteq; [eapply (r_level_sub kf h0 hd ml ls R)|].
Qed.

Lemma wp_r_link_level i fuel Q s :
  (i < ml)%nat → same_rinfo h0 (rm_nodes s) →
  (∀ j, (j < ml)%nat → path (rnxt (rm_nodes s) j) hd (ins_from new n (S i) ls j) NULL) →
  let A := upto int_cmp id kf (kf new) (ls i) in
  let B := above int_cmp id kf (kf new) (ls i) in
  (∀ h', same_rinfo h0 h' → (∀ j, (j < ml)%nat → path (rnxt h' j) hd (ins_from new n i ls j) NULL) →
     match i with
     | O => Q () (r_with_nodes h' s)
     | S j => wp (r_insert_node fuel (cursor hd A) new (Z.of_nat j)) Q (r_with_nodes h' s)
     end) →
  wp (r_link_level fuel (cursor hd A) new (follow B NULL) (Z.of_nat i)) Q s.
Proof using All.
  intros Hi Hsame Hpaths A B HQ. unfold r_link_level.
  destruct (same_rinfo_lookup _ _ _ _ Hsame Hnew) as (nn' & Hnn' & Hinfo).
  assert (length (rn_link nn') = n ∧ rn_level nn' = Z.of_nat n) as [Hl Hlv] by (unfold rinfo in Hinfo; split; congruence).
  apply wp_bind. eapply wp_r_get_node; [done|]. rewrite Hlv.
  assert (ls i = A ++ B) as Hcut by (apply (cut_upto int_cmp id kf (kf new)); by eapply r_level_sorted).
  assert (∀ h', same_rinfo h0 h' → (∀ j, (j < ml)%nat → path (rnxt h' j) hd (ins_from new n i ls j) NULL) →
    wp (if bool_decide (Z.of_nat i = 0) then mret () else r_insert_node fuel (cursor hd A) new (Z.of_nat i - 1)) Q
      (r_with_nodes h' s)) as Hnext.
  { intros h' Hs' Hp'. specialize (HQ h' Hs' Hp'). destruct i as [|i].
    - rewrite bool_decide_true by done. by apply wp_ret.
    - rewrite bool_decide_false by lia. by replace (Z.of_nat (S i) - 1) with (Z.of_nat i) by lia. }
  apply wp_bind. destruct (decide (i < n)%nat) as [Hin|Hin];
    [rewrite (bool_decide_true (Z.of_nat i < Z.of_nat n)) by lia|rewrite (bool_decide_false (Z.of_nat i < Z.of_nat n)) by lia].
  2: { apply wp_ret. replace s with (r_with_nodes (rm_nodes s) s) by by destruct s. apply Hnext; [done|].
    intros j Hj. specialize (Hpaths j Hj). destruct (decide (j = i)) as [->|Hne]; [|by rewrite <-ins_from_step].
    unfold SkipInsert.ins_from in *. rewrite decide_True in Hpaths by lia. by rewrite decide_False, decide_False by lia. }
  pose proof (Hpaths i Hi) as Hpi. unfold SkipInsert.ins_from in Hpi. rewrite decide_True in Hpi by lia.
  rewrite Hcut in Hpi. pose proof (r_fresh_level i) as Hfi. rewrite Hcut in Hfi.
  pose proof (r_level_nodup _ _ _ _ _ R i) as Hnd. rewrite Hcut in Hnd. apply NoDup_cons in Hnd as [_ Hnd].
  assert (cursor hd A ≠ new) as HcA.
  { intros Heq. apply Hfi. rewrite <-Heq. pose proof (cursor_elem hd A) as HcA.
    rewrite elem_of_cons, elem_of_app in *. tauto. }
  destruct (rnxt_some _ _ _ _ (path_next _ _ _ _ _ Hpi)) as (nc & Hnc & _ & Hci).
  apply wp_bind. eapply wp_r_set_link; [done|lia|]. eapply wp_r_set_link; [simpl; by rewrite lookup_insert_ne|done|].
  cbn [r_with_nodes rm_lists rm_nodes rm_COUNT rm_world].
  set (h1 := <[new:=_]> (rm_nodes s)). assert (h1 !! cursor hd A = Some nc) as Hnc1 by (unfold h1; by rewrite lookup_insert_ne).
  apply Hnext.
  - apply (same_rinfo_trans _ (rm_nodes s)); [exact Hsame|]. apply (same_rinfo_trans _ h1); [by apply same_rinfo_link|by apply same_rinfo_link].
  - intros j Hj. specialize (Hpaths j Hj).
    assert (∀ q, rnxt (<[cursor hd A:=r_with_link (<[i:=new]>) nc]> h1) j q =
      if decide (q = cursor hd A ∧ j = i) then Some new
      else if decide (q = new ∧ j = i) then Some (follow B NULL) else rnxt (rm_nodes s) j q) as Hnx.
    { intros q. rewrite rnxt_link by done. destruct (decide (q = cursor hd A ∧ j = i)); [done|].
      unfold h1. by rewrite rnxt_link by (done || lia). }
    destruct (decide (j = i)) as [->|Hne].
    + unfold SkipInsert.ins_from. rewrite decide_False, decide_True by lia. unfold SkipSpec.ins.
      eapply path_insert; [exact Hpi|done|done|..].
      * rewrite Hnx. by rewrite decide_True.
      * rewrite Hnx. rewrite decide_False by naive_solver. by rewrite decide_True.
      * intros y Hy1 Hy2. rewrite Hnx. by rewrite decide_False, decide_False by naive_solver.
    + rewrite <-ins_from_step by done. eapply path_ext; [|exact Hpaths]. intros y _. rewrite Hnx.
      by rewrite decide_False, decide_False by naive_solver.
Qed.

(** One level: the walk and the linking. *)
Lemma wp_r_insert_level m fuel i p Q s :
  (i < ml)%nat → same_rinfo h0 (rm_nodes s) →
  (∀ j, (j < ml)%nat → path (rnxt (rm_nodes s) j) hd (ins_from new n (S i) ls j) NULL) →
  p ∈ hd :: upto int_cmp id kf (kf new) (ls i) → (length (ls 0%nat) + 1 + m ≤ fuel)%nat →
  (∀ fuel' h', (m ≤ fuel')%nat → same_rinfo h0 h' →
     (∀ j, (j < ml)%nat → path (rnxt h' j) hd (ins_from new n i ls j) NULL) →
     match i with
     | O => Q () (r_with_nodes h' s)
     | S j => wp (r_insert_node fuel' (cursor hd (upto int_cmp id kf (kf new) (ls i))) new (Z.of_nat j)) Q (r_with_nodes h' s)
     end) →
  wp (r_insert_node fuel p new (Z.of_nat i)) Q s.
Proof using All.
  intros Hi Hsame Hpaths Hp Hf HQ. set (A := upto int_cmp id kf (kf new) (ls i)) in *.
  set (B := above int_cmp id kf (kf new) (ls i)).
  assert (ls i = A ++ B) as Hcut by (apply (cut_upto int_cmp id kf (kf new)); by eapply r_level_sorted).
  pose proof (Hpaths i Hi) as Hpath. unfold SkipInsert.ins_from in Hpath. rewrite decide_True in Hpath by lia.
  rewrite Hcut in Hpath. destruct (path_suffix _ _ _ _ _ _ Hp Hpath) as (A2 & Hp2 & Hcur & HA2 & Hl).
  pose proof (r_level_length kf _ _ _ _ R i) as Hli. rewrite Hcut, length_app in Hli.
  pose proof (r_level_nodup _ _ _ _ _ R i) as Hnd. rewrite Hcut in Hnd. apply NoDup_cons in Hnd as [Hnull _].
  destruct (same_rinfo_lookup _ _ _ _ Hsame Hnew) as (nn' & Hnn' & Hinfo).
  assert (rn_key nn' = kf new) as Hkey' by (unfold rinfo in Hinfo; congruence).
  eapply (wp_r_insert_walk fuel m); [exact Hp2| |exact Hnn'|exact Hkey'|..].
  - rewrite elem_of_cons, elem_of_app in *. intros [Hx|Hx]; [|tauto]. apply HA2 in Hx. tauto.
  - eapply rkeys_at_same; [exact Hsame|]. intros x Hx. apply (r_level_keys kf _ _ _ _ R i). rewrite Hcut.
    rewrite elem_of_app in *. destruct Hx as [Hx|Hx]; [left; by apply HA2|by right].
  - intros x Hx. apply HA2 in Hx. apply list_elem_of_filter in Hx as [Hx _]. unfold int_cmp, kof, id in Hx. lia.
  - intros x Hx. assert (x ∈ B) as Hin by (destruct B; simplify_eq/=; set_solver).
    apply list_elem_of_filter in Hin as [Hin _]. unfold int_cmp, kof, id in Hin. lia.
  - lia.
  - intros fuel' Hf'. rewrite Hcur. eapply wp_r_link_level; [done..|]. intros h' Hs' Hp'. by apply HQ.
Qed.

Lemma wp_r_insert_node fuel i p Q s :
  (i < ml)%nat → same_rinfo h0 (rm_nodes s) →
  (∀ j, (j < ml)%nat → path (rnxt (rm_nodes s) j) hd (ins_from new n (S i) ls j) NULL) →
  p ∈ hd :: upto int_cmp id kf (kf new) (ls i) → (S i * (length (ls 0%nat) + 1) ≤ fuel)%nat →
  (∀ h', same_rinfo h0 h' → (∀ j, (j < ml)%nat → path (rnxt h' j) hd (ins_from new n 0 ls j) NULL) →
     Q () (r_with_nodes h' s)) →
  wp (r_insert_node fuel p new (Z.of_nat i)) Q s.
Proof using All.
  revert fuel p s. induction i as [|i IH]; intros fuel p s Hi Hsame Hpaths Hp Hf HQ.
  - eapply (wp_r_insert_level 0); [done..|simpl in Hf; lia|]. intros fuel' h' _ Hs' Hp'. by apply HQ.
  - eapply (wp_r_insert_level (S i * (length (ls 0%nat) + 1))); [done..|simpl in Hf |- *; lia|]. intros fuel' h' Hf' Hs' Hp'.
    eapply IH; [lia|done|done| |done|].
    + pose proof (cursor_elem hd (upto int_cmp id kf (kf new) (ls (S i)))) as Hc.
      apply elem_of_cons in Hc as [->|Hc]; [set_solver|]. apply elem_of_cons. right.
      eapply sublist_subseteq; [apply sublist_filter_mono|exact Hc]. apply (rr_levels _ _ _ _ _ R).
    + intros h'' H1 H2. by apply HQ.
Qed.

End insert.
End upd.

(** ** Deletion along the levels

    On every level delete_node unlinks the first node with the key, if there is
    one; on the bottom level it also destroys it. *)

Section del.
Context {W : Type} `{!Alloc W, !Rand W} (kf : Z → Z) (k : Z).
Implicit Types (s : rmem W) (ls : nat → list Z).
Abbreviation rbelow := (below int_cmp id kf k).
Abbreviation rfrom := (from int_cmp id kf k).
Abbreviation del_from := (del_from int_cmp id kf k).

(** What delete_node does where it stops, before [nx]. *)
Definition r_cut_level (fuel : nat) (c nx : Z) (n : Z) : cmd (rmem W) () :=
  hit ← (if bool_decide (nx = NULL) then mret false
         else v ← r_get_node nx; mret (bool_decide (k = rn_key v)));
  if (hit : bool) then
    nx2 ← r_get_link nx n;
    r_set_link c n nx2;;
    if bool_decide (n = 0) then r_destroy_node nx else r_delete_node fuel c k (n - 1)
  else if bool_decide (n = 0) then mret () else r_delete_node fuel c k (n - 1).

Lemma wp_r_delete_walk fuel m (i : nat) p A B Q s :
  path (rnxt (rm_nodes s) i) p (A ++ B) NULL → (NULL ∉ A ++ B) → rkeys_at kf (rm_nodes s) (A ++ B) →
  (∀ x, x ∈ A → kf x < k) → (∀ x, head B = Some x → k ≤ kf x) → (length A + 1 + m ≤ fuel)%nat →
  (∀ fuel', (m ≤ fuel')%nat → wp (r_cut_level fuel' (cursor p A) (follow B NULL) (Z.of_nat i)) Q s) →
  wp (r_delete_node fuel p k (Z.of_nat i)) Q s.
Proof.
  revert fuel p. induction A as [|a A IH]; intros fuel p Hp Hnull Hkeys HA HB Hf HQ;
    (destruct fuel as [|fuel]; [simpl in Hf; lia|]); cbn [r_delete_node]; simpl in Hp.
  - apply wp_bind. eapply wp_r_get_link; [by apply (path_next _ _ [])|]. apply wp_bind. eapply (wp_null_or kf).
    { destruct B as [|x B]; [by left|]. right. apply Hkeys. simpl. set_solver. }
    assert (stops_at kf (λ k', bool_decide (k <= k')) (follow B NULL) = true) as ->.
    { unfold stops_at. destruct B as [|x B]; [done|]. change (follow (x :: B) NULL) with x.
      rewrite bool_decide_false by (intros ->; set_solver). by rewrite bool_decide_true by (by apply HB). }
    apply HQ. simpl in Hf. lia.
  - destruct Hp as [Ha Hp]. apply wp_bind. eapply wp_r_get_link; [done|]. apply wp_bind. eapply (wp_null_or kf).
    { right. apply Hkeys. set_solver. }
    assert (kf a < k) by (apply HA; set_solver). unfold stops_at.
    rewrite bool_decide_false by (intros ->; set_solver). rewrite bool_decide_false by lia.
    apply IH; try done; [set_solver|intros x Hx; apply Hkeys; set_solver|intros x Hx; apply HA; set_solver|simpl in Hf; lia|].
    intros fuel' Hf'. rewrite <-cursor_cons with (p := p). by apply HQ.
Qed.

Context (h0 : gmap Z rnode) (hd : Z) (ml : nat) (ls : nat → list Z) (R : rrep kf h0 hd ml ls).

Definition del_paths (i : nat) (h : gmap Z rnode) : Prop :=
  same_rinfo h0 h ∧ ∀ j, (j < ml)%nat → path (rnxt h j) hd (del_from i ls j) NULL.

(** Unlinking the node behind the cut. *)
Lemma del_paths_cut i x r nc h :
  (i < ml)%nat → rfrom (ls i) = x :: r → kf x = k → h !! cursor hd (rbelow (ls i)) = Some nc →
  (i < length (rn_link nc))%nat → del_paths (S i) h →
  del_paths i (<[cursor hd (rbelow (ls i)) := r_with_link (<[i:=follow r NULL]>) nc]> h).
Proof using R.
  intros Hi Hf Hk Hc Hci [Hs Hpaths]. split; [eapply same_rinfo_trans; [exact Hs|by apply same_rinfo_link]|].
  intros j Hj. specialize (Hpaths j Hj). destruct (decide (j = i)) as [->|Hne].
  - unfold SkipDelete.del_from in *. rewrite decide_True in Hpaths by lia. rewrite decide_False by lia.
    pose proof (cut_below int_cmp id kf k _ (r_level_sorted _ _ _ _ _ R i)) as Hcut.
    pose proof (r_level_nodup _ _ _ _ _ R i) as [_ Hnd]%NoDup_cons. rewrite Hcut, Hf in Hpaths, Hnd.
    unfold SkipSpec.del. rewrite Hf, decide_True by (unfold int_cmp, kof, id; lia). eapply path_remove; [exact Hpaths|done|..].
    + rewrite rnxt_link by done. by rewrite decide_True.
    + intros z Hz. rewrite rnxt_link by done. by rewrite decide_False by naive_solver.
  - rewrite <-del_from_step by done. eapply path_ext; [|exact Hpaths]. intros z _.
    rewrite rnxt_link by done. by rewrite decide_False by naive_solver.
Qed.

(** A level without the key is left as it is. *)
Lemma del_paths_keep i h :
  (∀ x, head (rfrom (ls i)) = Some x → kf x ≠ k) → del_paths (S i) h → del_paths i h.
Proof using R.
  intros Hno [Hs Hpaths]. split; [done|]. intros j Hj. specialize (Hpaths j Hj). destruct (decide (j = i)) as [->|Hne].
  - unfold SkipDelete.del_from in *. rewrite decide_True in Hpaths by lia. rewrite decide_False by lia.
    destruct (del_cases int_cmp id kf k _ (r_level_sorted _ _ _ _ _ R i)) as [[_ ->]|(x & r & Hf & Hk & _)]; [done|].
    rewrite Hf in Hno. destruct (Hno x eq_refl). unfold int_cmp, kof, id in Hk. lia.
  - by rewrite <-del_from_step.
Qed.

(** What remains to be done after level [i]. *)
Definition r_delete_rest (Q : () → rmem W → Prop) (fuel : nat) (i : nat) s : Prop :=
  match i with
  | O => match rfrom (ls 0%nat) with
         | x :: _ => if decide (kf x = k) then wp (r_destroy_node x) Q s else Q () s
         | [] => Q () s
         end
  | S j => wp (r_delete_node fuel (cursor hd (rbelow (ls i))) k (Z.of_nat j)) Q s
  end.

Lemma wp_r_cut_level fuel i Q s :
  (i < ml)%nat → del_paths (S i) (rm_nodes s) →
  (∀ h', del_paths i h' → r_delete_rest Q fuel i (r_with_nodes h' s)) →
  wp (r_cut_level fuel (cursor hd (rbelow (ls i))) (follow (rfrom (ls i)) NULL) (Z.of_nat i)) Q s.
Proof using All.
  intros Hi Hdp HQ. pose proof Hdp as [Hs Hpaths]. unfold r_cut_level.
  pose proof (Hpaths i Hi) as Hpi. unfold SkipDelete.del_from in Hpi. rewrite decide_True in Hpi by lia.
  pose proof (cut_below int_cmp id kf k _ (r_level_sorted _ _ _ _ _ R i)) as Hcut. rewrite Hcut in Hpi.
  pose proof (r_level_nodup _ _ _ _ _ R i) as Hnd. rewrite Hcut in Hnd. apply NoDup_cons in Hnd as [Hnull _].
  assert ((∀ x, head (rfrom (ls i)) = Some x → kf x ≠ k) →
    wp (if bool_decide (Z.of_nat i = 0) then mret () else r_delete_node fuel (cursor hd (rbelow (ls i))) k (Z.of_nat i - 1)) Q s) as Hskip.
  { intros Hno. specialize (HQ (rm_nodes s) (del_paths_keep i _ Hno Hdp)).
    replace (r_with_nodes (rm_nodes s) s) with s in HQ by (by destruct s). unfold r_delete_rest in HQ. destruct i as [|i].
    - rewrite bool_decide_true by done. apply wp_ret. destruct (rfrom (ls 0%nat)) as [|x r] eqn:Hf; [done|].
      by rewrite decide_False in HQ by (by apply Hno).
    - rewrite bool_decide_false by lia. by replace (Z.of_nat (S i) - 1) with (Z.of_nat i) by lia. }
  apply wp_bind. destruct (rfrom (ls i)) as [|x r] eqn:Hf; [by apply wp_ret, Hskip|]. change (follow (x :: r) NULL) with x.
  rewrite bool_decide_false by (intros ->; rewrite elem_of_cons, elem_of_app, elem_of_cons in Hnull; tauto).
  destruct (rkeys_at_same kf h0 (rm_nodes s) (ls i) Hs) with (x := x) as (nx & Hnx & Hkx).
  { intros y Hy. by apply (r_level_keys _ _ _ _ _ R i). }
  { rewrite Hcut. set_solver. }
  apply wp_bind. eapply wp_r_get_node; [done|]. apply wp_ret. rewrite Hkx.
  destruct (decide (kf x = k)) as [Hk|Hk]; [rewrite (bool_decide_true (k = kf x)) by done|rewrite (bool_decide_false (k = kf x)) by done].
  2: { apply Hskip. by intros y [= <-]. }
  apply wp_bind. eapply wp_r_get_link.
  { pose proof (path_next (rnxt (rm_nodes s) i) hd (rbelow (ls i) ++ [x]) r NULL) as Hnext. rewrite <-app_assoc in Hnext. specialize (Hnext Hpi).
    unfold cursor in Hnext. rewrite last_snoc in Hnext. exact Hnext. }
  destruct (rnxt_some _ _ _ _ (path_next _ _ _ _ _ Hpi)) as (nc & Hnc & _ & Hci).
  apply wp_bind. eapply wp_r_set_link; [exact Hnc|exact Hci|].
  specialize (HQ _ (del_paths_cut i x r nc (rm_nodes s) Hi Hf Hk Hnc Hci Hdp)). unfold r_delete_rest in HQ. destruct i as [|i].
  - rewrite bool_decide_true by done. rewrite Hf in HQ. by rewrite decide_True in HQ.
  - rewrite bool_decide_false by lia. by replace (Z.of_nat (S i) - 1) with (Z.of_nat i) by lia.
Qed.

Lemma wp_r_delete_level m fuel i p Q s :
  (i < ml)%nat → del_paths (S i) (rm_nodes s) → p ∈ hd :: rbelow (ls i) → (length (ls 0%nat) + 1 + m ≤ fuel)%nat →
  (∀ fuel' h', (m ≤ fuel')%nat → del_paths i h' → r_delete_rest Q fuel' i (r_with_nodes h' s)) →
  wp (r_delete_node fuel p k (Z.of_nat i)) Q s.
Proof using All.
  intros Hi Hdp Hp Hf HQ. pose proof Hdp as [Hs Hpaths].
  pose proof (Hpaths i Hi) as Hpath. unfold SkipDelete.del_from in Hpath. rewrite decide_True in Hpath by lia.
  pose proof (cut_below int_cmp id kf k _ (r_level_sorted _ _ _ _ _ R i)) as Hcut. rewrite Hcut in Hpath.
  destruct (path_suffix _ _ _ _ _ _ Hp Hpath) as (A2 & Hp2 & Hcur & HA2 & Hl).
  pose proof (r_level_length kf _ _ _ _ R i) as Hli. rewrite Hcut, length_app in Hli.
  pose proof (r_level_nodup _ _ _ _ _ R i) as Hnd. rewrite Hcut in Hnd. apply NoDup_cons in Hnd as [Hnull _].
  eapply (wp_r_delete_walk fuel m); [exact Hp2|..].
  - rewrite elem_of_cons, elem_of_app in *. intros [Hx|Hx]; [|tauto]. apply HA2 in Hx. tauto.
  - eapply rkeys_at_same; [exact Hs|]. intros x Hx. apply (r_level_keys kf _ _ _ _ R i). rewrite Hcut.
    rewrite elem_of_app in *. destruct Hx as [Hx|Hx]; [left; by apply HA2|by right].
  - intros x Hx. apply HA2 in Hx. by eapply below_lt.
  - intros x Hx. by eapply from_ge.
  - lia.
  - intros fuel' Hf'. rewrite Hcur. apply wp_r_cut_level; [done|done|]. intros h' Hdp'. by apply HQ.
Qed.

Lemma wp_r_delete_node fuel i p Q s :
  (i < ml)%nat → del_paths (S i) (rm_nodes s) → p ∈ hd :: rbelow (ls i) → (S i * (length (ls 0%nat) + 1) ≤ fuel)%nat →
  (∀ fuel' h', del_paths 0 h' → r_delete_rest Q fuel' 0 (r_with_nodes h' s)) →
  wp (r_delete_node fuel p k (Z.of_nat i)) Q s.
Proof using All.
  revert fuel p s. induction i as [|i IH]; intros fuel p s Hi Hdp Hp Hf HQ.
  - eapply (wp_r_delete_level 0); [done..|simpl in Hf; lia|]. intros fuel' h' _ Hdp'. by apply HQ.
  - eapply (wp_r_delete_level (S i * (length (ls 0%nat) + 1))); [done..|simpl in Hf |- *; lia|]. intros fuel' h' Hf' Hdp'.
    unfold r_delete_rest. eapply IH; [lia|done| |done|].
    + pose proof (cursor_elem hd (rbelow (ls (S i)))) as Hc. eapply (r_below_down kf _ _ _ _ R k i (S i)); [lia|exact Hc].
    + intros fuel'' h'' H. by apply (HQ fuel'' h'').
Qed.

End del.
