(* ===== verification/SkipROps.v ===== *)
(** * The recursive skip list: whole operations

    [r_list_rep] is the representation of a list with its header; search,
    insertion (from the random height to the count) and deletion are proved
    against it. *)

From stdpp Require Import gmap numbers functions sorting list.
From S2P Require Import Prelude CAlloc Chain SkipSpec SkipInsert SkipOps SkipDelete SkipFree SkipListR SkipRSpec SkipRUpd.

Local Open Scope Z_scope.

Section rep.
Context {W : Type} `{!Alloc W, !Rand W, !AllocOk W, !RandOk W}.
Implicit Types (s : rmem W) (ls : nat → list Z) (kf : Z → Z).

(** Nodes and their link arrays are blocks of their own that the program owns,
    none of them at NULL. *)
Record r_heap (h : gmap Z rnode) (w : W) : Prop := {
  rh_nodes : dom h ⊆ owned w;
  rh_arrs : ∀ x n, h !! x = Some n → rn_arr n ∈ owned w ∧ rn_arr n ∉ dom h;
  rh_inj : ∀ x y n m, h !! x = Some n → h !! y = Some m → rn_arr n = rn_arr m → x = y;
  rh_null : h !! NULL = None;
}.

Lemma same_rinfo_dom h h' : same_rinfo h h' → dom h' = dom h.
Proof. intros Hs. apply set_eq. intros x. by rewrite !elem_of_dom, <-!(fmap_is_Some rinfo), Hs. Qed.

Lemma r_heap_same h h' w : r_heap h w → same_rinfo h h' → r_heap h' w.
Proof.
  intros [H1 H2 H3 H4] Hs. pose proof (same_rinfo_dom _ _ Hs) as Hd.
  assert (∀ x n', h' !! x = Some n' → ∃ n, h !! x = Some n ∧ rn_arr n = rn_arr n') as Hback.
  { intros x n' Hx. specialize (Hs x). rewrite Hx in Hs. simpl in Hs. symmetry in Hs.
    apply fmap_Some in Hs as (n & Hn & Hi). exists n. split; [done|]. unfold rinfo in Hi. congruence. }
  constructor; rewrite ?Hd; [done|..].
  - intros x n' (n & Hn & <-)%Hback. by apply (H2 x).
  - intros x y n' m' (n & Hn & <-)%Hback (m & Hm & <-)%Hback. by apply H3.
  - apply not_elem_of_dom. rewrite Hd. by apply not_elem_of_dom.
Qed.

Lemma r_heap_world h w w' : r_heap h w → owned w' = owned w → r_heap h w'.
Proof. intros [H1 H2 H3 H4] Ho. constructor; rewrite ?Ho; done. Qed.

Lemma r_heap_new h w new arr w1 w2 n key links :
  r_heap h w → new ≠ NULL → new ∉ owned w → owned w1 = {[new]} ∪ owned w → arr ∉ owned w1 → owned w2 = {[arr]} ∪ owned w1 →
  r_heap (<[new:=RNode arr links n key]> h) w2.
Proof.
  intros [H1 H2 H3 H4] Hnn Hn Ho1 Ha Ho2. rewrite Ho1 in Ha. constructor; rewrite ?Ho2, ?Ho1, ?dom_insert_L; [set_solver|..].
  - intros x m. rewrite lookup_insert_Some. intros [[<- <-]|[Hx Hm]]; simpl; [set_solver|]. destruct (H2 x m Hm). set_solver.
  - intros x y m m'. rewrite !lookup_insert_Some. intros [[<- <-]|[Hx Hm]] [[<- <-]|[Hy Hm']]; simpl; intros Heq; try done.
    + destruct (H2 y m' Hm'). set_solver.
    + destruct (H2 x m Hm). set_solver.
    + by eapply H3.
  - by rewrite lookup_insert_ne.
Qed.

Lemma r_heap_delete h w x n : r_heap h w → h !! x = Some n → r_heap (delete x h) (dealloc x (dealloc (rn_arr n) w)).
Proof.
  intros [H1 H2 H3 H4] Hx. destruct (H2 x n Hx) as [Ha1 Ha2]. pose proof Hx as Hxd%elem_of_dom_2.
  constructor; rewrite ?dealloc_ok, ?dom_delete_L; [set_solver|..].
  - intros y m [Hy Hm]%lookup_delete_Some. destruct (H2 y m Hm).
    assert (rn_arr m ≠ rn_arr n) by (intros Hc; apply Hy; symmetry; by eapply H3).
    split; set_solver.
  - intros y z m m' [_ Hm]%lookup_delete_Some [_ Hm']%lookup_delete_Some. by eapply H3.
  - apply lookup_delete_None. by right.
Qed.

(** The list at [sk] with the header [L]: its levels [ls], the keys [kf] of its nodes. *)
Record r_list_rep s (sk : Z) (L : rlist) ls kf : Prop := {
  rl_hdr : rm_lists s !! sk = Some L;
  rl_rep : rrep kf (rm_nodes s) (rl_head L) (Z.to_nat (rl_max_level L)) ls;
  rl_max : 0 < rl_max_level L ≤ 30;
  rl_lev : 0 ≤ rl_level L ≤ rl_max_level L;
  rl_top : ∀ i, rl_level L ≤ Z.of_nat i → ls i = [];
  rl_first : ∃ n, rm_nodes s !! rl_head L = Some n ∧ rn_key n = -1;
  rl_heap : r_heap (rm_nodes s) (rm_world s);
}.

Lemma rrep_ext kf kf' h hd ml ls :
  rrep kf h hd ml ls → (∀ x, x ∈ ls 0%nat → kf' x = kf x) → rrep kf' h hd ml ls.
Proof.
  intros [H1 H2 H3 H4 Hs Hk] Heq. constructor; try done.
  - revert Hs Heq. generalize (ls 0%nat). induction 1 as [|x l Hl IH Hx]; intros Heq; constructor.
    + apply IH. set_solver.
    + rewrite Forall_forall in *. intros y Hy. unfold key_le, kof. rewrite !Heq by set_solver. by apply Hx.
  - intros x Hx. rewrite Heq by done. by apply Hk.
Qed.

Lemma rrep_fresh kf h hd ml ls new n :
  rrep kf h hd ml ls → h !! new = None → (0 < ml)%nat →
  rrep kf (<[new:=n]> h) hd ml ls ∧ new ∉ hd :: ls 0%nat.
Proof.
  intros R Hnew Hml. pose proof R as [H1 H2 H3 H4 H5 H6].
  assert (new ∉ ls 0%nat) as Hn0. { intros Hin. destruct (H6 _ Hin) as (? & ? & _). congruence. }
  assert (new ≠ hd) as Hnh.
  { intros ->. destruct (rnxt_some h 0 hd (follow (ls 0%nat) NULL)) as (? & ? & _); [|congruence].
    apply (path_next _ hd [] (ls 0%nat)). by apply H1. }
  assert (new ∉ hd :: ls 0%nat) as Hnew' by set_solver. split; [|done]. constructor; try done.
  - intros i Hi. eapply path_ext; [|by apply H1]. intros x Hx. unfold rnxt. rewrite lookup_insert_ne; [done|].
    intros ->. apply Hnew'. apply elem_of_cons in Hx as [->|Hx]; [set_solver|].
    apply elem_of_cons. right. by eapply sublist_subseteq; [by eapply r_level_sub|].
  - intros x Hx. rewrite lookup_insert_ne by set_solver. by apply H6.
Qed.

Lemma rrep_inserted kf h h' hd ml ls new n nn :
  rrep kf h hd ml ls → new ∉ hd :: ls 0%nat → (0 < n ≤ ml)%nat →
  h !! new = Some nn → rn_key nn = kf new → new ≠ NULL → same_rinfo h h' →
  (∀ j, (j < ml)%nat → path (rnxt h' j) hd (inserted int_cmp id kf new n ls j) NULL) →
  rrep kf h' hd ml (inserted int_cmp id kf new n ls).
Proof.
  intros R Hf Hn Hnew Hkey Hnn Hs Hp.
  assert (inserted int_cmp id kf new n ls 0%nat = ins int_cmp id kf new (ls 0%nat)) as H0
    by (unfold inserted; by rewrite decide_True by lia).
  pose proof (ins_perm int_cmp id kf new _ (rr_sorted _ _ _ _ _ R)) as Hperm.
  constructor; try done.
  - intros i Hi. unfold inserted. rewrite decide_False by lia. by apply R.
  - intros i. unfold inserted. destruct (decide (S i < n)%nat).
    + rewrite decide_True by lia. apply ins_sub, R.
    + case_decide; [|apply R]. apply ins_sub_l; [apply _| |apply R]. by eapply r_level_sorted.
  - rewrite H0, Hperm. pose proof (rr_nodup _ _ _ _ _ R) as Hnd. rewrite !NoDup_cons in *. set_solver.
  - rewrite H0. apply ins_sorted; [apply _|apply R].
  - intros x. rewrite H0, Hperm. intros Hx. apply (rkeys_at_same kf h h' (new :: ls 0%nat)); [done| |done].
    intros y [->|Hy]%elem_of_cons; [by eexists|by apply R].
Qed.

(** ** Search *)

Lemma wp_r_sklist_search fuel sk L ls kf k Q s :
  r_list_rep s sk L ls kf → 0 < rl_level L → k ≠ -1 →
  (Z.to_nat (rl_level L) * (length (ls 0%nat) + 2) ≤ fuel)%nat →
  - 2 ^ 31 ≤ rm_COUNT s → rm_COUNT s + 2 * Z.of_nat fuel < 2 ^ 31 →
  (∀ s', counted (2 * Z.of_nat fuel) s s' → Q (default NULL (top_match int_cmp id kf ls k (Z.to_nat (rl_level L)))) s') →
  wp (r_sklist_search fuel sk k) Q s.
Proof.
  intros Hrep Hlv Hk Hf Hc1 Hc2 HQ. pose proof Hrep as [HL R Hmax Hl _ (n & Hn & Hkn) _]. unfold r_sklist_search.
  apply wp_bind. eapply wp_r_get_list; [done|]. destruct (Z.to_nat (rl_level L)) as [|i] eqn:Hi; [lia|].
  replace (rl_level L - 1) with (Z.of_nat i) by lia.
  eapply wp_r_search_node; [exact R|lia|set_solver|exact Hn|congruence|done|done|done|done].
Qed.

(** ** Insertion *)

Lemma wp_r_mod_list p L f Q s :
  rm_lists s !! p = Some L → Q () (RMem (<[p:=f L]> (rm_lists s)) (rm_nodes s) (rm_COUNT s) (rm_world s)) →
  wp (r_mod_list p f) Q s.
Proof. intros HL HQ. apply wp_zoom. by eapply wp_modify. Qed.

(** The last lines of insertion and deletion. *)
Lemma wp_r_resize (f : Z → Z) sk L Q s :
  rm_lists s !! sk = Some L → - 2 ^ 31 ≤ f (rl_size L) < 2 ^ 31 →
  Q () (RMem (<[sk:=r_with_size (f (rl_size L)) L]> (rm_lists s)) (rm_nodes s) (rm_COUNT s) (rm_world s)) →
  wp (L ← r_get_list sk; size ← s32_value (f (rl_size L)); r_mod_list sk (r_with_size size)) Q s.
Proof.
  intros HL Hf HQ. apply wp_bind. eapply wp_r_get_list; [done|]. apply wp_bind, wp_s32_value; [done|]. by eapply wp_r_mod_list.
Qed.

Lemma wp_r_rand_level sk L Q s :
  rm_lists s !! sk = Some L → 0 < rl_max_level L ≤ 30 →
  (∀ n t w, rand (rm_world s) = (t, w) → 1 ≤ n ≤ rl_max_level L →
     Q n (RMem (<[sk:=r_with_level (Z.max (rl_level L) n) L]> (rm_lists s)) (rm_nodes s) (rm_COUNT s) w)) →
  wp (r_rand_level sk) Q s.
Proof.
  intros HL Hmax HQ. unfold r_rand_level. destruct (rand (rm_world s)) as [t w] eqn:Ht.
  apply wp_bind. eapply wp_r_call; [done|]. apply wp_bind. eapply wp_r_get_list; [done|].
  apply wp_bind, wp_rand_loop; [done|]. intros i Hi _ _. specialize (HQ i t w eq_refl Hi). apply wp_bind.
  case_bool_decide as Hlv.
  - eapply wp_r_mod_list; [done|]. apply wp_ret. simpl. by replace (Z.max (rl_level L) i) with i in HQ by lia.
  - apply wp_ret, wp_ret. replace (Z.max (rl_level L) i) with (rl_level L) in HQ by lia.
    rewrite insert_id in HQ; [done|]. rewrite HL. by destruct L.
Qed.

(** There is memory for a node with [n] links. *)
Definition node_memory (n : Z) (w : W) : bool :=
  bool_decide ((alloc sizeof_rnode w).1 ≠ NULL) && bool_decide ((alloc (8 * n) (alloc sizeof_rnode w).2).1 ≠ NULL).

Lemma wp_r_new_node key n Q s :
  r_heap (rm_nodes s) (rm_world s) →
  (node_memory n (rm_world s) = true → ∀ new arr w, new ≠ NULL → rm_nodes s !! new = None →
     let h := <[new := RNode arr (replicate (Z.to_nat n) NULL) n key]> (rm_nodes s) in
     r_heap h w → Q new (RMem (rm_lists s) h (rm_COUNT s) w)) →
  (node_memory n (rm_world s) = false → ∀ w, Q NULL (RMem (rm_lists s) (rm_nodes s) (rm_COUNT s) w)) →
  wp (r_new_node key n) Q s.
Proof.
  intros Hd HQ HN. unfold r_new_node. unfold node_memory in *. apply wp_bind.
  destruct (alloc sizeof_rnode (rm_world s)) as [new w] eqn:Ha. eapply wp_r_call; [done|]. cbn [fst snd] in *.
  destruct (decide (new = NULL)) as [->|Hnew].
  { rewrite bool_decide_true by done. apply wp_ret, HN. by rewrite bool_decide_false by (by intros ?). }
  rewrite bool_decide_false by done. apply alloc_ok in Ha as [[? _]|(_ & Hfr & Ho)]; [done|].
  assert (rm_nodes s !! new = None) as Hno by (eapply not_owned_fresh; [apply Hd|done]).
  apply wp_bind. eapply wp_done; [done|]. apply wp_bind.
  destruct (alloc (8 * n) w) as [arr w'] eqn:Ha'. eapply wp_r_call; [done|]. cbn [fst snd] in *.
  rewrite (bool_decide_true (new ≠ NULL)) in HQ, HN by done.
  destruct (decide (arr = NULL)) as [->|Harr].
  { rewrite bool_decide_true by done. apply wp_bind. eapply wp_done; [done|]. apply wp_bind. eapply wp_r_call; [done|].
    apply wp_ret. cbn [rm_lists rm_nodes rm_COUNT rm_world]. rewrite delete_insert_id by done. apply HN.
    by rewrite bool_decide_false by (by intros ?). }
  rewrite bool_decide_false by done. apply alloc_ok in Ha' as [[? _]|(_ & Hfr' & Ho')]; [done|].
  apply wp_bind. eapply wp_done; [done|]. apply wp_ret. cbn [rm_lists rm_nodes rm_COUNT rm_world]. rewrite insert_insert_eq.
  apply HQ; [by rewrite bool_decide_true|done|done|]. by eapply r_heap_new.
Qed.

(** Walking down with the NULL of a failed allocation is undefined at the first step. *)
Lemma r_insert_null fuel hd (i : nat) q s :
  rnxt (rm_nodes s) i hd = Some q → rm_nodes s !! NULL = None → r_insert_node (S fuel) hd NULL (Z.of_nat i) s = Fault.
Proof.
  intros Hq Hnull. cbn [r_insert_node].
  destruct (wp_r_get_link hd i q (λ r s', r = q ∧ s' = s) s Hq) as (? & ? & Hl & -> & ->); [done|].
  erewrite bind_done by exact Hl.
  assert (r_get_node NULL s = Fault) as Hn.
  { unfold r_get_node, zoom, load. simpl. by rewrite Hnull. }
  destruct (decide (q = NULL)) as [->|Hne].
  - rewrite (bool_decide_true (NULL = NULL)) by done. erewrite bind_done by reflexivity. by apply bind_fault.
  - rewrite (bool_decide_false (q = NULL)) by done. apply bind_fault. by apply bind_fault.
Qed.

(** The level is chosen before there is a node. *)
Lemma r_level_chosen s sk L :
  rm_lists s !! sk = Some L → 0 < rl_max_level L ≤ 30 →
  ∃ n t w, rand (rm_world s) = (t, w) ∧ 1 ≤ n ≤ rl_max_level L ∧
    r_rand_level sk s = Done (n, RMem (<[sk:=r_with_level (Z.max (rl_level L) n) L]> (rm_lists s)) (rm_nodes s) (rm_COUNT s) w).
Proof.
  intros HL Hmax. destruct (wp_r_rand_level sk L (λ n s', ∃ t w, rand (rm_world s) = (t, w) ∧ 1 ≤ n ≤ rl_max_level L ∧
    s' = RMem (<[sk:=r_with_level (Z.max (rl_level L) n) L]> (rm_lists s)) (rm_nodes s) (rm_COUNT s) w) s)
    as (n & s' & Hn & t & w & Hr & Hle & ->); [done..|by eauto 10|]. by exists n, t, w.
Qed.

(** Without memory for the node of the level chosen the insertion is undefined. *)
Lemma r_insert_no_memory fuel sk L ls kf key n w s :
  r_list_rep s sk L ls kf → (0 < fuel)%nat → 1 ≤ n ≤ rl_max_level L → owned w = owned (rm_world s) →
  r_rand_level sk s = Done (n, RMem (<[sk:=r_with_level (Z.max (rl_level L) n) L]> (rm_lists s)) (rm_nodes s) (rm_COUNT s) w) →
  node_memory n w = false → r_sklist_insert fuel sk key s = Fault.
Proof.
  intros [HL R Hmax Hl Htop (nh & Hnh & Hkh) Hd] Hf Hn Hw Hlv Hno. unfold r_sklist_insert. erewrite bind_done by exact Hlv.
  set (L1 := r_with_level (Z.max (rl_level L) n) L) in *. set (s1 := RMem _ _ _ w) in *.
  destruct (wp_r_new_node key n (λ r s', ∃ w', r = NULL ∧ s' = RMem (rm_lists s1) (rm_nodes s1) (rm_COUNT s1) w') s1)
    as (? & ? & Hnew & w' & -> & ->).
  { by eapply r_heap_world. }
  { simpl. intros Hy. by rewrite Hno in Hy. }
  { intros _ w'. by exists w'. }
  erewrite bind_done by exact Hnew. set (s2 := RMem _ _ _ w').
  destruct (wp_r_get_list sk L1 (λ r s', r = L1 ∧ s' = s2) s2) as (? & ? & Hg & -> & ->);
    [simpl; by rewrite lookup_insert_eq|done|].
  erewrite bind_done by exact Hg. apply bind_fault.
  destruct fuel as [|fuel]; [lia|]. destruct (Z.to_nat (rl_level L1)) as [|i] eqn:Hi; [simpl in Hi; lia|].
  replace (rl_level L1 - 1) with (Z.of_nat i) by lia.
  assert (∃ q, rnxt (rm_nodes s2) i (rl_head L) = Some q) as [q Hq].
  { pose proof (rr_paths _ _ _ _ _ R i ltac:(simpl in Hi; lia)) as Hp. destruct (ls i) as [|x xs]; [by exists NULL|]. destruct Hp as [? _]. by exists x. }
  eapply r_insert_null; [exact Hq|]. apply Hd.
Qed.

Lemma wp_r_sklist_insert fuel sk L ls kf key n w Q s :
  r_list_rep s sk L ls kf →
  (Z.to_nat (rl_max_level L) * (length (ls 0%nat) + 1) ≤ fuel)%nat → - 2 ^ 31 ≤ rl_size L + 1 < 2 ^ 31 →
  1 ≤ n ≤ rl_max_level L → owned w = owned (rm_world s) →
  r_rand_level sk s = Done (n, RMem (<[sk:=r_with_level (Z.max (rl_level L) n) L]> (rm_lists s)) (rm_nodes s) (rm_COUNT s) w) →
  node_memory n w = true →
  (∀ s' new, new ∉ ls 0%nat →
     let kf' := <[new:=key]> kf in
     r_list_rep s' sk (r_with_size (rl_size L + 1) (r_with_level (Z.max (rl_level L) n) L))
       (inserted int_cmp id kf' new (Z.to_nat n) ls) kf' → Q () s') →
  wp (r_sklist_insert fuel sk key) Q s.
Proof.
  intros [HL R Hmax Hl Htop (nh & Hnh & Hkh) Hd] Hf Hsz Hn Hw Hlv Hmem HQ. unfold r_sklist_insert. apply wp_bind.
  eapply wp_done; [exact Hlv|]. set (L1 := r_with_level (Z.max (rl_level L) n) L) in *.
  apply wp_bind. eapply wp_r_new_node; [by eapply r_heap_world| |simpl; congruence]. cbn [rm_lists rm_nodes rm_COUNT rm_world].
  intros _ new arr w' Hnn Hnew Hd'. set (nn := RNode arr (replicate (Z.to_nat n) NULL) n key). set (s2 := RMem _ _ _ w').
  set (kf' := <[new:=key]> kf : Z → Z). assert (kf' new = key) as Hkn by apply fn_lookup_insert.
  destruct (rrep_fresh kf _ _ _ _ new nn R Hnew ltac:(lia)) as [R1 Hfr].
  assert (rrep kf' (rm_nodes s2) (rl_head L) (Z.to_nat (rl_max_level L)) ls) as R2.
  { eapply rrep_ext; [exact R1|]. intros x Hx. apply fn_lookup_insert_ne. set_solver. }
  assert (rm_lists s2 !! sk = Some L1) as HL2 by (simpl; by rewrite lookup_insert_eq).
  apply wp_bind. eapply wp_r_get_list; [exact HL2|].
  destruct (Z.to_nat (rl_level L1)) as [|i] eqn:Hi; [simpl in Hi; lia|]. replace (rl_level L1 - 1) with (Z.of_nat i) by lia.
  assert (∀ j, ins_from int_cmp id kf' new (Z.to_nat n) (S i) ls j = ls j) as Hstart.
  { intros j. unfold ins_from. case_decide; [done|]. rewrite decide_False; [done|]. simpl in Hi. lia. }
  apply wp_bind. eapply (wp_r_insert_node kf' (rm_nodes s2) (rl_head L) _ ls R2 new (Z.to_nat n) nn).
  - simpl. by rewrite lookup_insert_eq.
  - exact Hfr.
  - done.
  - simpl. by rewrite length_replicate.
  - simpl. lia.
  - by rewrite Hkn.
  - simpl in Hi. lia.
  - done.
  - intros j Hj. rewrite Hstart. by apply R2.
  - set_solver.
  - simpl in Hi. etrans; [|exact Hf]. apply Nat.mul_le_mono_r. lia.
  - intros h' Hs Hp. apply (wp_r_resize (λ z, z + 1) sk L1); [exact HL2|done|]. apply (HQ _ new); [set_solver|].
    constructor; simpl; try done; [by rewrite lookup_insert_eq| |lia|..].
    + eapply (rrep_inserted kf' (rm_nodes s2)); try done; [lia|simpl; by rewrite lookup_insert_eq|by rewrite Hkn].
    + intros j Hj. unfold inserted. rewrite decide_False by lia. apply Htop. lia.
    + destruct (same_rinfo_lookup (rm_nodes s2) h' (rl_head L) nh Hs) as (n' & Hn' & Hinf).
      { simpl. rewrite lookup_insert_ne by set_solver. done. }
      exists n'. split; [done|]. unfold rinfo in Hinf. congruence.
    + by eapply r_heap_same.
Qed.

(** ** Deletion *)

Lemma rrep_deleted kf k h h' hd ml ls :
  rrep kf h hd ml ls → del_paths kf k h hd ml ls 0 h' → rrep kf h' hd ml (deleted int_cmp id kf k ls).
Proof.
  intros R [Hs Hp].
  assert (∀ j, deleted int_cmp id kf k ls j `sublist_of` ls j) as Hsub.
  { intros j. apply del_sublist; [apply _|]. by eapply r_level_sorted. }
  constructor.
  - intros i Hi. specialize (Hp i Hi). unfold del_from in Hp. by rewrite decide_False in Hp by lia.
  - intros j Hj. apply sublist_nil_r. rewrite <-(rr_high _ _ _ _ _ R j Hj). apply Hsub.
  - intros j. apply del_sub; [apply _|by eapply r_level_sorted|apply R].
  - eapply sublist_NoDup; [apply R|]. do 2 apply sublist_skip. apply Hsub.
  - eapply sublist_sorted; [apply Hsub|apply R].
  - intros x Hx. apply (rkeys_at_same kf h h' (ls 0%nat)); [exact Hs|exact (rr_keys _ _ _ _ _ R)|]. eapply sublist_subseteq; [apply Hsub|done].
Qed.

(** A node that is on no level can go. *)
Lemma rrep_delete kf h hd ml ls x :
  rrep kf h hd ml ls → x ∉ hd :: ls 0%nat → rrep kf (delete x h) hd ml ls.
Proof.
  intros R Hx. pose proof R as [H1 H2 H3 H4 H5 H6]. constructor; try done.
  - intros i Hi. eapply path_ext; [|by apply H1]. intros y Hy. unfold rnxt. rewrite lookup_delete_ne; [done|].
    intros ->. apply Hx. apply elem_of_cons in Hy as [->|Hy]; [set_solver|].
    apply elem_of_cons. right. by eapply sublist_subseteq; [by eapply r_level_sub|].
  - intros y Hy. rewrite lookup_delete_ne by set_solver. by apply H6.
Qed.

Lemma wp_r_destroy_node x n Q s :
  x ≠ NULL → rm_nodes s !! x = Some n →
  Q () (RMem (rm_lists s) (delete x (rm_nodes s)) (rm_COUNT s) (dealloc x (dealloc (rn_arr n) (rm_world s)))) →
  wp (r_destroy_node x) Q s.
Proof.
  intros Hx Hn HQ. unfold r_destroy_node. rewrite bool_decide_false by done. apply wp_bind. eapply wp_r_get_node; [done|].
  apply wp_bind. eapply wp_r_call; [done|]. apply wp_bind. eapply wp_done; [done|]. by eapply wp_r_call.
Qed.

Lemma wp_r_sklist_delete fuel sk L ls kf k Q s :
  r_list_rep s sk L ls kf → 0 < rl_level L →
  (Z.to_nat (rl_level L) * (length (ls 0%nat) + 1) ≤ fuel)%nat → - 2 ^ 31 ≤ rl_size L - 1 < 2 ^ 31 →
  (∀ s', r_list_rep s' sk (r_with_size (rl_size L - 1) L) (deleted int_cmp id kf k ls) kf →
     (matching int_cmp id kf k (ls 0%nat) = [] ∧ (∀ j, deleted int_cmp id kf k ls j = ls j) ∨
      ∃ x, x ∈ ls 0%nat ∧ kf x = k ∧ rm_nodes s' !! x = None ∧ ls 0%nat ≡ₚ x :: deleted int_cmp id kf k ls 0%nat) → Q () s') →
  wp (r_sklist_delete fuel sk k) Q s.
Proof.
  intros [HL R Hmax Hl Htop (nh & Hnh & Hkh) Hh] Hlv Hf Hsz HQ. unfold r_sklist_delete. apply wp_bind.
  eapply wp_r_get_list; [done|]. destruct (Z.to_nat (rl_level L)) as [|i] eqn:Hi; [lia|].
  replace (rl_level L - 1) with (Z.of_nat i) by lia. apply wp_bind.
  assert (∀ j, deleted int_cmp id kf k ls j `sublist_of` ls j) as Hsub.
  { intros j. apply del_sublist; [apply _|]. by eapply r_level_sorted. }
  assert (∀ h' w, rrep kf h' (rl_head L) (Z.to_nat (rl_max_level L)) (deleted int_cmp id kf k ls) → r_heap h' w →
    (∃ n, h' !! rl_head L = Some n ∧ rn_key n = -1) →
    r_list_rep (RMem (<[sk:=r_with_size (rl_size L - 1) L]> (rm_lists s)) h' (rm_COUNT s) w) sk (r_with_size (rl_size L - 1) L)
      (deleted int_cmp id kf k ls) kf) as Hfin.
  { intros h' w R' Hh' Hfirst. constructor; simpl; try done; [by rewrite lookup_insert_eq|].
    intros j Hj. apply sublist_nil_r. rewrite <-(Htop j) by lia. apply Hsub. }
  eapply (wp_r_delete_node kf k (rm_nodes s) (rl_head L) _ ls R); [lia| |set_solver|done|].
  { split; [done|]. intros j Hj. unfold del_from. case_decide; [by apply R|].
    pose proof (rr_paths _ _ _ _ _ R j Hj) as Hp. rewrite Htop in * by lia. done. }
  intros fuel' h' Hdp. pose proof (rrep_deleted _ _ _ _ _ _ _ R Hdp) as R'. pose proof (r_heap_same _ _ _ Hh (proj1 Hdp)) as Hh'.
  destruct (same_rinfo_lookup _ _ _ _ (proj1 Hdp) Hnh) as (nh' & Hnh' & Hinf).
  assert (rn_key nh' = -1) as Hkh' by (unfold rinfo in Hinf; congruence).
  unfold r_delete_rest. destruct (del_cases int_cmp id kf k _ (rr_sorted _ _ _ _ _ R)) as [[Hno _]|(x & r & Hfr & Hk & Hcut & Hd0)].
  - assert (∀ j, deleted int_cmp id kf k ls j = ls j) as Hsame.
    { intros j. destruct (del_cases int_cmp id kf k _ (r_level_sorted _ _ _ _ _ R j)) as [[_ ?]|(x & r & _ & Hk & Hx & _)]; [done|].
      assert (x ∈ matching int_cmp id kf k (ls 0%nat)) as Hin; [|rewrite Hno in Hin; by apply elem_of_nil in Hin].
      apply list_elem_of_filter. split; [done|]. eapply sublist_subseteq; [eapply (r_level_sub kf _ _ _ _ R j)|]. rewrite Hx. set_solver. }
    pose proof (first_match int_cmp id kf k _ (rr_sorted _ _ _ _ _ R)) as Hfm. rewrite Hno in Hfm.
    assert (wp (L ← r_get_list sk; size ← s32_value (rl_size L - 1); r_mod_list sk (r_with_size size)) Q (r_with_nodes h' s)) as Hgoal.
    { apply (wp_r_resize (λ z, z - 1) sk L); [done|done|]. apply HQ; [by apply Hfin; eauto|by left]. }
    destruct (from int_cmp id kf k (ls 0%nat)) as [|x r]; [done|]. destruct (decide (kf x = k)) as [Hk|]; [|done].
    rewrite decide_True in Hfm by (unfold int_cmp, kof, id; lia). done.
  - assert (kf x = k) as Hkx by (unfold int_cmp, kof, id in Hk; lia). rewrite Hfr, decide_True by done.
    assert (ls 0%nat ≡ₚ x :: deleted int_cmp id kf k ls 0%nat) as Hperm.
    { unfold deleted. rewrite Hd0. rewrite Hcut at 1. by rewrite <-Permutation_middle. }
    pose proof (rr_nodup _ _ _ _ _ R) as Hnd. rewrite Hperm in Hnd. rewrite !NoDup_cons in Hnd.
    assert (x ∈ ls 0%nat) as Hin by (rewrite Hperm; set_solver).
    destruct (rr_keys _ _ _ _ _ R x Hin) as (nx & Hnx & _). destruct (same_rinfo_lookup _ _ _ _ (proj1 Hdp) Hnx) as (nx' & Hnx' & _).
    assert (x ∉ rl_head L :: deleted int_cmp id kf k ls 0%nat) as Hxn by set_solver.
    eapply wp_r_destroy_node; [set_solver|exact Hnx'|]. apply (wp_r_resize (λ z, z - 1) sk L); [done|done|]. apply HQ.
    + simpl. apply Hfin; [by apply rrep_delete|by apply r_heap_delete|]. exists nh'. rewrite lookup_delete_ne by set_solver. done.
    + right. exists x. split_and!; [done|done|simpl; apply lookup_delete_eq|done].
Qed.

(** ** Creation *)

Lemma wp_r_sklist_init max_level Q s :
  r_heap (rm_nodes s) (rm_world s) → (∀ m w, m ≤ 240 → (alloc m w).1 ≠ NULL) → 0 < max_level ≤ 30 →
  (∀ s' sk hd, sk ≠ NULL → r_list_rep s' sk (RList hd max_level 0 0) (λ _, []) (λ _, 0) → Q sk s') →
  wp (r_sklist_init max_level) Q s.
Proof.
  intros Hh HA Hm HQ. unfold r_sklist_init. apply wp_bind.
  pose proof (HA sizeof_rlist (rm_world s) ltac:(unfold sizeof_rlist; lia)) as H1.
  destruct (alloc sizeof_rlist (rm_world s)) as [sk w] eqn:Ha. eapply wp_r_call; [done|]. simpl in H1.
  rewrite bool_decide_false by done. apply alloc_ok in Ha as [[? _]|(_ & Hfr & Ho)]; [done|].
  apply wp_bind. eapply wp_done; [done|]. apply wp_bind. cbn [rm_lists rm_nodes rm_COUNT rm_world].
  eapply wp_r_new_node.
  { destruct Hh as [G1 G2 G3 G4]. constructor; simpl; rewrite ?Ho; [set_solver| |done|done]. intros x n Hx. destruct (G2 x n Hx). set_solver. }
  2: { unfold node_memory. simpl. rewrite !bool_decide_true by (apply HA; unfold sizeof_rnode; lia). done. }
  cbn [rm_lists rm_nodes rm_COUNT rm_world]. intros _ hd arr w' Hhd Hnew Hh'. rewrite bool_decide_false by done.
  apply wp_bind. eapply wp_r_mod_list; [simpl; apply lookup_insert_eq|]. apply wp_ret. apply (HQ _ sk hd); [done|].
  constructor; simpl; try done; [by rewrite lookup_insert_eq| |lia|eexists; split; [apply lookup_insert_eq|done]].
  constructor; simpl; try done.
  - intros i Hi. simpl. unfold rnxt. rewrite lookup_insert_eq. simpl. rewrite lookup_replicate_2 by lia. done.
  - intros i. constructor.
  - rewrite !NoDup_cons. repeat split; [|by intros ?%elem_of_nil|constructor]. intros Hin%list_elem_of_singleton. congruence.
  - constructor.
  - by intros x ?%elem_of_nil.
Qed.

End rep.
