(* ===== verification/StdText.v ===== *)
(** * Characters, numerals and input streams of the C++ standard library

    What cpp_console, preprocess and my_lib/http_client use of <cctype>,
    <cstdio>, <string> and <istream>: the space class of the C locale, decimal
    printing (sprintf), the numerals an input stream reads under [std::dec],
    [std::oct] and [std::hex], and an input stream with its eof and fail bits. *)

From Stdlib Require Import Ascii String.
From stdpp Require Import numbers list.
From S2P Require Import Prelude.

Local Open Scope Z_scope.

(** A [std::string]: the characters, any of them possibly NUL. *)
Abbreviation chars := (list ascii).

Definition text (s : string) : chars := list_ascii_of_string s.
Arguments text s%_string_scope : simpl never.

Definition code (c : ascii) : Z := Z.of_N (N_of_ascii c).
Definition chr (z : Z) : ascii := ascii_of_N (Z.to_N z).

Lemma code_chr z : 0 ≤ z < 256 → code (chr z) = z.
Proof. intros Hz. unfold code, chr. rewrite N_ascii_embedding by lia. lia. Qed.

Lemma chr_code c : chr (code c) = c.
Proof. unfold code, chr. rewrite N2Z.id. apply ascii_N_embedding. Qed.

(** [isspace] in the C locale: tab, newline, vertical tab, form feed, return, space. *)
Definition isspace (c : ascii) : bool := bool_decide (9 <= code c <= 13) || bool_decide (code c = 32).

Definition CR : ascii := chr 13.
Definition LF : ascii := chr 10.

(** The longest prefix of characters in a class, and the rest. *)
Fixpoint span (P : ascii → bool) (l : chars) : chars * chars :=
  match l with
  | [] => ([], [])
  | c :: l' => if P c then let '(a, b) := span P l' in (c :: a, b) else ([], l)
  end.

Definition skipws (l : chars) : chars := (span isspace l).2.

(** ** Numerals *)

(** The value of a digit in some base, as strtol reads it. *)
Definition digit_value (c : ascii) : option Z :=
  let z := code c in
  if bool_decide (48 <= z <= 57) then Some (z - 48)
  else if bool_decide (65 <= z <= 70) then Some (z - 55)
  else if bool_decide (97 <= z <= 102) then Some (z - 87)
  else None.

Definition is_digit (base : Z) (c : ascii) : bool :=
  match digit_value c with Some d => bool_decide (d < base) | None => false end.

(** The digit [d] as printf prints it (lower case from ten on). *)
Definition digit_char (d : Z) : ascii := if bool_decide (d < 10) then chr (48 + d) else chr (87 + d).

Definition digits_value (base : Z) (l : chars) : Z :=
  foldl (λ v c, v * base + default 0 (digit_value c)) 0 l.

Fixpoint print_digits (fuel : nat) (base n : Z) (acc : chars) : chars :=
  match fuel with
  | O => acc
  | S fuel =>
      let acc := digit_char (n mod base) :: acc in
      if bool_decide (n < base) then acc else print_digits fuel base (n / base) acc
  end.

(** A numeral without leading zeros; the fuel is the bit length, at least the number of digits. *)
Definition print_nat (base n : Z) : chars := print_digits (S (Z.to_nat (Z.log2 n))) base n [].

(** [%d], [%ld], [%lld] (and [%u] on a value that is not negative). *)
Definition print_int (n : Z) : chars :=
  if bool_decide (n < 0) then "-"%char :: print_nat 10 (- n) else print_nat 10 n.

(** [%0wd]: zeros between the sign and the digits up to the width [w]. *)
Definition pad0 (w : nat) (l : chars) : chars := replicate (w - length l) "0"%char ++ l.
Definition print_int_pad (w : nat) (n : Z) : chars :=
  if bool_decide (n < 0) then "-"%char :: pad0 (w - 1) (print_nat 10 (- n)) else pad0 w (print_nat 10 n).

(** The integer types the sources read or print. *)
Record int_type := IntType { it_min : Z; it_max : Z }.
Definition int_t : int_type := IntType (- 2 ^ 31) (2 ^ 31 - 1).
Definition long_t : int_type := IntType (- 2 ^ 63) (2 ^ 63 - 1).
Definition uint_t : int_type := IntType 0 (2 ^ 32 - 1).
Definition size_type : int_type := IntType 0 (2 ^ 64 - 1).

Definition in_type (t : int_type) (z : Z) : Prop := it_min t ≤ z ≤ it_max t.

(** Stage 3 of num_get: the stored value and whether the conversion failed.  A value out of range
    is replaced by the nearest one; a minus sign on an unsigned type wraps, as strtoull does. *)
Definition num_store (t : int_type) (neg : bool) (v : Z) : Z * bool :=
  if bool_decide (it_min t = 0) then
    if bool_decide (it_max t < v) then (it_max t, true)
    else (if neg then (- v) mod (it_max t + 1) else v, false)
  else if neg then if bool_decide (- v < it_min t) then (it_min t, true) else (- v, false)
  else if bool_decide (it_max t < v) then (it_max t, true) else (v, false).

(** An optional sign. *)
Definition scan_sign (l : chars) : bool * chars :=
  match l with
  | c :: l' => if bool_decide (c = "-"%char) then (true, l')
               else if bool_decide (c = "+"%char) then (false, l') else (false, l)
  | [] => (false, [])
  end.

(** The optional 0x of a hexadecimal numeral. *)
Definition scan_prefix (base : Z) (l : chars) : chars :=
  match l with
  | c :: d :: l' =>
      if bool_decide (base = 16) && bool_decide (c = "0"%char) &&
         (bool_decide (d = "x"%char) || bool_decide (d = "X"%char)) then l' else l
  | _ => l
  end.

(** Stages 2 and 3 of num_get: value, failure and the characters not taken. *)
Definition scan_int (t : int_type) (base : Z) (l : chars) : Z * bool * chars :=
  let '(neg, l) := scan_sign l in
  let '(ds, rest) := span (is_digit base) (scan_prefix base l) in
  match ds with
  | [] => (0, true, rest)
  | _ => (num_store t neg (digits_value base ds), rest)
  end.

(** ** Input streams *)

Record istream := IStream { is_data : chars; is_eof : bool; is_fail : bool }.

Definition istream_of (l : chars) : istream := IStream l false false.
Definition is_good (s : istream) : bool := negb (is_eof s) && negb (is_fail s).
Definition is_empty (l : chars) : bool := match l with [] => true | _ => false end.

(** The sentry of a formatted extraction: [None] when it refuses. *)
Definition sentry_ws (s : istream) : istream * bool :=
  if is_good s then
    match skipws (is_data s) with
    | [] => (IStream [] true true, false)
    | l => (IStream l false false, true)
    end
  else (IStream (is_data s) (is_eof s) true, false).

(** [s >> v] for an integer variable whose old value is [old]. *)
Definition read_int (t : int_type) (base : Z) (old : Z) (s : istream) : Z * istream :=
  let '(s, ok) := sentry_ws s in
  if (ok : bool) then
    let '(v, bad, rest) := scan_int t base (is_data s) in (v, IStream rest (is_empty rest) bad)
  else (old, s).

(** [s >> str] *)
Definition read_word (old : chars) (s : istream) : chars * istream :=
  let '(s, ok) := sentry_ws s in
  if (ok : bool) then
    let '(w, rest) := span (λ c, negb (isspace c)) (is_data s) in (w, IStream rest (is_empty rest) false)
  else (old, s).

(** [getline(s, line)] *)
Definition read_line (old : chars) (s : istream) : chars * istream :=
  if is_good s then
    let '(w, rest) := span (λ c, negb (bool_decide (c = LF))) (is_data s) in
    match rest with
    | [] => (w, IStream [] true (is_empty w))
    | _ :: rest => (w, IStream rest false false)
    end
  else (old, IStream (is_data s) (is_eof s) true).

(** [s.getline(buf, n)]: at most [n - 1] characters are stored. *)
Definition read_line_buf (n : nat) (s : istream) : chars * istream :=
  if is_good s then
    let '(w, rest) := span (λ c, negb (bool_decide (c = LF))) (is_data s) in
    if bool_decide (n - 1 < length w)%nat then (take (n - 1) w, IStream (drop (n - 1) (is_data s)) false true)
    else
      match rest with
      | [] => (w, IStream [] true (is_empty w))
      | _ :: rest => (w, IStream rest false false)
      end
  else ([], IStream (is_data s) (is_eof s) true).

(** [s.read(buf, n)]: the characters read; gcount is their number. *)
Definition read_block (n : nat) (s : istream) : chars * istream :=
  if is_good s then
    if bool_decide (length (is_data s) < n)%nat then (is_data s, IStream [] true true)
    else (take n (is_data s), IStream (drop n (is_data s)) false false)
  else ([], IStream (is_data s) (is_eof s) true).

(** ** Lemmas *)

Lemma span_app P l a b : span P l = (a, b) → l = a ++ b.
Proof.
  revert a b. induction l as [|c l IH]; intros a b H; simpl in H; [by simplify_eq|].
  destruct (P c); [|by simplify_eq]. destruct (span P l) as [a' b']. simplify_eq. simpl. f_equal. by apply IH.
Qed.

Lemma span_all (P : ascii → bool) l a b : span P l = (a, b) → Forall P a.
Proof.
  revert a b. induction l as [|c l IH]; intros a b H; simpl in H; [simplify_eq; constructor|].
  destruct (P c) eqn:Hc; [|simplify_eq; constructor]. destruct (span P l) as [a' b']. simplify_eq.
  constructor; [by rewrite Hc|by eapply IH].
Qed.

Lemma span_stop P l a b : span P l = (a, b) → match b with [] => True | c :: _ => P c = false end.
Proof.
  revert a b. induction l as [|c l IH]; intros a b H; simpl in H; [by simplify_eq|].
  destruct (P c) eqn:Hc; [|by simplify_eq]. destruct (span P l) as [a' b'] eqn:Hs. simplify_eq. by eapply IH.
Qed.

Lemma span_intro (P : ascii → bool) (a b : chars) :
  Forall P a → match b with [] => True | c :: _ => P c = false end → span P (a ++ b) = (a, b).
Proof.
  intros Ha Hb. induction Ha as [|c a Hc Ha IH]; simpl.
  - destruct b as [|c b]; simpl; [done|]. by rewrite Hb.
  - apply Is_true_true in Hc. by rewrite Hc, IH.
Qed.

Lemma span_intro_all (P : ascii → bool) (a : chars) : Forall P a → span P a = (a, []).
Proof. intros Ha. rewrite <-(app_nil_r a) at 1. by apply span_intro. Qed.

(** Digits. *)
Lemma digit_value_char d : 0 ≤ d < 16 → digit_value (digit_char d) = Some d.
Proof.
  intros Hd. unfold digit_value, digit_char.
  destruct (decide (d < 10)).
  - rewrite (bool_decide_true (d < 10)) by done. rewrite code_chr by lia. rewrite bool_decide_true by lia. f_equal; lia.
  - rewrite (bool_decide_false (d < 10)) by done. rewrite code_chr by lia.
    rewrite !(bool_decide_false _) by lia. rewrite bool_decide_true by lia. f_equal; lia.
Qed.

Lemma is_digit_char base d : 0 ≤ d < 16 → d < base → is_digit base (digit_char d) = true.
Proof. intros Hd Hb. unfold is_digit. rewrite digit_value_char by done. by apply bool_decide_true. Qed.

Lemma digits_value_snoc base l c : digits_value base (l ++ [c]) = digits_value base l * base + default 0 (digit_value c).
Proof. unfold digits_value. by rewrite foldl_app. Qed.

(** [print_digits] in front of what it has: the numeral of [n], without a leading zero unless it is 0. *)
Lemma print_digits_spec fuel base n acc :
  2 ≤ base ≤ 16 → 0 ≤ n < base ^ Z.of_nat fuel →  (0 < fuel)%nat →
  ∃ l, print_digits fuel base n acc = l ++ acc ∧ digits_value base l = n ∧
    Forall (λ c, is_digit base c) l ∧ l ≠ [] ∧ (0 < n → head l ≠ Some "0"%char) ∧ (length l ≤ fuel)%nat ∧
    (n < base → length l = 1%nat) ∧ (base ≤ n → base ^ (Z.of_nat (length l) - 1) ≤ n).
Proof.
  intros Hb. revert n acc. induction fuel as [|fuel IH]; intros n acc Hn Hf; [lia|]. cbn [print_digits].
  assert (0 ≤ n mod base < base) as Hm by (apply Z.mod_pos_bound; lia).
  assert (0 < n mod base → digit_char (n mod base) ≠ "0"%char) as Hz.
  { intros Hp Heq. assert (digit_value (digit_char (n mod base)) = Some 0) as H0 by (by rewrite Heq).
    rewrite digit_value_char in H0 by lia. simplify_eq. lia. }
  destruct (decide (n < base)) as [Hlt|Hge].
  - rewrite bool_decide_true by done. exists [digit_char (n mod base)]. rewrite Z.mod_small in * by lia.
    split_and!; [done| | |done| |simpl; lia|done|lia].
    + unfold digits_value. simpl. rewrite digit_value_char by lia. simpl. lia.
    + constructor; [|constructor]. apply Is_true_true, is_digit_char; lia.
    + intros Hp [= Heq]. by apply Hz.
  - rewrite bool_decide_false by done. rewrite Nat2Z.inj_succ, Z.pow_succ_r in Hn by lia.
    assert (0 < n / base) as Hq by (apply Z.div_str_pos; lia).
    assert (0 < fuel)%nat as Hf'. { destruct fuel; [|lia]. simpl in Hn. lia. }
    destruct (IH (n / base) (digit_char (n mod base) :: acc)) as (l & Hl & Hv & Hd & Hne & Hh & Hlen & H1 & Hpow).
    { split; [lia|]. apply Z.div_lt_upper_bound; lia. }
    { done. }
    exists (l ++ [digit_char (n mod base)]). rewrite Hl, <-app_assoc. split_and!; [done| | | | | |lia|].
    + rewrite digits_value_snoc, Hv, digit_value_char by lia. simpl. pose proof (Z.div_mod n base). lia.
    + apply Forall_app. split; [done|]. constructor; [|constructor]. apply Is_true_true, is_digit_char; lia.
    + by destruct l.
    + intros _. destruct l; [done|]. by apply Hh.
    + rewrite length_app. simpl. lia.
    + intros _. rewrite length_app. simpl. replace (Z.of_nat (length l + 1) - 1) with (Z.of_nat (length l)) by lia.
      pose proof (Z.mul_div_le n base). assert (length l ≠ 0%nat) by (by destruct l).
      replace (Z.of_nat (length l)) with (Z.succ (Z.of_nat (length l) - 1)) by lia. rewrite Z.pow_succ_r by lia.
      destruct (decide (n / base < base)) as [Hs|Hs].
      * rewrite (H1 Hs) in *. simpl. lia.
      * specialize (Hpow ltac:(lia)). nia.
Qed.

Lemma print_nat_spec base n :
  2 ≤ base ≤ 16 → 0 ≤ n →
  digits_value base (print_nat base n) = n ∧ Forall (λ c, is_digit base c) (print_nat base n) ∧
  print_nat base n ≠ [] ∧ (0 < n → head (print_nat base n) ≠ Some "0"%char) ∧
  (n < base → length (print_nat base n) = 1%nat) ∧ (base ≤ n → base ^ (Z.of_nat (length (print_nat base n)) - 1) ≤ n).
Proof.
  intros Hb Hn. destruct (print_digits_spec (S (Z.to_nat (Z.log2 n))) base n []) as (l & Hl & Hv & Hd & Hne & Hh & _ & H1 & Hp);
    [done| |lia|].
  - split; [done|]. rewrite Nat2Z.inj_succ, Z2Nat.id by apply Z.log2_nonneg.
    destruct (decide (n = 0)) as [->|]; [simpl; lia|].
    pose proof (Z.log2_spec n) as Hlog. apply Z.lt_le_trans with (2 ^ Z.succ (Z.log2 n)); [lia|].
    apply Z.pow_le_mono_l. lia.
  - unfold print_nat. rewrite Hl, app_nil_r. done.
Qed.

(** The number of digits: [n < base ^ k] takes at most [k] of them. *)
Lemma print_nat_length base n k :
  2 ≤ base ≤ 16 → 0 ≤ n < base ^ Z.of_nat k → (0 < k)%nat → (length (print_nat base n) ≤ k)%nat.
Proof.
  intros Hb Hn Hk. destruct (print_nat_spec base n) as (_ & _ & Hne & _ & H1 & Hp); [done|lia|].
  destruct (decide (n < base)) as [Hs|Hs]; [rewrite H1 by done; lia|].
  specialize (Hp ltac:(lia)). destruct (decide (length (print_nat base n) ≤ k)%nat); [done|].
  assert (base ^ Z.of_nat k ≤ base ^ (Z.of_nat (length (print_nat base n)) - 1)); [|lia].
  apply Z.pow_le_mono_r; lia.
Qed.

(** Leading zeros do not count. *)
Lemma digits_value_zeros base k l : digits_value base (replicate k "0"%char ++ l) = digits_value base l.
Proof.
  unfold digits_value. rewrite foldl_app. f_equal. induction k as [|k IH]; [done|]. rewrite replicate_S_end, foldl_app, IH.
  done.
Qed.

Lemma digits_zeros base k : 1 ≤ base → Forall (λ c, is_digit base c) (replicate k "0"%char).
Proof.
  intros Hb. apply Forall_replicate. apply Is_true_true. unfold is_digit.
  replace (digit_value "0"%char) with (Some 0) by done. simpl. by apply bool_decide_true; lia.
Qed.

(** A digit is no sign and no space. *)
Lemma digit_value_some base c : is_digit base c → ∃ d, digit_value c = Some d ∧ d < base.
Proof.
  unfold is_digit. destruct (digit_value c) as [d|]; [|done]. intros H%Is_true_true. apply bool_decide_eq_true in H. eauto.
Qed.

Lemma digit_no_sign base c : is_digit base c → c ≠ "-"%char ∧ c ≠ "+"%char.
Proof. intros (d & Hd & _)%digit_value_some. by split; intros ->. Qed.

Lemma digit_no_space base c : is_digit base c → isspace c = false.
Proof.
  intros (d & Hd & _)%digit_value_some. unfold digit_value in Hd. unfold isspace.
  repeat case_bool_decide; try done; lia.
Qed.

Lemma digits_value_nonneg base l : 0 ≤ base → Forall (λ c, is_digit base c) l → 0 ≤ digits_value base l.
Proof.
  intros Hb. induction l as [|c l IH] using rev_ind; intros Hl; [done|]. rewrite digits_value_snoc.
  apply Forall_app in Hl as [Hl Hc]. apply Forall_cons in Hc as [Hc _]. specialize (IH Hl).
  apply digit_value_some in Hc as (d & Hd & _). rewrite Hd. simpl.
  assert (0 ≤ d); [|nia]. unfold digit_value in Hd. repeat case_bool_decide; simplify_eq; lia.
Qed.

(** ** C strings in arrays *)

Definition NUL : ascii := chr 0.

(** [string(buf)]: up to the terminator, [None] if what was written has none. *)
Definition c_string (buf : chars) : option chars :=
  let '(s, rest) := span (λ c, negb (bool_decide (c = NUL))) buf in
  match rest with [] => None | _ => Some s end.

(** The part of a text before the first terminator. *)
Definition before_nul (s : chars) : chars := (span (λ c, negb (bool_decide (c = NUL))) s).1.

Lemma c_string_terminated s : c_string (s ++ [NUL]) = Some (before_nul s).
Proof.
  unfold c_string, before_nul.
  induction s as [|c s IH]; simpl; [done|].
  case_bool_decide as Hc; simpl; [done|].
  destruct (span _ (s ++ [NUL])) as [a b] eqn:Hs, (span _ s) as [a' b'] eqn:Hs'. simpl in *.
  destruct b; [done|]. by simplify_eq.
Qed.

Lemma before_nul_id s : NUL ∉ s → before_nul s = s.
Proof.
  intros Hs. unfold before_nul. rewrite span_intro_all; [done|].
  apply Forall_forall. intros c Hc. rewrite bool_decide_false; [done|]. by intros ->.
Qed.

