(* ===== verification/StdMap.v ===== *)
(** * Ordered maps (std::map)

    A [std::map] as the list of its entries in key order.  [Cmp] is the key's
    comparison; under [CmpOk] (a total order) the operations keep the order,
    look-ups after insertions are those of a map, and a map is determined by
    what it holds. *)

From Stdlib Require Import Ascii.
From stdpp Require Import numbers sorting sets list.
From S2P Require Import Prelude StdText.

Local Open Scope Z_scope.

Class Cmp (K : Type) := kcmp : K → K → comparison.

Class CmpOk (K : Type) `{!Cmp K} := {
  kcmp_eq : ∀ a b, kcmp a b = Eq ↔ a = b;
  kcmp_opp : ∀ a b, kcmp b a = CompOpp (kcmp a b);
  kcmp_trans : ∀ a b c, kcmp a b = Lt → kcmp b c = Lt → kcmp a c = Lt;
}.

Definition klt {K} `{!Cmp K} (a b : K) : Prop := kcmp a b = Lt.

(** ** Operations *)

Section ops.
Context {K V : Type} `{!Cmp K}.
Abbreviation dict := (list (K * V)).

(** [find]; [count(k)] is whether it finds something. *)
Fixpoint m_find (k : K) (m : dict) : option V :=
  match m with
  | [] => None
  | (k', v) :: m' => match kcmp k k' with Lt => None | Eq => Some v | Gt => m_find k m' end
  end.

Definition m_count (k : K) (m : dict) : Z := match m_find k m with Some _ => 1 | None => 0 end.

(** [m[k] = v] *)
Fixpoint m_insert (k : K) (v : V) (m : dict) : dict :=
  match m with
  | [] => [(k, v)]
  | (k', v') :: m' =>
      match kcmp k k' with
      | Lt => (k, v) :: m
      | Eq => (k', v) :: m'
      | Gt => (k', v') :: m_insert k v m'
      end
  end.

Definition m_sorted (m : dict) : Prop := StronglySorted klt m.*1.

(** ** Laws *)

Context `{!CmpOk K}.

Lemma klt_irrefl (a : K) : ¬ klt a a.
Proof. unfold klt. assert (kcmp a a = Eq) as -> by (by apply kcmp_eq). done. Qed.

Lemma kcmp_refl (a : K) : kcmp a a = Eq.
Proof. by apply kcmp_eq. Qed.

Lemma kcmp_gt (a b : K) : kcmp a b = Gt ↔ klt b a.
Proof. unfold klt. rewrite (kcmp_opp a b). by destruct (kcmp a b). Qed.

Lemma klt_not_gt (a b : K) : klt a b → kcmp b a = Gt.
Proof. intros H. by apply kcmp_gt. Qed.

Lemma m_sorted_cons k v m : m_sorted ((k, v) :: m) ↔ m_sorted m ∧ Forall (klt k) m.*1.
Proof. unfold m_sorted. simpl. split; [by inversion 1|]. intros [??]. by constructor. Qed.

Lemma m_find_below k m : Forall (klt k) m.*1 → m_find k m = None.
Proof. destruct m as [|[k' v] m]; [done|]. simpl. intros [H _]%Forall_cons. by rewrite H. Qed.

Lemma m_insert_below k' k v m : Forall (klt k') m.*1 → klt k' k → Forall (klt k') (m_insert k v m).*1.
Proof.
  induction m as [|[k2 v2] m IH]; simpl; [by repeat constructor|]. intros [H1 H2]%Forall_cons Hk.
  destruct (kcmp k k2); simpl; repeat constructor; auto.
Qed.

Lemma m_insert_sorted k v m : m_sorted m → m_sorted (m_insert k v m).
Proof.
  induction m as [|[k2 v2] m IH]; simpl; [by repeat constructor|]. intros [Hm Hk]%m_sorted_cons.
  destruct (kcmp k k2) eqn:Hc.
  - by apply m_sorted_cons.
  - apply m_sorted_cons. split; [by apply m_sorted_cons|]. simpl. constructor; [done|].
    eapply Forall_impl; [exact Hk|]. intros x Hx. by eapply kcmp_trans.
  - apply m_sorted_cons. split; [by apply IH|]. apply m_insert_below; [done|]. by apply kcmp_gt.
Qed.

Lemma m_find_insert k k2 v m : m_sorted m →
  m_find k2 (m_insert k v m) = match kcmp k2 k with Eq => Some v | _ => m_find k2 m end.
Proof.
  induction m as [|[k3 v3] m IH]; simpl; [by intros _; destruct (kcmp k2 k)|]. intros [Hm Hk]%m_sorted_cons.
  destruct (kcmp k k3) eqn:Hc; simpl.
  - apply kcmp_eq in Hc as <-. by destruct (kcmp k2 k).
  - destruct (kcmp k2 k) eqn:Hc2; [done| |done]. rewrite (kcmp_trans k2 k k3) by done. done.
  - rewrite IH by done. destruct (kcmp k2 k3) eqn:Hc3; [| |done].
    + apply kcmp_eq in Hc3 as ->. destruct (kcmp k3 k) eqn:Hc2; [|done..].
      apply kcmp_eq in Hc2 as ->. by rewrite kcmp_refl in Hc.
    + apply kcmp_gt in Hc. rewrite (kcmp_trans k2 k3 k) by done. done.
Qed.

Lemma m_find_insert_eq k v m : m_sorted m → m_find k (m_insert k v m) = Some v.
Proof. intros Hm. rewrite m_find_insert by done. by rewrite kcmp_refl. Qed.

Lemma m_find_insert_ne k k2 v m : m_sorted m → k2 ≠ k → m_find k2 (m_insert k v m) = m_find k2 m.
Proof.
  intros Hm Hne. rewrite m_find_insert by done. destruct (kcmp k2 k) eqn:Hc; [|done..]. by apply kcmp_eq in Hc.
Qed.

Lemma m_find_elem k v m : m_sorted m → m_find k m = Some v ↔ (k, v) ∈ m.
Proof.
  induction m as [|[k2 v2] m IH]; simpl; [set_solver|]. intros [Hm Hk]%m_sorted_cons. rewrite elem_of_cons.
  destruct (kcmp k k2) eqn:Hc.
  - apply kcmp_eq in Hc as ->. split; [by intros [= ->]; left|]. intros [[= ->]|Hin]; [done|].
    rewrite Forall_forall in Hk. destruct (klt_irrefl k2). apply Hk, list_elem_of_fmap. by exists (k2, v).
  - split; [done|]. intros [[= -> ->]|Hin]; [by rewrite kcmp_refl in Hc|]. exfalso.
    rewrite Forall_forall in Hk. assert (klt k2 k) as Hlt by (apply Hk, list_elem_of_fmap; by exists (k, v)).
    apply klt_not_gt in Hlt. by rewrite Hc in Hlt.
  - rewrite IH by done. split; [by right|]. intros [[= -> ->]|Hin]; [by rewrite kcmp_refl in Hc|done].
Qed.

Lemma m_sorted_nodup m : m_sorted m → NoDup m.*1.
Proof.
  induction m as [|[k v] m IH]; [constructor|]. intros [Hm Hk]%m_sorted_cons. simpl. constructor; [|by apply IH].
  rewrite Forall_forall in Hk. intros Hin. destruct (klt_irrefl k). by apply Hk.
Qed.

(** Entries in key order are determined by the look-ups. *)
Lemma m_ext m1 m2 : m_sorted m1 → m_sorted m2 → (∀ k, m_find k m1 = m_find k m2) → m1 = m2.
Proof.
  revert m2. induction m1 as [|[k1 v1] m1 IH]; intros [|[k2 v2] m2] H1 H2 Heq; [done| | |].
  - specialize (Heq k2). simpl in Heq. by rewrite kcmp_refl in Heq.
  - specialize (Heq k1). simpl in Heq. by rewrite kcmp_refl in Heq.
  - apply m_sorted_cons in H1 as [H1 Hk1], H2 as [H2 Hk2].
    pose proof (Heq k1) as Ha. pose proof (Heq k2) as Hb. simpl in Ha, Hb. rewrite kcmp_refl in Ha, Hb.
    destruct (kcmp k1 k2) eqn:Hc; [| |].
    + apply kcmp_eq in Hc as ->. simplify_eq. f_equal. apply IH; [done..|]. intros k. specialize (Heq k). simpl in Heq.
      destruct (kcmp k k2) eqn:Hck; [| |done].
      * apply kcmp_eq in Hck as ->. by rewrite !m_find_below.
      * assert (∀ m : dict, Forall (klt k2) m.*1 → m_find k m = None) as Hnone; [|by rewrite !Hnone].
        intros m Hm. apply m_find_below. eapply Forall_impl; [exact Hm|]. intros x Hx. by eapply kcmp_trans.
    + done.
    + apply kcmp_gt in Hc. unfold klt in Hc. by rewrite Hc in Hb.
Qed.

End ops.

Arguments m_sorted {K V _} m.

(** ** Keys *)

#[global] Instance Z_Cmp : Cmp Z := Z.compare.
#[global] Instance Z_CmpOk : CmpOk Z.
Proof.
  split; unfold kcmp, Z_Cmp.
  - intros a b. apply Z.compare_eq_iff.
  - intros a b. apply Z.compare_antisym.
  - intros a b c. rewrite !Z.compare_lt_iff. lia.
Qed.

(** char_traits<char> compares characters as unsigned. *)
#[global] Instance ascii_Cmp : Cmp ascii := λ a b, Z.compare (code a) (code b).
#[global] Instance ascii_CmpOk : CmpOk ascii.
Proof.
  split; unfold kcmp, ascii_Cmp.
  - intros a b. rewrite Z.compare_eq_iff. split; [|by intros ->]. intros H. by rewrite <-(chr_code a), H, chr_code.
  - intros a b. apply Z.compare_antisym.
  - intros a b c. rewrite !Z.compare_lt_iff. lia.
Qed.

(** [std::string]: lexicographic. *)
Fixpoint lex_cmp {A} `{!Cmp A} (l1 l2 : list A) : comparison :=
  match l1, l2 with
  | [], [] => Eq
  | [], _ => Lt
  | _, [] => Gt
  | a :: l1, b :: l2 => match kcmp a b with Eq => lex_cmp l1 l2 | c => c end
  end.

#[global] Instance list_Cmp {A} `{!Cmp A} : Cmp (list A) := lex_cmp.
#[global] Instance list_CmpOk {A} `{!Cmp A, !CmpOk A} : CmpOk (list A).
Proof.
  split; unfold kcmp, list_Cmp.
  - induction a as [|x a IH]; intros [|y b]; simpl; [done..|]. destruct (kcmp x y) eqn:Hc.
    + apply kcmp_eq in Hc as ->. rewrite IH. split; [by intros ->|by intros [= ->]].
    + split; [done|]. intros [= -> ->]. by rewrite kcmp_refl in Hc.
    + split; [done|]. intros [= -> ->]. by rewrite kcmp_refl in Hc.
  - induction a as [|x a IH]; intros [|y b]; simpl; [done..|]. rewrite (kcmp_opp x y). destruct (kcmp x y); [apply IH|done..].
  - induction a as [|x a IH]; intros [|y b] [|z c]; simpl; try done. intros H1 H2.
    destruct (kcmp x y) eqn:Hxy; [| |done].
    + apply kcmp_eq in Hxy as ->. destruct (kcmp y z); [by eapply IH|done|done].
    + destruct (kcmp y z) eqn:Hyz; [| |done].
      * apply kcmp_eq in Hyz as <-. by rewrite Hxy.
      * by rewrite (kcmp_trans x y z).
Qed.

#[global] Instance pair_Cmp {A B} `{!Cmp A, !Cmp B} : Cmp (A * B) :=
  λ p q, match kcmp p.1 q.1 with Eq => kcmp p.2 q.2 | c => c end.
#[global] Instance pair_CmpOk {A B} `{!Cmp A, !CmpOk A, !Cmp B, !CmpOk B} : CmpOk (A * B).
Proof.
  split; unfold kcmp, pair_Cmp.
  - intros [a1 b1] [a2 b2]; simpl. destruct (kcmp a1 a2) eqn:Hc.
    + apply kcmp_eq in Hc as ->. rewrite kcmp_eq. split; [by intros ->|by intros [= ->]].
    + split; [done|]. intros [= -> ->]. by rewrite kcmp_refl in Hc.
    + split; [done|]. intros [= -> ->]. by rewrite kcmp_refl in Hc.
  - intros [a1 b1] [a2 b2]; simpl. rewrite (kcmp_opp a1 a2). destruct (kcmp a1 a2); [apply kcmp_opp|done..].
  - intros [a1 b1] [a2 b2] [a3 b3]; simpl. intros H1 H2. destruct (kcmp a1 a2) eqn:H12; [| |done].
    + apply kcmp_eq in H12 as ->. destruct (kcmp a2 a3); [by eapply kcmp_trans|done|done].
    + destruct (kcmp a2 a3) eqn:H23; [| |done].
      * apply kcmp_eq in H23 as <-. by rewrite H12.
      * by rewrite (kcmp_trans a1 a2 a3).
Qed.
