(* ===== verification/SString.v ===== *)
(** * String helpers (cpp_console/sstring.h, cpp_console/numeric_traits.h)

    split, trim, the conversions between integers and text and the English
    ordinals, one definition per function. *)

From Stdlib Require Import Ascii String.
From stdpp Require Import numbers list.
From S2P Require Import Prelude StdText.

Local Open Scope Z_scope.

(** ** split *)

(** [delims.find(c) == string::npos] *)
Definition not_found (delims : chars) (c : ascii) : bool := negb (bool_decide (c ∈ delims)).

(** The loop over the characters: [sub] is the part being collected. *)
Fixpoint split_loop (delims : chars) (remove_empty : bool) (it : chars) (sub : chars) (result : list chars) :
    chars * list chars :=
  match it with
  | [] => (sub, result)
  | c :: it =>
      if not_found delims c then split_loop delims remove_empty it (sub ++ [c]) result
      else if negb (remove_empty && is_empty sub) then split_loop delims remove_empty it [] (result ++ [sub])
      else split_loop delims remove_empty it sub result
  end.

Definition split (str delims : chars) (remove_empty : bool) : list chars :=
  if is_empty str then [] else
  let '(sub, result) := split_loop delims remove_empty str [] [] in
  if negb (remove_empty && is_empty sub) then result ++ [sub] else result.

(** ** trim *)

(** [for (it = beg + i; it != beg && isspace( *it); it--);] *)
Fixpoint trim_back (l : chars) (i : nat) : nat :=
  match i with
  | O => O
  | S j => match l !! i with
           | Some c => if isspace c then trim_back l j else i
           | None => i
           end
  end.

Definition trim (src : chars) : chars :=
  match skipws src with
  | [] => []
  | beg => take (S (trim_back beg (length beg - 1))) beg
  end.

(** ** Text to integers *)

Definition at_char (l : chars) (i : nat) (c : ascii) : bool := bool_decide (l !! i = Some c).

(** The base a numeral announces: 0 for octal, 0x for hexadecimal. *)
Definition detect_base (sign : Z) (str : chars) : Z :=
  let off := Z.to_nat (Z.abs sign) in
  if bool_decide (2 <= length str - off)%nat then
    if at_char str off "0" then
      if at_char str (off + 1) "x" || at_char str (off + 1) "X" then 16 else 8
    else 10
  else 10.

(** The manipulator the code applies. *)
Definition stream_base (base : Z) : Z :=
  if bool_decide (base = 16) then 16 else if bool_decide (base = 8) then 8 else 10.

Definition sign_mark (str : chars) : Z :=
  let sign := if at_char str 0 "+" then 1 else 0 in
  if at_char str 0 "-" then -1 else sign.

(** [str] is not empty and starts with no space when it is read, so the stream always stores
    a value and the variable's old value (0 here) is never seen. *)
Definition str_to_integer (T : int_type) (s : chars) (base : Z) : bool * Z :=
  let str := trim s in
  if is_empty str then (false, 0) else
  let sign := sign_mark str in
  let base := if bool_decide (base = 0) then detect_base sign str else base in
  let '(val, iss) := read_int T (stream_base base) 0 (istream_of str) in
  if negb (is_fail iss) && is_eof iss then
    if bool_decide (val < 0) && negb (bool_decide (sign = -1)) then (false, 0) else (true, val)
  else (false, 0).

Definition str_to_int (s : chars) (base : Z) : bool * Z := str_to_integer int_t s base.
Definition str_to_ll (s : chars) (base : Z) : bool * Z := str_to_integer long_t s base.

(** ** Numeric types (numeric_traits.h) *)

Inductive numeric :=
| n_int | n_long | n_long_long
| n_unsigned | n_unsigned_long | n_unsigned_long_long
| n_float | n_double | n_long_double.

Definition max_length (t : numeric) : Z :=
  match t with
  | n_float | n_double | n_long_double => 512
  | _ => 32
  end.

Definition name (t : numeric) : string :=
  match t with
  | n_int => "int" | n_long => "long" | n_long_long => "long long"
  | n_unsigned => "unsigned" | n_unsigned_long => "unsigned long" | n_unsigned_long_long => "unsigned long long"
  | n_float => "float" | n_double => "double" | n_long_double => "long double"
  end.

(** Without WIN32. *)
Definition fmt_str (t : numeric) : string :=
  match t with
  | n_int => "%d" | n_long => "%ld" | n_long_long => "%lld"
  | n_unsigned => "%u" | n_unsigned_long => "%lu" | n_unsigned_long_long => "%llu"
  | n_float => "%f" | n_double => "%f" | n_long_double => "%Lf"
  end.

(** sprintf with one integer conversion: whether it prints a signed number, and the width in
    bits of the argument it reads. *)
Definition conversion (fmt : string) : option (bool * Z) :=
  match fmt with
  | "%d" => Some (true, 32) | "%ld" | "%lld" => Some (true, 64)
  | "%u" => Some (false, 32) | "%lu" | "%llu" => Some (false, 64)
  | _ => None
  end%string.

(** The width of an argument of the type; floating types are not modelled. *)
Definition arg_bits (t : numeric) : option Z :=
  match t with
  | n_int | n_unsigned => Some 32
  | n_long | n_long_long | n_unsigned_long | n_unsigned_long_long => Some 64
  | n_float | n_double | n_long_double => None
  end.

(** The argument [n] of [bits] bits is printed as the conversion reads it; [None]: the widths
    differ, which is undefined. *)
Definition sprintf_int (fmt : string) (bits n : Z) : option chars :=
  '(signed, w) ← conversion fmt;
  if bool_decide (w = bits) then
    let u := n mod 2 ^ w in
    Some (print_int (if signed && bool_decide (2 ^ (w - 1) <= u) then u - 2 ^ w else u))
  else None.

(** For the integer types; [None] is undefined, as a write behind the end of [buf] is. *)
Definition to_string (T : numeric) (t : Z) : option chars :=
  bits ← arg_bits T;
  out ← sprintf_int (fmt_str T) bits t;
  if bool_decide (Z.of_nat (length out) + 1 <= max_length T) then Some out else None.

(** ** Ordinals *)

Definition ordinal_table : list string := ["th"; "st"; "nd"; "rd"; "th"; "th"; "th"; "th"; "th"; "th"]%string.

Definition to_ordinal (num : Z) : option chars :=
  str ← to_string n_unsigned num;
  let tens_digit := (num mod 100) / 10 in
  if bool_decide (tens_digit = 1) then Some (str ++ text "th")
  else
    let units_digit := num mod 10 in
    suffix ← ordinal_table !! Z.to_nat units_digit;
    Some (str ++ text suffix).

(** ** What split computes *)

(** The string with its delimiters between the parts. *)
Fixpoint interleave (parts : list chars) (seps : chars) : chars :=
  match parts, seps with
  | [], _ => []
  | p :: parts, [] => p ++ concat parts
  | p :: parts, d :: seps => p ++ d :: interleave parts seps
  end.

Section split.
Context (delims : chars).

Lemma split_loop_result re it sub result :
  split_loop delims re it sub result =
  let '(s, r) := split_loop delims re it sub [] in (s, result ++ r).
Proof.
  revert sub result. induction it as [|c it IH]; intros sub result; simpl; [by rewrite app_nil_r|].
  destruct (not_found delims c); [by apply IH|]. destruct (negb (re && is_empty sub)); [|by apply IH].
  rewrite IH, (IH [] [sub]). destruct (split_loop delims re it [] []) as [s r]. by rewrite app_assoc.
Qed.

(** The parts of a string, all of them. *)
Definition all_parts (it sub : chars) : list chars :=
  let '(s, r) := split_loop delims false it sub [] in r ++ [s].

Lemma all_parts_nil sub : all_parts [] sub = [sub].
Proof. done. Qed.

Lemma all_parts_char c it sub : not_found delims c = true → all_parts (c :: it) sub = all_parts it (sub ++ [c]).
Proof. intros Hc. unfold all_parts. simpl. by rewrite Hc. Qed.

Lemma all_parts_delim c it sub : not_found delims c = false → all_parts (c :: it) sub = sub :: all_parts it [].
Proof.
  intros Hc. unfold all_parts. simpl. rewrite Hc, split_loop_result. by destruct (split_loop delims false it [] []).
Qed.

Lemma split_all str : split str delims false = if is_empty str then [] else all_parts str [].
Proof. unfold split, all_parts. destruct (is_empty str); [done|]. by destruct (split_loop delims false str [] []). Qed.

(** Every string is its parts with delimiters in between, and no part contains a delimiter. *)
Lemma all_parts_interleave it sub :
  ∃ seps, length (all_parts it sub) = S (length seps) ∧ Forall (λ c, c ∈ delims) seps ∧
    sub ++ it = interleave (all_parts it sub) seps.
Proof.
  revert sub. induction it as [|c it IH]; intros sub.
  - exists []. rewrite all_parts_nil. simpl. by rewrite !app_nil_r.
  - destruct (not_found delims c) eqn:Hc.
    + destruct (IH (sub ++ [c])) as (seps & Hl & Hd & Heq). exists seps. rewrite all_parts_char by done.
      by rewrite <-Heq, <-app_assoc.
    + destruct (IH []) as (seps & Hl & Hd & Heq). exists (c :: seps). rewrite all_parts_delim by done. simpl.
      split_and!; [by f_equal| |by rewrite <-Heq]. constructor; [|done].
      unfold not_found in Hc. apply negb_false_iff, bool_decide_eq_true in Hc. done.
Qed.

Lemma all_parts_clean it sub :
  Forall (λ c, c ∉ delims) sub → Forall (Forall (λ c, c ∉ delims)) (all_parts it sub).
Proof.
  revert sub. induction it as [|c it IH]; intros sub Hs.
  - rewrite all_parts_nil. by repeat constructor.
  - destruct (not_found delims c) eqn:Hc.
    + rewrite all_parts_char by done. apply IH, Forall_app. split; [done|]. repeat constructor.
      unfold not_found in Hc. by apply negb_true_iff, bool_decide_eq_false in Hc.
    + rewrite all_parts_delim by done. constructor; [done|]. apply IH. constructor.
Qed.

(** Skipping empty parts while scanning is dropping them afterwards. *)
Definition nonempty (l : chars) : bool := negb (is_empty l).

Lemma split_loop_filter it sub :
  (let '(s, r) := split_loop delims true it sub [] in if negb (is_empty s) then r ++ [s] else r) =
  filter nonempty (all_parts it sub).
Proof.
  revert sub. induction it as [|c it IH]; intros sub.
  - rewrite all_parts_nil. simpl. rewrite filter_cons. unfold nonempty. by destruct (is_empty sub).
  - simpl. destruct (not_found delims c) eqn:Hc; [by rewrite all_parts_char|]. rewrite all_parts_delim by done.
    destruct sub as [|x sub]; simpl; [apply IH|]. rewrite split_loop_result.
    specialize (IH []). destruct (split_loop delims true it [] []) as [s r].
    rewrite filter_cons_True by done. rewrite <-IH. by destruct (is_empty s).
Qed.

Lemma split_nonempty str : split str delims true = filter nonempty (split str delims false).
Proof.
  rewrite split_all. unfold split. destruct (is_empty str) eqn:He; [done|].
  rewrite <-split_loop_filter. destruct (split_loop delims true str [] []) as [s r]. done.
Qed.

(** Scanning a part followed by a delimiter. *)
Lemma all_parts_part p it sub : Forall (λ c, c ∉ delims) p → all_parts (p ++ it) sub = all_parts it (sub ++ p).
Proof.
  revert sub. induction p as [|c p IH]; intros sub Hp; simpl; [by rewrite app_nil_r|]. apply Forall_cons in Hp as [Hc Hp].
  rewrite all_parts_char by (unfold not_found; by rewrite bool_decide_false).
  by rewrite IH, <-app_assoc.
Qed.

Lemma all_parts_step p d it :
  Forall (λ c, c ∉ delims) p → d ∈ delims → all_parts (p ++ d :: it) [] = p :: all_parts it [].
Proof.
  intros Hp Hd. rewrite all_parts_part by done. simpl. apply all_parts_delim.
  unfold not_found. by rewrite bool_decide_true.
Qed.

End split.

(** ** What trim computes *)

Lemma trim_back_spec l i :
  (i < length l)%nat →
  ∃ j, trim_back l i = j ∧ (j ≤ i)%nat ∧ Forall isspace (drop (S j) (take (S i) l)) ∧
    (j = 0%nat ∨ ∃ c, l !! j = Some c ∧ isspace c = false).
Proof.
  intros Hi. induction i as [|i IH]; simpl.
  - exists 0%nat. split_and!; [done|lia| |by left]. rewrite drop_ge by (rewrite length_take; lia). constructor.
  - destruct (lookup_lt_is_Some_2 _ _ Hi) as [c Hc]. rewrite Hc. destruct (isspace c) eqn:Hs.
    + destruct IH as (j & Hj & Hle & Hall & Hend); [lia|]. exists j. split_and!; [done|lia| |done].
      rewrite (take_S_r _ _ _ Hc), drop_app_le by (rewrite length_take; lia). apply Forall_app. split; [done|].
      repeat constructor. by rewrite Hs.
    + exists (S i). split_and!; [done|lia| |right; by exists c].
      rewrite drop_ge by (rewrite length_take; lia). constructor.
Qed.

(** A string without spaces at its ends. *)
Definition trimmed (t : chars) : Prop :=
  match head t with Some c => isspace c = false | None => True end ∧
  match last t with Some c => isspace c = false | None => True end.

Lemma skipws_split l : ∃ ws, l = ws ++ skipws l ∧ Forall isspace ws ∧
  match head (skipws l) with Some c => isspace c = false | None => True end.
Proof.
  unfold skipws. destruct (span isspace l) as [a b] eqn:Hs. exists a. simpl. split; [by eapply span_app|].
  split; [by eapply span_all|]. apply span_stop in Hs. by destruct b.
Qed.

Lemma trim_split src : ∃ l r, src = l ++ trim src ++ r ∧ Forall isspace l ∧ Forall isspace r ∧ trimmed (trim src).
Proof.
  destruct (skipws_split src) as (ws & Heq & Hws & Hhd). unfold trim. destruct (skipws src) as [|c l] eqn:Hl.
  - exists ws, []. simpl. rewrite app_nil_r in *. split_and!; [done|done|constructor|done].
  - set (beg := c :: l) in *. destruct (trim_back_spec beg (length beg - 1)) as (j & Hj & Hle & Hall & Hend); [simpl; lia|].
    rewrite Hj. exists ws, (drop (S j) beg). rewrite take_drop. split_and!; [done|done| |].
    + by rewrite take_ge in Hall by (simpl; lia).
    + split; [done|]. rewrite last_lookup, length_take, Nat.min_l by (simpl in *; lia). simpl pred.
      rewrite lookup_take_lt by lia. destruct Hend as [->|(d & Hd & Hs)]; [done|]. by rewrite Hd.
Qed.

(** The ends of the trimmed part fix it. *)
Lemma trim_unique l t r :
  Forall isspace l → Forall isspace r → trimmed t → trim (l ++ t ++ r) = t.
Proof.
  intros Hl Hr [Hh Ht]. destruct t as [|c t].
  - simpl. assert (skipws (l ++ r) = []) as Hs; [|unfold trim; by rewrite Hs].
    unfold skipws. rewrite span_intro_all; [done|]. by apply Forall_app.
  - simpl in Hh. assert (skipws (l ++ (c :: t) ++ r) = (c :: t) ++ r) as Hs.
    { unfold skipws. by rewrite span_intro. }
    unfold trim. rewrite Hs. cbn [app]. set (m := c :: t) in *. change (c :: t ++ r) with (m ++ r).
    assert (0 < length m)%nat by (simpl; lia).
    assert (∀ k, (k ≤ length r)%nat → trim_back (m ++ r) (length m - 1 + k) = (length m - 1)%nat) as Hback.
    { induction k as [|k IH]; intros Hk.
      - rewrite Nat.add_0_r. rewrite last_lookup in Ht. replace (pred (length m)) with (length m - 1)%nat in Ht by lia.
        destruct (length m - 1)%nat as [|j] eqn:Hj; [done|]. cbn [trim_back]. rewrite lookup_app_l by lia.
        destruct (m !! S j) as [d|]; [by rewrite Ht|done].
      - rewrite Nat.add_succ_r. cbn [trim_back]. rewrite lookup_app_r by lia.
        destruct (r !! (S (length m - 1 + k) - length m)%nat) as [d|] eqn:Hd;
          [|apply lookup_ge_None in Hd; lia].
        rewrite Forall_lookup in Hr. apply Hr, Is_true_true in Hd. rewrite Hd. apply IH. lia. }
    rewrite length_app. replace (length m + length r - 1)%nat with (length m - 1 + length r)%nat by lia.
    rewrite Hback by done. replace (S (length m - 1)) with (length m) by lia. by rewrite take_app_length.
Qed.

Lemma trim_id t : trimmed t → trim t = t.
Proof.
  intros Ht. rewrite <-(app_nil_l t), <-(app_nil_r t) at 1. apply (trim_unique [] t []); [constructor|constructor|done].
Qed.

(** ** What the numeral reader accepts *)

Inductive sign_text : chars → bool → Prop :=
| sign_none : sign_text [] false
| sign_plus : sign_text ["+"%char] false
| sign_minus : sign_text ["-"%char] true.

Inductive prefix_text (base : Z) : chars → Prop :=
| prefix_none : prefix_text base []
| prefix_x : base = 16 → prefix_text base ["0"%char; "x"%char]
| prefix_X : base = 16 → prefix_text base ["0"%char; "X"%char].

(** [l] is a numeral of the value [v]: a sign, 0x in base 16, at least one digit, nothing else. *)
Definition numeral (base : Z) (l : chars) (v : Z) : Prop :=
  ∃ sg neg pre ds, l = sg ++ pre ++ ds ∧ sign_text sg neg ∧ prefix_text base pre ∧ ds ≠ [] ∧
    Forall (λ c, is_digit base c) ds ∧ v = if neg then - digits_value base ds else digits_value base ds.

Lemma scan_prefix_digits base ds : base ≤ 16 → Forall (λ c, is_digit base c) ds → scan_prefix base ds = ds.
Proof.
  intros Hb Hd. destruct ds as [|c [|d ds]]; [done..|]. simpl.
  destruct (bool_decide (d = "x"%char) || bool_decide (d = "X"%char)) eqn:Hx; [|by rewrite andb_false_r].
  apply Forall_cons in Hd as [_ Hd]. apply Forall_cons in Hd as [Hd _]. exfalso.
  apply orb_true_iff in Hx as [->%bool_decide_eq_true| ->%bool_decide_eq_true]; by apply digit_value_some in Hd as (? & ? & _).
Qed.

Lemma scan_prefix_text base pre ds :
  base ≤ 16 → prefix_text base pre → Forall (λ c, is_digit base c) ds → scan_prefix base (pre ++ ds) = ds.
Proof. intros Hb [| -> | ->] Hd; simpl; [by apply scan_prefix_digits|done|done]. Qed.

Lemma scan_sign_text base sg neg pre ds :
  sign_text sg neg → prefix_text base pre → ds ≠ [] → Forall (λ c, is_digit base c) ds →
  scan_sign (sg ++ pre ++ ds) = (neg, pre ++ ds).
Proof.
  intros Hs Hp Hne Hd. destruct Hs; [|done|done]. simpl.
  destruct Hp; simpl; [|done|done]. destruct ds as [|c ds]; [done|]. apply Forall_cons in Hd as [Hc _].
  apply digit_no_sign in Hc as [H1 H2]. simpl. by rewrite !bool_decide_false.
Qed.

Lemma scan_sign_inv l neg r : scan_sign l = (neg, r) → ∃ sg, l = sg ++ r ∧ sign_text sg neg.
Proof.
  destruct l as [|c l]; simpl; intros H; [simplify_eq; exists []; split; [done|constructor]|].
  repeat case_bool_decide; simplify_eq.
  - exists ["-"%char]. split; [done|constructor].
  - exists ["+"%char]. split; [done|constructor].
  - exists []. split; [done|constructor].
Qed.

Lemma scan_prefix_inv base l : ∃ pre, l = pre ++ scan_prefix base l ∧ prefix_text base pre.
Proof.
  destruct l as [|c [|d l]]; simpl; [by exists []; repeat constructor..|].
  destruct (bool_decide (base = 16) && bool_decide (c = "0"%char) && (bool_decide (d = "x"%char) || bool_decide (d = "X"%char))) eqn:Hx;
    [|by exists []; repeat constructor].
  apply andb_true_iff in Hx as [Hx Hd]. apply andb_true_iff in Hx as [Hb Hc].
  apply bool_decide_eq_true in Hb, Hc. subst c. apply orb_true_iff in Hd as [Hd|Hd]; apply bool_decide_eq_true in Hd; subst d.
  - exists ["0"%char; "x"%char]. split; [done|by constructor].
  - exists ["0"%char; "X"%char]. split; [done|by constructor].
Qed.

Lemma num_store_signed T neg v :
  it_min T < 0 → 0 ≤ it_max T → 0 ≤ v →
  ∀ w bad, num_store T neg v = (w, bad) →
  let x := if neg then - v else v in
  bad = negb (bool_decide (in_type T x)) ∧ (bad = false → w = x).
Proof.
  intros Hmin Hmax Hv w bad. unfold num_store. rewrite (bool_decide_false (it_min T = 0)) by lia.
  unfold in_type. intros H.
  destruct neg; [destruct (bool_decide_reflect (- v < it_min T))|destruct (bool_decide_reflect (it_max T < v))];
    simplify_eq; (split; [|done]); [rewrite bool_decide_false by lia|rewrite bool_decide_true by lia|
      rewrite bool_decide_false by lia|rewrite bool_decide_true by lia]; done.
Qed.

(** Reading a numeral to the end of the text. *)
Lemma scan_int_numeral T base l v :
  it_min T < 0 → 0 ≤ it_max T → 2 ≤ base ≤ 16 → numeral base l v →
  ∃ w, scan_int T base l = (w, negb (bool_decide (in_type T v)), []) ∧ (in_type T v → w = v).
Proof.
  intros Hmin Hmax Hb (sg & neg & pre & ds & -> & Hs & Hp & Hne & Hd & ->). unfold scan_int.
  rewrite (scan_sign_text base sg neg pre ds) by done. rewrite scan_prefix_text by (done || lia). rewrite span_intro_all by done.
  destruct ds as [|c ds]; [done|]. destruct (num_store T neg (digits_value base (c :: ds))) as [w bad] eqn:Hw.
  destruct (num_store_signed T neg _ Hmin Hmax (digits_value_nonneg base (c :: ds) ltac:(lia) Hd) _ _ Hw) as [-> Heq].
  exists w. split; [done|]. intros Hin. apply Heq. rewrite bool_decide_true by done. done.
Qed.

Lemma scan_int_inv T base l w :
  it_min T < 0 → 0 ≤ it_max T → 2 ≤ base ≤ 16 →
  scan_int T base l = (w, false, []) → numeral base l w ∧ in_type T w.
Proof.
  intros Hmin Hmax Hb. unfold scan_int. destruct (scan_sign l) as [neg r] eqn:Hs.
  destruct (span (is_digit base) (scan_prefix base r)) as [ds rest] eqn:Hsp. destruct ds as [|c ds]; [done|].
  intros [= Hw ->]. apply scan_sign_inv in Hs as (sg & -> & Hs). destruct (scan_prefix_inv base r) as (pre & Hr & Hp).
  pose proof (span_all _ _ _ _ Hsp) as Hd. apply span_app in Hsp. rewrite app_nil_r in Hsp. rewrite Hsp in Hr.
  destruct (num_store_signed T neg _ Hmin Hmax (digits_value_nonneg base (c :: ds) ltac:(lia) Hd) _ _ Hw) as [Hbad Heq].
  specialize (Heq eq_refl). symmetry in Hbad. apply negb_false_iff, bool_decide_eq_true in Hbad. split; [|by rewrite Heq].
  exists sg, neg, pre, (c :: ds). by rewrite Hr.
Qed.

(** A numeral's sign. *)
Lemma numeral_nonneg base l v : 0 ≤ base → numeral base l v → v < 0 → at_char l 0 "-" = true.
Proof.
  intros Hb (sg & neg & pre & ds & -> & Hs & _ & _ & Hd & ->) Hv. pose proof (digits_value_nonneg base ds Hb Hd).
  destruct Hs; [lia|lia|done].
Qed.

Lemma read_int_trimmed T base l :
  l ≠ [] → trimmed l → ∃ v bad rest, scan_int T base l = (v, bad, rest) ∧
    read_int T base 0 (istream_of l) = (v, IStream rest (is_empty rest) bad).
Proof.
  intros Hne [Hh _]. destruct l as [|c l]; [done|]. destruct (scan_int T base (c :: l)) as [[v bad] rest] eqn:Hs.
  exists v, bad, rest. split; [done|]. unfold read_int, sentry_ws. simpl. simpl in Hh.
  assert (skipws (c :: l) = c :: l) as -> by (unfold skipws; simpl; by rewrite Hh). simpl. by rewrite Hs.
Qed.

(** The base a conversion reads in: announced by the text when 0 is asked for. *)
Definition effective_base (s : chars) (base : Z) : Z :=
  stream_base (if bool_decide (base = 0) then detect_base (sign_mark (trim s)) (trim s) else base).

Lemma stream_base_range base : 2 ≤ stream_base base ≤ 16.
Proof. unfold stream_base. repeat case_bool_decide; lia. Qed.

(** Conversion succeeds exactly on the numerals in range. *)
Lemma str_to_integer_spec T s base :
  it_min T < 0 → 0 ≤ it_max T →
  (∃ v, str_to_integer T s base = (true, v) ∧ numeral (effective_base s base) (trim s) v ∧ in_type T v) ∨
  (str_to_integer T s base = (false, 0) ∧ ∀ v, numeral (effective_base s base) (trim s) v → ¬ in_type T v).
Proof.
  intros Hmin Hmax. unfold str_to_integer. fold (effective_base s base).
  destruct (trim_split s) as (_ & _ & _ & _ & _ & Ht). set (B := effective_base s base).
  assert (2 ≤ B ≤ 16) as HB by apply stream_base_range.
  destruct (is_empty (trim s)) eqn:He.
  - right. split; [done|]. intros v (sg & neg & pre & ds & Heq & _ & _ & Hne & _). destruct (trim s); [|done].
    symmetry in Heq. apply app_eq_nil in Heq as [_ [_ ->]%app_eq_nil]. done.
  - assert (trim s ≠ []) as Hne by (by destruct (trim s)).
    destruct (read_int_trimmed T B (trim s) Hne Ht) as (v & bad & rest & Hs & Hr). rewrite Hr. simpl.
    assert (bad = false → rest = [] → numeral B (trim s) v ∧ in_type T v) as Hok.
    { intros -> ->. by apply scan_int_inv. }
    assert (∀ v', numeral B (trim s) v' → in_type T v' → bad = false ∧ rest = []) as Hcomplete.
    { intros v' Hn Hin. destruct (scan_int_numeral T B _ v' Hmin Hmax HB Hn) as (w & Hw & _). rewrite Hw in Hs.
      injection Hs as <- <- <-. by rewrite bool_decide_true. }
    destruct bad; simpl.
    { right. split; [done|]. intros v' Hn Hin. by destruct (Hcomplete v' Hn Hin). }
    destruct rest as [|r rest]; simpl.
    2: { right. split; [done|]. intros v' Hn Hin. by destruct (Hcomplete v' Hn Hin). }
    destruct (Hok eq_refl eq_refl) as [Hn Hin]. left. exists v. split; [|done].
    destruct (bool_decide (v < 0)) eqn:Hneg; [|done]. apply bool_decide_eq_true in Hneg.
    assert (sign_mark (trim s) = -1) as ->; [|done]. unfold sign_mark. by rewrite (numeral_nonneg B _ v) by (done || lia).
Qed.

(** The value of a numeral is its own, and conversion is a function of it. *)
Lemma str_to_integer_iff T s base v :
  it_min T < 0 → 0 ≤ it_max T →
  str_to_integer T s base = (true, v) ↔ numeral (effective_base s base) (trim s) v ∧ in_type T v.
Proof.
  intros Hmin Hmax. destruct (str_to_integer_spec T s base Hmin Hmax) as [(w & -> & Hn & Hin)|[-> Hno]].
  - split; [by intros [= <-]|]. intros [Hn' Hin'].
    pose proof (stream_base_range (if bool_decide (base = 0) then detect_base (sign_mark (trim s)) (trim s) else base)) as HB.
    fold (effective_base s base) in HB.
    destruct (scan_int_numeral T _ _ w Hmin Hmax HB Hn) as (x & Hx & Hxe).
    destruct (scan_int_numeral T _ _ v Hmin Hmax HB Hn') as (y & Hy & Hye). rewrite Hx in Hy.
    rewrite <-(Hxe Hin), <-(Hye Hin'). f_equal. congruence.
  - split; [done|]. intros [Hn Hin]. by destruct (Hno v Hn).
Qed.

(** ** The texts that are integers

    Stated without the functions above.  [digits_text base t v]: the digits [t], with what
    announces their base, mean [v] when [base] is asked for.  Hexadecimal digits may follow 0x;
    with base 0 they have to, a leading 0 of several digits makes the others octal, and all
    else is decimal; so it is with a base other than 0, 8 and 16. *)
Definition hex_prefixes : list chars := [[]; ["0"%char; "x"%char]; ["0"%char; "X"%char]].
Definition hex_marks : list chars := [["0"%char; "x"%char]; ["0"%char; "X"%char]].

Inductive digits_text : Z → chars → Z → Prop :=
| dt_dec base ds :
    base ∉ [0; 8; 16] → ds ≠ [] → Forall (λ c, is_digit 10 c) ds → digits_text base ds (digits_value 10 ds)
| dt_oct ds :
    ds ≠ [] → Forall (λ c, is_digit 8 c) ds → digits_text 8 ds (digits_value 8 ds)
| dt_hex pre ds :
    pre ∈ hex_prefixes → ds ≠ [] → Forall (λ c, is_digit 16 c) ds → digits_text 16 (pre ++ ds) (digits_value 16 ds)
| dt_auto_dec ds :
    ds ≠ [] → Forall (λ c, is_digit 10 c) ds → head ds ≠ Some "0"%char ∨ length ds = 1%nat →
    digits_text 0 ds (digits_value 10 ds)
| dt_auto_oct ds :
    ds ≠ [] → Forall (λ c, is_digit 8 c) ds → digits_text 0 ("0"%char :: ds) (digits_value 8 ds)
| dt_auto_hex pre ds :
    pre ∈ hex_marks → ds ≠ [] → Forall (λ c, is_digit 16 c) ds → digits_text 0 (pre ++ ds) (digits_value 16 ds).

(** White space, a sign, the digits, white space. *)
Definition int_text (base : Z) (s : chars) (v : Z) : Prop :=
  ∃ l r sg neg t u, s = l ++ (sg ++ t) ++ r ∧ Forall isspace l ∧ Forall isspace r ∧
    sign_text sg neg ∧ digits_text base t u ∧ v = if neg then - u else u.

Definition no_sign (t : chars) : Prop := head t ≠ Some "+"%char ∧ head t ≠ Some "-"%char.

Lemma sign_mark_text sg neg t : sign_text sg neg → no_sign t → Z.to_nat (Z.abs (sign_mark (sg ++ t))) = length sg.
Proof.
  intros Hs [Hp Hm]. rewrite head_lookup in Hp, Hm. unfold sign_mark, at_char.
  destruct Hs; simpl; rewrite ?bool_decide_true, ?bool_decide_false by done; done.
Qed.

(** A sign does not change what the digits announce. *)
Lemma detect_base_text sg neg t :
  sign_text sg neg → no_sign t → detect_base (sign_mark (sg ++ t)) (sg ++ t) = detect_base 0 t.
Proof.
  intros Hs Ht. unfold detect_base. rewrite (sign_mark_text _ _ _ Hs Ht). unfold at_char.
  rewrite !lookup_app_r by lia. rewrite length_app.
  replace (length sg + length t - length sg)%nat with (length t) by lia.
  replace (length sg - length sg)%nat with 0%nat by lia. replace (length sg + 1 - length sg)%nat with 1%nat by lia.
  simpl. by rewrite Nat.sub_0_r.
Qed.

Lemma digits_no_sign base ds : Forall (λ c, is_digit base c) ds → no_sign ds.
Proof.
  intros Hd. destruct ds as [|c ds]; [done|]. apply Forall_cons in Hd as [Hc _].
  apply digit_no_sign in Hc as [H1 H2]. by split; intros [= ?].
Qed.

Lemma prefixed_no_sign base pre ds : prefix_text base pre → Forall (λ c, is_digit base c) ds → no_sign (pre ++ ds).
Proof. intros [] Hd; [by eapply digits_no_sign|done|done]. Qed.

Lemma prefix_text_other base pre : prefix_text base pre → base ≠ 16 → pre = [].
Proof. by intros []. Qed.

Lemma hex_prefix_text pre : prefix_text 16 pre ↔ pre ∈ hex_prefixes.
Proof.
  unfold hex_prefixes. rewrite !elem_of_cons, elem_of_nil. split; [by intros []; auto|].
  intros [->|[->|[->|[]]]]; by constructor.
Qed.

Lemma digit_not_x base c : is_digit base c → c ≠ "x"%char ∧ c ≠ "X"%char.
Proof. intros (d & Hd & _)%digit_value_some. by split; intros ->. Qed.

(** What digits without a prefix announce. *)
Lemma detect_base_digits base ds :
  Forall (λ c, is_digit base c) ds →
  detect_base 0 ds = if decide (head ds = Some "0"%char ∧ length ds ≠ 1%nat) then 8 else 10.
Proof.
  intros Hd. unfold detect_base, at_char. simpl. rewrite Nat.sub_0_r. destruct ds as [|c [|d ds]]; simpl.
  - done.
  - rewrite decide_False by naive_solver. done.
  - apply Forall_cons in Hd as [_ Hd]. apply Forall_cons in Hd as [Hd _]. apply digit_not_x in Hd as [H1 H2].
    destruct (decide (c = "0"%char)) as [->|Hc].
    + rewrite decide_True by done. rewrite bool_decide_true by done.
      by rewrite !bool_decide_false by congruence.
    + rewrite decide_False by naive_solver. by rewrite bool_decide_false by congruence.
Qed.

Lemma zero_in_front base ds : digits_value base ("0"%char :: ds) = digits_value base ds.
Proof. apply (digits_value_zeros base 1 ds). Qed.

Lemma zero_is_digit base : 1 ≤ base → is_digit base "0"%char.
Proof. intros Hb. pose proof (digits_zeros base 1 Hb) as Hd. by apply Forall_cons in Hd as [? _]. Qed.

(** Reading in the base of the manipulator and the grammar agree. *)
Lemma digits_text_numeral base t u :
  (∃ pre ds, let B := stream_base (if bool_decide (base = 0) then detect_base 0 t else base) in
     t = pre ++ ds ∧ prefix_text B pre ∧ ds ≠ [] ∧ Forall (λ c, is_digit B c) ds ∧ u = digits_value B ds) ↔
  digits_text base t u.
Proof.
  split.
  - intros (pre & ds & -> & Hp & Hne & Hd & ->). destruct (decide (base = 0)) as [->|Hb0].
    + rewrite bool_decide_true in * by done. remember (stream_base (detect_base 0 (pre ++ ds))) as B eqn:HB.
      destruct Hp as [|Hx|Hx].
      * simpl app in *. rewrite (detect_base_digits _ _ Hd) in HB. case_decide as Hz; simpl in HB; subst B.
        -- destruct ds as [|c ds]; [done|]. destruct Hz as [[= ->] Hl]. rewrite zero_in_front.
           apply Forall_cons in Hd as [_ Hd]. apply dt_auto_oct; [|done]. by intros ->.
        -- apply dt_auto_dec; [done..|]. destruct (decide (length ds = 1%nat)); [by right|left]. naive_solver.
      * rewrite Hx in *. apply (dt_auto_hex ["0"%char; "x"%char]); [unfold hex_marks; rewrite !elem_of_cons; auto|done..].
      * rewrite Hx in *. apply (dt_auto_hex ["0"%char; "X"%char]); [unfold hex_marks; rewrite !elem_of_cons; auto|done..].
    + rewrite bool_decide_false in * by done. unfold stream_base in *.
      destruct (decide (base = 16)) as [->|H16]; [|destruct (decide (base = 8)) as [->|H8]].
      * simpl in *. apply dt_hex; [by apply hex_prefix_text|done..].
      * simpl in *. rewrite (prefix_text_other _ _ Hp) by done. by apply dt_oct.
      * rewrite !bool_decide_false in * by done. rewrite (prefix_text_other _ _ Hp) by done.
        apply dt_dec; [|done..]. rewrite !elem_of_cons, elem_of_nil. naive_solver.
  - destruct 1 as [base ds Hb Hne Hd|ds Hne Hd|pre ds Hp Hne Hd|ds Hne Hd Hz|ds Hne Hd|pre ds Hp Hne Hd].
    + assert (base ≠ 0 ∧ base ≠ 8 ∧ base ≠ 16) as (? & ? & ?)
        by (split_and!; intros ->; apply Hb; rewrite !elem_of_cons; auto).
      exists [], ds. rewrite (bool_decide_false (base = 0)) by done. unfold stream_base. rewrite !bool_decide_false by done. split_and!; try done. constructor.
    + exists [], ds. simpl. split_and!; try done. constructor.
    + exists pre, ds. simpl. split_and!; try done. by apply hex_prefix_text.
    + exists [], ds. simpl. rewrite (detect_base_digits _ _ Hd), decide_False by naive_solver. simpl.
      split_and!; try done. constructor.
    + exists [], ("0"%char :: ds). assert (Forall (λ c, is_digit 8 c) ("0"%char :: ds)) as Hd0 by (constructor; [by apply zero_is_digit|done]).
      simpl app. rewrite bool_decide_true by done. rewrite (detect_base_digits _ _ Hd0), decide_True by (split; [done|by destruct ds]).
      simpl. rewrite zero_in_front. split_and!; try done. constructor.
    + exists pre, ds. unfold hex_marks in Hp. rewrite !elem_of_cons, elem_of_nil in Hp.
      assert (stream_base (detect_base 0 (pre ++ ds)) = 16) as HB.
      { destruct ds as [|c ds]; [done|]. by destruct Hp as [->|[->|[]]]. }
      rewrite bool_decide_true by done. cbv zeta. rewrite HB. split_and!; try done. apply hex_prefix_text. unfold hex_prefixes. rewrite !elem_of_cons. naive_solver.
Qed.

Lemma digits_text_ends base t u :
  digits_text base t u → t ≠ [] ∧ no_sign t ∧ (∀ c, head t = Some c → isspace c = false) ∧ (∀ c, last t = Some c → isspace c = false).
Proof.
  intros (pre & ds & Ht & Hp & Hne & Hd & _)%digits_text_numeral. remember (stream_base _) as B eqn:HB. clear HB. subst t. split_and!.
  - by destruct pre, ds.
  - by eapply prefixed_no_sign.
  - intros c Hc. destruct Hp; simplify_eq/=; [|done|done]. destruct ds as [|d ds]; simplify_eq/=.
    apply Forall_cons in Hd as [Hc _]. by eapply digit_no_space.
  - intros c Hc. rewrite last_app in Hc. destruct (last ds) as [d|] eqn:Hl; [|by apply last_None in Hl].
    simplify_eq. apply last_Some in Hl as [ds' ->]. apply Forall_app in Hd as [_ Hd]. apply Forall_cons in Hd as [Hd _].
    by eapply digit_no_space.
Qed.

(** A trimmed text: the numerals of the base it is read in are the texts of the grammar. *)
Lemma numeral_int_text base s v : numeral (effective_base s base) (trim s) v ↔ int_text base s v.
Proof.
  split.
  - intros (sg & neg & pre & ds & Ht & Hs & Hp & Hne & Hd & ->). destruct (trim_split s) as (l & r & Heq & Hl & Hr & _).
    rewrite Ht in Heq. exists l, r, sg, neg, (pre ++ ds), (digits_value (effective_base s base) ds).
    split_and!; try done. apply digits_text_numeral. exists pre, ds. unfold effective_base in *.
    rewrite Ht in *. pose proof (prefixed_no_sign _ _ _ Hp Hd) as Hns. by rewrite (detect_base_text _ _ _ Hs Hns) in *.
  - intros (l & r & sg & neg & t & u & -> & Hl & Hr & Hs & Ht & ->).
    destruct (digits_text_ends _ _ _ Ht) as (Hne & Hns & Hh & Hlast).
    assert (trim (l ++ (sg ++ t) ++ r) = sg ++ t) as Htrim.
    { apply trim_unique; [done..|]. split.
      - destruct Hs; simpl; [|done|done]. destruct (head t) eqn:Hc; [by apply Hh|done].
      - rewrite last_app. destruct (last t) eqn:Hc; [by apply Hlast|]. by apply last_None in Hc. }
    unfold effective_base. rewrite Htrim, (detect_base_text _ _ _ Hs Hns).
    apply digits_text_numeral in Ht as (pre & ds & -> & Hp & Hnd & Hd & ->). by exists sg, neg, pre, ds.
Qed.

(** ** Integers to text and back *)

Lemma print_int_trimmed n : trimmed (print_int n) ∧ print_int n ≠ [].
Proof.
  assert (∀ m, 0 ≤ m → trimmed (print_nat 10 m) ∧ print_nat 10 m ≠ []) as Hnat.
  { intros m Hm. destruct (print_nat_spec 10 m) as (_ & Hd & Hne & _); [lia|done|]. split; [|done]. split.
    - destruct (print_nat 10 m) as [|c l]; [done|]. apply Forall_cons in Hd as [Hc _]. by eapply digit_no_space.
    - destruct (last (print_nat 10 m)) as [c|] eqn:Hl; [|done]. apply last_Some in Hl as [l' Hl]. rewrite Hl in Hd.
      apply Forall_app in Hd as [_ Hd]. apply Forall_cons in Hd as [Hc _]. by eapply digit_no_space. }
  unfold print_int. case_bool_decide; [|apply Hnat; lia]. destruct (Hnat (- n)) as [[_ Hl] Hne]; [lia|].
  split; [|done]. split; [done|]. rewrite last_cons. by destruct (last (print_nat 10 (- n))).
Qed.

Lemma print_int_numeral n : numeral 10 (print_int n) n.
Proof.
  unfold print_int. case_bool_decide.
  - destruct (print_nat_spec 10 (- n)) as (Hv & Hd & Hne & _); [lia|lia|].
    exists ["-"%char], true, [], (print_nat 10 (- n)). rewrite Hv. split_and!; try done; [constructor|constructor|lia].
  - destruct (print_nat_spec 10 n) as (Hv & Hd & Hne & _); [lia|lia|].
    exists [], false, [], (print_nat 10 n). rewrite Hv. split_and!; try done; constructor.
Qed.

(** No base is announced by a printed number. *)
Lemma print_int_base n : detect_base (sign_mark (print_int n)) (print_int n) = 10.
Proof.
  assert (∀ m, 0 ≤ m → (2 ≤ length (print_nat 10 m))%nat → head (print_nat 10 m) ≠ Some "0"%char) as Hz.
  { intros m Hm Hl. destruct (print_nat_spec 10 m) as (_ & _ & _ & Hh & H1 & _); [lia|done|].
    apply Hh. destruct (decide (m < 10)) as [Hs|]; [|lia]. specialize (H1 Hs). lia. }
  unfold print_int. destruct (decide (n < 0)) as [Hn|Hn];
    [rewrite (bool_decide_true (n < 0)) by done|rewrite (bool_decide_false (n < 0)) by done]; unfold detect_base.
  - assert (sign_mark ("-"%char :: print_nat 10 (- n)) = -1) as -> by done. simpl Z.to_nat.
    case_bool_decide as Hl; [|done]. simpl in Hl. specialize (Hz (- n) ltac:(lia) ltac:(lia)).
    unfold at_char at 1. simpl. rewrite bool_decide_false; [done|]. by rewrite <-head_lookup.
  - destruct (print_nat_spec 10 n) as (_ & Hd & Hne & _); [lia|lia|].
    assert (sign_mark (print_nat 10 n) = 0) as ->.
    { unfold sign_mark, at_char. destruct (print_nat 10 n) as [|c l]; [done|]. apply Forall_cons in Hd as [Hc _].
      apply digit_no_sign in Hc as [H1 H2]. simpl. by rewrite !bool_decide_false by congruence. }
    simpl Z.to_nat. case_bool_decide as Hl; [|done]. specialize (Hz n ltac:(lia) ltac:(lia)).
    unfold at_char at 1. rewrite bool_decide_false; [done|]. by rewrite <-head_lookup.
Qed.

Lemma print_int_length n k :
  - 10 ^ Z.of_nat k < n < 10 ^ Z.of_nat k → (0 < k)%nat → (length (print_int n) ≤ S k)%nat.
Proof.
  intros Hn Hk. unfold print_int. case_bool_decide; simpl.
  - pose proof (print_nat_length 10 (- n) k ltac:(lia) ltac:(lia) Hk). lia.
  - pose proof (print_nat_length 10 n k ltac:(lia) ltac:(lia) Hk). lia.
Qed.

(** The range of an integer type. *)
Definition numeric_range (T : numeric) : option int_type :=
  match T with
  | n_int => Some int_t
  | n_long | n_long_long => Some long_t
  | n_unsigned => Some uint_t
  | n_unsigned_long | n_unsigned_long_long => Some size_type
  | _ => None
  end.

(** Two's complement and back. *)
Lemma sprintf_signed w n :
  0 < w → - 2 ^ (w - 1) ≤ n < 2 ^ (w - 1) →
  (if bool_decide (2 ^ (w - 1) <= n mod 2 ^ w) then n mod 2 ^ w - 2 ^ w else n mod 2 ^ w) = n.
Proof.
  intros Hw Hn. assert (2 ^ w = 2 * 2 ^ (w - 1)) as Hp by (rewrite <-Z.pow_succ_r by lia; f_equal; lia).
  destruct (decide (n < 0)).
  - assert (n mod 2 ^ w = n + 2 ^ w) as -> by (rewrite <-(Z.mod_small (n + 2 ^ w) (2 ^ w)) by lia; rewrite <-(Z_mod_plus_full n 1); f_equal; lia).
    rewrite bool_decide_true by lia. lia.
  - rewrite Z.mod_small by lia. rewrite bool_decide_false by lia. done.
Qed.

Lemma to_string_total T R n : numeric_range T = Some R → in_type R n → to_string T n = Some (print_int n).
Proof.
  intros HR Hn. unfold to_string.
  assert (∃ bits, arg_bits T = Some bits ∧ sprintf_int (fmt_str T) bits n = Some (print_int n)) as (bits & -> & Hp).
  { destruct T; simplify_eq/=; eexists; (split; [done|]); unfold in_type in Hn; simpl in Hn; unfold sprintf_int; simpl;
      try (rewrite sprintf_signed by lia; done); rewrite Z.mod_small by lia; done. }
  simpl. rewrite Hp. simpl.
  rewrite bool_decide_true; [done|].
  assert (length (print_int n) ≤ 21)%nat.
  { apply print_int_length; [|lia]. destruct T; simplify_eq/=; unfold in_type in Hn; simpl in Hn; lia. }
  destruct T; simplify_eq/=; lia.
Qed.

Lemma str_to_integer_print T n base :
  it_min T < 0 → 0 ≤ it_max T → in_type T n → base = 0 ∨ base = 10 → str_to_integer T (print_int n) base = (true, n).
Proof.
  intros Hmin Hmax Hn Hb. apply str_to_integer_iff; [done..|]. split; [|done]. destruct (print_int_trimmed n) as [Ht _].
  assert (effective_base (print_int n) base = 10) as ->; [|rewrite trim_id by done; apply print_int_numeral].
  unfold effective_base. rewrite trim_id by done. destruct Hb as [-> | ->].
  - rewrite bool_decide_true, print_int_base by done. done.
  - done.
Qed.
