(* ===== verification/STime.v ===== *)
(** * Times of day, durations and their accumulation (cpp_console/stime.h,
      cpp_console/time_accumulator.h)

    Arithmetic on [int] and [long] is checked: [None] is a signed overflow, an
    index behind the end of a vector or a write behind the end of a buffer, all
    undefined in C++. *)

From Stdlib Require Import Ascii String.
From stdpp Require Import numbers sets list.
From S2P Require Import Prelude StdText StdMap EvTime SString.

Local Open Scope Z_scope.

Definition ck_int (z : Z) : option Z := if decide (it_min int_t <= z <= it_max int_t) then Some z else None.
Definition ck_long (z : Z) : option Z := if decide (it_min long_t <= z <= it_max long_t) then Some z else None.

(** ** stime_duration *)

Record stime_duration := StimeDuration { _milliseconds : Z }.

(** [stime_duration(int h, int m, int s, int ms)]: the sum is computed in [int]. *)
Definition stime_duration_hms (h m s ms : Z) : option stime_duration :=
  a ← ck_int (h * 60); a ← ck_int (a + m);
  a ← ck_int (a * 60); a ← ck_int (a + s);
  a ← ck_int (a * 1000); a ← ck_int (a + ms);
  Some (StimeDuration a).

(** The results are [long] values converted to [int]. *)
Definition hours (d : stime_duration) : Z := s32 (Z.quot (_milliseconds d) 3600000).
Definition minutes (d : stime_duration) : Z := s32 (Z.quot (Z.rem (_milliseconds d) 3600000) 60000).
Definition seconds (d : stime_duration) : Z := s32 (Z.quot (Z.rem (Z.rem (_milliseconds d) 3600000) 60000) 1000).
Definition milliseconds (d : stime_duration) : Z := s32 (Z.rem (Z.rem (Z.rem (_milliseconds d) 3600000) 60000) 1000).

Definition duration_add (a b : stime_duration) : option stime_duration :=
  StimeDuration <$> ck_long (_milliseconds a + _milliseconds b).
Definition duration_sub (a b : stime_duration) : option stime_duration :=
  StimeDuration <$> ck_long (_milliseconds a - _milliseconds b).

(** ** stime *)

Record stime := Stime { hour : Z; minute : Z; second : Z; millisecond : Z }.

(** [parse]: hh:mm:ss.fff; a part that is no number counts as 0. *)
Definition parse (time_str : chars) : option stime :=
  let parts := split time_str (text ":.") true in
  p0 ← parts !! 0%nat; p1 ← parts !! 1%nat; p2 ← parts !! 2%nat; p3 ← parts !! 3%nat;
  Some (Stime (str_to_int p0 10).2 (str_to_int p1 10).2 (str_to_int p2 10).2 (str_to_int p3 10).2).

(** sprintf(buf, "%02d:%02d:%02d.%03d", ...) *)
Definition format_time (t : stime) : chars :=
  print_int_pad 2 (hour t) ++ ":"%char :: print_int_pad 2 (minute t) ++ ":"%char ::
  print_int_pad 2 (second t) ++ "."%char :: print_int_pad 3 (millisecond t).

(** [char buf[16]] *)
Definition stime_to_string (t : stime) : option chars :=
  let out := format_time t in
  if bool_decide (length out + 1 <= 16)%nat then Some out else None.

(** What localtime and gettimeofday report. *)
Record tm := Tm { tm_hour : Z; tm_min : Z; tm_sec : Z }.
Definition cur_time (ts : tm) (tv_usec : Z) : stime := Stime (tm_hour ts) (tm_min ts) (tm_sec ts) (Z.quot tv_usec 1000).

Definition time_of_day (t : stime) : option stime_duration :=
  stime_duration_hms (hour t) (minute t) (second t) (millisecond t).

Definition stime_sub (a b : stime) : option stime_duration :=
  x ← time_of_day a; y ← time_of_day b; duration_sub x y.

(** ** time_accumulator *)

Abbreviation key_type := (chars * chars)%type.
Abbreviation data_type := (stime * stime)%type.
Abbreviation result_type := (Z * stime_duration)%type.

Record time_accumulator := TimeAccumulator {
  _data : list (key_type * list data_type);
  _result : list (chars * list (chars * result_type)); }.

Definition add (key : key_type) (val : data_type) (acc : time_accumulator) : time_accumulator :=
  TimeAccumulator (m_insert key (default [] (m_find key (_data acc)) ++ [val]) (_data acc)) (_result acc).

(** The inner loop: [sum += vit->second - vit->first]. *)
Fixpoint sum_records (records : list data_type) (sum : stime_duration) : option stime_duration :=
  match records with
  | [] => Some sum
  | (b, e) :: records => d ← stime_sub e b; sum ← duration_add sum d; sum_records records sum
  end.

(** The outer loop over [_data], filling [_result]. *)
Fixpoint accumulate_loop (data : list (key_type * list data_type))
    (result : list (chars * list (chars * result_type))) : option (list (chars * list (chars * result_type))) :=
  match data with
  | [] => Some result
  | ((group_name, item_name), records) :: data =>
      sum ← sum_records records (StimeDuration 0);
      let group := default [] (m_find group_name result) in
      let group := m_insert item_name (Z.of_nat (length records), sum) group in
      accumulate_loop data (m_insert group_name group result)
  end.

Definition accumulate (acc : time_accumulator) : option time_accumulator :=
  result ← accumulate_loop (_data acc) [];
  Some (TimeAccumulator (_data acc) result).

(** ** Printing the totals *)

(** The double nearest to an integer, ties to the even mantissa: a long can need 63 bits of
    mantissa and a double has 53. *)
Definition round_double (z : Z) : Z :=
  let a := Z.abs z in
  if bool_decide (a < 2 ^ 53) then z else
  let e := Z.log2 a - 52 in
  let q := a / 2 ^ e in
  let r := a mod 2 ^ e in
  let up := bool_decide (2 ^ (e - 1) < r) || (bool_decide (r = 2 ^ (e - 1)) && Z.odd q) in
  Z.sgn z * ((if up then q + 1 else q) * 2 ^ e).

Definition total_milliseconds (d : stime_duration) : Z := round_double (_milliseconds d).

(** Output of [std::setw(w)] and the text. *)
Definition setw (w : nat) (l : chars) : chars := replicate (w - length l) " "%char ++ l.

Definition dashes : chars := replicate 29 "-"%char.

(** The loop of do_print: the lines, the number of records and the total time, which are
    [size_t].  [None]: the double does not fit a long. *)
Fixpoint print_items (result : list (chars * result_type)) (total_records total_time : Z) : option (chars * Z * Z) :=
  match result with
  | [] => Some ([], total_records, total_time)
  | (item, (count, sum)) :: result =>
      total_time_of_item ← ck_long (total_milliseconds sum);
      let line := setw 30 item ++ setw 20 (print_int count) ++ setw 10 (print_int total_time_of_item) ++ [LF] in
      '(out, total_records, total_time) ←
        print_items result ((total_records + count) mod 2 ^ 64) ((total_time + total_time_of_item) mod 2 ^ 64);
      Some (line ++ out, total_records, total_time)
  end.

Definition do_print (group_name : chars) (result : list (chars * result_type)) : option chars :=
  '(out, total_records, total_time) ← print_items result 0 0;
  Some (dashes ++ group_name ++ dashes ++ [LF] ++
        setw 30 (text "Item Name") ++ setw 20 (text "Record Num") ++ setw 10 (text "Time") ++ [LF] ++
        out ++ setw 50 (print_int total_records) ++ setw 10 (print_int total_time) ++ [LF]).

(** What the loop of print writes to the file. *)
Fixpoint print_groups (groups : list (chars * list (chars * result_type))) : option chars :=
  match groups with
  | [] => Some []
  | (g, result) :: groups => out ← do_print g result; rest ← print_groups groups; Some (out ++ rest)
  end.

Definition acc_print (acc : time_accumulator) : option chars := print_groups (_result acc).

(** ** Durations *)

Definition total_ms (h m s ms : Z) : Z := ((h * 60 + m) * 60 + s) * 1000 + ms.

Lemma ck_int_some z : in_type int_t z → ck_int z = Some z.
Proof. intros H. unfold ck_int. by rewrite decide_True. Qed.

Lemma ck_long_some z : in_type long_t z → ck_long z = Some z.
Proof. intros H. unfold ck_long. by rewrite decide_True. Qed.

Lemma duration_hms h m s ms :
  0 ≤ h → 0 ≤ m → 0 ≤ s → 0 ≤ ms → total_ms h m s ms ≤ it_max int_t →
  stime_duration_hms h m s ms = Some (StimeDuration (total_ms h m s ms)).
Proof.
  intros Hh Hm Hs Hms Ht. unfold total_ms in *. unfold stime_duration_hms. simpl in Ht.
  rewrite (ck_int_some (h * 60)) by (unfold in_type; simpl; lia). simpl.
  rewrite (ck_int_some (h * 60 + m)) by (unfold in_type; simpl; lia). simpl.
  rewrite (ck_int_some ((h * 60 + m) * 60)) by (unfold in_type; simpl; lia). simpl.
  rewrite (ck_int_some ((h * 60 + m) * 60 + s)) by (unfold in_type; simpl; lia). simpl.
  rewrite (ck_int_some (((h * 60 + m) * 60 + s) * 1000)) by (unfold in_type; simpl; lia). simpl.
  by rewrite ck_int_some by (unfold in_type; simpl; lia).
Qed.

Lemma s32_id z : in_type int_t z → s32 z = z.
Proof. unfold in_type, s32. simpl. intros H. rewrite Z.mod_small by lia. lia. Qed.

(** The parts of a duration are the hours, minutes, seconds and milliseconds it was made of. *)
Lemma duration_parts h m s ms :
  0 ≤ h → 0 ≤ m < 60 → 0 ≤ s < 60 → 0 ≤ ms < 1000 → h ≤ it_max int_t →
  let d := StimeDuration (total_ms h m s ms) in
  hours d = h ∧ minutes d = m ∧ seconds d = s ∧ milliseconds d = ms.
Proof.
  intros Hh Hm Hs Hms Hmax d. unfold hours, minutes, seconds, milliseconds, d. simpl _milliseconds.
  unfold total_ms. simpl in Hmax. set (x := ((h * 60 + m) * 60 + s) * 1000 + ms).
  assert (0 ≤ x) by (unfold x; lia).
  assert (Z.quot x 3600000 = h) as E1.
  { rewrite Z.quot_div_nonneg by lia. symmetry. apply (Z.div_unique x _ h (x - h * 3600000)); unfold x; lia. }
  assert (Z.rem x 3600000 = (m * 60 + s) * 1000 + ms) as E2.
  { pose proof (Z.quot_rem x 3600000 ltac:(lia)). rewrite E1 in *. unfold x in *. lia. }
  set (y := (m * 60 + s) * 1000 + ms) in *.
  assert (Z.quot y 60000 = m) as E3.
  { rewrite Z.quot_div_nonneg by (unfold y; lia). symmetry. apply (Z.div_unique y _ m (s * 1000 + ms)); unfold y; lia. }
  assert (Z.rem y 60000 = s * 1000 + ms) as E4.
  { pose proof (Z.quot_rem y 60000 ltac:(lia)). rewrite E3 in *. unfold y in *. lia. }
  assert (Z.quot (s * 1000 + ms) 1000 = s) as E5.
  { rewrite Z.quot_div_nonneg by lia. symmetry. by apply (Z.div_unique _ _ s ms); lia. }
  assert (Z.rem (s * 1000 + ms) 1000 = ms) as E6.
  { pose proof (Z.quot_rem (s * 1000 + ms) 1000 ltac:(lia)). rewrite E5 in *. lia. }
  rewrite E1, E2, E3, E4, E5, E6. by rewrite !s32_id by (unfold in_type; simpl; lia).
Qed.

Lemma quot_bound x c k : 0 < c → Z.abs x < c * k → Z.abs (Z.quot x c) < k.
Proof.
  intros Hc Hx. rewrite <-Z.quot_abs by lia. rewrite Z.quot_div_nonneg by lia. apply Z.div_lt_upper_bound; lia.
Qed.

(** The parts of any duration below 2^31 hours add up to it, with its sign. *)
Lemma duration_split d :
  Z.abs (_milliseconds d) < 2 ^ 31 * 3600000 →
  total_ms (hours d) (minutes d) (seconds d) (milliseconds d) = _milliseconds d ∧
  Z.abs (minutes d) < 60 ∧ Z.abs (seconds d) < 60 ∧ Z.abs (milliseconds d) < 1000.
Proof.
  intros Hd. unfold hours, minutes, seconds, milliseconds, total_ms. set (x := _milliseconds d) in *.
  pose proof (Z.quot_rem x 3600000 ltac:(lia)) as E1. pose proof (Z.rem_bound_abs x 3600000 ltac:(lia)) as B1.
  set (y := Z.rem x 3600000) in *. set (h := Z.quot x 3600000) in *.
  pose proof (Z.quot_rem y 60000 ltac:(lia)) as E2. pose proof (Z.rem_bound_abs y 60000 ltac:(lia)) as B2.
  set (z := Z.rem y 60000) in *. set (m := Z.quot y 60000) in *.
  pose proof (Z.quot_rem z 1000 ltac:(lia)) as E3. pose proof (Z.rem_bound_abs z 1000 ltac:(lia)) as B3.
  set (w := Z.rem z 1000) in *. set (s := Z.quot z 1000) in *.
  assert (Z.abs h < 2 ^ 31) by (apply quot_bound; lia).
  assert (Z.abs m < 60) by (apply quot_bound; lia).
  assert (Z.abs s < 60) by (apply quot_bound; lia).
  rewrite !s32_id by (unfold in_type; simpl; lia). split_and!; lia.
Qed.

(** A time of day. *)
Definition valid_time (t : stime) : Prop :=
  0 ≤ hour t < 24 ∧ 0 ≤ minute t < 60 ∧ 0 ≤ second t < 60 ∧ 0 ≤ millisecond t < 1000.

Definition day_ms (t : stime) : Z := total_ms (hour t) (minute t) (second t) (millisecond t).

Lemma day_ms_range t : valid_time t → 0 ≤ day_ms t < 86400000.
Proof. intros (?&?&?&?). unfold day_ms, total_ms. lia. Qed.

Lemma time_of_day_valid t : valid_time t → time_of_day t = Some (StimeDuration (day_ms t)).
Proof.
  intros Hv. pose proof (day_ms_range t Hv) as Hr. destruct Hv as (?&?&?&?). apply duration_hms; try lia.
  fold (day_ms t). simpl. lia.
Qed.

Lemma stime_sub_valid a b : valid_time a → valid_time b → stime_sub a b = Some (StimeDuration (day_ms a - day_ms b)).
Proof.
  intros Ha Hb. unfold stime_sub. rewrite !time_of_day_valid by done. simpl. unfold duration_sub. simpl.
  pose proof (day_ms_range a Ha). pose proof (day_ms_range b Hb). by rewrite ck_long_some by (unfold in_type; simpl; lia).
Qed.

(** ** Printing and parsing *)

Lemma pad0_length w l : (length l ≤ w)%nat → length (pad0 w l) = w.
Proof. intros H. unfold pad0. rewrite length_app, length_replicate. lia. Qed.

Lemma print_int_pad_spec w n :
  (0 < w)%nat → 0 ≤ n < 10 ^ Z.of_nat w →
  length (print_int_pad w n) = w ∧ Forall (λ c, is_digit 10 c) (print_int_pad w n) ∧
  digits_value 10 (print_int_pad w n) = n.
Proof.
  intros Hw Hn. unfold print_int_pad. rewrite bool_decide_false by lia.
  destruct (print_nat_spec 10 n) as (Hv & Hd & _); [lia..|]. pose proof (print_nat_length 10 n w ltac:(lia) Hn Hw).
  split; [by apply pad0_length|]. unfold pad0. split; [apply Forall_app; split; [apply digits_zeros; lia|done]|].
  by rewrite digits_value_zeros.
Qed.

(** Zero-padded decimals are read as decimals. *)
Lemma str_to_int_digits l v :
  l ≠ [] → Forall (λ c, is_digit 10 c) l → digits_value 10 l = v → in_type int_t v → str_to_int l 10 = (true, v).
Proof.
  intros Hne Hd Hv Hin.
  assert (trimmed l) as Ht.
  { split.
    - destruct l as [|c l]; [done|]. apply Forall_cons in Hd as [Hc _]. by eapply digit_no_space.
    - destruct (last l) as [c|] eqn:Hl; [|done]. apply last_Some in Hl as [l' ->].
      apply Forall_app in Hd as [_ Hd]. apply Forall_cons in Hd as [Hc _]. by eapply digit_no_space. }
  destruct (str_to_integer_spec int_t l 10) as [(v' & Heq & Hn & _)|[_ Hno]]; [simpl; lia|simpl; lia| |].
  - unfold str_to_int. rewrite Heq. rewrite trim_id in Hn by done. f_equal.
    change (effective_base l 10) with 10 in Hn.
    destruct (scan_int_numeral int_t 10 l v') as (w & Hw & _); [simpl; lia|simpl; lia|lia|done|].
    destruct Hn as (sg & neg & pre & ds & Hl & Hs & Hp & Hnds & Hds & ->).
    destruct Hp; [|lia|lia]. destruct Hs; simpl in Hl; subst l; [done| |];
      apply Forall_cons in Hd as [Hc _]; by apply digit_no_sign in Hc as [].
  - exfalso. apply (Hno v); [|done]. rewrite trim_id by done. change (effective_base l 10) with 10.
    exists [], false, [], l. split_and!; try done; constructor.
Qed.

Lemma digits_no_delim l : Forall (λ c, is_digit 10 c) l → Forall (λ c, c ∉ text ":.") l.
Proof.
  intros Hl. eapply Forall_impl; [exact Hl|]. intros c Hc%digit_value_some Hin. destruct Hc as (d & Hd & _).
  unfold text in Hin. simpl in Hin. rewrite !elem_of_cons in Hin. destruct Hin as [->|[->|[]%not_elem_of_nil]]; done.
Qed.

(** Four numerals with the two kinds of delimiters in between. *)
Lemma split_four a b c d :
  Forall (λ x, x ∉ text ":.") a → Forall (λ x, x ∉ text ":.") b → Forall (λ x, x ∉ text ":.") c →
  Forall (λ x, x ∉ text ":.") d → a ≠ [] → b ≠ [] → c ≠ [] → d ≠ [] →
  split (a ++ ":"%char :: b ++ ":"%char :: c ++ "."%char :: d) (text ":.") true = [a; b; c; d].
Proof.
  intros Ha Hb Hc Hd Na Nb Nc Nd. rewrite split_nonempty, split_all.
  assert (":"%char ∈ text ":.") as H1 by (apply elem_of_cons; by left).
  assert ("."%char ∈ text ":.") as H2 by (apply elem_of_cons; right; apply elem_of_cons; by left).
  assert (is_empty (a ++ ":"%char :: b ++ ":"%char :: c ++ "."%char :: d) = false) as -> by (by destruct a).
  rewrite !all_parts_step by done. rewrite <-(app_nil_r d), all_parts_part, all_parts_nil by done. simpl.
  rewrite app_nil_r. destruct a, b, c, d; done.
Qed.

Lemma format_parse t :
  0 ≤ hour t < 100 → 0 ≤ minute t < 100 → 0 ≤ second t < 100 → 0 ≤ millisecond t < 1000 →
  stime_to_string t = Some (format_time t) ∧ length (format_time t) = 12%nat ∧ parse (format_time t) = Some t.
Proof.
  intros Hh Hm Hs Hms.
  destruct (print_int_pad_spec 2 (hour t)) as (L1 & D1 & V1); [lia|simpl; lia|].
  destruct (print_int_pad_spec 2 (minute t)) as (L2 & D2 & V2); [lia|simpl; lia|].
  destruct (print_int_pad_spec 2 (second t)) as (L3 & D3 & V3); [lia|simpl; lia|].
  destruct (print_int_pad_spec 3 (millisecond t)) as (L4 & D4 & V4); [lia|simpl; lia|].
  assert (length (format_time t) = 12%nat) as Hlen.
  { unfold format_time. rewrite !length_app. simpl. rewrite !length_app. simpl. rewrite !length_app. simpl. lia. }
  split; [unfold stime_to_string; by rewrite Hlen|]. split; [done|].
  assert (∀ l : chars, length l = 2%nat ∨ length l = 3%nat → l ≠ []) as Hne by (intros [|] [?|?]; done).
  unfold parse, format_time.
  rewrite split_four by ((apply digits_no_delim; done) || (apply Hne; lia)). simpl.
  rewrite (str_to_int_digits _ (hour t)) by (done || (apply Hne; lia) || (unfold in_type; simpl; lia)).
  rewrite (str_to_int_digits _ (minute t)) by (done || (apply Hne; lia) || (unfold in_type; simpl; lia)).
  rewrite (str_to_int_digits _ (second t)) by (done || (apply Hne; lia) || (unfold in_type; simpl; lia)).
  rewrite (str_to_int_digits _ (millisecond t)) by (done || (apply Hne; lia) || (unfold in_type; simpl; lia)).
  by destruct t.
Qed.

(** ** Accumulation *)

Definition record_ms (r : data_type) : Z := day_ms r.2 - day_ms r.1.
Definition records_ms (l : list data_type) : Z := foldr (λ r x, record_ms r + x) 0 l.
Definition valid_record (r : data_type) : Prop := valid_time r.1 ∧ valid_time r.2.

Lemma sum_records_valid l z :
  Forall valid_record l → Z.abs z + 86400000 * Z.of_nat (length l) < 2 ^ 63 →
  sum_records l (StimeDuration z) = Some (StimeDuration (z + records_ms l)).
Proof.
  revert z. induction l as [|[b e] l IH]; intros z Hv Hz; simpl; [by rewrite Z.add_0_r|].
  apply Forall_cons in Hv as [[Hb He] Hv]. simpl in Hb, He. rewrite stime_sub_valid by done. simpl.
  pose proof (day_ms_range b Hb). pose proof (day_ms_range e He). unfold duration_add. simpl. simpl in Hz.
  rewrite ck_long_some by (unfold in_type; simpl; lia). simpl. rewrite IH by (done || lia).
  unfold record_ms. simpl. do 2 f_equal. lia.
Qed.

(** What [accumulate] computes for one key. *)
Definition summary (records : list data_type) : result_type :=
  (Z.of_nat (length records), StimeDuration (records_ms records)).

Definition result_find (g i : chars) (result : list (chars * list (chars * result_type))) : option result_type :=
  group ← m_find g result; m_find i group.

Definition result_ok (result : list (chars * list (chars * result_type))) : Prop :=
  m_sorted result ∧ Forall (λ e, m_sorted e.2) result.

Definition data_ok (data : list (key_type * list data_type)) : Prop :=
  m_sorted data ∧ Forall (λ e, Forall valid_record e.2 ∧ 86400000 * Z.of_nat (length e.2) < 2 ^ 63) data.

Lemma result_insert g i v result :
  result_ok result →
  let r' := m_insert g (m_insert i v (default [] (m_find g result))) result in
  result_ok r' ∧ ∀ g' i', result_find g' i' r' =
    if decide (g' = g ∧ i' = i) then Some v else result_find g' i' result.
Proof.
  intros [Hs Hin] r'. assert (m_sorted (default [] (m_find g result))) as Hg.
  { destruct (m_find g result) as [m|] eqn:Hm; simpl; [|constructor]. apply m_find_elem in Hm; [|done].
    rewrite Forall_forall in Hin. by apply (Hin _ Hm). }
  split; [split|].
  - by apply m_insert_sorted.
  - apply Forall_forall. intros [k m] Hk. simpl. apply m_find_elem in Hk; [|by apply m_insert_sorted].
    unfold r' in Hk. rewrite m_find_insert in Hk by done. destruct (kcmp k g) eqn:Hc.
    + simplify_eq. by apply m_insert_sorted.
    + apply m_find_elem in Hk; [|done]. rewrite Forall_forall in Hin. by apply (Hin _ Hk).
    + apply m_find_elem in Hk; [|done]. rewrite Forall_forall in Hin. by apply (Hin _ Hk).
  - intros g' i'. unfold result_find, r'. destruct (decide (g' = g)) as [->|Hne].
    + rewrite m_find_insert_eq by done. simpl. destruct (decide (i' = i)) as [->|Hni].
      * rewrite m_find_insert_eq by done. by rewrite decide_True.
      * rewrite m_find_insert_ne by done. rewrite decide_False by naive_solver. by destruct (m_find g result).
    + rewrite m_find_insert_ne by done. by rewrite decide_False by naive_solver.
Qed.

Lemma accumulate_loop_spec data result :
  data_ok data → result_ok result →
  ∃ result', accumulate_loop data result = Some result' ∧ result_ok result' ∧
    ∀ g i, result_find g i result' =
      match m_find (g, i) data with Some l => Some (summary l) | None => result_find g i result end.
Proof.
  revert result. induction data as [|[[g i] l] data IH]; intros result [Hs Hv] Hr; simpl; [by exists result|].
  apply m_sorted_cons in Hs as [Hs Hk]. apply Forall_cons in Hv as [[Hl Hlen] Hv]. simpl in Hl, Hlen.
  rewrite sum_records_valid by (done || simpl; lia). simpl. rewrite Z.add_0_l. fold (summary l).
  destruct (result_insert g i (summary l) result Hr) as [Hr' Hf].
  destruct (IH _ ltac:(done) Hr') as (result' & Heq & Hok & Hfind). exists result'. split; [done|]. split; [done|].
  intros g' i'. rewrite Hfind, Hf. destruct (decide ((g', i') = (g, i))) as [[= -> ->]|Hne].
  - rewrite kcmp_refl, m_find_below by done. by rewrite decide_True.
  - destruct (kcmp (g', i') (g, i)) eqn:Hc; [by apply kcmp_eq in Hc| |].
    + rewrite (m_find_below (g', i')) by (eapply Forall_impl; [exact Hk|]; intros x Hx; by eapply kcmp_trans).
      by rewrite decide_False by naive_solver.
    + rewrite decide_False by naive_solver. done.
Qed.

(** Adding keeps the data in key order and records the value last under its key. *)
Lemma add_spec key val acc :
  m_sorted (_data acc) →
  m_sorted (_data (add key val acc)) ∧
  m_find key (_data (add key val acc)) = Some (default [] (m_find key (_data acc)) ++ [val]) ∧
  (∀ k, k ≠ key → m_find k (_data (add key val acc)) = m_find k (_data acc)).
Proof.
  intros Hs. split; [by apply m_insert_sorted|]. split; [by apply m_find_insert_eq|].
  intros k Hk. by apply m_find_insert_ne.
Qed.

(** *** A list of additions *)

Definition add_all (recs : list (key_type * data_type)) (acc : time_accumulator) : time_accumulator :=
  foldl (λ acc '(key, val), add key val acc) acc recs.

Definition records_of (key : key_type) (recs : list (key_type * data_type)) : list data_type :=
  (filter (λ r, r.1 = key) recs).*2.

Lemma add_all_find recs acc key :
  m_sorted (_data acc) →
  m_sorted (_data (add_all recs acc)) ∧
  m_find key (_data (add_all recs acc)) =
    match m_find key (_data acc), records_of key recs with
    | None, [] => None
    | old, new => Some (default [] old ++ new)
    end.
Proof.
  revert acc. induction recs as [|[k v] recs IH]; intros acc Hs.
  - split; [done|]. unfold records_of. simpl. destruct (m_find key (_data acc)); simpl; [|done]. by rewrite app_nil_r.
  - destruct (add_spec k v acc Hs) as (Hs' & Heq & Hne). destruct (IH (add k v acc) Hs') as [Hs'' Hf].
    split; [exact Hs''|]. unfold add_all in *. cbn [foldl]. rewrite Hf. unfold records_of. rewrite filter_cons. cbn [fst].
    destruct (decide (k = key)) as [->|Hk].
    + rewrite Heq. csimpl. destruct (m_find key (_data acc)); simpl; rewrite <-?app_assoc; done.
    + by rewrite Hne by done.
Qed.

Lemma records_of_sub key recs x : x ∈ records_of key recs → (key, x) ∈ recs.
Proof.
  unfold records_of. intros ([k y] & -> & Hin)%list_elem_of_fmap. simpl. apply list_elem_of_filter in Hin as [Hk Hin]. simpl in Hk.
  by subst.
Qed.

Lemma records_of_length key recs : (length (records_of key recs) ≤ length recs)%nat.
Proof. unfold records_of. rewrite length_fmap. apply length_filter. Qed.

Lemma add_all_ok recs :
  Forall (λ r, valid_record r.2) recs → 86400000 * Z.of_nat (length recs) < 2 ^ 63 →
  data_ok (_data (add_all recs (TimeAccumulator [] []))).
Proof.
  intros Hv Hl. assert (m_sorted (_data (TimeAccumulator [] []))) as H0 by constructor.
  split; [by apply (add_all_find recs _ ([], []))|]. apply Forall_forall. intros [k l] Hin. simpl.
  destruct (add_all_find recs _ k H0) as [Hs Hf]. apply m_find_elem in Hin; [|done]. rewrite Hin in Hf. simpl in Hf.
  assert (l = records_of k recs) as -> by (destruct (records_of k recs); congruence).
  split; [|pose proof (records_of_length k recs); lia]. apply Forall_forall. intros x Hx%records_of_sub.
  rewrite Forall_forall in Hv. by apply (Hv _ Hx).
Qed.

(** ** The report *)

Lemma total_milliseconds_exact d : Z.abs (_milliseconds d) < 2 ^ 53 → total_milliseconds d = _milliseconds d.
Proof. intros H. unfold total_milliseconds, round_double. by rewrite bool_decide_true. Qed.

(** Durations a double holds exactly. *)
Definition small_item (e : chars * result_type) : Prop := Z.abs (_milliseconds e.2.2) < 2 ^ 53.

Definition item_line (e : chars * result_type) : chars :=
  setw 30 e.1 ++ setw 20 (print_int e.2.1) ++ setw 10 (print_int (_milliseconds e.2.2)) ++ [LF].

Definition sum_of {A} (f : A → Z) (l : list A) : Z := foldr (λ x z, f x + z) 0 l.

Lemma print_items_spec result n t :
  Forall small_item result → 0 ≤ n < 2 ^ 64 → 0 ≤ t < 2 ^ 64 →
  print_items result n t =
  Some (concat (item_line <$> result), (n + sum_of (λ e, e.2.1) result) mod 2 ^ 64,
        (t + sum_of (λ e, _milliseconds e.2.2) result) mod 2 ^ 64).
Proof.
  intros Hsm. revert n t. induction Hsm as [|[item [count sum]] result Hx Hsm IH]; intros n t Hn Ht; simpl.
  - by rewrite !Z.add_0_r, !Z.mod_small.
  - unfold small_item in Hx. simpl in Hx. rewrite total_milliseconds_exact by done.
    rewrite ck_long_some by (unfold in_type; simpl; lia). simpl. rewrite IH by (apply Z.mod_pos_bound; lia). simpl.
    rewrite !Zplus_mod_idemp_l, <-!Z.add_assoc. done.
Qed.

(** Data of days' records: every total fits a double. *)
Lemma summary_small l : Forall valid_record l → 86400000 * Z.of_nat (length l) < 2 ^ 53 → ∀ i, small_item (i, summary l).
Proof.
  intros Hv Hl i. unfold small_item, summary. simpl.
  assert (Z.abs (records_ms l) ≤ 86400000 * Z.of_nat (length l)); [|lia]. clear Hl.
  induction Hv as [|[b e] l [Hb He] Hv IH]; simpl; [lia|]. unfold record_ms. simpl in *.
  pose proof (day_ms_range b Hb). pose proof (day_ms_range e He). lia.
Qed.
