(* ===== verification/SrcFile.v ===== *)
(** * Source files as sequences of words (preprocess/)

    SrcLine.cc, SrcFile.cc, SrcIter.cc, SrcCIter.cc and the loop of Main.cc: a
    file is a list of lines, a line the list of its words, and an iterator the
    number of a word in a file.  Numbers of words and lines are sizes of
    containers in memory, so [size_t] is [nat] here.  The files an iterator can
    point to are a map from addresses. *)

From Stdlib Require Import Ascii String.
From stdpp Require Import gmap numbers list.
From S2P Require Import Prelude StdText SString.

(** ** SrcLine *)

Record SrcLine := MkSrcLine { line_number : Z; file_name : chars; line_data : list chars }.

(** [SrcLine(str, file, line)] *)
Definition src_line (str file : chars) (line : Z) : SrcLine := MkSrcLine line file (split str (text " ") true).

Definition line_size (l : SrcLine) : nat := length (line_data l).

(** ** SrcFile *)

Record SrcFile := MkSrcFile { _size : nat; file_data : list SrcLine }.

Definition src_file : SrcFile := MkSrcFile 0 [].

Definition NUL : ascii := chr 0.

(** The [std::string] made of the C string in [buf]. *)
Definition of_c_str (buf : chars) : chars := (span (λ c, negb (bool_decide (c = NUL))) buf).1.

(** The loop of [read]: [count] is the number of the last line. *)
Fixpoint read_loop (fuel : nat) (filename : chars) (fs : istream) (count : Z) (f : SrcFile) : outcome SrcFile :=
  match fuel with
  | O => OutOfFuel
  | S fuel =>
      let '(buf, fs) := read_line_buf 256 fs in
      if is_fail fs then Done f else
      let count := (count + 1)%Z in
      let line := src_line (of_c_str buf) filename count in
      read_loop fuel filename fs count (MkSrcFile (_size f + line_size line) (file_data f ++ [line]))
  end.

(** [contents] is what the file system holds under the name: a file that cannot be opened
    leaves the stream failed.  Every turn consumes a character or meets the end. *)
Definition read (filename : chars) (contents : option chars) (f : SrcFile) : outcome SrcFile :=
  match contents with
  | Some l => read_loop (length l + 2) filename (istream_of l) 0 f
  | None => read_loop 1 filename (IStream [] false true) 0 f
  end.

(** The line that holds the word, and its number there. *)
Fixpoint find_line (lines : list SrcLine) (index : nat) : option (SrcLine * nat) :=
  match lines with
  | [] => None
  | l :: lines => if bool_decide (index < line_size l) then Some (l, index) else find_line lines (index - line_size l)
  end.

(** [operator[]]; [None]: the end of the list is dereferenced. *)
Definition index_word (f : SrcFile) (index : nat) : option chars :=
  '(l, i) ← find_line (file_data f) index;
  line_data l !! i.

(** Assignment through the reference the other [operator[]] returns. *)
Fixpoint set_word_lines (lines : list SrcLine) (index : nat) (w : chars) : option (list SrcLine) :=
  match lines with
  | [] => None
  | l :: lines =>
      if bool_decide (index < line_size l) then
        Some (MkSrcLine (line_number l) (file_name l) (<[index:=w]> (line_data l)) :: lines)
      else lines' ← set_word_lines lines (index - line_size l) w; Some (l :: lines')
  end.

Definition set_word (f : SrcFile) (index : nat) (w : chars) : option SrcFile :=
  lines ← set_word_lines (file_data f) index w; Some (MkSrcFile (_size f) lines).

Definition file_size (f : SrcFile) : nat := _size f.
Definition line_count (f : SrcFile) : nat := length (file_data f).

(** ** SrcIter *)

Record SrcIter := MkSrcIter { _index : nat; _file : Z }.

Abbreviation files := (gmap Z SrcFile).

Definition iter_deref (mem : files) (it : SrcIter) : option chars :=
  f ← mem !! _file it; index_word f (_index it).
Definition iter_eq (a b : SrcIter) : bool := bool_decide (_file a = _file b) && bool_decide (_index a = _index b).
Definition iter_neq (a b : SrcIter) : bool := negb (iter_eq a b).
Definition iter_incr (it : SrcIter) : SrcIter := MkSrcIter (_index it + 1) (_file it).
(** [it++]: the old iterator, and the new one. *)
Definition iter_post_incr (it : SrcIter) : SrcIter * SrcIter := (it, iter_incr it).

Definition file_begin (p : Z) : SrcIter := MkSrcIter 0 p.
Definition file_end (mem : files) (p : Z) : option SrcIter := f ← mem !! p; Some (MkSrcIter (_size f) p).

(** ** SrcCIter: the iterator over a constant file *)

Record SrcCIter := MkSrcCIter { c_index : nat; c_file : Z }.

Definition citer_deref (mem : files) (it : SrcCIter) : option chars :=
  f ← mem !! c_file it; index_word f (c_index it).
Definition citer_eq (a b : SrcCIter) : bool := bool_decide (c_file a = c_file b) && bool_decide (c_index a = c_index b).
Definition citer_neq (a b : SrcCIter) : bool := negb (citer_eq a b).
Definition citer_incr (it : SrcCIter) : SrcCIter := MkSrcCIter (c_index it + 1) (c_file it).
Definition citer_post_incr (it : SrcCIter) : SrcCIter * SrcCIter := (it, citer_incr it).

Definition file_cbegin (p : Z) : SrcCIter := MkSrcCIter 0 p.
Definition file_cend (mem : files) (p : Z) : option SrcCIter := f ← mem !! p; Some (MkSrcCIter (_size f) p).

(** ** Main.cc: print every word with its length *)

Fixpoint main_loop (fuel : nat) (mem : files) (p : Z) (it : SrcIter) (out : list (chars * nat)) :
    outcome (list (chars * nat)) :=
  match fuel with
  | O => OutOfFuel
  | S fuel =>
      match file_end mem p with
      | None => Fault
      | Some e =>
          if iter_neq it e then
            match iter_deref mem it with
            | Some w => main_loop fuel mem p (iter_post_incr it).2 (out ++ [(w, length w)])
            | None => Fault
            end
          else Done out
      end
  end.

(** [p] is the address of the local variable [sf]. *)
Definition main (fuel : nat) (contents : option chars) (p : Z) : outcome (list (chars * nat)) :=
  match read (text "Main.cc") contents src_file with
  | Done sf => main_loop fuel {[p := sf]} p (file_begin p) []
  | Fault => Fault
  | OutOfFuel => OutOfFuel
  end.

(** ** The words of a file *)

Definition words (f : SrcFile) : list chars := concat (line_data <$> file_data f).

(** The stored size is the number of words. *)
Definition file_ok (f : SrcFile) : Prop := _size f = length (words f).

Lemma words_snoc n lines l : words (MkSrcFile n (lines ++ [l])) = concat (line_data <$> lines) ++ line_data l.
Proof. unfold words. simpl. rewrite fmap_app, concat_app. simpl. by rewrite app_nil_r. Qed.

Lemma file_ok_snoc f l : file_ok f → file_ok (MkSrcFile (_size f + line_size l) (file_data f ++ [l])).
Proof.
  unfold file_ok. intros H. rewrite words_snoc, length_app. simpl. unfold words in H. rewrite H. done.
Qed.

Lemma find_line_words lines i :
  ('(l, j) ← find_line lines i; line_data l !! j) = concat (line_data <$> lines) !! i.
Proof.
  revert i. induction lines as [|l lines IH]; intros i; simpl; [done|]. unfold line_size.
  case_bool_decide; simpl.
  - by rewrite lookup_app_l.
  - rewrite IH, lookup_app_r by lia. done.
Qed.

Lemma index_word_lookup f i : index_word f i = words f !! i.
Proof. apply find_line_words. Qed.

Lemma set_word_lines_spec lines i w :
  (i < length (concat (line_data <$> lines)))%nat →
  ∃ lines', set_word_lines lines i w = Some lines' ∧
    concat (line_data <$> lines') = <[i:=w]> (concat (line_data <$> lines)) ∧
    length <$> (line_data <$> lines') = length <$> (line_data <$> lines).
Proof.
  revert i. induction lines as [|l lines IH]; intros i Hi; csimpl in *; [lia|]. rewrite length_app in Hi.
  unfold line_size. case_bool_decide as Hl.
  - eexists. split; [done|]. csimpl. rewrite length_insert. split; [by rewrite insert_app_l|done].
  - destruct (IH (i - length (line_data l))) as (lines' & Heq & Hc & Hs); [lia|]. rewrite Heq. simpl.
    eexists. split; [done|]. csimpl. rewrite Hc, Hs. split; [|done].
    rewrite <-insert_app_r. f_equal. lia.
Qed.

Lemma set_word_spec f i w :
  file_ok f → (i < _size f)%nat →
  ∃ f', set_word f i w = Some f' ∧ file_ok f' ∧ words f' = <[i:=w]> (words f).
Proof.
  unfold file_ok. intros Hok Hi. rewrite Hok in Hi. destruct (set_word_lines_spec (file_data f) i w Hi) as (ls & Heq & Hc & _).
  unfold set_word. rewrite Heq. simpl. eexists. split; [done|]. unfold words in *. simpl. rewrite Hc.
  by rewrite length_insert.
Qed.

(** Walking a file from begin to end. *)
Lemma main_loop_spec k mem p f i fuel out :
  mem !! p = Some f → file_ok f → (i + k = _size f)%nat → (k < fuel)%nat →
  main_loop fuel mem p (MkSrcIter i p) out = Done (out ++ ((λ w, (w, length w)) <$> drop i (words f))).
Proof.
  intros Hp Hok. revert i fuel out. induction k as [|k IH]; intros i fuel out Hi Hf; destruct fuel as [|fuel]; try lia; simpl.
  - unfold file_end. rewrite Hp. simpl. unfold iter_neq, iter_eq. simpl. rewrite !bool_decide_true by lia. simpl.
    rewrite drop_ge by (unfold file_ok in Hok; lia). simpl. by rewrite app_nil_r.
  - unfold file_end. rewrite Hp. simpl. unfold iter_neq, iter_eq. simpl. rewrite bool_decide_true by done.
    rewrite bool_decide_false by lia. simpl. unfold iter_deref. simpl. rewrite Hp. simpl. rewrite index_word_lookup.
    destruct (lookup_lt_is_Some_2 (words f) i) as [w Hw]; [unfold file_ok in Hok; lia|]. rewrite Hw.
    unfold iter_incr. simpl. rewrite Nat.add_1_r, IH by lia. rewrite (drop_S _ _ _ Hw). simpl. by rewrite <-app_assoc.
Qed.

(** ** Reading *)

(** A text whose lines fit the buffer and hold no NUL. *)
Fixpoint short_lines (n : nat) (l : chars) : Prop :=
  match l with
  | [] => True
  | c :: l =>
      c ≠ NUL ∧ if bool_decide (c = LF) then short_lines 0 l else (n < 255)%nat ∧ short_lines (S n) l
  end.

#[global] Instance short_lines_dec n l : Decision (short_lines n l).
Proof.
  revert n. induction l as [|c l IH]; intros n; simpl; [apply _|].
  destruct (bool_decide (c = LF)); apply _.
Defined.

Definition delims_ws : chars := [" "%char; LF].

Lemma short_lines_span n l a b :
  short_lines n l → span (λ c, negb (bool_decide (c = LF))) l = (a, b) →
  (n ≤ 255 → n + length a ≤ 255)%nat ∧ Forall (λ c, c ≠ NUL) a ∧
  match b with [] => True | _ :: b' => short_lines 0 b' end.
Proof.
  revert n a b. induction l as [|c l IH]; intros n a b Hs Hsp; simpl in Hsp; [simplify_eq/=; split_and!; [lia|constructor|done]|].
  destruct Hs as [Hc Hs]. destruct (bool_decide_reflect (c = LF)) as [->|Hne]; simpl in Hsp.
  - simplify_eq/=. split_and!; [lia|constructor|done].
  - destruct Hs as [Hn Hs]. destruct (span _ l) as [a' b'] eqn:Hsp'. simplify_eq. destruct (IH _ _ _ Hs eq_refl) as (H1 & H2 & H3).
    simpl. split_and!; [lia|by constructor|done].
Qed.

Lemma of_c_str_id l : Forall (λ c, c ≠ NUL) l → of_c_str l = l.
Proof.
  intros Hl. unfold of_c_str. rewrite span_intro_all; [done|]. eapply Forall_impl; [exact Hl|]. intros c Hc. simpl.
  by rewrite bool_decide_false.
Qed.

(** Words of a line and of what follows its end. *)
Lemma all_parts_words a sub rest :
  Forall (λ c, c ≠ LF) a →
  filter nonempty (all_parts delims_ws (a ++ LF :: rest) sub) =
  filter nonempty (all_parts (text " ") a sub) ++ filter nonempty (all_parts delims_ws rest []).
Proof.
  intros Ha. revert sub. induction Ha as [|c a Hc Ha IH]; intros sub; simpl.
  - rewrite all_parts_delim by done. rewrite all_parts_nil, !filter_cons. by case_decide.
  - destruct (decide (c = " "%char)) as [->|Hs].
    + rewrite !all_parts_delim by done. rewrite !filter_cons, IH. by case_decide.
    + rewrite !all_parts_char; [apply IH|..]; unfold not_found; rewrite bool_decide_false; try done;
        unfold delims_ws, text; simpl; rewrite ?elem_of_cons, ?elem_of_nil; naive_solver.
Qed.

Lemma all_parts_words_last a sub :
  Forall (λ c, c ≠ LF) a →
  filter nonempty (all_parts delims_ws a sub) = filter nonempty (all_parts (text " ") a sub).
Proof.
  intros Ha. revert sub. induction Ha as [|c a Hc Ha IH]; intros sub; simpl; [done|].
  destruct (decide (c = " "%char)) as [->|Hs].
  - rewrite !all_parts_delim by done. rewrite !filter_cons, IH. by case_decide.
  - rewrite !all_parts_char; [apply IH|..]; unfold not_found; rewrite bool_decide_false; try done;
      unfold delims_ws, text; simpl; rewrite ?elem_of_cons, ?elem_of_nil; naive_solver.
Qed.

Lemma split_words str d : split str d true = filter nonempty (all_parts d str []).
Proof.
  rewrite split_nonempty, split_all. destruct str as [|c str]; [|done]. simpl. by rewrite all_parts_nil.
Qed.

Lemma read_loop_spec fuel fname l count f :
  short_lines 0 l → (length l + 1 < fuel)%nat →  file_ok f →
  ∃ f', read_loop fuel fname (istream_of l) count f = Done f' ∧ file_ok f' ∧
    words f' = words f ++ split l delims_ws true.
Proof.
  revert l count f. induction fuel as [|fuel IH]; intros l count f Hs Hf Hok; [lia|]. cbn [read_loop].
  unfold read_line_buf. simpl is_good. cbn [is_data istream_of].
  destruct (span (λ c, negb (bool_decide (c = LF))) l) as [a b] eqn:Hsp.
  pose proof (span_app _ _ _ _ Hsp) as Hl. pose proof (span_all _ _ _ _ Hsp) as Ha.
  destruct (short_lines_span 0 l a b Hs Hsp) as (Hlen & Hnul & Hb).
  assert (Forall (λ c, c ≠ LF) a) as HaLF.
  { eapply Forall_impl; [exact Ha|]. by intros c Hc ->. }
  rewrite bool_decide_false by lia.
  assert (∀ g, words (MkSrcFile (_size f + line_size (src_line (of_c_str a) fname g)) (file_data f ++ [src_line (of_c_str a) fname g]))
    = words f ++ filter nonempty (all_parts (text " ") a [])) as Hw.
  { intros g. rewrite words_snoc. unfold src_line. cbn [line_data]. by rewrite of_c_str_id, split_words. }
  destruct b as [|d b].
  - rewrite app_nil_r in Hl. subst a. destruct l as [|c l]; simpl.
    + exists f. rewrite app_nil_r. done.
    + destruct fuel as [|fuel]; [simpl in Hf; lia|]. cbn [read_loop]. unfold read_line_buf. simpl is_good. cbn [is_fail].
      eexists. split; [done|]. split; [by apply file_ok_snoc|]. rewrite Hw, split_words. by rewrite all_parts_words_last.
  - simpl. assert (d = LF) as ->.
    { apply span_stop in Hsp. by apply negb_false_iff, bool_decide_eq_true in Hsp. }
    destruct (IH b (count + 1)%Z (MkSrcFile (_size f + line_size (src_line (of_c_str a) fname (count + 1)))
      (file_data f ++ [src_line (of_c_str a) fname (count + 1)]))) as (f' & Heq & Hok' & Hw'); [done| |by apply file_ok_snoc|].
    { rewrite Hl, length_app in Hf. simpl in Hf. lia. }
    exists f'. split; [exact Heq|]. split; [done|]. rewrite Hw', Hw, <-app_assoc. f_equal.
    rewrite !split_words, Hl. by rewrite all_parts_words.
Qed.

(** Reading never runs out of fuel and keeps the size right, whatever the file holds. *)
Lemma read_loop_total fuel fname s count f :
  (length (is_data s) + 1 < fuel)%nat → file_ok f → ∃ f', read_loop fuel fname s count f = Done f' ∧ file_ok f'.
Proof.
  revert s count f. induction fuel as [|fuel IH]; intros s count f Hf Hok; [lia|]. cbn [read_loop]. unfold read_line_buf.
  destruct (is_good s); [|by exists f].
  destruct (span (λ c, negb (bool_decide (c = LF))) (is_data s)) as [a b] eqn:Hsp. apply span_app in Hsp.
  destruct (bool_decide (256 - 1 < length a)%nat); [by exists f|]. destruct b as [|d b].
  - simpl. destruct (is_empty a) eqn:He; [by exists f|]. apply IH; [|by apply file_ok_snoc].
    simpl. destruct (is_data s); [simpl in Hsp; by destruct a|]. simpl in Hf. lia.
  - simpl. apply IH; [|by apply file_ok_snoc]. simpl. rewrite Hsp, length_app in Hf. simpl in Hf. lia.
Qed.

(** The constant iterator moves and reads like the other one. *)
Definition to_citer (it : SrcIter) : SrcCIter := MkSrcCIter (_index it) (_file it).

Lemma citer_agrees mem a b :
  citer_deref mem (to_citer a) = iter_deref mem a ∧ citer_neq (to_citer a) (to_citer b) = iter_neq a b ∧
  citer_incr (to_citer a) = to_citer (iter_incr a) ∧
  citer_post_incr (to_citer a) = (to_citer (iter_post_incr a).1, to_citer (iter_post_incr a).2).
Proof. done. Qed.
