(* ===== verification/SList.v ===== *)
(** * A singly linked list of strings (c_data_structure/slist.c)

    new_node, add_node and the program around them.  The blocks of the
    allocator hold nodes or the text of C strings; loads and stores through
    NULL fault, which is what happens after a failed malloc: new_node does not
    look at its result. *)

From Stdlib Require Import Ascii String.
From stdpp Require Import gmap numbers sets list.
From S2P Require Import Prelude CAlloc StdText Chain.

Local Open Scope Z_scope.

Record snode := SNode { sn_data : Z; sn_next : Z }.

Record slist := SListHdr { sl_size : Z; sl_head : Z; sl_tail : Z }.

Record slmem (W : Type) := SlMem {
  sl_nodes : gmap Z snode;
  sl_bufs : gmap Z chars;
  sl_hdrs : gmap Z slist;
  sl_world : W;
}.

Arguments SlMem {W} _ _ _ _.
Arguments sl_nodes {W} _.
Arguments sl_bufs {W} _.
Arguments sl_hdrs {W} _.
Arguments sl_world {W} _.

#[global] Instance sl_nodes_lens W : Lens (slmem W) (gmap Z snode).
Proof.
  by refine {| view := sl_nodes; update := λ x s, SlMem x (sl_bufs s) (sl_hdrs s) (sl_world s) |}; intros; destruct s.
Defined.
#[global] Instance sl_bufs_lens W : Lens (slmem W) (gmap Z chars).
Proof.
  by refine {| view := sl_bufs; update := λ x s, SlMem (sl_nodes s) x (sl_hdrs s) (sl_world s) |}; intros; destruct s.
Defined.
#[global] Instance sl_hdrs_lens W : Lens (slmem W) (gmap Z slist).
Proof.
  by refine {| view := sl_hdrs; update := λ x s, SlMem (sl_nodes s) (sl_bufs s) x (sl_world s) |}; intros; destruct s.
Defined.

Section slist.
Context {W : Type} `{!Alloc W}.
Abbreviation cmd := (cmd (slmem W)).

(** malloc of a node or of a buffer: the new block enters its memory. *)
Definition malloc_node : cmd Z :=
  λ s, let '(p, w) := alloc 16 (sl_world s) in
       Done (p, SlMem (if bool_decide (p = NULL) then sl_nodes s else <[p:=SNode 0 0]> (sl_nodes s)) (sl_bufs s) (sl_hdrs s) w).
Definition malloc_buf (n : Z) : cmd Z :=
  λ s, let '(p, w) := alloc n (sl_world s) in
       Done (p, SlMem (sl_nodes s) (if bool_decide (p = NULL) then sl_bufs s else <[p:=[]]> (sl_bufs s)) (sl_hdrs s) w).

Definition s_new_node (data : chars) : cmd Z :=
  node ← malloc_node;
  buf ← malloc_buf (Z.of_nat (length data) + 1);
  zoom (modify node (λ n, SNode buf (sn_next n)));;
  n ← zoom (load node);
  zoom (store (sn_data n) data);;
  zoom (modify node (λ n, SNode (sn_data n) 0));;
  mret node.

Definition s_add_node (lst node : Z) : cmd () :=
  l ← zoom (load lst);
  if bool_decide (0 < sl_size l) then
    zoom (modify (sl_tail l) (λ n, SNode (sn_data n) node));;
    t ← zoom (load (sl_tail l));
    zoom (modify lst (λ l, SListHdr (sl_size l + 1) (sl_head l) (sn_next t)))
  else
    zoom (modify lst (λ l, SListHdr (sl_size l) (sl_head l) node));;
    zoom (modify lst (λ l, SListHdr (sl_size l) (sl_tail l) (sl_tail l)));;
    zoom (modify lst (λ l, SListHdr (sl_size l + 1) (sl_head l) (sl_tail l))).

(** The first part of main, for any strings. *)
Fixpoint s_add_all (lst : Z) (strs : list chars) : cmd () :=
  match strs with
  | [] => mret ()
  | x :: strs => node ← s_new_node x; s_add_node lst node;; s_add_all lst strs
  end.

(** The printing loop of main: the lines it prints. *)
Definition s_print (fuel : nat) (lst : Z) : cmd (list chars) :=
  l ← zoom (load lst);
  loop fuel (λ '(p, out),
    if bool_decide (p = NULL) then mret (inr out) else
    n ← zoom (load p);
    txt ← zoom (load (sn_data n));
    mret (inl (sn_next n, out ++ [txt]))) (sl_head l, []).

Definition s_main (fuel : nat) (token_list : Z) : cmd (list chars) :=
  s_add_all token_list (text <$> ["aa"; "bb"; "cc"; ""; "dd"]%string);;
  s_print fuel token_list.

(** ** The list in memory *)

Definition snxt (h : gmap Z snode) (p : Z) : option Z := sn_next <$> h !! p.

(** The chain of nodes from the head, with the text of each. *)
Definition chain_of (s : slmem W) (p : Z) (nodes : list Z) : Prop :=
  match nodes with
  | [] => True
  | x :: nodes => p = x ∧ path (snxt (sl_nodes s)) x nodes NULL
  end.

Definition text_of (s : slmem W) (p : Z) (txt : chars) : Prop :=
  ∃ n, sl_nodes s !! p = Some n ∧ sl_bufs s !! sn_data n = Some txt.

Record slist_at (s : slmem W) (hdr : Z) (nodes : list Z) (strs : list chars) : Prop := {
  sa_hdr : ∃ l, sl_hdrs s !! hdr = Some l ∧ sl_size l = Z.of_nat (length nodes) ∧
    chain_of s (sl_head l) nodes ∧ (nodes = [] → sl_head l = NULL) ∧ (nodes ≠ [] → sl_tail l = cursor NULL nodes);
  sa_texts : Forall2 (text_of s) nodes strs;
  sa_nodup : NoDup nodes;
  sa_null : NULL ∉ nodes;
}.

Context `{!AllocOk W}.

(** Nodes and buffers are blocks the program owns, and never the same ones. *)
Record sl_heap (s : slmem W) : Prop := {
  sh_nodes : dom (sl_nodes s) ⊆ owned (sl_world s);
  sh_bufs : dom (sl_bufs s) ⊆ owned (sl_world s);
}.

(** A node on its own, as new_node returns it. *)
Definition fresh_node (s0 s : slmem W) (p : Z) (txt : chars) : Prop :=
  p ≠ NULL ∧ sl_nodes s0 !! p = None ∧ sl_hdrs s = sl_hdrs s0 ∧
  ∃ b, sl_bufs s0 !! b = None ∧ sl_nodes s = <[p:=SNode b NULL]> (sl_nodes s0) ∧ sl_bufs s = <[b:=txt]> (sl_bufs s0).

Context (B : Z) (alloc_succeeds : ∀ n w, n ≤ B → (alloc n w).1 ≠ NULL) (HB : 16 ≤ B).

Lemma wp_malloc_node Q s :
  sl_heap s →
  (∀ p w, p ≠ NULL → (p ∉ owned (sl_world s)) → owned w = {[p]} ∪ owned (sl_world s) →
     Q p (SlMem (<[p:=SNode 0 0]> (sl_nodes s)) (sl_bufs s) (sl_hdrs s) w)) →
  wp malloc_node Q s.
Proof using All.
  intros Hs HQ. destruct (alloc 16 (sl_world s)) as [p w] eqn:Ha. pose proof (alloc_succeeds 16 (sl_world s) HB) as Hne.
  rewrite Ha in Hne. simpl in Hne. destruct (alloc_ok _ _ _ _ Ha) as [[? _]|(_ & Hp & Ho)]; [done|].
  eapply wp_done; [unfold malloc_node; rewrite Ha; done|]. rewrite bool_decide_false by done. by apply HQ.
Qed.

Lemma wp_malloc_buf n Q s :
  sl_heap s → n ≤ B →
  (∀ p w, p ≠ NULL → (p ∉ owned (sl_world s)) → owned w = {[p]} ∪ owned (sl_world s) →
     Q p (SlMem (sl_nodes s) (<[p:=[]]> (sl_bufs s)) (sl_hdrs s) w)) →
  wp (malloc_buf n) Q s.
Proof using All.
  intros Hs Hn HQ. destruct (alloc n (sl_world s)) as [p w] eqn:Ha. pose proof (alloc_succeeds n (sl_world s) Hn) as Hne.
  rewrite Ha in Hne. simpl in Hne. destruct (alloc_ok _ _ _ _ Ha) as [[? _]|(_ & Hp & Ho)]; [done|].
  eapply wp_done; [unfold malloc_buf; rewrite Ha; done|]. rewrite bool_decide_false by done. by apply HQ.
Qed.

Lemma wp_s_new_node data Q s :
  sl_heap s → Z.of_nat (length data) + 1 ≤ B →
  (∀ p s', sl_heap s' → fresh_node s s' p data → Q p s') → wp (s_new_node data) Q s.
Proof using All.
  intros Hs Hd HQ. unfold s_new_node. apply wp_bind, wp_malloc_node; [done|]. intros p w Hp Hpo How.
  destruct Hs as [Hsn Hsb]. apply wp_bind, wp_malloc_buf; [constructor; simpl; set_solver|done|]. simpl. intros b w' Hb Hbo How'.
  assert (sl_nodes s !! p = None) as Hpn by (by eapply not_owned_fresh).
  assert (sl_bufs s !! b = None) as Hbn by (eapply not_owned_fresh; [done|set_solver]).
  apply wp_bind, wp_zoom. eapply wp_modify; [simpl; apply lookup_insert_eq|]. cbn.
  apply wp_bind, wp_zoom. eapply wp_load; [simpl; apply lookup_insert_eq|]. cbn.
  apply wp_bind, wp_zoom. eapply wp_store; [simpl; rewrite lookup_insert_eq; by eexists|]. cbn.
  apply wp_bind, wp_zoom. eapply wp_modify; [simpl; apply lookup_insert_eq|]. cbn.
  apply wp_ret, HQ.
  - constructor; simpl; rewrite !dom_insert_L; set_solver.
  - split_and!; [done..|]. exists b. rewrite !insert_insert_eq. done.
Qed.

(** ** Appending *)

Lemma text_of_fresh s0 s p txt x t : sl_heap s0 → fresh_node s0 s p txt → text_of s0 x t → text_of s x t.
Proof using All.
  intros Hs (_ & Hp & _ & b & Hb & Hn & Hbs) (n & Hx & Ht). exists n. rewrite Hn, Hbs.
  rewrite !lookup_insert_ne by congruence. done.
Qed.

Lemma path_node_live h x nodes q y : path (snxt h) x nodes q → y ∈ x :: nodes → is_Some (h !! y).
Proof using All.
  revert x. induction nodes as [|z nodes IH]; simpl; intros x Hp.
  - rewrite list_elem_of_singleton. intros ->. unfold snxt in Hp. destruct (h !! x); [by eexists|done].
  - destruct Hp as [Hx Hp]. intros [->|Hy]%elem_of_cons; [|by eapply IH].
    unfold snxt in Hx. destruct (h !! x); [by eexists|done].
Qed.

(** add_node puts a new node behind the last one. *)
Lemma wp_s_add_node hdr nodes strs p txt Q s0 s :
  sl_heap s0 → slist_at s0 hdr nodes strs → sl_heap s → fresh_node s0 s p txt →
  (∀ s', sl_heap s' → slist_at s' hdr (nodes ++ [p]) (strs ++ [txt]) → Q () s') →
  wp (s_add_node hdr p) Q s.
Proof using All.
  intros Hs0 [(l & Hl & Hsz & Hch & Hhd & Htl) Htx Hnd Hnull] Hs Hfr HQ.
  pose proof Hfr as (Hp & Hpn & Hhdrs & b & Hb & Hn & Hbs).
  assert (p ∉ nodes) as Hpnot.
  { intros Hin. apply list_elem_of_lookup in Hin as [i Hi]. destruct (Forall2_lookup_l _ _ _ _ _ Htx Hi) as (t & _ & n & Hx & _).
    congruence. }
  assert (Forall2 (text_of s) (nodes ++ [p]) (strs ++ [txt])) as Htx'.
  { apply Forall2_app; [eapply Forall2_impl; [exact Htx|]; intros x t; by eapply text_of_fresh|].
    constructor; [|constructor]. eexists. rewrite Hn, lookup_insert_eq. split; [done|]. rewrite Hbs. simpl. by rewrite lookup_insert_eq. }
  assert (NoDup (nodes ++ [p]) ∧ NULL ∉ nodes ++ [p]) as [Hnd' Hnull'].
  { split; [apply NoDup_app; split_and!; [done|set_solver|apply NoDup_singleton]|set_solver]. }
  unfold s_add_node. apply wp_bind, wp_zoom. eapply wp_load; [simpl; by rewrite Hhdrs|]. destruct nodes as [|x nodes].
  - rewrite bool_decide_false by (rewrite Hsz; simpl; lia).
    apply wp_bind, wp_zoom. eapply wp_modify; [simpl; by rewrite Hhdrs|]. cbn.
    apply wp_bind, wp_zoom. eapply wp_modify; [simpl; apply lookup_insert_eq|]. cbn.
    apply wp_zoom. eapply wp_modify; [simpl; apply lookup_insert_eq|]. cbn. apply HQ; [by destruct Hs|]. constructor.
    + simpl. eexists. rewrite lookup_insert_eq. split; [done|]. simpl. split_and!; [simpl in Hsz; lia|done| |by intros|by intros].
      unfold snxt. rewrite Hn, lookup_insert_eq. done.
    + eapply Forall2_impl; [exact Htx'|]. done.
    + done.
    + done.
  - rewrite bool_decide_true by (rewrite Hsz; simpl; lia). destruct Hch as [Hhead Hpath].
    rewrite (Htl ltac:(done)), cursor_cons. set (c := cursor x nodes).
    assert (c ∈ x :: nodes) as Hc by apply cursor_elem.
    destruct (path_node_live _ _ _ _ c Hpath Hc) as [nc Hnc]. assert (c ≠ p) as Hcp by (intros ->; by rewrite Hpn in Hnc).
    apply wp_bind, wp_zoom. eapply wp_modify; [simpl; rewrite Hn, lookup_insert_ne by done; exact Hnc|]. cbn.
    apply wp_bind, wp_zoom. eapply wp_load; [simpl; apply lookup_insert_eq|]. cbn.
    apply wp_zoom. eapply wp_modify; [simpl; by rewrite Hhdrs|]. cbn. apply HQ.
    { destruct Hs as [Hsn Hsb]. constructor; simpl; [|done]. rewrite dom_insert_L.
      assert (c ∈ dom (sl_nodes s)) by (rewrite Hn, dom_insert_L; apply elem_of_union_r, elem_of_dom; by eexists). set_solver. }
    constructor.
    + simpl. eexists. rewrite lookup_insert_eq. split; [done|]. simpl. rewrite length_app. simpl in *.
      split_and!; [lia|done| |done|by intros _; rewrite app_comm_cons, cursor_app].
      apply (path_insert (snxt (sl_nodes s0)) _ x nodes p [] NULL).
      * by rewrite app_nil_r.
      * rewrite app_nil_r. done.
      * rewrite app_nil_r. done.
      * unfold snxt. fold c. rewrite lookup_insert_eq. done.
      * unfold snxt. rewrite lookup_insert_ne by done. rewrite Hn, lookup_insert_eq. done.
      * intros y Hy1 Hy2. fold c in Hy1. unfold snxt. rewrite lookup_insert_ne by done. rewrite Hn, lookup_insert_ne by done. done.
    + eapply Forall2_impl; [exact Htx'|]. intros y t (n & Hy & Ht). destruct (decide (y = c)) as [->|Hne].
      * exists (SNode (sn_data nc) p). simpl. rewrite lookup_insert_eq. split; [done|].
        rewrite Hn, lookup_insert_ne in Hy by done. by simplify_eq.
      * exists n. simpl. by rewrite lookup_insert_ne.
    + done.
    + done.
Qed.

Lemma wp_s_add_all new hdr nodes strs Q s :
  sl_heap s → slist_at s hdr nodes strs → Forall (λ x, Z.of_nat (length x) + 1 ≤ B) new →
  (∀ s' nodes', sl_heap s' → slist_at s' hdr nodes' (strs ++ new) → Q () s') → wp (s_add_all hdr new) Q s.
Proof using All.
  revert nodes strs s. induction new as [|x new IH]; intros nodes strs s Hs Hat Hnew HQ; simpl.
  - apply wp_ret. eapply HQ; [done|]. rewrite app_nil_r. done.
  - apply Forall_cons in Hnew as [Hx Hnew]. apply wp_bind, wp_s_new_node; [done|done|]. intros p s1 Hs1 Hfr.
    apply wp_bind. eapply wp_s_add_node; [exact Hs|exact Hat|done|done|]. intros s2 Hs2 Hat2.
    eapply IH; [done|exact Hat2|done|]. intros s3 nodes' Hs3 Hat3. apply (HQ s3 nodes'); [done|]. by rewrite <-app_assoc in Hat3.
Qed.

(** ** Printing *)

Lemma wp_s_print_loop fuel nodes strs p out Q s :
  Forall2 (text_of s) nodes strs → (NULL ∉ nodes) → chain_of s p nodes → (nodes = [] → p = NULL) →
  (length nodes < fuel)%nat → Q (out ++ strs) s →
  wp (loop fuel (λ '(p, out),
    if bool_decide (p = NULL) then mret (inr out) else
    n ← zoom (load p);
    txt ← zoom (load (sn_data n));
    mret (inl (sn_next n, out ++ [txt]))) (p, out)) Q s.
Proof using All.
  intros Ht. revert fuel p out. induction Ht as [|x t nodes strs Hx Ht IH]; intros fuel p out Hnull Hch Hnil Hf HQ;
    (destruct fuel as [|fuel]; [simpl in Hf; lia|]); apply wp_loop.
  - rewrite Hnil by done. rewrite bool_decide_true by done. apply wp_ret, wp_ret. by rewrite app_nil_r in HQ.
  - destruct Hch as [-> Hpath]. rewrite bool_decide_false by set_solver. destruct Hx as (n & Hn & Htx).
    apply wp_bind, wp_zoom. eapply wp_load; [exact Hn|]. rewrite update_view.
    apply wp_bind, wp_zoom. eapply wp_load; [exact Htx|]. rewrite update_view. apply wp_ret.
    assert (chain_of s (sn_next n) nodes ∧ (nodes = [] → sn_next n = NULL)) as [Hch' Hnil'].
    { destruct nodes as [|y nodes]; simpl in Hpath.
      - split; [done|]. intros _. unfold snxt in Hpath. rewrite Hn in Hpath. by simplify_eq/=.
      - destruct Hpath as [Hy Hpath]. unfold snxt in Hy. rewrite Hn in Hy. simplify_eq/=. done. }
    apply IH; [set_solver|done|done|simpl in Hf; lia|]. by rewrite <-app_assoc.
Qed.

Lemma wp_s_print fuel hdr nodes strs Q s :
  slist_at s hdr nodes strs → (length nodes < fuel)%nat → Q strs s → wp (s_print fuel hdr) Q s.
Proof using All.
  intros [(l & Hl & _ & Hch & Hhd & _) Htx _ Hnull] Hf HQ. unfold s_print. apply wp_bind, wp_zoom.
  eapply wp_load; [exact Hl|]. rewrite update_view. eapply wp_s_print_loop; [exact Htx|done|done|done|done|done].
Qed.

End slist.
