(* ===== verification/STree.v ===== *)
(** * A tree with named nodes (cpp_console/stree.h)

    The three classes of the header: the position of a node (parent and
    neighbours by key), the helper that collects nodes and positions, and the
    tree, whose nodes point to their parent, first child and right sibling.
    [new] returns an address that is not in use ([New]); [root] has no
    initialiser in the class, so reading it before it was assigned faults. *)

From Stdlib Require Import Ascii String.
From stdpp Require Import gmap numbers sets list.
From S2P Require Import Prelude CAlloc StdText StdMap.

Local Open Scope Z_scope.

(** ** stree_node_pos *)

Record stree_node_pos (K : Type) := NodePos {
  pos_parent : bool * K; pos_left : bool * K; pos_right : bool * K; }.
Arguments NodePos {K} _ _ _.
Arguments pos_parent {K} _.
Arguments pos_left {K} _.
Arguments pos_right {K} _.

Section pos.
Context {K : Type} `{!Inhabited K}.

Definition node_pos : stree_node_pos K := NodePos (false, inhabitant) (false, inhabitant) (false, inhabitant).
Definition set_parent (b : bool) (k : K) (p : stree_node_pos K) : stree_node_pos K := NodePos (b, k) (pos_left p) (pos_right p).
Definition set_left (b : bool) (k : K) (p : stree_node_pos K) : stree_node_pos K := NodePos (pos_parent p) (b, k) (pos_right p).
Definition set_right (b : bool) (k : K) (p : stree_node_pos K) : stree_node_pos K := NodePos (pos_parent p) (pos_left p) (b, k).

End pos.

(** ** stree_helper *)

Record stree_helper (K D : Type) := Helper {
  hp_node_pos : list (K * stree_node_pos K);
  hp_node_data : list (K * D); }.
Arguments Helper {K D} _ _.
Arguments hp_node_pos {K D} _.
Arguments hp_node_data {K D} _.

Section helper.
Context {K D : Type} `{!Cmp K, !Inhabited K}.
Abbreviation helper := (stree_helper K D).

Definition helper_add_node (k : K) (d : D) (hp : helper) : helper := Helper (hp_node_pos hp) (m_insert k d (hp_node_data hp)).

Definition helper_add_nodes (vec : list (K * D)) (hp : helper) : helper :=
  foldl (λ hp '(k, d), helper_add_node k d hp) hp vec.

(** The loop over the children: [left] is the one before [it], if any. *)
Fixpoint add_pos_loop (p : K) (left : option K) (it : list K) (m : list (K * stree_node_pos K)) :
    list (K * stree_node_pos K) :=
  match it with
  | [] => m
  | k :: it =>
      let pos := set_parent true p node_pos in
      let pos := match left with Some l => set_left true l pos | None => pos end in
      let pos := match it with r :: _ => set_right true r pos | [] => pos end in
      add_pos_loop p (Some k) it (m_insert k pos m)
  end.

Definition add_pos_info (p : K) (vec : list K) (hp : helper) : helper :=
  match vec with
  | [] => hp
  | _ =>
      let m := hp_node_pos hp in
      let m := if bool_decide (m_count p m = 0) then m_insert p node_pos m else m in
      Helper (add_pos_loop p None vec m) (hp_node_data hp)
  end.

End helper.

(** ** stree *)

(** A node made by [get_node] has no data until [set_node]. *)
Record stree_node (K D : Type) := TNode {
  n_key : K; n_data : option D; n_parent : Z; n_left_child : Z; n_right_sibling : Z; }.
Arguments TNode {K D} _ _ _ _ _.
Arguments n_key {K D} _.
Arguments n_data {K D} _.
Arguments n_parent {K D} _.
Arguments n_left_child {K D} _.
Arguments n_right_sibling {K D} _.

Record stree (K D : Type) := STree {
  tr_heap : gmap Z (stree_node K D);
  tr_root : option Z;
  tr_nodes : list (K * Z); }.
Arguments STree {K D} _ _ _.
Arguments tr_heap {K D} _.
Arguments tr_root {K D} _.
Arguments tr_nodes {K D} _.

#[global] Instance tr_heap_lens K D : Lens (stree K D) (gmap Z (stree_node K D)).
Proof. by refine {| view := tr_heap; update := λ h t, STree h (tr_root t) (tr_nodes t) |}; intros; destruct s. Defined.

Section stree.
Context {K D : Type} `{!Cmp K, !New}.
Abbreviation cmd := (cmd (stree K D)).

Definition set_n_data (d : D) (n : stree_node K D) := TNode (n_key n) (Some d) (n_parent n) (n_left_child n) (n_right_sibling n).
Definition set_n_parent (p : Z) (n : stree_node K D) := TNode (n_key n) (n_data n) p (n_left_child n) (n_right_sibling n).
Definition set_n_left_child (p : Z) (n : stree_node K D) := TNode (n_key n) (n_data n) (n_parent n) p (n_right_sibling n).
Definition set_n_right_sibling (p : Z) (n : stree_node K D) := TNode (n_key n) (n_data n) (n_parent n) (n_left_child n) p.

Definition get_node (k : K) : cmd Z :=
  λ t, match m_find k (tr_nodes t) with
       | Some a => Done (a, t)
       | None =>
           let a := new_addr (dom (tr_heap t)) in
           Done (a, STree (<[a:=TNode k None NULL NULL NULL]> (tr_heap t)) (tr_root t) (m_insert k a (tr_nodes t)))
       end.

Definition set_node (k : K) (d : D) : cmd Z :=
  n ← get_node k;
  zoom (modify n (set_n_data d));;
  mret n.

Definition rightmost_child (fuel : nat) (p : Z) : cmd Z :=
  if bool_decide (p = NULL) then mret NULL else
  n ← zoom (load p);
  loop fuel (λ q,
    if bool_decide (q = NULL) then mret (inr q) else
    m ← zoom (load q);
    if bool_decide (n_right_sibling m = NULL) then mret (inr q) else mret (inl (n_right_sibling m))) (n_left_child n).

Definition add_child (fuel : nat) (p l r n : Z) : cmd () :=
  if bool_decide (p ≠ NULL) then
    if bool_decide (l ≠ NULL) && bool_decide (r ≠ NULL) then
      zoom (modify l (set_n_right_sibling n));;
      zoom (modify n (set_n_parent p));;
      zoom (modify n (set_n_right_sibling r))
    else if bool_decide (l ≠ NULL) then
      zoom (modify l (set_n_right_sibling n));;
      zoom (modify n (set_n_parent p))
    else if bool_decide (r ≠ NULL) then
      zoom (modify n (set_n_right_sibling r));;
      zoom (modify n (set_n_parent p));;
      zoom (modify p (set_n_left_child n))
    else
      rc ← rightmost_child fuel p;
      if bool_decide (rc ≠ NULL) then
        zoom (modify rc (set_n_right_sibling n));;
        zoom (modify n (set_n_parent p))
      else
        zoom (modify p (set_n_left_child n));;
        zoom (modify n (set_n_parent p))
  else λ t, Done ((), STree (tr_heap t) (Some n) (tr_nodes t)).

Definition get_node_if (h : bool * K) : cmd Z := if h.1 then get_node h.2 else mret NULL.

Definition tree_add_node (fuel : nat) (pos : stree_node_pos K) (k : K) (d : D) : cmd () :=
  n ← set_node k d;
  p ← get_node_if (pos_parent pos);
  l ← get_node_if (pos_left pos);
  r ← get_node_if (pos_right pos);
  add_child fuel p l r n.

(** The loop of build over the helper's data, in key order. *)
Fixpoint build_loop (fuel : nat) (positions : list (K * stree_node_pos K)) (data : list (K * D)) : cmd () :=
  match data with
  | [] => mret ()
  | (k, d) :: data =>
      (match m_find k positions with
       | Some pos => tree_add_node fuel pos k d
       | None => mret ()
       end);;
      build_loop fuel positions data
  end.

Definition build (fuel : nat) (helper : stree_helper K D) : cmd () :=
  build_loop fuel (hp_node_pos helper) (hp_node_data helper).

(** ** Traversals *)

Definition read_root : cmd Z := λ t, match tr_root t with Some r => Done (r, t) | None => Fault end.

(** [while (child) { vec.push_back(...); child = child->right_sibling; }]: the children are
    handed to [push] one by one. *)
Definition each_child (fuel : nat) (depth : Z) (child : Z) (push : list (Z * Z) → Z * Z → list (Z * Z))
    (acc : list (Z * Z)) : cmd (list (Z * Z)) :=
  loop fuel (λ '(child, acc),
    if bool_decide (child = NULL) then mret (inr acc) else
    m ← zoom (load child);
    mret (inl (n_right_sibling m, push acc (depth, child)))) (child, acc).

(** Moving [vec] onto the stack from its back; the top of a stack is its head. *)
Fixpoint unload (vec stack : list (Z * Z)) : list (Z * Z) :=
  match vec with
  | [] => stack
  | x :: vec => unload vec (x :: stack)
  end.

Definition depth_traversal (fuel : nat) : cmd (list (Z * Z)) :=
  root ← read_root;
  if bool_decide (root = NULL) then mret [] else
  loop fuel (λ '(stack, result),
    match stack with
    | [] => mret (inr result)
    | n :: stack =>
        m ← zoom (load n.2);
        vec ← each_child fuel (n.1 + 1) (n_left_child m) (λ vec x, x :: vec) [];
        mret (inl (unload vec stack, result ++ [n]))
    end) ([(0, root)], []).

(** The front of the queue is its head. *)
Definition breadth_traversal (fuel : nat) : cmd (list (Z * Z)) :=
  root ← read_root;
  if bool_decide (root = NULL) then mret [] else
  loop fuel (λ '(que, result),
    match que with
    | [] => mret (inr result)
    | n :: que =>
        m ← zoom (load n.2);
        que ← each_child fuel (n.1 + 1) (n_left_child m) (λ que x, que ++ [x]) que;
        mret (inl (que, result ++ [n]))
    end) ([(0, root)], []).

(** ** Printing: [show_key] and [show_data] are the types' output operators *)

Section print.
Context (show_key : K → chars) (show_data : D → chars).

Definition show_node (p : Z) : cmd chars :=
  n ← zoom (load p);
  d ← of_option (n_data n);
  mret (show_key (n_key n) ++ text ": " ++ show_data d).

Fixpoint print_depth (vec : list (Z * Z)) : cmd chars :=
  match vec with
  | [] => mret []
  | (depth, p) :: vec =>
      s ← show_node p;
      rest ← print_depth vec;
      mret (replicate (Z.to_nat (depth * 2)) " "%char ++ s ++ [LF] ++ rest)
  end.

Fixpoint print_breadth (first : bool) (depth : Z) (vec : list (Z * Z)) : cmd chars :=
  match vec with
  | [] => mret []
  | (d, p) :: vec =>
      let sep := if bool_decide (depth < d) then [LF] else if first then [] else [" "%char] in
      s ← show_node p;
      rest ← print_breadth false (if bool_decide (depth < d) then d else depth) vec;
      mret (sep ++ s ++ rest)
  end.

Definition print (fuel : nat) : cmd chars :=
  vec ← depth_traversal fuel;
  s1 ← print_depth vec;
  vec ← breadth_traversal fuel;
  s2 ← print_breadth true 0 vec;
  mret (text "***depth traversal***" ++ [LF] ++ s1 ++ text "***breadth traversal***" ++ [LF] ++ s2).

End print.

(** The destructor: [delete] of every pointer in the map; deleting what is not allocated faults. *)
Definition delete_node (p : Z) : cmd () :=
  λ t, if bool_decide (p = NULL) then Done ((), t) else
       match tr_heap t !! p with
       | Some _ => Done ((), STree (delete p (tr_heap t)) (tr_root t) (tr_nodes t))
       | None => Fault
       end.

Fixpoint delete_nodes (nodes : list (K * Z)) : cmd () :=
  match nodes with
  | [] => mret ()
  | (_, p) :: nodes => delete_node p;; delete_nodes nodes
  end.

Definition clear_root : cmd () := λ t, Done ((), STree (tr_heap t) (Some NULL) (tr_nodes t)).

Definition destroy : cmd () :=
  t ← get_state;
  delete_nodes (tr_nodes t);;
  clear_root.

End stree.

(** ** The program of cpp_console/main.cpp

    It describes a tree of sixteen named nodes to stree_helper, builds it and
    prints it.  [array_as_vector] collects its variable arguments in a vector. *)

(** [array_as_vector<T>(n, ...)]: the first [n] arguments; [None] if there are fewer. *)
Definition array_as_vector {T} (n : Z) (args : list T) : option (list T) :=
  if bool_decide (n <= Z.of_nat (length args)) then Some (take (Z.to_nat n) args) else None.

Definition node_vector : list (Z * chars) :=
  [(0, text "pgrlink"); (1, text "link init"); (2, text "link analyze"); (3, text "load aa files");
   (4, text "link model"); (5, text "link check"); (6, text "load ao files"); (7, text "sn check");
   (8, text "pm chech"); (9, text "Extraction_TypeNameLink"); (10, text "Extraction_TagNameLink");
   (11, text "Extraction_ObjectLink"); (12, text "GetAppearNodeInfotomap"); (13, text "CheckNouseObj");
   (14, text "CheckObjectUsedinParallelFunction"); (15, text "link display")].

Definition main_helper : option (stree_helper Z chars) :=
  let helper := helper_add_nodes node_vector (Helper [] []) in
  v ← array_as_vector 4 [1; 2; 5; 15]; let helper := add_pos_info 0 v helper in
  v ← array_as_vector 2 [3; 4]; let helper := add_pos_info 2 v helper in
  v ← array_as_vector 3 [6; 7; 8]; let helper := add_pos_info 5 v helper in
  v ← array_as_vector 3 [9; 10; 11]; let helper := add_pos_info 8 v helper in
  v ← array_as_vector 3 [12; 13; 14]; Some (add_pos_info 11 v helper).

Definition tree_main `{!New} (root : option Z) : outcome (chars * stree Z chars) :=
  match main_helper with
  | Some helper => (build 20 helper;; print print_int id 20) (STree ∅ root [])
  | None => Fault
  end.
