(* ===== verification/STreeWalk.v ===== *)
(** * The traversals of stree compute preorder and level order

    [forest] is the shape of a tree in first-child / right-sibling form and
    [forest_at] says that the heap holds it.  The two traversals are proved
    against recursive definitions on the shape. *)

From stdpp Require Import gmap numbers sets list sorting.
From S2P Require Import Prelude CAlloc StdText StdMap STree.

Local Open Scope Z_scope.

(** The first tree (its node and the forest of its children) and the trees to its right. *)
Inductive forest := FNil | FCons (x : Z) (children siblings : forest).

Fixpoint fsize (F : forest) : nat :=
  match F with FNil => 0 | FCons _ c s => S (fsize c + fsize s) end.

(** The trees of a forest: node and children. *)
Fixpoint trees (F : forest) : list (Z * forest) :=
  match F with FNil => [] | FCons x c s => (x, c) :: trees s end.

(** Parents before children, left before right, with depths. *)
Fixpoint preorder (d : Z) (F : forest) : list (Z * Z) :=
  match F with FNil => [] | FCons x c s => (d, x) :: preorder (d + 1) c ++ preorder d s end.

(** All nodes of one depth from left to right, then the next depth. *)
Fixpoint levels (fuel : nat) (d : Z) (L : list (Z * forest)) : list (Z * Z) :=
  match fuel with
  | O => []
  | S fuel =>
      match L with
      | [] => []
      | _ => ((λ t, (d, t.1)) <$> L) ++ levels fuel (d + 1) (concat ((λ t, trees t.2) <$> L))
      end
  end.

Fixpoint weight (L : list (Z * forest)) : nat :=
  match L with [] => 0 | t :: L => S (fsize t.2) + weight L end.

Lemma weight_app L1 L2 : weight (L1 ++ L2) = (weight L1 + weight L2)%nat.
Proof. induction L1 as [|t L1 IH]; simpl; [done|]. lia. Qed.

Lemma weight_trees F : weight (trees F) = fsize F.
Proof. induction F as [|x c _ s IH]; [done|]. simpl. lia. Qed.

Lemma weight_length L : (length L ≤ weight L)%nat.
Proof. induction L as [|t L IH]; [done|]. simpl. lia. Qed.

Lemma weight_below L : weight (concat ((λ t, trees t.2) <$> L)) = (weight L - length L)%nat.
Proof.
  induction L as [|[x c] L IH]; [done|]. csimpl. rewrite weight_app, IH, weight_trees.
  pose proof (weight_length L). simpl. lia.
Qed.

Section walk.
Context {K D : Type}.
Implicit Types (h : gmap Z (stree_node K D)) (t : stree K D).

(** [p] points to the first tree of the forest; [par] is the parent of its trees. *)
Fixpoint forest_at h (par p : Z) (F : forest) : Prop :=
  match F with
  | FNil => p = NULL
  | FCons x c s =>
      p = x ∧ x ≠ NULL ∧ ∃ n, h !! x = Some n ∧ n_parent n = par ∧
        forest_at h x (n_left_child n) c ∧ forest_at h par (n_right_sibling n) s
  end.

Definition tree_at h (par : Z) (t : Z * forest) : Prop :=
  t.1 ≠ NULL ∧ ∃ n, h !! t.1 = Some n ∧ n_parent n = par ∧ forest_at h t.1 (n_left_child n) t.2.

Lemma forest_trees h par p F : forest_at h par p F → Forall (tree_at h par) (trees F).
Proof.
  revert p. induction F as [|x c _ s IH]; intros p; simpl; [constructor|].
  intros (-> & Hx & n & Hn & Hp & Hc & Hs). constructor; [|by eapply IH]. split; [done|]. by exists n.
Qed.

(** The loop over the children hands over the roots of the forest in order. *)
Lemma wp_each_child fuel d p F h par push acc Q t :
  tr_heap t = h → forest_at h par p F → (length (trees F) < fuel)%nat →
  Q (foldl push acc ((λ x, (d, x.1)) <$> trees F)) t → wp (each_child fuel d p push acc) Q t.
Proof.
  intros Hh. revert fuel p acc. induction F as [|x c _ s IH]; intros fuel p acc HF Hf HQ;
    (destruct fuel as [|fuel]; [simpl in Hf; lia|]); apply wp_loop; simpl in HF.
  - rewrite bool_decide_true by done. by apply wp_ret, wp_ret.
  - destruct HF as (-> & Hx & n & Hn & _ & _ & Hs). rewrite bool_decide_false by done.
    apply wp_bind, wp_zoom. eapply wp_load; [simpl; by rewrite Hh|]. rewrite update_view. apply wp_ret.
    apply IH; [done|simpl in Hf; lia|]. done.
Qed.

Lemma unload_app vec stack : unload vec stack = reverse vec ++ stack.
Proof.
  revert stack. induction vec as [|x vec IH]; intros stack; simpl; [done|]. by rewrite IH, reverse_cons, <-app_assoc.
Qed.

Lemma foldl_cons (l acc : list (Z * Z)) : foldl (λ vec x, x :: vec) acc l = reverse l ++ acc.
Proof.
  revert acc. induction l as [|x l IH]; intros acc; simpl; [done|]. by rewrite IH, reverse_cons, <-app_assoc.
Qed.

Lemma foldl_snoc (l acc : list (Z * Z)) : foldl (λ que x, que ++ [x]) acc l = acc ++ l.
Proof. revert acc. induction l as [|x l IH]; intros acc; simpl; [by rewrite app_nil_r|]. by rewrite IH, <-app_assoc. Qed.

(** A subtree with its depth, as the traversals keep them. *)
Abbreviation item := (Z * (Z * forest))%type.
Definition item_at h (i : item) : Prop := ∃ par, tree_at h par i.2.
Definition item_node (i : item) : Z * Z := (i.1, i.2.1).
Definition items_below (i : item) : list item := (λ x, (i.1 + 1, x)) <$> trees i.2.2.

Lemma items_below_at h i : item_at h i → Forall (item_at h) (items_below i).
Proof.
  intros (par & Hx & n & Hn & _ & Hc). apply forest_trees in Hc. unfold items_below. apply Forall_fmap.
  eapply Forall_impl; [exact Hc|]. intros x Hx'. by exists i.2.1.
Qed.

Lemma items_below_nodes i : item_node <$> items_below i = (λ x, (i.1 + 1, x.1)) <$> trees i.2.2.
Proof. unfold items_below. by rewrite <-list_fmap_compose. Qed.

Definition items_weight (L : list item) : nat := weight L.*2.

Lemma items_below_weight i : items_weight (items_below i) = fsize i.2.2.
Proof. unfold items_weight, items_below. rewrite <-list_fmap_compose, <-weight_trees. f_equal. induction (trees i.2.2); [done|]. csimpl. by f_equal. Qed.

Lemma items_weight_cons i L : items_weight (i :: L) = (S (fsize i.2.2) + items_weight L)%nat.
Proof. done. Qed.

Lemma items_weight_app L1 L2 : items_weight (L1 ++ L2) = (items_weight L1 + items_weight L2)%nat.
Proof. unfold items_weight. by rewrite fmap_app, weight_app. Qed.

Lemma trees_length F : (length (trees F) ≤ fsize F)%nat.
Proof. rewrite <-weight_trees. apply weight_length. Qed.

(** ** Depth first *)

Definition preorder_items (L : list item) : list (Z * Z) :=
  concat ((λ i, item_node i :: preorder (i.1 + 1) i.2.2) <$> L).

Lemma preorder_trees d F : preorder d F = preorder_items ((λ x, (d, x)) <$> trees F).
Proof. induction F as [|x c _ s IH]; [done|]. unfold preorder_items in *. csimpl. by rewrite IH. Qed.

Lemma wp_depth_loop fuel0 fuel stack result Q t :
  Forall (item_at (tr_heap t)) stack → (items_weight stack < fuel)%nat → (items_weight stack < fuel0)%nat →
  Q (result ++ preorder_items stack) t →
  wp (loop fuel (λ '(stack, result),
    match stack with
    | [] => mret (inr result)
    | n :: stack =>
        m ← zoom (load n.2);
        vec ← each_child fuel0 (n.1 + 1) (n_left_child m) (λ vec x, x :: vec) [];
        mret (inl (unload vec stack, result ++ [n]))
    end) (item_node <$> stack, result)) Q t.
Proof.
  revert stack result. induction fuel as [|fuel IH]; intros stack result Hs Hf Hf0 HQ; [lia|]. apply wp_loop.
  destruct stack as [|i stack]; csimpl.
  { apply wp_ret, wp_ret. by rewrite app_nil_r in HQ. }
  apply Forall_cons in Hs as [Hi Hs]. pose proof Hi as (par & Hx & n & Hn & _ & Hc). rewrite items_weight_cons in *.
  apply wp_bind, wp_zoom. eapply wp_load; [exact Hn|]. rewrite update_view. apply wp_bind.
  pose proof (trees_length i.2.2). eapply wp_each_child; [done|exact Hc|lia|]. apply wp_ret.
  rewrite foldl_cons, app_nil_r, unload_app, reverse_involutive. rewrite <-items_below_nodes, <-fmap_app.
  apply IH.
  - apply Forall_app. split; [by apply items_below_at|done].
  - rewrite items_weight_app, items_below_weight. lia.
  - rewrite items_weight_app, items_below_weight. lia.
  - rewrite <-app_assoc. simpl. revert HQ. unfold preorder_items. csimpl. rewrite fmap_app, concat_app.
    by rewrite (preorder_trees (i.1 + 1) i.2.2).
Qed.

(** ** Breadth first *)

(** One level, kept as items. *)
Lemma levels_items lf d i (L : list item) :
  Forall (λ i, i.1 = d) (i :: L) →
  levels (S lf) d (i :: L).*2 = (item_node <$> i :: L) ++ levels lf (d + 1) (concat ((λ i, trees i.2.2) <$> i :: L)).
Proof.
  intros Hd. set (M := i :: L) in *.
  assert (levels (S lf) d M.*2 = ((λ u, (d, u.1)) <$> M.*2) ++ levels lf (d + 1) (concat ((λ u, trees u.2) <$> M.*2))) as -> by done.
  rewrite <-!list_fmap_compose. f_equal. apply list_fmap_ext. intros j x Hx. rewrite Forall_lookup in Hd.
  specialize (Hd _ _ Hx). unfold item_node. simpl in *. by rewrite Hd.
Qed.

(** [A] at depth [d] and then [B] below it. *)
Lemma wp_breadth_loop fuel0 fuel lf A B d result Q t :
  Forall (item_at (tr_heap t)) A → Forall (item_at (tr_heap t)) B →
  Forall (λ i, i.1 = d) A → Forall (λ i, i.1 = d + 1) B →
  (items_weight (A ++ B) < fuel)%nat → (items_weight (A ++ B) < fuel0)%nat → (items_weight (A ++ B) ≤ lf + length A)%nat →
  Q (result ++ (item_node <$> A) ++
     levels lf (d + 1) (B.*2 ++ concat ((λ i, trees i.2.2) <$> A))) t →
  wp (loop fuel (λ '(que, result),
    match que with
    | [] => mret (inr result)
    | n :: que =>
        m ← zoom (load n.2);
        que ← each_child fuel0 (n.1 + 1) (n_left_child m) (λ que x, que ++ [x]) que;
        mret (inl (que, result ++ [n]))
    end) (item_node <$> (A ++ B), result)) Q t.
Proof.
  revert lf A B d result. induction fuel as [|fuel IH]; intros lf A B d result HA HB HdA HdB Hf Hf0 Hlf HQ; [lia|].
  assert (∀ i A' B' lf' d' result',
    Forall (item_at (tr_heap t)) (i :: A') → Forall (item_at (tr_heap t)) B' →
    Forall (λ i, i.1 = d') (i :: A') → Forall (λ i, i.1 = d' + 1) B' →
    (items_weight ((i :: A') ++ B') < S fuel)%nat → (items_weight ((i :: A') ++ B') < fuel0)%nat →
    (items_weight ((i :: A') ++ B') ≤ lf' + length (i :: A'))%nat →
    Q (result' ++ (item_node <$> i :: A') ++
       levels lf' (d' + 1) (B'.*2 ++ concat ((λ i, trees i.2.2) <$> i :: A'))) t →
    wp (loop (S fuel) (λ '(que, result),
      match que with
      | [] => mret (inr result)
      | n :: que =>
          m ← zoom (load n.2);
          que ← each_child fuel0 (n.1 + 1) (n_left_child m) (λ que x, que ++ [x]) que;
          mret (inl (que, result ++ [n]))
      end) (item_node <$> ((i :: A') ++ B'), result')) Q t) as Hstep.
  { clear A B d result HA HB HdA HdB Hf Hf0 Hlf HQ.
    intros i A B lf' d result HA HB HdA HdB Hf Hf0 Hlf HQ. apply wp_loop. csimpl.
    apply Forall_cons in HA as [Hi HA]. apply Forall_cons in HdA as [Hd HdA].
    pose proof Hi as (par & Hx & n & Hn & _ & Hc). simpl app in *. rewrite items_weight_cons in *.
    apply wp_bind, wp_zoom. eapply wp_load; [exact Hn|]. rewrite update_view. apply wp_bind.
    pose proof (trees_length i.2.2). eapply wp_each_child; [done|exact Hc|lia|]. apply wp_ret.
    rewrite foldl_snoc, <-items_below_nodes, <-fmap_app, <-app_assoc.
    apply (IH lf' A (B ++ items_below i) d).
    - done.
    - apply Forall_app. split; [done|by apply items_below_at].
    - done.
    - apply Forall_app. split; [done|]. unfold items_below. apply Forall_fmap, Forall_forall. intros x _. simpl. by rewrite Hd.
    - rewrite !items_weight_app in *. rewrite items_below_weight. lia.
    - rewrite !items_weight_app in *. rewrite items_below_weight. lia.
    - rewrite !items_weight_app in *. rewrite items_below_weight. simpl length in *. lia.
    - revert HQ. csimpl. rewrite <-app_assoc. simpl. rewrite fmap_app, <-app_assoc.
      assert ((items_below i).*2 = trees i.2.2) as ->; [|done].
      unfold items_below. rewrite <-list_fmap_compose. apply list_fmap_id. }
  destruct A as [|i A]; [|by eapply (Hstep i A B lf d result)].
  destruct B as [|i B].
  { apply wp_loop. simpl. apply wp_ret, wp_ret. simpl in HQ. destruct lf; simpl in HQ; by rewrite app_nil_r in HQ. }
  simpl app. rewrite <-(app_nil_r (i :: B)). destruct lf as [|lf].
  { simpl app in Hlf. rewrite items_weight_cons in Hlf. simpl in Hlf. lia. }
  assert (Q (result ++ levels (S lf) (d + 1) (i :: B).*2) t) as HQ' by
    (revert HQ; change (concat ((λ i : item, trees i.2.2) <$> [])) with (@nil (Z * forest)); by rewrite (app_nil_r (i :: B).*2)).
  rewrite levels_items in HQ' by done. clear HQ. apply (Hstep i B [] lf (d + 1) result).
  - done.
  - constructor.
  - done.
  - constructor.
  - by rewrite app_nil_r.
  - by rewrite app_nil_r.
  - rewrite app_nil_r. simpl in *. lia.
  - exact HQ'.
Qed.

(** ** The two traversals *)

(** The tree in memory: the root's node, and nothing beside it. *)
Definition stree_at t (r : Z) (c : forest) : Prop := tr_root t = Some r ∧ tree_at (tr_heap t) NULL (r, c).

Lemma wp_depth_traversal fuel r c Q t :
  stree_at t r c → (fsize c + 1 < fuel)%nat → Q (preorder 0 (FCons r c FNil)) t → wp (depth_traversal fuel) Q t.
Proof.
  intros [Hr Ht] Hf HQ. unfold depth_traversal. apply wp_bind.
  eapply wp_done; [unfold read_root; by rewrite Hr|]. pose proof Ht as [Hne _]. simpl in Hne. rewrite bool_decide_false by done.
  apply (wp_depth_loop fuel fuel [(0, (r, c))]).
  - repeat constructor. by exists NULL.
  - unfold items_weight. simpl. lia.
  - unfold items_weight. simpl. lia.
  - done.
Qed.

Lemma wp_breadth_traversal fuel r c Q t :
  stree_at t r c → (fsize c + 1 < fuel)%nat → Q (levels (S (fsize c)) 0 [(r, c)]) t → wp (breadth_traversal fuel) Q t.
Proof.
  intros [Hr Ht] Hf HQ. unfold breadth_traversal. apply wp_bind.
  eapply wp_done; [unfold read_root; by rewrite Hr|]. pose proof Ht as [Hne _]. simpl in Hne. rewrite bool_decide_false by done.
  apply (wp_breadth_loop fuel fuel (fsize c) [(0, (r, c))] [] 0).
  - repeat constructor. by exists NULL.
  - constructor.
  - by repeat constructor.
  - constructor.
  - unfold items_weight. simpl. lia.
  - unfold items_weight. simpl. lia.
  - unfold items_weight. simpl. lia.
  - done.
Qed.

(** ** Level order *)

Lemma levels_depth fuel d L : Forall (λ x, d ≤ x.1) (levels fuel d L).
Proof.
  revert d L. induction fuel as [|fuel IH]; intros d L; simpl; [constructor|]. destruct L as [|u L]; [constructor|].
  apply Forall_app. split; [apply Forall_fmap, Forall_forall; intros; simpl; lia|].
  eapply Forall_impl; [apply IH|]. intros x Hx. simpl in *. lia.
Qed.

Lemma levels_sorted fuel d L : StronglySorted (λ x y : Z * Z, x.1 ≤ y.1) (levels fuel d L).
Proof.
  revert d L. induction fuel as [|fuel IH]; intros d L; simpl; [constructor|]. destruct L as [|u L]; [constructor|].
  generalize (concat ((λ u, trees u.2) <$> u :: L)) as M. intros M. generalize (u :: L) as N. intros N. clear u L.
  induction N as [|u N IHN]; csimpl; [apply IH|]. constructor; [done|]. apply Forall_app. split.
  - apply Forall_fmap, Forall_forall. intros x _. simpl. lia.
  - eapply Forall_impl; [apply levels_depth|]. intros x Hx. simpl in *. lia.
Qed.

Lemma preorder_perm fuel d L :
  (weight L ≤ fuel)%nat → levels fuel d L ≡ₚ preorder_items ((λ x, (d, x)) <$> L).
Proof.
  revert d L. induction fuel as [|fuel IH]; intros d L Hw.
  - destruct L; [done|]. simpl in Hw. lia.
  - destruct L as [|u L']; [done|]. set (L := u :: L') in *.
    assert (levels (S fuel) d L = ((λ u, (d, u.1)) <$> L) ++ levels fuel (d + 1) (concat ((λ u, trees u.2) <$> L))) as -> by done.
    rewrite IH by (rewrite weight_below; subst L; simpl in *; lia). clear. induction L as [|[x c] L IH]; [done|].
    csimpl. rewrite fmap_app. unfold preorder_items in *. csimpl. rewrite fmap_app, concat_app.
    rewrite <-IH, (preorder_trees (d + 1) c). unfold preorder_items. apply Permutation_skip.
    rewrite !app_assoc. apply Permutation_app_tail, Permutation_app_comm.
Qed.

End walk.
