(* ===== verification/STreeBuild.v ===== *)
(** * A tree described to stree_helper is the tree stree::build makes

    The description of a tree is a list of nodes and a list of (parent,
    children) entries, both in any order.  Building follows the keys in map
    order, creating nodes that are mentioned before their turn; the invariant
    says what each field holds after a set [S] of keys has been added. *)

From stdpp Require Import gmap numbers sets list.
From S2P Require Import Prelude CAlloc StdText StdMap STree STreeWalk.

Local Open Scope Z_scope.

(** Trees with keys and data, in first-child / right-sibling form. *)
Inductive kforest (K D : Type) := KNil | KCons (k : K) (d : D) (children siblings : kforest K D).
Arguments KNil {K D}.
Arguments KCons {K D} _ _ _ _.

(** The neighbourhood of a key. *)
Record kinfo (K : Type) := KInfo {
  ki_par : option K; ki_left : option K; ki_right : option K; ki_child : option K; }.
Arguments KInfo {K} _ _ _ _.
Arguments ki_par {K} _.
Arguments ki_left {K} _.
Arguments ki_right {K} _.
Arguments ki_child {K} _.

Section desc.
Context {K D : Type}.
Implicit Types (F : kforest K D).

Fixpoint kdata F : list (K * D) :=
  match F with KNil => [] | KCons k d c s => (k, d) :: kdata c ++ kdata s end.
Definition keys F : list K := (kdata F).*1.
Definition ktop F : option K := match F with KNil => None | KCons k _ _ _ => Some k end.
Fixpoint ktops F : list K := match F with KNil => [] | KCons k _ _ s => k :: ktops s end.

(** The entries that describe a forest: every node with its children. *)
Fixpoint kids F : list (K * list K) :=
  match F with KNil => [] | KCons k _ c s => (k, ktops c) :: kids c ++ kids s end.

Fixpoint info (par left : option K) F : list (K * kinfo K) :=
  match F with
  | KNil => []
  | KCons k _ c s => (k, KInfo par left (ktop s) (ktop c)) :: info (Some k) None c ++ info par (Some k) s
  end.

Lemma info_keys par left F : (info par left F).*1 = keys F.
Proof.
  revert par left. induction F as [|k d c IHc s IHs]; intros par left; [done|]. unfold keys in *. csimpl.
  by rewrite !fmap_app, IHc, IHs.
Qed.

Lemma ktops_head F : head (ktops F) = ktop F.
Proof. by destruct F. Qed.

(** How the neighbours see each other. *)
Lemma info_top par left F k : ktop F = Some k → ∃ i, (k, i) ∈ info par left F ∧ ki_par i = par ∧ ki_left i = left.
Proof. destruct F as [|k' d c s]; [done|]. intros [= ->]. eexists. split; [apply elem_of_cons; by left|done]. Qed.

Lemma info_right par left F k i r :
  (k, i) ∈ info par left F → ki_right i = Some r →
  ∃ j, (r, j) ∈ info par left F ∧ ki_left j = Some k ∧ ki_par j = ki_par i.
Proof.
  revert par left. induction F as [|k' d c IHc s IHs]; intros par left; simpl; [by intros ?%elem_of_nil|].
  rewrite elem_of_cons, elem_of_app. intros [[= -> ->]|[Hin|Hin]] Hr.
  - simpl in Hr. destruct (info_top par (Some k') s r Hr) as (j & Hj & H1 & H2). exists j.
    split; [|done]. apply elem_of_cons. right. apply elem_of_app. by right.
  - destruct (IHc _ _ Hin Hr) as (j & Hj & H). exists j. split; [|done]. apply elem_of_cons. right. apply elem_of_app. by left.
  - destruct (IHs _ _ Hin Hr) as (j & Hj & H). exists j. split; [|done]. apply elem_of_cons. right. apply elem_of_app. by right.
Qed.

Lemma info_child par left F k i c :
  (k, i) ∈ info par left F → ki_child i = Some c →
  ∃ j, (c, j) ∈ info par left F ∧ ki_par j = Some k ∧ ki_left j = None.
Proof.
  revert par left. induction F as [|k' d c' IHc s IHs]; intros par left; simpl; [by intros ?%elem_of_nil|].
  rewrite elem_of_cons, elem_of_app. intros [[= -> ->]|[Hin|Hin]] Hr.
  - simpl in Hr. destruct (info_top (Some k') None c' c Hr) as (j & Hj & H1 & H2). exists j.
    split; [|done]. apply elem_of_cons. right. apply elem_of_app. by left.
  - destruct (IHc _ _ Hin Hr) as (j & Hj & H). exists j. split; [|done]. apply elem_of_cons. right. apply elem_of_app. by left.
  - destruct (IHs _ _ Hin Hr) as (j & Hj & H). exists j. split; [|done]. apply elem_of_cons. right. apply elem_of_app. by right.
Qed.

(** A left neighbour is the one given from outside or has this key at its right. *)
Lemma info_left par left F k i l :
  (k, i) ∈ info par left F → ki_left i = Some l →
  (left = Some l ∧ ktop F = Some k ∧ ki_par i = par) ∨
  ∃ j, (l, j) ∈ info par left F ∧ ki_right j = Some k ∧ ki_par j = ki_par i.
Proof.
  revert par left. induction F as [|k' d c IHc s IHs]; intros par left; simpl; [by intros ?%elem_of_nil|].
  rewrite elem_of_cons, elem_of_app. intros [[= -> ->]|[Hin|Hin]] Hl.
  - simpl in Hl. by left.
  - right. destruct (IHc _ _ Hin Hl) as [(? & _)|(j & Hj & H)]; [done|]. exists j. split; [|done].
    apply elem_of_cons. right. apply elem_of_app. by left.
  - right. destruct (IHs _ _ Hin Hl) as [([= ->] & Htop & Hp)|(j & Hj & H)].
    + eexists. split; [apply elem_of_cons; by left|]. simpl. split; [done|by rewrite Hp].
    + exists j. split; [|done]. apply elem_of_cons. right. apply elem_of_app. by right.
Qed.

Lemma info_par par left F k i p :
  (k, i) ∈ info par left F → ki_par i = Some p →
  (par = Some p ∧ (ki_left i = None → left = None ∧ ktop F = Some k)) ∨
  ∃ j, (p, j) ∈ info par left F ∧ (ki_left i = None → ki_child j = Some k).
Proof.
  revert par left. induction F as [|k' d c IHc s IHs]; intros par left; simpl; [by intros ?%elem_of_nil|].
  rewrite elem_of_cons, elem_of_app. intros [[= -> ->]|[Hin|Hin]] Hp.
  - by left.
  - right. destruct (IHc _ _ Hin Hp) as [[[= ->] Htop]|(j & Hj & H)].
    + eexists. split; [apply elem_of_cons; by left|]. simpl. intros Hn. by apply Htop.
    + exists j. split; [|done]. apply elem_of_cons. right. apply elem_of_app. by left.
  - destruct (IHs _ _ Hin Hp) as [[Hpar Htop]|(j & Hj & H)].
    + left. split; [done|]. intros Hn. by destruct (Htop Hn).
    + right. exists j. split; [|done]. apply elem_of_cons. right. apply elem_of_app. by right.
Qed.

(** A node without parent is a top node. *)
Lemma info_no_par par left F k i :
  (k, i) ∈ info par left F → ki_par i = None → par = None ∧ k ∈ ktops F.
Proof.
  revert par left. induction F as [|k' d c IHc s IHs]; intros par left; simpl; [by intros ?%elem_of_nil|].
  rewrite elem_of_cons, elem_of_app. intros [[= -> ->]|[Hin|Hin]] Hp.
  - split; [done|]. apply elem_of_cons. by left.
  - by destruct (IHc _ _ Hin Hp).
  - destruct (IHs _ _ Hin Hp). split; [done|]. apply elem_of_cons. by right.
Qed.

End desc.

(** ** What the helper knows after all entries *)

Section helper.
Context {K D : Type} `{!Cmp K, !CmpOk K, !Inhabited K, !EqDecision K}.
Implicit Types (F : kforest K D).

Definition flag (o : option K) : bool * K := match o with Some k => (true, k) | None => (false, inhabitant) end.
Definition mk_pos (i : kinfo K) : stree_node_pos K := NodePos (flag (ki_par i)) (flag (ki_left i)) (flag (ki_right i)).

(** The positions one entry gives its children. *)
Fixpoint child_pos (p : K) (left : option K) (vec : list K) : list (K * stree_node_pos K) :=
  match vec with
  | [] => []
  | k :: vec => (k, mk_pos (KInfo (Some p) left (head vec) None)) :: child_pos p (Some k) vec
  end.

Definition entries_pos (es : list (K * list K)) : list (K * stree_node_pos K) :=
  concat ((λ e, child_pos e.1 None e.2) <$> es).

Lemma child_pos_keys p left vec : (child_pos p left vec).*1 = vec.
Proof. revert left. induction vec as [|k vec IH]; intros left; [done|]. csimpl. by rewrite IH. Qed.

Definition insert_all {V} (m : list (K * V)) (l : list (K * V)) : list (K * V) :=
  foldl (λ (m : list (K * V)) e, m_insert e.1 e.2 m) m l.

Lemma add_pos_loop_foldl p left vec m :
  add_pos_loop p left vec m = insert_all m (child_pos p left vec).
Proof. revert left m. induction vec as [|k vec IH]; intros left m; [done|]. simpl. rewrite IH. by destruct left, vec. Qed.

Lemma foldl_insert_sorted {V} (l : list (K * V)) (m : list (K * V)) :
  m_sorted m → m_sorted (insert_all m l).
Proof. revert m. induction l as [|e l IH]; intros m Hm; [done|]. simpl. by apply IH, m_insert_sorted. Qed.

Lemma foldl_insert_find {V} (l : list (K * V)) (m : list (K * V)) k :
  m_sorted m → NoDup l.*1 →
  (∀ v, (k, v) ∈ l → m_find k (insert_all m l) = Some v) ∧
  (k ∉ l.*1 → m_find k (insert_all m l) = m_find k m).
Proof.
  revert m. induction l as [|[k' v'] l IH]; intros m Hm Hnd; [split; [by intros v ?%elem_of_nil|done]|]. csimpl in *.
  apply NoDup_cons in Hnd as [Hk' Hnd]. destruct (IH (m_insert k' v' m)) as [H1 H2]; [by apply m_insert_sorted|done|]. split.
  - intros v [[= -> ->]|Hin]%elem_of_cons; [|by apply H1]. rewrite H2 by done. by apply m_find_insert_eq.
  - intros [Hne Hin]%not_elem_of_cons. rewrite H2 by done. by apply m_find_insert_ne.
Qed.

(** All entries together, starting from no positions. *)
Definition describe (es : list (K * list K)) (hp : stree_helper K D) : stree_helper K D :=
  foldl (λ hp e, add_pos_info e.1 e.2 hp) hp es.

Lemma describe_data es hp : hp_node_data (describe es hp) = hp_node_data hp.
Proof. revert hp. induction es as [|[p [|x vec]] es IH]; intros hp; [done|..]; simpl; by rewrite IH. Qed.

Lemma describe_spec es (hp : stree_helper K D) :
  hp_node_pos hp = [] → NoDup (entries_pos es).*1 →
  m_sorted (hp_node_pos (describe es hp)) ∧ ∀ k,
    (∀ v, (k, v) ∈ entries_pos es → m_find k (hp_node_pos (describe es hp)) = Some v) ∧
    (k ∉ (entries_pos es).*1 →
       m_find k (hp_node_pos (describe es hp)) =
       if decide (Exists (λ e, e.1 = k ∧ e.2 ≠ []) es) then Some node_pos else None).
Proof.
  intros Hhp. induction es as [|[p vec] es IH] using rev_ind; intros Hnd.
  - simpl. rewrite Hhp. split; [constructor|]. intros k. split; [by intros v ?%elem_of_nil|]. done.
  - unfold describe. rewrite foldl_app. fold (describe es hp). simpl.
    assert (entries_pos (es ++ [(p, vec)]) = entries_pos es ++ child_pos p None vec) as Hsplit.
    { unfold entries_pos. rewrite fmap_app, concat_app. csimpl. by rewrite app_nil_r. }
    rewrite Hsplit, fmap_app in Hnd. apply NoDup_app in Hnd as (Hnd1 & Hdisj & Hnd2).
    destruct (IH Hnd1) as [Hs Hfind]. set (m := hp_node_pos (describe es hp)) in *.
    set (m1 := if bool_decide (m_count p m = 0) then m_insert p node_pos m else m).
    assert (m_sorted m1) as Hs1 by (unfold m1; case_bool_decide; [by apply m_insert_sorted|done]).
    assert (∀ k, m_find k m1 = match m_find k m with
                               | Some v => Some v
                               | None => if decide (k = p) then Some node_pos else None end) as Hm1.
    { intros k. unfold m1, m_count. destruct (decide (k = p)) as [->|Hne].
      - destruct (m_find p m) as [v|] eqn:Hp; simpl; [by rewrite Hp|]. by rewrite m_find_insert_eq.
      - destruct (m_find p m); simpl; [by destruct (m_find k m)|]. rewrite m_find_insert_ne by done. by destruct (m_find k m). }
    assert (hp_node_pos (add_pos_info p vec (describe es hp)) =
      match vec with [] => m | _ => insert_all m1 (child_pos p None vec) end) as ->.
    { destruct vec as [|x vec]; [done|]. exact (add_pos_loop_foldl p None (x :: vec) m1). }
    destruct vec as [|x vec].
    { split; [done|]. intros k. rewrite Hsplit. csimpl. rewrite app_nil_r. destruct (Hfind k) as [H1 H2]. split; [done|].
      intros Hk. rewrite H2 by done. apply decide_ext.
      rewrite Exists_app, Exists_cons, Exists_nil. simpl. naive_solver. }
    split; [by apply foldl_insert_sorted|]. intros k. rewrite Hsplit, fmap_app.
    destruct (foldl_insert_find (child_pos p None (x :: vec)) m1 k Hs1 Hnd2) as [Hin Hout]. destruct (Hfind k) as [H1 H2]. split.
    + intros v [Hv|Hv]%elem_of_app; [|by apply Hin]. rewrite Hout, Hm1, (H1 v Hv); [done|].
      apply Hdisj. apply list_elem_of_fmap. by exists (k, v).
    + intros [Hk1 Hk2]%not_elem_of_app. rewrite Hout, Hm1, H2 by done. destruct (decide (k = p)) as [->|Hne].
      * rewrite (decide_True (P := Exists _ (es ++ _))); [by case_decide|].
        rewrite Exists_app, Exists_cons. right. by left.
      * rewrite (decide_ext (Exists (λ e, e.1 = k ∧ e.2 ≠ []) (es ++ [(p, x :: vec)])) (Exists (λ e, e.1 = k ∧ e.2 ≠ []) es));
          [by case_decide|]. rewrite Exists_app, Exists_cons, Exists_nil. simpl. naive_solver.
Qed.

End helper.
