(* ===== verification/STreeMake.v ===== *)
(** * stree::build, key by key

    [rep] ties the heap to an abstract store of nodes that point to keys;
    [store S] is the store after the keys in [S] have been added, and
    tree_add_node takes [store S] to [store (k :: S)]. *)

From stdpp Require Import gmap numbers sets list.
From S2P Require Import Prelude CAlloc StdText StdMap STree STreeWalk STreeBuild.

Local Open Scope Z_scope.

(** A node as the tree means it: its neighbours by key. *)
Record anode (K D : Type) := ANode {
  an_data : option D; an_par : option K; an_child : option K; an_right : option K; }.
Arguments ANode {K D} _ _ _ _.
Arguments an_data {K D} _.
Arguments an_par {K D} _.
Arguments an_child {K D} _.
Arguments an_right {K D} _.

Section make.
Context {K D : Type} `{!Cmp K, !CmpOk K, !EqDecision K, NW : !New}.
Implicit Types (t : stree K D) (A : K → anode K D).

Definition addr (m : list (K * Z)) (o : option K) : Z :=
  match o with Some k => default NULL (m_find k m) | None => NULL end.

Definition enc (m : list (K * Z)) (k : K) (n : anode K D) : stree_node K D :=
  TNode k (an_data n) (addr m (an_par n)) (addr m (an_child n)) (addr m (an_right n)).

Definition known (m : list (K * Z)) (o : option K) : Prop := ∀ k, o = Some k → is_Some (m_find k m).

Record rep t A : Prop := {
  rp_sorted : m_sorted (tr_nodes t);
  rp_node : ∀ k a, m_find k (tr_nodes t) = Some a → a ≠ NULL ∧ tr_heap t !! a = Some (enc (tr_nodes t) k (A k));
  rp_inj : ∀ k k' a, m_find k (tr_nodes t) = Some a → m_find k' (tr_nodes t) = Some a → k = k';
  rp_known : ∀ k a, m_find k (tr_nodes t) = Some a →
    known (tr_nodes t) (an_par (A k)) ∧ known (tr_nodes t) (an_child (A k)) ∧ known (tr_nodes t) (an_right (A k));
  rp_dom : ∀ a, is_Some (tr_heap t !! a) → ∃ k, m_find k (tr_nodes t) = Some a;
}.

Definition blank : anode K D := ANode None None None None.

Definition put (k : K) (n : anode K D) A : K → anode K D := λ x, if decide (x = k) then n else A x.

Lemma trep_ext t A A' : rep t A → (∀ k a, m_find k (tr_nodes t) = Some a → A' k = A k) → rep t A'.
Proof.
  intros [Hs Hn Hi Hk Hdom] Heq. constructor; [done| |done| |done].
  - intros k a Hf. rewrite (Heq _ _ Hf). by apply Hn.
  - intros k a Hf. rewrite (Heq _ _ Hf). by eapply Hk.
Qed.

(** get_node: a node that is not there yet is made, blank. *)
Lemma wp_tree_get_node k A Q t :
  rep t A → (m_find k (tr_nodes t) = None → A k = blank) →
  (∀ t' a, rep t' A → tr_root t' = tr_root t → m_find k (tr_nodes t') = Some a →
     (∀ x b, m_find x (tr_nodes t) = Some b → m_find x (tr_nodes t') = Some b) →
     (∀ x b, m_find x (tr_nodes t') = Some b → x ≠ k → m_find x (tr_nodes t) = Some b) → Q a t') →
  wp (get_node k) Q t.
Proof.
  intros [Hs Hn Hi Hk Hdom] Hblank HQ. unfold get_node, wp. destruct (m_find k (tr_nodes t)) as [a|] eqn:Hf.
  { exists a, t. split; [done|]. by apply HQ. }
  set (a := new_addr (dom (tr_heap t))). eexists a, _. split; [done|].
  assert (a ∉ dom (tr_heap t)) as Hfresh by apply new_addr_fresh. apply not_elem_of_dom in Hfresh.
  assert (∀ x b, m_find x (tr_nodes t) = Some b → m_find x (m_insert k a (tr_nodes t)) = Some b) as Hkeep.
  { intros x b Hx. rewrite m_find_insert_ne; [done|done|]. intros ->. congruence. }
  assert (∀ o, known (tr_nodes t) o → known (m_insert k a (tr_nodes t)) o ∧ addr (m_insert k a (tr_nodes t)) o = addr (tr_nodes t) o) as Ho.
  { intros [x|] Hx; [|done]. destruct (Hx x eq_refl) as [b Hb]. split; [intros y [= <-]; rewrite (Hkeep _ _ Hb); by eexists|].
    simpl. by rewrite (Hkeep _ _ Hb), Hb. }
  assert (∀ x b, m_find x (m_insert k a (tr_nodes t)) = Some b → (x = k ∧ b = a) ∨ (x ≠ k ∧ m_find x (tr_nodes t) = Some b)) as Hinv.
  { intros x b. destruct (decide (x = k)) as [->|Hne].
    - rewrite m_find_insert_eq by done. intros [= <-]. by left.
    - rewrite m_find_insert_ne by done. by right. }
  specialize (Hblank eq_refl). apply HQ; simpl; [|done|by apply m_find_insert_eq|done|].
  - constructor; simpl.
    + by apply m_insert_sorted.
    + intros x b [[-> ->]|[Hne Hx]]%Hinv.
      * split; [apply new_addr_nonnull|]. rewrite lookup_insert_eq, Hblank. done.
      * destruct (Hn _ _ Hx) as [Hb Hh]. split; [done|]. rewrite lookup_insert_ne by congruence. rewrite Hh.
        destruct (Hk _ _ Hx) as (H1 & H2 & H3). unfold enc. by rewrite (proj2 (Ho _ H1)), (proj2 (Ho _ H2)), (proj2 (Ho _ H3)).
    + intros x y b [[-> ->]|[Hne Hx]]%Hinv [[-> Hb]|[Hne' Hy]]%Hinv; [done| | |by eapply Hi].
      * destruct (Hn _ _ Hy) as [_ Hh]. congruence.
      * subst b. destruct (Hn _ _ Hx) as [_ Hh]. congruence.
    + intros x b [[-> ->]|[Hne Hx]]%Hinv; [by rewrite Hblank|]. destruct (Hk _ _ Hx) as (H1 & H2 & H3).
      split_and!; by apply Ho.
    + intros b [Hb|[_ Hb]]%lookup_insert_is_Some; [exists k; subst b; by apply m_find_insert_eq|].
      destruct (Hdom b Hb) as [x Hx]. exists x. by apply Hkeep.
  - intros x b [[-> ->]|[Hne Hx]]%Hinv Hne'; done.
Qed.

(** A store through the address of a key. *)
Lemma wp_modify_key k a f n' A Q t :
  rep t A → m_find k (tr_nodes t) = Some a →
  f (enc (tr_nodes t) k (A k)) = enc (tr_nodes t) k n' →
  known (tr_nodes t) (an_par n') → known (tr_nodes t) (an_child n') → known (tr_nodes t) (an_right n') →
  (∀ t', rep t' (put k n' A) → tr_root t' = tr_root t → tr_nodes t' = tr_nodes t → Q () t') →
  wp (zoom (modify a f)) Q t.
Proof.
  intros [Hs Hn Hi Hk Hdom] Hf Henc K1 K2 K3 HQ. destruct (Hn _ _ Hf) as [Ha Hh]. apply wp_zoom. eapply wp_modify; [exact Hh|].
  rewrite Henc. apply HQ; [|done|done]. constructor; simpl; [done| |done| |].
  - intros x b Hx. unfold put. destruct (decide (x = k)) as [->|Hne].
    + rewrite Hf in Hx. simplify_eq. by rewrite lookup_insert_eq.
    + destruct (Hn _ _ Hx) as [Hb Hhb]. split; [done|]. rewrite lookup_insert_ne; [done|]. intros ->. by apply Hne, (Hi x k b).
  - intros x b Hx. unfold put. case_decide; [done|]. by eapply Hk.
  - intros b [Hb|[_ Hb]]%lookup_insert_is_Some; [exists k; by subst b|by apply Hdom].
Qed.

(** ** The store after a set of keys *)

Context (Ks : list K) (I : K → kinfo K) (r0 : K) (dat : K → D).

(** The neighbourhoods of the keys of one tree with the root [r0]. *)
Record neighbours : Prop := {
  nb_right : ∀ k r, k ∈ Ks → ki_right (I k) = Some r → r ∈ Ks ∧ ki_left (I r) = Some k;
  nb_left : ∀ k l, k ∈ Ks → ki_left (I k) = Some l → l ∈ Ks ∧ ki_right (I l) = Some k;
  nb_child : ∀ k c, k ∈ Ks → ki_child (I k) = Some c → c ∈ Ks ∧ ki_par (I c) = Some k ∧ ki_left (I c) = None;
  nb_par : ∀ k p, k ∈ Ks → ki_par (I k) = Some p → p ∈ Ks ∧ (ki_left (I k) = None → ki_child (I p) = Some k);
  nb_root : ∀ k, k ∈ Ks → ki_par (I k) = None → k = r0 ∧ ki_left (I k) = None ∧ ki_right (I k) = None;
  nb_root_par : ki_par (I r0) = None;
}.

Context (NB : neighbours).

Definition store (S : list K) (k : K) : anode K D :=
  ANode (if decide (k ∈ S) then Some (dat k) else None)
    (if decide (k ∈ S) then ki_par (I k) else None)
    (c ← ki_child (I k); if decide (c ∈ S) then Some c else None)
    (r ← ki_right (I k); if decide (k ∈ S ∨ r ∈ S) then Some r else None).

(** What adding [n] changes. *)
Lemma store_step S n x : n ∈ Ks → x ∈ Ks →
  store (n :: S) x =
  ANode (if decide (x = n) then Some (dat n) else an_data (store S x))
    (if decide (x = n) then ki_par (I n) else an_par (store S x))
    (if decide (ki_left (I n) = None ∧ ki_par (I n) = Some x) then Some n else an_child (store S x))
    (if decide (ki_left (I n) = Some x) then Some n
     else if decide (x = n) then ki_right (I n) else an_right (store S x)).
Proof using All.
  intros Hn Hx. unfold store. simpl. f_equal.
  - destruct (decide (x = n)) as [->|Hne]; [by rewrite decide_True by set_solver|].
    rewrite (decide_ext (x ∈ n :: S) (x ∈ S)) by set_solver. done.
  - destruct (decide (x = n)) as [->|Hne]; [by rewrite decide_True by set_solver|].
    rewrite (decide_ext (x ∈ n :: S) (x ∈ S)) by set_solver. done.
  - destruct (decide (ki_left (I n) = None ∧ ki_par (I n) = Some x)) as [[Hl Hp]|Hno].
    + destruct (nb_par NB n x Hn Hp) as [_ Hc]. rewrite (Hc Hl). simpl. by rewrite decide_True by set_solver.
    + destruct (ki_child (I x)) as [c|] eqn:Hc; [|done]. simpl. destruct (nb_child NB x c Hx Hc) as (_ & H1 & H2).
      rewrite (decide_ext (c ∈ n :: S) (c ∈ S)); [done|]. rewrite elem_of_cons. split; [|by right].
      intros [->|?]; [|done]. by destruct Hno.
  - destruct (decide (ki_left (I n) = Some x)) as [Hl|Hno].
    + destruct (nb_left NB n x Hn Hl) as [_ Hr]. rewrite Hr. simpl. by rewrite decide_True by set_solver.
    + destruct (decide (x = n)) as [->|Hne].
      * destruct (ki_right (I n)) as [r|]; [|done]. simpl. by rewrite decide_True by set_solver.
      * destruct (ki_right (I x)) as [r|] eqn:Hr; [|done]. simpl. destruct (nb_right NB x r Hx Hr) as [_ H1].
        rewrite (decide_ext (x ∈ n :: S ∨ r ∈ n :: S) (x ∈ S ∨ r ∈ S)); [done|]. rewrite !elem_of_cons.
        split; [|tauto]. intros [[?|?]|[->|?]]; [done|tauto|by destruct Hno|tauto].
Qed.

(** The tree after the keys [S]: nodes are there for them and their neighbours only. *)
Record built (S : list K) t : Prop := {
  bt_rep : rep t (store S);
  bt_keys : ∀ k a, m_find k (tr_nodes t) = Some a → k ∈ Ks;
  bt_done : ∀ k, k ∈ S → k ∈ Ks ∧ is_Some (m_find k (tr_nodes t)) ∧ known (tr_nodes t) (ki_par (I k)) ∧
    known (tr_nodes t) (ki_left (I k)) ∧ known (tr_nodes t) (ki_right (I k));
  bt_root : r0 ∈ S → tr_root t = m_find r0 (tr_nodes t);
}.

Lemma store_blank S t k : built S t → k ∈ Ks → m_find k (tr_nodes t) = None → store S k = blank.
Proof using All.
  intros [_ _ Hd _] Hk Hf. unfold store, blank.
  assert (∀ o x, known (tr_nodes t) o → o = Some x → x ≠ k) as Hkn.
  { intros o x Ho Hx ->. destruct (Ho k Hx) as [b Hb]. congruence. }
  assert (k ∉ S) as HkS. { intros HS. destruct (Hd k HS) as (_ & [b Hb] & _). congruence. }
  rewrite !(decide_False (P := k ∈ S)) by done. f_equal.
  - destruct (ki_child (I k)) as [c|] eqn:Hc; [|done]. simpl. destruct (nb_child NB k c Hk Hc) as (_ & Hp & _).
    rewrite decide_False; [done|]. intros HS. destruct (Hd c HS) as (_ & _ & H1 & _). by apply (Hkn _ k H1).
  - destruct (ki_right (I k)) as [r|] eqn:Hr; [|done]. simpl. destruct (nb_right NB k r Hk Hr) as (_ & Hl).
    rewrite decide_False; [done|]. intros [HS|HS]; [done|]. destruct (Hd r HS) as (_ & _ & _ & H1 & _). by apply (Hkn _ k H1).
Qed.

(** Between two trees with more and more nodes. *)
Record grows t t' : Prop := {
  gr_root : tr_root t' = tr_root t;
  gr_keep : ∀ x b, m_find x (tr_nodes t) = Some b → m_find x (tr_nodes t') = Some b;
  gr_new : ∀ x b, m_find x (tr_nodes t') = Some b → is_Some (m_find x (tr_nodes t)) ∨ x ∈ Ks;
}.

Lemma grows_refl t : grows t t.
Proof using All. constructor; [done|done|]. intros x b Hx. left. by eexists. Qed.

Lemma grows_trans t1 t2 t3 : grows t1 t2 → grows t2 t3 → grows t1 t3.
Proof using All.
  intros [R1 K1 N1] [R2 K2 N2]. constructor; [congruence|by auto|].
  intros x b Hx. destruct (N2 _ _ Hx) as [[b' Hb]|Hin]; [|by right]. by eapply N1.
Qed.

Lemma grows_known t t' o : grows t t' → known (tr_nodes t) o → known (tr_nodes t') o ∧ addr (tr_nodes t') o = addr (tr_nodes t) o.
Proof using All.
  intros G Hk. destruct o as [k|]; [|done]. destruct (Hk k eq_refl) as [b Hb].
  split; [intros x [= <-]; rewrite (gr_keep _ _ G _ _ Hb); by eexists|]. simpl. by rewrite (gr_keep _ _ G _ _ Hb), Hb.
Qed.

Lemma wp_get_node_if `{!Inhabited K} o A Q t :
  rep t A → (∀ k, o = Some k → k ∈ Ks ∧ (m_find k (tr_nodes t) = None → A k = blank)) →
  (∀ t', rep t' A → grows t t' → known (tr_nodes t') o → Q (addr (tr_nodes t') o) t') →
  wp (get_node_if (flag o)) Q t.
Proof using All.
  intros Hr Ho HQ. unfold get_node_if. destruct o as [k|]; simpl.
  - destruct (Ho k eq_refl) as [Hk Hb]. eapply wp_tree_get_node; [done|done|]. intros t' a Hr' Hroot Ha Hkeep Hnew.
    specialize (HQ t' Hr'). simpl in HQ. rewrite Ha in HQ. apply HQ.
    + constructor; [done|done|]. intros x b Hx. destruct (decide (x = k)) as [->|Hne]; [by right|]. left. by eexists; apply Hnew.
    + intros x [= <-]. rewrite Ha. by eexists.
  - apply wp_ret, HQ; [done|apply grows_refl|done].
Qed.

(** ** Field stores by key *)

Definition with_data (d : D) (n : anode K D) := ANode (Some d) (an_par n) (an_child n) (an_right n).
Definition with_par (k : K) (n : anode K D) := ANode (an_data n) (Some k) (an_child n) (an_right n).
Definition with_child (k : K) (n : anode K D) := ANode (an_data n) (an_par n) (Some k) (an_right n).
Definition with_right (k : K) (n : anode K D) := ANode (an_data n) (an_par n) (an_child n) (Some k).

(** One assignment to a field of the node of [k]. *)
Inductive field_set (m : list (K * Z)) : (stree_node K D → stree_node K D) → (anode K D → anode K D) → Prop :=
| fs_data d : field_set m (set_n_data d) (with_data d)
| fs_par x b : m_find x m = Some b → field_set m (set_n_parent b) (with_par x)
| fs_child x b : m_find x m = Some b → field_set m (set_n_left_child b) (with_child x)
| fs_right x b : m_find x m = Some b → field_set m (set_n_right_sibling b) (with_right x).

Lemma wp_set_field k a f g A Q t :
  rep t A → m_find k (tr_nodes t) = Some a → field_set (tr_nodes t) f g →
  (∀ t', rep t' (put k (g (A k)) A) → tr_root t' = tr_root t → tr_nodes t' = tr_nodes t → Q () t') →
  wp (zoom (modify a f)) Q t.
Proof using All.
  intros Hr Ha Hfs HQ. destruct (rp_known _ _ Hr _ _ Ha) as (K1 & K2 & K3).
  eapply (wp_modify_key k a f (g (A k))); [done|done| | | | |exact HQ]; destruct Hfs as [d|x b Hx|x b Hx|x b Hx]; simpl; try done.
  1-3: unfold enc; simpl; by rewrite Hx.
  all: intros y [= <-]; rewrite Hx; by eexists.
Qed.

(** ** The four ways to hang a node into the tree *)

Section step.
Context (S : list K) (n : K) (Hn : n ∈ Ks) (HnS : n ∉ S).

(** The store with the data of [n], which set_node has written. *)
Definition start : K → anode K D := put n (with_data (dat n) (store S n)) (store S).

Context (p : K) (Hp : ki_par (I n) = Some p).

Ltac hang_cases :=
  rewrite store_step by done; unfold put, start, put, with_data, with_right, with_par, with_child;
  repeat case_decide; destruct_and?; simplify_eq; simpl; try done; try (by match goal with
    | H : ki_left (I ?x) = Some ?x |- _ => destruct (nb_left NB x x ltac:(done) H); congruence
    end); repeat match goal with H : ki_right (I _) = _ |- context [ki_right _] => rewrite H end; simpl; try congruence;
  try naive_solver.

Lemma hang_both l r x :
  ki_left (I n) = Some l → ki_right (I n) = Some r → x ∈ Ks →
  let A1 := put l (with_right n (start l)) start in
  let A2 := put n (with_par p (A1 n)) A1 in
  let A3 := put n (with_right r (A2 n)) A2 in
  A3 x = store (n :: S) x.
Proof using All. intros Hl Hr Hx A1 A2 A3. unfold A3, A2, A1. hang_cases. Qed.

Lemma hang_left l x :
  ki_left (I n) = Some l → ki_right (I n) = None → x ∈ Ks →
  let A1 := put l (with_right n (start l)) start in
  let A2 := put n (with_par p (A1 n)) A1 in
  A2 x = store (n :: S) x.
Proof using All. intros Hl Hr Hx A1 A2. unfold A2, A1. hang_cases. Qed.

Lemma hang_right r x :
  ki_left (I n) = None → ki_right (I n) = Some r → x ∈ Ks →
  let A1 := put n (with_right r (start n)) start in
  let A2 := put n (with_par p (A1 n)) A1 in
  let A3 := put p (with_child n (A2 p)) A2 in
  A3 x = store (n :: S) x.
Proof using All. intros Hl Hr Hx A1 A2 A3. unfold A3, A2, A1. hang_cases. Qed.

Lemma hang_only x :
  ki_left (I n) = None → ki_right (I n) = None → x ∈ Ks →
  let A1 := put p (with_child n (start p)) start in
  let A2 := put n (with_par p (A1 n)) A1 in
  A2 x = store (n :: S) x.
Proof using All. intros Hl Hr Hx A1 A2. unfold A2, A1. hang_cases. Qed.

End step.

(** ** One call of add_node *)

Lemma wp_add_child fuel S n pn p l r A Q t :
  n ∈ Ks → n ∉ S → rep t A → (∀ x, A x = start S n x) →
  p = ki_par (I n) → l = ki_left (I n) → r = ki_right (I n) →
  known (tr_nodes t) p → known (tr_nodes t) l → known (tr_nodes t) r → m_find n (tr_nodes t) = Some pn →
  (∀ k a, m_find k (tr_nodes t) = Some a → k ∈ Ks) →
  (∀ t', rep t' (store (n :: S)) → tr_nodes t' = tr_nodes t →
     tr_root t' = (if decide (p = None) then Some pn else tr_root t) → Q () t') →
  wp (add_child (Datatypes.S fuel) (addr (tr_nodes t) p) (addr (tr_nodes t) l) (addr (tr_nodes t) r) pn) Q t.
Proof using All.
  intros Hn HnS Hr HA Hp Hl Hri Kp Kl Kr Hpn Hkeys HQ. unfold add_child.
  assert (∀ k a, m_find k (tr_nodes t) = Some a → a ≠ NULL) as Hnn by (intros k a Ha; by apply (rp_node _ _ Hr k a)).
  assert (∀ t' A', rep t' A' → tr_nodes t' = tr_nodes t → (∀ x, x ∈ Ks → A' x = store (n :: S) x) → rep t' (store (n :: S))) as Hfin.
  { intros t' A' Hr' Hm Heq. eapply trep_ext; [exact Hr'|]. intros k a Hk. rewrite Hm in Hk. symmetry. by eapply Heq, Hkeys. }
  assert (rep t (start S n)) as Hr0 by (by eapply trep_ext).
  destruct p as [p|]; simpl addr.
  2: { rewrite bool_decide_false by (intros Hx; by apply Hx). destruct (nb_root NB n Hn (eq_sym Hp)) as (-> & H1 & H2).
    eapply wp_done; [done|]. apply HQ; [|done|done]. destruct t as [h rt m]. simpl in *.
    assert (rep (STree h (Some pn) m) A) as Hr'.
    { destruct Hr as [R1 R2 R3 R4 R5]. by constructor. }
    eapply Hfin; [exact Hr'|done|]. intros x Hx. rewrite HA, store_step by done. unfold start, put, with_data. rewrite H1, H2.
    rewrite <-Hp. destruct (decide (x = r0)) as [->|Hne]; simpl.
    - unfold store. simpl. rewrite H2. repeat case_decide; destruct_and?; simplify_eq; done.
    - destruct (decide (@None K = None ∧ None = Some x)) as [[_ ?]|_]; [done|]. destruct (decide (None = Some x)); done. }
  destruct (Kp p eq_refl) as [pp Hpp]. rewrite Hpp. simpl default. rewrite bool_decide_true by (by eapply Hnn).
  destruct l as [l|]; [destruct (Kl l eq_refl) as [pl Hpl]; simpl addr; rewrite Hpl|]; simpl default;
    (destruct r as [r|]; [destruct (Kr r eq_refl) as [pr Hpr]; simpl addr; rewrite Hpr|]; simpl default).
  - rewrite !bool_decide_true by (by eapply Hnn). simpl andb.
    apply wp_bind. eapply wp_set_field; [exact Hr0|exact Hpl|by apply fs_right|]. intros t1 Hr1 Ht1 Hm1.
    apply wp_bind. eapply wp_set_field; [exact Hr1|by rewrite Hm1|apply fs_par; by rewrite Hm1|]. intros t2 Hr2 Ht2 Hm2.
    eapply wp_set_field; [exact Hr2|by rewrite Hm2, Hm1|apply fs_right; by rewrite Hm2, Hm1|]. intros t3 Hr3 Ht3 Hm3.
    apply HQ; [|congruence|simpl; congruence]. eapply Hfin; [exact Hr3|congruence|]. intros x Hx. by apply hang_both.
  - rewrite bool_decide_true by (by eapply Hnn). rewrite (bool_decide_false (NULL ≠ NULL)) by (intros Hx; by apply Hx). simpl andb.
    apply wp_bind. eapply wp_set_field; [exact Hr0|exact Hpl|by apply fs_right|]. intros t1 Hr1 Ht1 Hm1.
    eapply wp_set_field; [exact Hr1|by rewrite Hm1|apply fs_par; by rewrite Hm1|]. intros t2 Hr2 Ht2 Hm2.
    apply HQ; [|congruence|simpl; congruence]. eapply Hfin; [exact Hr2|congruence|]. intros x Hx. by apply hang_left.
  - rewrite (bool_decide_false (NULL ≠ NULL)) by (intros Hx; by apply Hx). rewrite bool_decide_true by (by eapply Hnn). simpl andb.
    apply wp_bind. eapply wp_set_field; [exact Hr0|exact Hpn|by apply fs_right|]. intros t1 Hr1 Ht1 Hm1.
    apply wp_bind. eapply wp_set_field; [exact Hr1|by rewrite Hm1|apply fs_par; by rewrite Hm1|]. intros t2 Hr2 Ht2 Hm2.
    eapply wp_set_field; [exact Hr2|by rewrite Hm2, Hm1|apply fs_child; by rewrite Hm2, Hm1|]. intros t3 Hr3 Ht3 Hm3.
    apply HQ; [|congruence|simpl; congruence]. eapply Hfin; [exact Hr3|congruence|]. intros x Hx. by apply hang_right.
  - rewrite !(bool_decide_false (NULL ≠ NULL)) by (intros Hx; by apply Hx). simpl andb.
    destruct (nb_par NB n p Hn (eq_sym Hp)) as [HpK Hc]. specialize (Hc (eq_sym Hl)).
    destruct (rp_node _ _ Hr0 _ _ Hpp) as [Hpne Hph].
    assert (an_child (start S n p) = None) as Hnone.
    { unfold start, put, with_data. assert (an_child (store S p) = None) as H1 by (unfold store; rewrite Hc; simpl; by rewrite decide_False).
      destruct (decide (p = n)) as [He|He]; [rewrite <-He|]; exact H1. }
    apply wp_bind. unfold rightmost_child. rewrite bool_decide_false by done. apply wp_bind, wp_zoom.
    eapply wp_load; [exact Hph|]. rewrite update_view. unfold enc. cbn [n_left_child]. rewrite Hnone. simpl addr.
    apply wp_loop. rewrite bool_decide_true by done. apply wp_ret, wp_ret.
    rewrite (bool_decide_false (NULL ≠ NULL)) by (intros Hx; by apply Hx).
    apply wp_bind. eapply wp_set_field; [exact Hr0|exact Hpp|by apply fs_child|]. intros t1 Hr1 Ht1 Hm1.
    eapply wp_set_field; [exact Hr1|by rewrite Hm1|apply fs_par; by rewrite Hm1|]. intros t2 Hr2 Ht2 Hm2.
    apply HQ; [|congruence|simpl; congruence]. eapply Hfin; [exact Hr2|congruence|]. intros x Hx. by apply hang_only.
Qed.

Lemma wp_tree_add_node `{!Inhabited K} fuel S n Q t :
  n ∈ Ks → n ∉ S → built S t →
  (∀ t', built (n :: S) t' → Q () t') →
  wp (tree_add_node (Datatypes.S fuel) (mk_pos (I n)) n (dat n)) Q t.
Proof using All.
  intros Hn HnS HB HQ. pose proof HB as [Hr Hkeys Hdone Hroot]. unfold tree_add_node, set_node.
  apply wp_bind, wp_bind. eapply wp_tree_get_node; [exact Hr|by eapply store_blank|]. intros t1 pn Hr1 Hroot1 Hpn Hkeep1 Hnew1.
  apply wp_bind. eapply (wp_set_field n); [exact Hr1|exact Hpn|apply (fs_data _ (dat n))|]. intros t2 Hr2 Hroot2 Hm2. apply wp_ret.
  assert (grows t t2) as G2.
  { constructor; [congruence|by rewrite Hm2|]. intros x b Hx. rewrite Hm2 in Hx.
    destruct (decide (x = n)) as [->|Hne]; [by right|]. left. eexists. by apply Hnew1. }
  change (put n _ (store S)) with (start S n) in Hr2.
  assert (∀ t' k, grows t t' → grows t2 t' → k ∈ Ks → m_find k (tr_nodes t') = None → start S n k = blank) as Hblank.
  { intros t' k G Gt2 Hk Hf. unfold start, put. rewrite decide_False.
    - apply (store_blank S t); [done|done|]. destruct (m_find k (tr_nodes t)) as [b|] eqn:Hb; [|done].
      by rewrite (gr_keep _ _ G _ _ Hb) in Hf.
    - intros ->. rewrite <-Hm2 in Hpn. by rewrite (gr_keep _ _ Gt2 _ _ Hpn) in Hf. }
  apply wp_bind. eapply wp_get_node_if; [exact Hr2| |].
  { intros k Hk. split; [by eapply (nb_par NB n)|]. intros Hf. eapply (Hblank t2); [done|apply grows_refl| |done]. by eapply (nb_par NB n). }
  intros t3 Hr3 G3 Kp. apply wp_bind. eapply wp_get_node_if; [exact Hr3| |].
  { intros k Hk. split; [by eapply (nb_left NB n)|]. intros Hf. eapply (Hblank t3); [by eapply grows_trans|done| |done]. by eapply (nb_left NB n). }
  intros t4 Hr4 G4 Kl. apply wp_bind. eapply wp_get_node_if; [exact Hr4| |].
  { intros k Hk. split; [by eapply (nb_right NB n)|]. intros Hf.
    eapply (Hblank t4); [eapply grows_trans; [exact G2|by eapply grows_trans]|by eapply grows_trans| |done]. by eapply (nb_right NB n). }
  intros t5 Hr5 G5 Kr. pose proof (grows_trans _ _ _ G4 G5) as G45. pose proof (grows_trans _ _ _ G2 (grows_trans _ _ _ G3 G45)) as G.
  destruct (grows_known _ _ _ G45 Kp) as [Kp5 <-]. destruct (grows_known _ _ _ G5 Kl) as [Kl5 <-].
  rewrite <-Hm2 in Hpn. pose proof (gr_keep _ _ (grows_trans _ _ _ G3 G45) _ _ Hpn) as Hpn5.
  assert (∀ k a, m_find k (tr_nodes t5) = Some a → k ∈ Ks) as Hkeys5.
  { intros k a Hk. destruct (gr_new _ _ G _ _ Hk) as [[b Hb]|]; [by eapply Hkeys|done]. }
  eapply (wp_add_child fuel S n pn _ _ _ (start S n)); [done..|exact Hr5|done|done|done|done|done|done|done|done|done|].
  intros t6 Hr6 Hm6 Hroot6. apply HQ. constructor; rewrite ?Hm6.
  - done.
  - done.
  - intros k [->|Hk]%elem_of_cons; [split_and!; try done; by eexists|].
    destruct (Hdone k Hk) as (H1 & [b Hb] & H2 & H3 & H4). split_and!; [done| |by eapply grows_known..].
    eexists. by apply (gr_keep _ _ G).
  - intros Hin. rewrite Hroot6. case_decide as Hpar.
    + destruct (nb_root NB n Hn Hpar) as (<- & _). by rewrite Hpn5.
    + assert (n ≠ r0) as Hne by (intros ->; by rewrite (nb_root_par NB) in Hpar). rewrite elem_of_cons in Hin.
      destruct Hin as [?|Hin]; [done|]. rewrite (gr_root _ _ G), (Hroot Hin).
      destruct (Hdone r0 Hin) as (_ & [b Hb] & _). by rewrite Hb, (gr_keep _ _ G _ _ Hb).
Qed.

(** ** The whole loop *)

Lemma wp_build_loop `{!Inhabited K} fuel positions l S Q t :
  NoDup l.*1 → Forall (λ e, e.1 ∈ Ks ∧ e.1 ∉ S ∧ e.2 = dat e.1 ∧ m_find e.1 positions = Some (mk_pos (I e.1))) l →
  built S t → (∀ t', built (reverse l.*1 ++ S) t' → Q () t') →
  wp (build_loop (Datatypes.S fuel) positions l) Q t.
Proof using All.
  revert S t. induction l as [|[k d] l IH]; intros S t Hnd Hl HB HQ; simpl; [by apply wp_ret, HQ|]. csimpl in *.
  apply NoDup_cons in Hnd as [Hk Hnd]. apply Forall_cons in Hl as [(H1 & H2 & H3 & H4) Hl]. simpl in *. subst d. rewrite H4.
  apply wp_bind, (wp_tree_add_node fuel S k); [done..|]. intros t' HB'. eapply IH; [done| |exact HB'|].
  - rewrite Forall_forall in *. intros e He. destruct (Hl e He) as (E1 & E2 & E3 & E4). split_and!; try done.
    intros [Heq|?]%elem_of_cons; [|done]. apply Hk. rewrite <-Heq. by apply list_elem_of_fmap_2.
  - intros t'' HB''. apply HQ. by rewrite reverse_cons, <-app_assoc.
Qed.

End make.
