(* ===== verification/STreeTop.v ===== *)
(** * From the description of a tree to its printed form

    Put together: a tree described to stree_helper in any order, built by
    stree::build and printed by stree::print, is printed in preorder and in
    level order. *)

From Stdlib Require Import Ascii String.
From stdpp Require Import gmap numbers sets list.
From S2P Require Import Prelude CAlloc StdText StdMap STree STreeWalk STreeBuild STreeMake.

Local Open Scope Z_scope.

Section lookup.
Context {K V : Type} `{!EqDecision K}.

Definition assoc (d : V) (T : list (K * V)) (k : K) : V :=
  match list_find (λ e, e.1 = k) T with Some (_, e) => e.2 | None => d end.

Lemma assoc_elem d T k v : NoDup T.*1 → (k, v) ∈ T → assoc d T k = v.
Proof.
  intros Hnd Hin. unfold assoc. destruct (list_find (λ e, e.1 = k) T) as [[i e]|] eqn:Hf.
  - apply list_find_Some in Hf as (He & Hk & _). apply list_elem_of_lookup in Hin as [j Hj].
    assert (i = j) as ->. { eapply NoDup_lookup; [exact Hnd|rewrite list_lookup_fmap, He; simpl; by rewrite Hk|by rewrite list_lookup_fmap, Hj]. }
    rewrite Hj in He. by injection He as <-.
  - rewrite list_find_None, Forall_forall in Hf. by destruct (Hf _ Hin).
Qed.

End lookup.

(** ** Preorder and level order of a keyed tree *)

Section orders.
Context {K D : Type}.
Implicit Types (F : kforest K D).

Fixpoint kpreorder (d : Z) F : list (Z * K * D) :=
  match F with KNil => [] | KCons k x c s => (d, k, x) :: kpreorder (d + 1) c ++ kpreorder d s end.

Fixpoint ktrees F : list (K * D * kforest K D) :=
  match F with KNil => [] | KCons k x c s => (k, x, c) :: ktrees s end.

Fixpoint klevels (fuel : nat) (d : Z) (L : list (K * D * kforest K D)) : list (Z * K * D) :=
  match fuel with
  | O => []
  | S fuel =>
      match L with
      | [] => []
      | _ => ((λ u, (d, u.1.1, u.1.2)) <$> L) ++ klevels fuel (d + 1) (concat ((λ u, ktrees u.2) <$> L))
      end
  end.

Fixpoint ksize F : nat := match F with KNil => 0 | KCons _ _ c s => S (ksize c + ksize s) end.

End orders.

Section top.
Context {K D : Type} `{!Cmp K, !CmpOk K, !EqDecision K, !Inhabited K, NW : !New}.
Implicit Types (F : kforest K D) (t : stree K D).

(** ** The neighbourhoods of a tree *)

Definition no_info : kinfo K := KInfo None None None None.

Section tree.
Context (r : K) (d : D) (c : kforest K D).
Abbreviation tree := (KCons r d c KNil).
Context (Hnd : NoDup (keys tree)).

Abbreviation infos := (info None None tree).
Definition I (k : K) : kinfo K := assoc no_info infos k.
Definition dat (k : K) : D := assoc d (kdata tree) k.

Lemma I_elem k i : (k, i) ∈ infos → I k = i.
Proof using All. apply assoc_elem. by rewrite info_keys. Qed.

Lemma I_key k : k ∈ keys tree → (k, I k) ∈ infos.
Proof using All.
  intros Hk. rewrite <-(info_keys None None) in Hk. apply list_elem_of_fmap in Hk as ([k' i] & -> & Hin). simpl.
  by rewrite (I_elem _ _ Hin).
Qed.

Lemma infos_key k i : (k, i) ∈ infos → k ∈ keys tree.
Proof using All. intros Hin. rewrite <-(info_keys None None). apply list_elem_of_fmap. by exists (k, i). Qed.

Lemma tree_neighbours : neighbours (keys tree) I r.
Proof using All.
  constructor.
  - intros k x Hk Hx. destruct (info_right _ _ _ _ _ _ (I_key k Hk) Hx) as (j & Hj & Hl & _).
    split; [by eapply infos_key|by rewrite (I_elem _ _ Hj)].
  - intros k x Hk Hx. destruct (info_left _ _ _ _ _ _ (I_key k Hk) Hx) as [[? _]|(j & Hj & Hr & _)]; [done|].
    split; [by eapply infos_key|by rewrite (I_elem _ _ Hj)].
  - intros k x Hk Hx. destruct (info_child _ _ _ _ _ _ (I_key k Hk) Hx) as (j & Hj & Hp & Hl).
    rewrite (I_elem _ _ Hj). split; [by eapply infos_key|done].
  - intros k x Hk Hx. destruct (info_par _ _ _ _ _ _ (I_key k Hk) Hx) as [[? _]|(j & Hj & Hc)]; [done|].
    rewrite (I_elem _ _ Hj). split; [by eapply infos_key|done].
  - intros k Hk Hx. destruct (info_no_par _ _ _ _ _ (I_key k Hk) Hx) as [_ Htop]. simpl in Htop.
    apply list_elem_of_singleton in Htop as ->. split; [done|]. rewrite (I_elem r (KInfo None None None (ktop c))); [done|].
    simpl. apply elem_of_cons. by left.
  - rewrite (I_elem r (KInfo None None None (ktop c))); [done|]. simpl. apply elem_of_cons. by left.
Qed.

(** ** The tree in memory once all keys are in *)

Fixpoint kaddr (m : list (K * Z)) F : forest :=
  match F with KNil => FNil | KCons k _ c s => FCons (addr m (Some k)) (kaddr m c) (kaddr m s) end.

Lemma built_node S t k i :
  built (keys tree) I r dat S t → (∀ x, x ∈ keys tree → x ∈ S) → (k, i) ∈ infos →
  addr (tr_nodes t) (Some k) ≠ NULL ∧ tr_heap t !! addr (tr_nodes t) (Some k) =
    Some (TNode k (Some (dat k)) (addr (tr_nodes t) (ki_par i)) (addr (tr_nodes t) (ki_child i)) (addr (tr_nodes t) (ki_right i))).
Proof using All.
  intros HB HS Hin. pose proof (infos_key _ _ Hin) as Hk. pose proof (HS _ Hk) as HkS.
  destruct (bt_done _ _ _ _ _ _ HB k HkS) as (_ & [a Ha] & _). destruct (rp_node _ _ (bt_rep _ _ _ _ _ _ HB) k a Ha) as [Hne Hh].
  simpl. rewrite Ha. simpl. split; [done|]. rewrite Hh. unfold enc, store. simpl. rewrite (I_elem _ _ Hin).
  rewrite !(decide_True (P := k ∈ S)) by done. do 2 f_equal.
  - destruct (ki_child i) as [x|] eqn:Hx; [|done]. destruct (info_child _ _ _ _ _ _ Hin Hx) as (j & Hj & _).
    simpl. by rewrite decide_True by (by eapply HS, infos_key).
  - destruct (ki_right i) as [x|] eqn:Hx; [|done]. simpl. by rewrite decide_True by (by left).
Qed.

Lemma built_forest S t F par left :
  built (keys tree) I r dat S t → (∀ x, x ∈ keys tree → x ∈ S) → info par left F ⊆ infos →
  forest_at (tr_heap t) (addr (tr_nodes t) par) (addr (tr_nodes t) (ktop F)) (kaddr (tr_nodes t) F).
Proof using All.
  intros HB HS. revert par left. induction F as [|k x c' IHc s IHs]; intros par left Hsub; [done|]. simpl in Hsub.
  destruct (built_node S t k (KInfo par left (ktop s) (ktop c')) HB HS) as [Hne Hh].
  { apply Hsub, elem_of_cons. by left. }
  cbn [kaddr forest_at]. split; [done|]. split; [done|]. eexists. split; [exact Hh|]. cbn [n_parent n_left_child n_right_sibling ki_par ki_child ki_right].
  split; [done|]. split.
  - apply (IHc (Some k) None). set_solver.
  - apply (IHs par (Some k)). set_solver.
Qed.

Lemma built_tree S t :
  built (keys tree) I r dat S t → (∀ x, x ∈ keys tree → x ∈ S) →
  stree_at t (addr (tr_nodes t) (Some r)) (kaddr (tr_nodes t) c).
Proof using All.
  intros HB HS. assert (r ∈ S) as HrS by (apply HS; unfold keys; simpl; apply elem_of_cons; by left).
  destruct (bt_done _ _ _ _ _ _ HB r HrS) as (_ & [a Ha] & _). split.
  - rewrite (bt_root _ _ _ _ _ _ HB HrS), Ha. simpl. by rewrite Ha.
  - destruct (built_forest S t tree None None HB HS) as (_ & Hne & n & Hn & Hp & Hc & _); [done|]. split; [done|]. by exists n.
Qed.

(** ** Printing it *)

Section print.
Context (show_key : K → chars) (show_data : D → chars).

Definition show (k : K) (x : D) : chars := show_key k ++ text ": " ++ show_data x.

(** One line per node, indented by its depth. *)
Fixpoint render_depth (l : list (Z * K * D)) : chars :=
  match l with
  | [] => []
  | (n, k, x) :: l => replicate (Z.to_nat (n * 2)) " "%char ++ show k x ++ [LF] ++ render_depth l
  end.

(** One line per depth. *)
Fixpoint render_breadth (first : bool) (depth : Z) (l : list (Z * K * D)) : chars :=
  match l with
  | [] => []
  | (n, k, x) :: l =>
      (if bool_decide (depth < n) then [LF] else if first then [] else [" "%char]) ++ show k x ++
      render_breadth false (if bool_decide (depth < n) then n else depth) l
  end.

(** An address with the key and the data the node there has. *)
Definition names t (e : Z * Z) (l : Z * K * D) : Prop :=
  e.1 = l.1.1 ∧ ∃ n, tr_heap t !! e.2 = Some n ∧ n_key n = l.1.2 ∧ n_data n = Some l.2.

Lemma wp_show_node t e n k x Q : names t e (n, k, x) → Q (show k x) t → wp (show_node show_key show_data e.2) Q t.
Proof using All.
  intros (_ & nd & Hh & Hk & Hx) HQ. unfold show_node. apply wp_bind, wp_zoom. eapply wp_load; [exact Hh|]. rewrite update_view.
  apply wp_bind. eapply wp_of_option; [exact Hx|]. apply wp_ret. simpl in *. by rewrite Hk.
Qed.

Lemma wp_print_depth t vec l Q : Forall2 (names t) vec l → Q (render_depth l) t → wp (print_depth show_key show_data vec) Q t.
Proof using All.
  intros H. revert Q. induction H as [|[m p] [[n k] x] vec l He Hl IH]; intros Q HQ; simpl; [by apply wp_ret|].
  apply wp_bind. eapply (wp_show_node t (m, p)); [exact He|]. apply wp_bind, IH, wp_ret. destruct He as [Hm _]. simpl in Hm. by subst m.
Qed.

Lemma wp_print_breadth t vec l first depth Q :
  Forall2 (names t) vec l → Q (render_breadth first depth l) t → wp (print_breadth show_key show_data first depth vec) Q t.
Proof using All.
  intros H. revert first depth Q. induction H as [|[m p] [[n k] x] vec l He Hl IH]; intros first depth Q HQ; simpl; [by apply wp_ret|].
  apply wp_bind. eapply (wp_show_node t (m, p)); [exact He|]. apply wp_bind, IH, wp_ret. destruct He as [Hm _]. simpl in Hm. by subst m.
Qed.

(** The orders of the addresses are the orders of the keys. *)
Lemma names_node S t k i x n :
  built (keys tree) I r dat S t → (∀ x, x ∈ keys tree → x ∈ S) → (k, i) ∈ infos → (k, x) ∈ kdata tree →
  names t (n, addr (tr_nodes t) (Some k)) (n, k, x).
Proof using All.
  intros HB HS Hi Hx. destruct (built_node S t k i HB HS Hi) as [_ Hh]. split; [done|]. eexists. split; [exact Hh|].
  split; [done|]. simpl. f_equal. by apply assoc_elem.
Qed.

Lemma names_preorder S t F par left n :
  built (keys tree) I r dat S t → (∀ x, x ∈ keys tree → x ∈ S) → info par left F ⊆ infos → kdata F ⊆ kdata tree →
  Forall2 (names t) (preorder n (kaddr (tr_nodes t) F)) (kpreorder n F).
Proof using All.
  intros HB HS. revert par left n. induction F as [|k x c' IHc s IHs]; intros par left n Hsub Hdat; [constructor|].
  simpl in Hsub, Hdat. cbn [kaddr preorder kpreorder]. constructor.
  - eapply names_node; [done|done|apply Hsub, elem_of_cons; by left|apply Hdat, elem_of_cons; by left].
  - apply Forall2_app; [apply (IHc (Some k) None); set_solver|apply (IHs par (Some k)); set_solver].
Qed.

(** Trees of the level order, address by address. *)
Definition same_tree t (u : Z * forest) (v : K * D * kforest K D) : Prop :=
  u.1 = addr (tr_nodes t) (Some v.1.1) ∧ u.2 = kaddr (tr_nodes t) v.2 ∧ (∀ n, names t (n, u.1) (n, v.1.1, v.1.2)) ∧
  ∃ par left, info par left v.2 ⊆ infos ∧ kdata v.2 ⊆ kdata tree.

Lemma same_trees S t F par left :
  built (keys tree) I r dat S t → (∀ x, x ∈ keys tree → x ∈ S) → info par left F ⊆ infos → kdata F ⊆ kdata tree →
  Forall2 (same_tree t) (trees (kaddr (tr_nodes t) F)) (ktrees F).
Proof using All.
  intros HB HS. revert par left. induction F as [|k x c' _ s IHs]; intros par left Hsub Hdat; [constructor|].
  simpl in Hsub, Hdat. cbn [kaddr trees ktrees]. constructor.
  - split_and!; [done|done| |exists (Some k), None; split; set_solver]. intros n.
    eapply names_node; [done|done|apply Hsub, elem_of_cons; by left|apply Hdat, elem_of_cons; by left].
  - apply (IHs par (Some k)); set_solver.
Qed.

Lemma names_levels S t fuel n L M :
  built (keys tree) I r dat S t → (∀ x, x ∈ keys tree → x ∈ S) → Forall2 (same_tree t) L M →
  Forall2 (names t) (levels fuel n L) (klevels fuel n M).
Proof using All.
  intros HB HS. revert n L M. induction fuel as [|fuel IH]; intros n L M HLM; [constructor|].
  assert (Forall2 (names t) ((λ u, (n, u.1)) <$> L) ((λ u, (n, u.1.1, u.1.2)) <$> M)) as H1.
  { apply Forall2_fmap. eapply Forall2_impl; [exact HLM|]. intros u v (_ & _ & Hn & _). apply Hn. }
  assert (Forall2 (same_tree t) (concat ((λ u, trees u.2) <$> L)) (concat ((λ u, ktrees u.2) <$> M))) as H2.
  { clear H1. induction HLM as [|u v L M (_ & Hu & _ & par & left & Hi & Hd) HLM IHL]; [constructor|]. csimpl.
    apply Forall2_app; [|done]. rewrite Hu. by eapply same_trees. }
  destruct HLM as [|u v L M Huv HLM]; [constructor|]. cbn [levels klevels]. apply Forall2_app; [exact H1|]. by apply IH.
Qed.

Lemma kaddr_size m F : fsize (kaddr m F) = ksize F.
Proof using All. induction F as [|k x c' IHc s IHs]; [done|]. simpl. by rewrite IHc, IHs. Qed.

Definition rendering : chars :=
  text "***depth traversal***" ++ [LF] ++ render_depth (kpreorder 0 tree) ++
  text "***breadth traversal***" ++ [LF] ++ render_breadth true 0 (klevels (S (ksize c)) 0 [(r, d, c)]).

Lemma wp_print S t fuel Q :
  built (keys tree) I r dat S t → (∀ x, x ∈ keys tree → x ∈ S) → (ksize c + 1 < fuel)%nat →
  Q rendering t → wp (print show_key show_data fuel) Q t.
Proof using All.
  intros HB HS Hf HQ. pose proof (built_tree S t HB HS) as Ht. unfold print. apply wp_bind.
  eapply wp_depth_traversal; [exact Ht|by rewrite kaddr_size|]. apply wp_bind.
  eapply wp_print_depth; [apply (names_preorder S t tree None None 0 HB HS); done|]. apply wp_bind.
  eapply wp_breadth_traversal; [exact Ht|by rewrite kaddr_size|]. apply wp_bind. rewrite kaddr_size.
  eapply wp_print_breadth; [apply (names_levels S t _ 0 _ [(r, d, c)] HB HS)|by apply wp_ret].
  apply (same_trees S t tree None None HB HS); done.
Qed.

End print.

(** ** Describing, building and printing *)

Lemma entries_info p left F :
  (λ e, (e.1, mk_pos e.2)) <$> info (Some p) left F ≡ₚ child_pos p left (ktops F) ++ entries_pos (kids F).
Proof using All.
  revert p left. induction F as [|k x c' IHc s IHs]; intros p left; [done|].
  cbn [info kids ktops child_pos]. unfold entries_pos. csimpl. fold (entries_pos (kids c' ++ kids s)).
  rewrite fmap_app, IHc, IHs, ktops_head. apply Permutation_skip.
  assert (entries_pos (kids c' ++ kids s) = entries_pos (kids c') ++ entries_pos (kids s)) as ->.
  { unfold entries_pos. by rewrite fmap_app, concat_app. }
  solve_Permutation.
Qed.

(** The description: the nodes and the entries, each in any order. *)
Definition described (vec : list (K * D)) (es : list (K * list K)) : stree_helper K D :=
  describe es (helper_add_nodes vec (Helper [] [])).

Lemma add_nodes_all vec (hp : stree_helper K D) :
  hp_node_pos (helper_add_nodes vec hp) = hp_node_pos hp ∧
  hp_node_data (helper_add_nodes vec hp) = insert_all (hp_node_data hp) vec.
Proof using All.
  revert hp. induction vec as [|[k x] vec IH]; intros hp; [done|]. unfold helper_add_nodes, insert_all in *. simpl.
  destruct (IH (helper_add_node k x hp)) as [-> ->]. done.
Qed.

Lemma described_data vec es :
  vec ≡ₚ kdata tree →
  m_sorted (hp_node_data (described vec es)) ∧ ∀ e, e ∈ hp_node_data (described vec es) ↔ e ∈ kdata tree.
Proof using All.
  intros Hv. unfold described. rewrite describe_data. destruct (add_nodes_all vec (Helper [] [])) as [_ ->]. simpl.
  assert (m_sorted ([] : list (K * D))) as H0 by constructor. assert (NoDup vec.*1) as Hvn by (by rewrite Hv).
  pose proof (foldl_insert_sorted vec [] H0) as Hs. split; [done|]. intros [k x]. rewrite <-m_find_elem by done.
  destruct (foldl_insert_find vec [] k H0 Hvn) as [H1 H2]. split.
  - intros Hf. destruct (decide (k ∈ vec.*1)) as [Hin|Hno]; [|by rewrite H2 in Hf].
    apply list_elem_of_fmap in Hin as ([k' x'] & -> & Hin). simpl in *. rewrite (H1 _ Hin) in Hf. simplify_eq. by rewrite Hv in Hin.
  - intros Hin. apply H1. by rewrite Hv.
Qed.

Lemma described_pos vec es k :
  es ≡ₚ kids tree → c ≠ KNil → k ∈ keys tree → m_find k (hp_node_pos (described vec es)) = Some (mk_pos (I k)).
Proof using All.
  intros He Hc Hk. assert (entries_pos es ≡ₚ (λ e, (e.1, mk_pos e.2)) <$> info (Some r) None c) as Hent.
  { rewrite entries_info. unfold entries_pos. rewrite He. cbn [kids]. rewrite app_nil_r. done. }
  assert ((entries_pos es).*1 ≡ₚ keys c) as Hek.
  { rewrite Hent, <-(info_keys (Some r) None c), <-list_fmap_compose. done. }
  pose proof Hnd as Hnd'. unfold keys in Hnd'. cbn [kdata] in Hnd'. rewrite app_nil_r in Hnd'. csimpl in Hnd'.
  apply NoDup_cons in Hnd' as [Hr Hndc]. fold (keys c) in Hr, Hndc.
  destruct (describe_spec es (helper_add_nodes vec (Helper [] []))) as [_ Hd]; [by destruct (add_nodes_all vec (Helper [] []))|by rewrite Hek|].
  destruct (Hd k) as [H1 H2]. unfold described. unfold keys in Hk. cbn [kdata] in Hk. rewrite app_nil_r in Hk. csimpl in Hk.
  apply elem_of_cons in Hk as [->|Hk].
  - rewrite H2 by (by rewrite Hek). rewrite decide_True.
    + rewrite (I_elem r (KInfo None None None (ktop c))); [done|]. simpl. apply elem_of_cons. by left.
    + apply Exists_exists. exists (r, ktops c). rewrite He. split; [cbn [kids]; apply elem_of_cons; by left|]. by destruct c.
  - fold (keys c) in Hk. rewrite <-(info_keys (Some r) None) in Hk. apply list_elem_of_fmap in Hk as ([k' i] & -> & Hin).
    apply H1. rewrite Hent. apply list_elem_of_fmap. exists (k', i). split; [|done]. simpl.
    rewrite (I_elem k' i); [done|]. cbn [info]. apply elem_of_cons. right. apply elem_of_app. by left.
Qed.

Lemma built_start root : built (keys tree) I r dat [] (STree ∅ root []).
Proof using All. constructor; simpl; [constructor; simpl; [constructor|done|done|done|by intros a [? ?]]|done|by intros k ?%elem_of_nil|by intros ?%elem_of_nil]. Qed.

Lemma wp_build fuel vec es root Q :
  vec ≡ₚ kdata tree → es ≡ₚ kids tree → c ≠ KNil →
  (∀ t S, built (keys tree) I r dat S t → (∀ x, x ∈ keys tree → x ∈ S) → Q () t) →
  wp (build (Datatypes.S fuel) (described vec es)) Q (STree ∅ root []).
Proof using All.
  intros Hv He Hc HQ. destruct (described_data vec es Hv) as [Hs Hl]. unfold build.
  apply (wp_build_loop (keys tree) I r dat tree_neighbours fuel _ _ [] _ _ (m_sorted_nodup _ Hs)).
  - apply Forall_forall. intros [k x] Hin. apply Hl in Hin. simpl.
    assert (k ∈ keys tree) as Hk by (unfold keys; apply list_elem_of_fmap; by exists (k, x)).
    split_and!; [done|by intros ?%elem_of_nil|symmetry; by apply assoc_elem|by apply described_pos].
  - apply built_start.
  - intros t HB. eapply HQ; [exact HB|]. intros x Hx. rewrite app_nil_r. apply elem_of_reverse.
    unfold keys in Hx. apply list_elem_of_fmap in Hx as (e & -> & Hin). apply list_elem_of_fmap. exists e. split; [done|]. by apply Hl.
Qed.

(** ** The destructor *)

(** Deleting the nodes of distinct addresses that are all allocated. *)
Lemma wp_delete_nodes (m : list (K * Z)) Q t :
  NoDup m.*2 → Forall (λ e, e.2 ≠ NULL ∧ is_Some (tr_heap t !! e.2)) m →
  (∀ t', tr_nodes t' = tr_nodes t →
     (∀ a, is_Some (tr_heap t' !! a) → is_Some (tr_heap t !! a) ∧ a ∉ m.*2) → Q () t') →
  wp (delete_nodes m) Q t.
Proof using All.
  revert t. induction m as [|[k p] m IH]; intros t Hnp Hm HQ; simpl.
  - apply wp_ret, HQ; [done|]. intros a Ha. split; [done|]. by intros ?%elem_of_nil.
  - csimpl in Hnp. apply NoDup_cons in Hnp as [Hp Hnd']. apply Forall_cons in Hm as [[Hne [n Hn]] Hm]. simpl in Hne, Hn.
    apply wp_bind. eapply wp_done; [unfold delete_node; rewrite bool_decide_false, Hn by done; done|].
    apply IH; [done| |].
    + apply Forall_forall. intros [k' q] Hq. rewrite Forall_forall in Hm. destruct (Hm _ Hq) as [H1 H2]. split; [done|]. simpl in *.
      rewrite lookup_delete_ne; [done|]. intros ->. apply Hp, list_elem_of_fmap. by exists (k', q).
    + intros t' Hnodes Hheap. apply HQ; [done|]. intros a Ha. destruct (Hheap a Ha) as [H1 H2]. simpl in H1.
      apply lookup_delete_is_Some in H1 as [H3 H4]. split; [done|]. csimpl. rewrite not_elem_of_cons. done.
Qed.

(** The destructor of a built tree deletes every node once and leaves none. *)
Lemma wp_destroy S t Q :
  built (keys tree) I r dat S t → (∀ t', tr_heap t' = ∅ → Q () t') → wp destroy Q t.
Proof using All.
  intros HB HQ. pose proof (bt_rep _ _ _ _ _ _ HB) as R. pose proof (rp_sorted _ _ R) as Hs.
  unfold destroy. apply wp_bind, wp_get_state. apply wp_bind. apply wp_delete_nodes.
  - apply NoDup_fmap_2_strong; [|apply (NoDup_fmap_1 fst), m_sorted_nodup, Hs].
    intros [k a] [k' a'] H1 H2 Heq. simpl in Heq. subst a'. apply m_find_elem in H1, H2; [|done..].
    by rewrite (rp_inj _ _ R k k' a H1 H2).
  - apply Forall_forall. intros [k a] Hin. apply m_find_elem in Hin; [|done]. destruct (rp_node _ _ R k a Hin) as [H1 H2].
    simpl. by rewrite H2.
  - intros t' _ Hheap. eapply wp_done; [done|]. apply HQ. simpl. apply map_empty. intros a.
    destruct (tr_heap t' !! a) as [n|] eqn:Ha; [|done]. destruct (Hheap a) as [H1 H2]; [by rewrite Ha|].
    destruct (rp_dom _ _ R a H1) as [k Hk]. apply m_find_elem in Hk; [|done]. destruct H2. apply list_elem_of_fmap. by exists (k, a).
Qed.

End tree.
End top.

(** What the program of cpp_console/main.cpp prints. *)
Example tree_main_prints :
  (λ r, match r with Done (out, _) => Some out | _ => None end) (tree_main None) =
  Some (concat (map (λ l, text l ++ [LF])
    ["***depth traversal***";
     "0: pgrlink";
     "  1: link init";
     "  2: link analyze";
     "    3: load aa files";
     "    4: link model";
     "  5: link check";
     "    6: load ao files";
     "    7: sn check";
     "    8: pm chech";
     "      9: Extraction_TypeNameLink";
     "      10: Extraction_TagNameLink";
     "      11: Extraction_ObjectLink";
     "        12: GetAppearNodeInfotomap";
     "        13: CheckNouseObj";
     "        14: CheckObjectUsedinParallelFunction";
     "  15: link display";
     "***breadth traversal***";
     "0: pgrlink";
     "1: link init 2: link analyze 5: link check 15: link display";
     "3: load aa files 4: link model 6: load ao files 7: sn check 8: pm chech";
     "9: Extraction_TypeNameLink 10: Extraction_TagNameLink 11: Extraction_ObjectLink"]%string) ++
    text "12: GetAppearNodeInfotomap 13: CheckNouseObj 14: CheckObjectUsedinParallelFunction").
Proof. by vm_compute. Qed.
