(* ===== verification/EvDebug.v ===== *)
(** * The debug text of an event

    event_2str of src/network/wba_event/wba_evloop.c.  How printf shows a pointer
    is up to the implementation ([show_ptr]). *)

From Stdlib Require Import Ascii String.
From stdpp Require Import numbers list.
From S2P Require Import Prelude StdText SString EvTime EvLoop.

Local Open Scope Z_scope.

Definition mark (v mask : Z) (c : ascii) : ascii := if has v mask then c else "_"%char.

(** What snprintf formats. *)
Definition event_text (show_ptr : Z → chars) (p : Z) (evt : wba_evt) : chars :=
  text "event " ++ show_ptr p ++ text ", fd " ++ print_int (evt_fd evt) ++
  text ", flags " ++
  [mark (evt_flags evt) WBA_EVTLIST_INIT "I"; mark (evt_flags evt) WBA_EVTLIST_REG "R";
   mark (evt_flags evt) WBA_EVTLIST_ACTIVE "A"; mark (evt_flags evt) WBA_EVTLIST_TIMEOUT "T"] ++
  text ", events " ++
  [mark (evt_events evt) WBA_EVT_READ "R"; mark (evt_events evt) WBA_EVT_WRITE "W";
   mark (evt_events evt) WBA_EVT_TIMEOUT "T"; mark (evt_events evt) WBA_EVT_CLOSED "C";
   mark (evt_events evt) WBA_EVT_PERSIST "P"] ++
  text ", call " ++ show_ptr (cb_fn evt).

(** [static char buf[1024]] *)
Definition event_2str (show_ptr : Z → chars) (p : Z) (evt : wba_evt) : chars :=
  take 1023 (event_text show_ptr p evt).

(** Nothing is cut off if a pointer takes at most 400 characters. *)
Lemma event_2str_complete show_ptr p evt :
  (∀ q, length (show_ptr q) ≤ 400)%nat → - 2 ^ 31 ≤ evt_fd evt < 2 ^ 31 →
  event_2str show_ptr p evt = event_text show_ptr p evt.
Proof.
  intros Hptr Hfd. unfold event_2str, event_text. apply take_ge.
  assert (length (print_int (evt_fd evt)) ≤ 11)%nat by (apply print_int_length; simpl; lia).
  pose proof (Hptr p). pose proof (Hptr (cb_fn evt)). rewrite !length_app. simpl. lia.
Qed.
