(* ===== verification/Http.v ===== *)
(** * The asynchronous HTTP client (my_lib/http_client/HttpClient.cpp)

    The object is a state machine: every handler looks at the state, may read
    from the receive buffer, may start the next asynchronous operation and may
    report the result.  What Boost.Asio contributes is a parameter of the
    machine: a pending operation completes at some later time with an error
    code and some received bytes ([io_ok] states its documented contract), and
    a pending wait on the timer ends at any time.  [now] is the clock. *)

From Stdlib Require Import Ascii String.
From stdpp Require Import numbers list.
From S2P Require Import Prelude StdText EvTime.

Local Open Scope Z_scope.

(** ** Environment *)

Inductive error := eof | other_error (message : chars).
Abbreviation error_code := (option error).

Definition ec_message (e : error) : chars := match e with eof => text "End of file" | other_error m => m end.

Record ServerInfo := MkServerInfo { endpoint : chars * Z; conn_timeout : Z; transfer_timeout : Z }.

(** The handler an operation was started with. *)
Inductive handler :=
| handle_connect_ (iter : nat)
| handle_write_request_
| handle_read_status_line_
| handle_read_headers_
| handle_read_content_ (content_length : Z)
| handle_read_chunk_size_
| handle_read_chunk_data_ (chunk_size : Z).

(** The operation itself. *)
Inductive io :=
| async_connect (ep : chars * Z)
| async_write (data : chars)
| async_read_until (delim : chars)
| async_read_at_least (n : Z)
| async_read_exactly (n : Z).

(** A call of [result_sig]: contents, their length and the error message. *)
Record result := MkResult { res_content : list chars; res_length : Z; res_error : chars }.

(** ** State *)

Record client := Client {
  socket_open : bool;
  request_ : chars;
  response_ : chars;
  deadline_ : option Z;          (* None: never *)
  stopped_ : bool;
  remote_endpoint_ : option (chars * Z);
  content_ : list chars;
  content_length_ : Z;
  err_msg_ : chars;
  pending : option (handler * io); (* the operation on the socket *)
  waiting : bool;                  (* a wait on the timer *)
  results : list result;           (* what result_sig was called with *)
}.

Definition set_open (b : bool) (s : client) : client :=
  Client b (request_ s) (response_ s) (deadline_ s) (stopped_ s) (remote_endpoint_ s) (content_ s) (content_length_ s) (err_msg_ s) (pending s) (waiting s) (results s).
Definition set_request (x : chars) (s : client) : client :=
  Client (socket_open s) x (response_ s) (deadline_ s) (stopped_ s) (remote_endpoint_ s) (content_ s) (content_length_ s) (err_msg_ s) (pending s) (waiting s) (results s).
Definition set_response (x : chars) (s : client) : client :=
  Client (socket_open s) (request_ s) x (deadline_ s) (stopped_ s) (remote_endpoint_ s) (content_ s) (content_length_ s) (err_msg_ s) (pending s) (waiting s) (results s).
Definition set_deadline (x : option Z) (s : client) : client :=
  Client (socket_open s) (request_ s) (response_ s) x (stopped_ s) (remote_endpoint_ s) (content_ s) (content_length_ s) (err_msg_ s) (pending s) (waiting s) (results s).
Definition set_stopped (x : bool) (s : client) : client :=
  Client (socket_open s) (request_ s) (response_ s) (deadline_ s) x (remote_endpoint_ s) (content_ s) (content_length_ s) (err_msg_ s) (pending s) (waiting s) (results s).
Definition set_remote (x : option (chars * Z)) (s : client) : client :=
  Client (socket_open s) (request_ s) (response_ s) (deadline_ s) (stopped_ s) x (content_ s) (content_length_ s) (err_msg_ s) (pending s) (waiting s) (results s).
(** [content_.push_back(buffer); content_length_ += count;] *)
Definition add_content (x : chars) (s : client) : client :=
  Client (socket_open s) (request_ s) (response_ s) (deadline_ s) (stopped_ s) (remote_endpoint_ s) (content_ s ++ [x])
    ((content_length_ s + Z.of_nat (length x)) mod 2 ^ 64) (err_msg_ s) (pending s) (waiting s) (results s).
Definition set_err_msg (x : chars) (s : client) : client :=
  Client (socket_open s) (request_ s) (response_ s) (deadline_ s) (stopped_ s) (remote_endpoint_ s) (content_ s) (content_length_ s) x (pending s) (waiting s) (results s).
Definition set_pending (x : option (handler * io)) (s : client) : client :=
  Client (socket_open s) (request_ s) (response_ s) (deadline_ s) (stopped_ s) (remote_endpoint_ s) (content_ s) (content_length_ s) (err_msg_ s) x (waiting s) (results s).
Definition set_waiting (x : bool) (s : client) : client :=
  Client (socket_open s) (request_ s) (response_ s) (deadline_ s) (stopped_ s) (remote_endpoint_ s) (content_ s) (content_length_ s) (err_msg_ s) (pending s) x (results s).
Definition add_result (x : result) (s : client) : client :=
  Client (socket_open s) (request_ s) (response_ s) (deadline_ s) (stopped_ s) (remote_endpoint_ s) (content_ s) (content_length_ s) (err_msg_ s) (pending s) (waiting s) (results s ++ [x]).

(** Starting an operation. *)
Definition async (h : handler) (o : io) (s : client) : client := set_pending (Some (h, o)) s.

Definition new_client : client := Client false [] [] None false None [] 0 [] None false [].

(** ** Results *)

Definition stop (s : client) : client := set_open false (set_stopped true s).

Definition signal_result (s : client) : client := add_result (MkResult (content_ s) (content_length_ s) []) s.
Definition signal_error (err_msg : chars) (s : client) : client :=
  let s := set_err_msg err_msg s in
  add_result (MkResult (content_ s) (content_length_ s) (err_msg_ s)) s.

(** ** Reading the receive buffer *)

(** [line.find(pat) != npos] *)
Fixpoint contains (pat l : chars) : bool :=
  bool_decide (take (length pat) l = pat) || match l with [] => false | _ :: l' => contains pat l' end.

(** The caller's variable [status_code] is not initialised: [status_code0] is what it holds, and
    a line that ends behind the version leaves it so. *)
Definition http_response_status (status_code0 : Z) (s : client) : chars * Z * client :=
  let '(http_version, rs) := read_word [] (istream_of (response_ s)) in
  let '(status_code, rs) := read_int uint_t 10 status_code0 rs in
  let '(_, rs) := read_line [] rs in
  (http_version, status_code, set_response (is_data rs) s).

(** The loop of http_headers; every line takes at least one character. *)
Fixpoint headers_loop (fuel : nat) (rs : istream) (transfer_encoding : chars) (len : Z) : chars * Z * istream :=
  match fuel with
  | O => (transfer_encoding, len, rs)
  | S fuel =>
      let '(line, rs) := read_line [] rs in
      if is_fail rs || bool_decide (line = [CR]) then (transfer_encoding, len, rs)
      else if contains (text "Transfer-Encoding") line then
        let '(_, hs) := read_word [] (istream_of line) in
        let '(transfer_encoding, _) := read_word transfer_encoding hs in
        headers_loop fuel rs transfer_encoding len
      else if contains (text "Content-Length") line then
        let '(_, hs) := read_word [] (istream_of line) in
        let '(len, _) := read_int size_type 10 len hs in
        headers_loop fuel rs transfer_encoding len
      else headers_loop fuel rs transfer_encoding len
  end.

Definition http_headers (s : client) : chars * Z * client :=
  let '(te, len, rs) := headers_loop (S (length (response_ s))) (istream_of (response_ s)) [] 0 in
  (te, len, set_response (is_data rs) s).

Definition http_chunk_size (s : client) : Z * client :=
  let '(line, rs) := read_line [] (istream_of (response_ s)) in
  let '(chunk_size, _) := read_int size_type 16 0 (istream_of line) in
  (chunk_size, set_response (is_data rs) s).

(** The bytes read into the buffer of [size] bytes; the line end behind them is dropped. *)
Definition http_chunk_data (size : Z) (s : client) : chars * client :=
  let '(buffer, rs) := read_block (Z.to_nat size) (istream_of (response_ s)) in
  let '(_, rs) := read_line [] rs in
  (buffer, set_response (is_data rs) s).

Definition http_content (size : Z) (s : client) : chars * client :=
  let '(buffer, rs) := read_block (Z.to_nat size) (istream_of (response_ s)) in
  (buffer, set_response (is_data rs) s).

(** ** Handlers *)

Section handlers.
Context (endpoints_ : list ServerInfo) (request_sig : chars → chars * Z → chars) (status_code0 : Z).

Definition start_connect (iter : nat) (now : Z) (s : client) : client :=
  match endpoints_ !! iter with
  | Some srv =>
      let s := set_deadline (Some (now + conn_timeout srv)) s in
      async (handle_connect_ iter) (async_connect (endpoint srv)) (set_open true s)
  | None => signal_error (text "fail to connect to server") (stop s)
  end.

Definition start (now : Z) (s : client) : client :=
  let s := set_stopped false s in
  let s := start_connect 0 now s in
  set_waiting true s.

Definition handle_connect (iter : nat) (ec : error_code) (now : Z) (s : client) : client :=
  if stopped_ s then s else
  if negb (socket_open s) then start_connect (iter + 1) now s
  else
    match ec with
    | Some _ => start_connect (iter + 1) now (set_open false s)
    | None =>
        match endpoints_ !! iter with
        | Some srv =>
            let s := set_remote (Some (endpoint srv)) s in
            let s := set_request (request_sig (request_ s) (endpoint srv)) s in
            let s := set_deadline (Some (now + transfer_timeout srv)) s in
            async handle_write_request_ (async_write (request_ s)) s
        | None => s
        end
    end.

Definition handle_write_request (ec : error_code) (s : client) : client :=
  if stopped_ s then s else
  match ec with
  | Some e => signal_error (text "handle_write_request: " ++ ec_message e) (stop s)
  | None => async handle_read_status_line_ (async_read_until [CR; LF]) s
  end.

Definition handle_read_status_line (ec : error_code) (s : client) : client :=
  if stopped_ s then s else
  match ec with
  | Some e => signal_error (text "handle_read_status_line: " ++ ec_message e) (stop s)
  | None =>
      let '(http_version, status_code, s) := http_response_status status_code0 s in
      if negb (bool_decide (take 5 http_version = text "HTTP/")) then signal_error (text "Invalide response") (stop s)
      else if negb (bool_decide (status_code = 200)) then
        signal_error (text "Response with status code " ++ print_int status_code) (stop s)
      else async handle_read_headers_ (async_read_until [CR; LF; CR; LF]) s
  end.

Definition handle_read_headers (ec : error_code) (s : client) : client :=
  if stopped_ s then s else
  match ec with
  | Some e => signal_error (text "handle_read_headers:" ++ ec_message e) (stop s)
  | None =>
      let '(transfer_encoding, content_length, s) := http_headers s in
      if bool_decide (transfer_encoding = text "chunked") then
        async handle_read_chunk_size_ (async_read_until [CR; LF]) s
      else if bool_decide (0 < content_length) then
        let s := if bool_decide (0 < length (response_ s))%nat then
                   let '(buffer, s) := http_content (Z.of_nat (length (response_ s))) s in add_content buffer s
                 else s in
        async (handle_read_content_ content_length) (async_read_at_least 1) s
      else signal_error (text "handle_read_headers: empty content") (stop s)
  end.

Definition handle_read_content (content_length : Z) (ec : error_code) (s : client) : client :=
  if stopped_ s then s else
  match ec with
  | Some eof => signal_result (stop s)
  | Some e => signal_error (text "handle_read_content: " ++ ec_message e) (stop s)
  | None =>
      let '(buffer, s) := http_content (Z.of_nat (length (response_ s))) s in
      let s := add_content buffer s in
      async (handle_read_content_ content_length) (async_read_at_least 1) s
  end.

Definition handle_read_chunk_size (ec : error_code) (s : client) : client :=
  if stopped_ s then s else
  match ec with
  | Some e => signal_error (text "handle_read_chunk_size: " ++ ec_message e) (stop s)
  | None =>
      let '(chunk_size, s) := http_chunk_size s in
      if bool_decide (0 < chunk_size) then
        let diff := s32 (chunk_size + 2 - Z.of_nat (length (response_ s))) in
        let remaining := if bool_decide (0 < diff) then diff else 0 in
        async (handle_read_chunk_data_ chunk_size) (async_read_exactly remaining) s
      else signal_result (stop s)
  end.

Definition handle_read_chunk_data (chunk_size : Z) (ec : error_code) (s : client) : client :=
  if stopped_ s then s else
  match ec with
  | Some e => signal_error (text "handle_read_chunk_data: " ++ ec_message e) (stop s)
  | None =>
      let '(buffer, s) := http_chunk_data chunk_size s in
      if negb (bool_decide (Z.of_nat (length buffer) = chunk_size)) then
        signal_error (text "fail to read chunk data") (stop s)
      else
        let s := add_content buffer s in
        async handle_read_chunk_size_ (async_read_until [CR; LF]) s
  end.

(** The timer's handler: it looks at the clock, not at its error code. *)
Definition check_deadline (now : Z) (s : client) : client :=
  if stopped_ s then s else
  let timedout := match deadline_ s with Some t => bool_decide (t <= now) | None => false end in
  let s := if timedout then set_deadline None s else s in
  let s := set_waiting true s in
  if timedout then set_open false s else s.

(** ** The machine *)

(** Calling the handler of a completed operation. *)
Definition complete (h : handler) (ec : error_code) (now : Z) (s : client) : client :=
  match h with
  | handle_connect_ iter => handle_connect iter ec now s
  | handle_write_request_ => handle_write_request ec s
  | handle_read_status_line_ => handle_read_status_line ec s
  | handle_read_headers_ => handle_read_headers ec s
  | handle_read_content_ n => handle_read_content n ec s
  | handle_read_chunk_size_ => handle_read_chunk_size ec s
  | handle_read_chunk_data_ n => handle_read_chunk_data n ec s
  end.

(** What Asio promises about a completion: without an error the delimiter is in the buffer,
    or the number of bytes has arrived. *)
Definition io_ok (o : io) (buffer : chars) (ec : error_code) (data : chars) : Prop :=
  match ec with
  | Some _ => True
  | None =>
      match o with
      | async_connect _ | async_write _ => data = []
      | async_read_until delim => contains delim (buffer ++ data) = true
      | async_read_at_least n => n ≤ Z.of_nat (length data)
      | async_read_exactly n => Z.of_nat (length data) = n
      end
  end.

Inductive step : client → client → Prop :=
| step_io s h o ec data now :
    pending s = Some (h, o) → io_ok o (response_ s) ec data →
    step s (complete h ec now (set_response (response_ s ++ data) (set_pending None s)))
| step_timer s now : waiting s = true → step s (check_deadline now (set_waiting false s)).

Inductive steps : client → client → Prop :=
| steps_refl s : steps s s
| steps_one s s' s'' : steps s s' → step s' s'' → steps s s''.

End handlers.

(** ** The program (Source.cpp)

    One server, a POST request with an empty body and a handler that prints the
    error message. *)

Definition build_request (request ip : chars) (port : Z) (path content : chars) : chars :=
  request ++ text "POST " ++ path ++ text " HTTP/1.1" ++ [CR; LF]
    ++ text "Host: " ++ ip ++ [CR; LF]
    ++ text "Connection: close" ++ [CR; LF]
    ++ text "Content-Length: " ++ print_int (Z.of_nat (length content)) ++ [CR; LF]
    ++ [CR; LF]
    ++ content.

Definition handle_result (err_msg : chars) (cout : chars) : chars :=
  if negb (bool_decide (err_msg = [])) then cout ++ err_msg ++ [LF] else cout.

Definition main_servers : list ServerInfo := [MkServerInfo (text "192.168.1.129", 8080) 3 10].
Definition main_builder (request : chars) (ep : chars * Z) : chars := build_request request ep.1 ep.2 [] [].

(** The states of the program while [ios.run()] calls the handlers, and what it has printed. *)
Definition http_main (status_code0 now : Z) (s : client) : Prop :=
  steps main_servers main_builder status_code0 (start main_servers now new_client) s.
Definition main_output (s : client) : chars := foldl (λ cout r, handle_result (res_error r) cout) [] (results s).
