(* ===== verification/HttpSpec.v ===== *)
(** * What the HTTP client guarantees

    Every reachable state is running with one operation pending and nothing
    reported, or stopped with exactly one report; and a chunked response is
    decoded to the bytes that were sent, however the network cuts it up. *)

From Stdlib Require Import Ascii String.
From stdpp Require Import numbers sets list.
From S2P Require Import Prelude StdText EvTime SString Http.

Local Open Scope Z_scope.

Section once.
Context (endpoints_ : list ServerInfo) (request_sig : chars → chars * Z → chars) (status_code0 : Z).

Definition op_ok (h : handler) : Prop :=
  match h with handle_connect_ iter => (iter < length endpoints_)%nat | _ => True end.

(** Running: one operation, one wait, no report.  Stopped: one report and nothing pending. *)
Definition client_ok (s : client) : Prop :=
  if stopped_ s then pending s = None ∧ length (results s) = 1%nat
  else (∃ h o, pending s = Some (h, o) ∧ op_ok h) ∧ results s = [].

(** Just before a handler runs. *)
Definition idle (s : client) : Prop := stopped_ s = false ∧ pending s = None ∧ results s = [].

Lemma idle_async h o s : idle s → op_ok h → client_ok (async h o s).
Proof. intros (H1 & _ & H3) Hh. unfold client_ok. simpl. rewrite H1. split; [by exists h, o|done]. Qed.

Lemma idle_error m s : idle s → client_ok (signal_error m (stop s)).
Proof. intros (H1 & H2 & H3). unfold client_ok. simpl. by rewrite H2, H3. Qed.

Lemma idle_result s : idle s → client_ok (signal_result (stop s)).
Proof. intros (H1 & H2 & H3). unfold client_ok. simpl. by rewrite H2, H3. Qed.

Lemma start_connect_ok iter now s : idle s → client_ok (start_connect endpoints_ iter now s).
Proof.
  intros Hi. unfold start_connect. destruct (endpoints_ !! iter) as [srv|] eqn:He; [|by apply idle_error].
  apply idle_async; [done|]. simpl. by eapply lookup_lt_Some.
Qed.

Lemma http_content_idle n s b s' : http_content n s = (b, s') → idle s → idle s'.
Proof. unfold http_content. destruct (read_block _ _). intros [= <- <-]. done. Qed.

Lemma complete_ok h ec now s : idle s → op_ok h → client_ok (complete endpoints_ request_sig status_code0 h ec now s).
Proof.
  intros Hi Hh. pose proof Hi as (Hs & _). destruct h as [iter| | | |n| |n]; simpl.
  - unfold handle_connect. rewrite Hs. destruct (socket_open s); simpl; [|by apply start_connect_ok].
    destruct ec; [by apply start_connect_ok|]. destruct (lookup_lt_is_Some_2 endpoints_ iter Hh) as [srv Hsrv]. rewrite Hsrv.
    by apply idle_async.
  - unfold handle_write_request. rewrite Hs. destruct ec; [by apply idle_error|by apply idle_async].
  - unfold handle_read_status_line. rewrite Hs. destruct ec; [by apply idle_error|].
    destruct (http_response_status status_code0 s) as [[v c] s'] eqn:Hr.
    assert (idle s') as Hi'.
    { unfold http_response_status in Hr. destruct (read_word _ _), (read_int _ _ _ _), (read_line _ _). by simplify_eq. }
    destruct (negb _); [by apply idle_error|]. destruct (negb _); [by apply idle_error|by apply idle_async].
  - unfold handle_read_headers. rewrite Hs. destruct ec; [by apply idle_error|].
    destruct (http_headers s) as [[te len] s'] eqn:Hr.
    assert (idle s') as Hi'. { unfold http_headers in Hr. destruct (headers_loop _ _ _ _) as [[??]?]. by simplify_eq. }
    destruct (bool_decide (te = _)); [by apply idle_async|]. destruct (bool_decide (0 < len)); [|by apply idle_error].
    apply idle_async; [|done]. destruct (bool_decide _); [|done].
    destruct (http_content (Z.of_nat (length (response_ s'))) s') as [b s''] eqn:Hc. by apply http_content_idle in Hc.
  - unfold handle_read_content. rewrite Hs. destruct ec as [[|m]|]; [by apply idle_result|by apply idle_error|].
    destruct (http_content _ s) as [b s'] eqn:Hc. apply http_content_idle in Hc; [|done]. by apply idle_async.
  - unfold handle_read_chunk_size. rewrite Hs. destruct ec; [by apply idle_error|].
    destruct (http_chunk_size s) as [z s'] eqn:Hr.
    assert (idle s') as Hi'. { unfold http_chunk_size in Hr. destruct (read_line _ _), (read_int _ _ _ _). by simplify_eq. }
    destruct (bool_decide (0 < z)); [by apply idle_async|by apply idle_result].
  - unfold handle_read_chunk_data. rewrite Hs. destruct ec; [by apply idle_error|].
    destruct (http_chunk_data n s) as [b s'] eqn:Hr.
    assert (idle s') as Hi'. { unfold http_chunk_data in Hr. destruct (read_block _ _), (read_line _ _). by simplify_eq. }
    destruct (negb _); [by apply idle_error|by apply idle_async].
Qed.

Lemma step_ok s s' : client_ok s → step endpoints_ request_sig status_code0 s s' → client_ok s'.
Proof.
  intros Hok Hst. destruct Hst as [s0 h o ec data now Hp Hio|s0 now Hw].
  - unfold client_ok in Hok. destruct (stopped_ s0) eqn:Hs; rewrite ?Hs in Hok; [destruct Hok; congruence|].
    destruct Hok as [(h' & o' & Hp' & Hh) Hr]. rewrite Hp in Hp'. simplify_eq. by apply complete_ok.
  - unfold check_deadline. simpl. unfold client_ok in *. destruct (stopped_ s0) eqn:Hs; [simpl; by rewrite Hs|].
    destruct (match deadline_ s0 with Some t => bool_decide (t <= now) | None => false end); simpl; by rewrite Hs.
Qed.

Lemma start_ok now : client_ok (start endpoints_ now new_client).
Proof.
  unfold start. simpl. pose proof (start_connect_ok 0 now new_client) as H. unfold client_ok in *. simpl in *. by apply H.
Qed.

(** The timer keeps a wait pending as long as the client runs. *)
Lemma reach_ok now s : steps endpoints_ request_sig status_code0 (start endpoints_ now new_client) s → client_ok s.
Proof.
  remember (start endpoints_ now new_client) as s0 eqn:H0. induction 1 as [|s1 s2 s3 _ IH Hst]; [subst; apply start_ok|].
  by eapply step_ok; [apply IH|].
Qed.

Lemma step_stopped s s' : step endpoints_ request_sig status_code0 s s' → pending s = None → stopped_ s = true →
  results s' = results s ∧ stopped_ s' = true ∧ pending s' = None.
Proof.
  intros Hst Hpn Hs. destruct Hst as [s0 h o ec data now Hp Hio|s0 now Hw]; [congruence|]. unfold check_deadline. simpl. by rewrite Hs.
Qed.

End once.

(** ** Chunked transfer *)

Definition crlf : chars := [CR; LF].

Definition encode_chunk (data : chars) : chars := print_nat 16 (Z.of_nat (length data)) ++ crlf ++ data ++ crlf.
Fixpoint encode_chunks (chunks : list chars) (tail : chars) : chars :=
  match chunks with
  | [] => text "0" ++ crlf ++ tail
  | c :: chunks => encode_chunk c ++ encode_chunks chunks tail
  end.

Lemma contains_cons pat c l : contains pat l = true → contains pat (c :: l) = true.
Proof. intros H. cbn [contains]. rewrite H. by rewrite orb_true_r. Qed.

Lemma contains_app pat a b : contains pat (a ++ pat ++ b) = true.
Proof.
  induction a as [|c a IH].
  - simpl. destruct (pat ++ b) as [|c l] eqn:Hl.
    + apply app_eq_nil in Hl as [-> ->]. done.
    + cbn [contains]. rewrite <-Hl, take_app_length. by rewrite bool_decide_true.
  - by apply contains_cons.
Qed.

(** A line that ends where the delimiter was found. *)
Lemma read_line_until l rest : Forall (λ c, c ≠ LF) l → read_line [] (istream_of (l ++ LF :: rest)) = (l, istream_of rest).
Proof.
  intros Hl. unfold read_line. simpl. rewrite (span_intro _ l (LF :: rest)); [done| |done].
  eapply Forall_impl; [exact Hl|]. intros c Hc. simpl. by rewrite bool_decide_false.
Qed.

Lemma hex_no_lf n : 0 ≤ n → Forall (λ c, c ≠ LF) (print_nat 16 n ++ [CR]).
Proof.
  intros Hn. apply Forall_app. split; [|repeat constructor; done]. destruct (print_nat_spec 16 n) as (_ & Hd & _); [lia|done|].
  eapply Forall_impl; [exact Hd|]. intros c Hc ->. by apply digit_value_some in Hc as (? & ? & _).
Qed.

(** A numeral in front of a carriage return. *)
Lemma scan_int_cr t base l :
  base ≤ 16 → l ≠ [] → Forall (λ c, is_digit base c) l →
  scan_int t base (l ++ [CR]) = (num_store t false (digits_value base l), [CR]).
Proof.
  intros Hb Hne Hd. destruct l as [|c l]; [done|]. pose proof Hd as Hd0. apply Forall_cons in Hd as [Hc Hd].
  destruct (digit_no_sign base c Hc) as [H1 H2]. unfold scan_int.
  assert (scan_sign ((c :: l) ++ [CR]) = (false, (c :: l) ++ [CR])) as ->.
  { simpl. by rewrite !bool_decide_false. }
  assert (scan_prefix base ((c :: l) ++ [CR]) = (c :: l) ++ [CR]) as ->.
  { destruct l as [|d l]; simpl; [by rewrite andb_false_r|]. apply Forall_cons in Hd as [Hd' _].
    rewrite (bool_decide_false (d = "x"%char)), (bool_decide_false (d = "X"%char)); [by rewrite andb_false_r|..];
      intros ->; by apply digit_value_some in Hd' as (? & ? & _). }
  by rewrite (span_intro (is_digit base) (c :: l) [CR]).
Qed.

(** The size line of a chunk is read as its size. *)
Lemma read_hex n :
  0 ≤ n < 2 ^ 64 → read_int size_type 16 0 (istream_of (print_nat 16 n ++ [CR])) = (n, IStream [CR] false false).
Proof.
  intros Hn. destruct (print_nat_spec 16 n) as (Hv & Hd & Hne & _); [lia|lia|].
  assert (skipws (print_nat 16 n ++ [CR]) = print_nat 16 n ++ [CR]) as Hsk.
  { destruct (print_nat 16 n) as [|c l]; [done|]. apply Forall_cons in Hd as [Hc _]. unfold skipws. simpl.
    by rewrite (digit_no_space 16 c). }
  pose proof (scan_int_cr size_type 16 (print_nat 16 n) ltac:(lia) Hne Hd) as Hscan. rewrite Hv in Hscan.
  unfold num_store in Hscan. simpl it_min in Hscan. simpl it_max in Hscan.
  rewrite (bool_decide_true (0 = 0)), (bool_decide_false (2 ^ 64 - 1 < n)) in Hscan by lia.
  unfold read_int, sentry_ws. cbn [is_good is_data is_eof is_fail istream_of negb andb]. rewrite Hsk.
  destruct (print_nat 16 n ++ [CR]) as [|c l] eqn:Hl; [by destruct (print_nat 16 n)|]. cbn [is_data]. rewrite Hscan. done.
Qed.

(** What has arrived of [line ++ crlf ++ rest] once a line end is in it. *)
Lemma prefix_line (got net line rest : chars) :
  got ++ net = line ++ crlf ++ rest → Forall (λ c, c ≠ LF) line → contains crlf got = true →
  ∃ got', got = line ++ crlf ++ got' ∧ got' ++ net = rest.
Proof.
  intros Heq Hl Hc. destruct (decide (length line + 2 ≤ length got)%nat) as [Hlen|Hlen].
  - exists (drop (length line + 2) got). assert (take (length line + 2) got = line ++ crlf) as Ht.
    { assert (take (length line + 2) (got ++ net) = line ++ crlf) as H.
      { rewrite Heq, app_assoc. replace (length line + 2)%nat with (length (line ++ crlf)) by (by rewrite length_app).
        by rewrite take_app_length. }
      by rewrite take_app_le in H. }
    rewrite app_assoc, <-Ht, take_drop. split; [done|]. apply (app_inv_head (line ++ crlf)).
    rewrite app_assoc, <-Ht, take_drop, Ht, <-app_assoc. done.
  - exfalso. assert (LF ∈ got) as Hin.
    { clear -Hc. induction got as [|c got IH]; [done|]. cbn [contains] in Hc. apply orb_true_iff in Hc as [Hc|Hc].
      - apply bool_decide_eq_true in Hc. destruct got as [|d got]; [done|]. injection Hc as -> ->. rewrite !elem_of_cons. tauto.
      - apply elem_of_cons. right. by apply IH. }
    assert (got = take (length got) (line ++ [CR])) as Hg.
    { rewrite <-(take_app_length got net) at 1. rewrite Heq. change (crlf ++ rest) with ([CR] ++ LF :: rest). rewrite app_assoc.
      rewrite take_app_le by (rewrite length_app; simpl; lia). done. }
    rewrite Hg in Hin. apply elem_of_take in Hin as (j & Hj & _). apply list_elem_of_lookup_2 in Hj.
    apply elem_of_app in Hj as [Hj|Hj]; [rewrite Forall_forall in Hl; by apply (Hl LF)|].
    by apply list_elem_of_singleton in Hj.
Qed.

(** ** The head of a response *)

(** The reason phrase and the header lines around the one that says the body is chunked. *)
Record head := Head { reason : chars; before : list chars; after : list chars }.

Definition plain (l : chars) : Prop := Forall (λ c, c ≠ CR ∧ c ≠ LF) l.
Definition other_header (l : chars) : Prop := l ≠ [] ∧ plain l ∧ contains (text "Transfer-Encoding") l = false.
Definition head_ok (rh : head) : Prop :=
  plain (reason rh) ∧ Forall other_header (before rh) ∧ Forall other_header (after rh).

Definition status_line (rh : head) : chars := text "HTTP/1.1 200 " ++ reason rh.
Definition header_line : chars := text "Transfer-Encoding: chunked".
Definition lines (hs : list chars) : chars := concat (map (λ l, l ++ crlf) hs).
Definition headers (rh : head) : list chars := before rh ++ header_line :: after rh.

Lemma plain_no_lf l : plain l → Forall (λ c, c ≠ LF) l.
Proof. intros H. eapply Forall_impl; [exact H|]. by intros c [_ ?]. Qed.

Lemma headers_plain rh : head_ok rh → Forall (λ l, l ≠ [] ∧ plain l) (headers rh).
Proof.
  intros (_ & H1 & H2). unfold headers. rewrite Forall_app, Forall_cons.
  split_and!; [|done|by apply (bool_decide_unpack _); vm_compute|]; (eapply Forall_impl; [eassumption|]); unfold other_header; naive_solver.
Qed.

Lemma contains_split pat l : contains pat l = true → ∃ a b, l = a ++ pat ++ b.
Proof.
  induction l as [|c l IH]; cbn [contains]; intros H; apply orb_true_iff in H as [H|H]; try done.
  - apply bool_decide_eq_true in H. exists [], (drop (length pat) []). simpl. rewrite <-H at 1. by rewrite take_drop.
  - apply bool_decide_eq_true in H. exists [], (drop (length pat) (c :: l)). simpl app. rewrite <-H at 1. by rewrite take_drop.
  - destruct (IH H) as (a & b & ->). by exists (c :: a), b.
Qed.

Lemma contains_false_split pat l : contains pat l = false → ∀ a b, l ≠ a ++ pat ++ b.
Proof. intros H a b ->. by rewrite contains_app in H. Qed.

(** A line end behind a line brings no occurrence of a name into it. *)
Lemma contains_snoc pat l c : c ∉ pat → pat ≠ [] → contains pat l = false → contains pat (l ++ [c]) = false.
Proof.
  intros Hc Hne Hf. apply not_true_is_false. intros (a & b & Heq)%contains_split.
  destruct b as [|d b _] using rev_ind.
  - rewrite app_nil_r in Heq. destruct pat as [|p pat _] using rev_ind; [done|]. rewrite app_assoc in Heq.
    apply app_inj_2 in Heq as [_ Heq]; [|done]. injection Heq as ->. apply Hc. set_solver.
  - rewrite !app_assoc in Heq. apply app_inj_2 in Heq as [-> _]; [|done]. rewrite <-app_assoc in Hf. by rewrite contains_app in Hf.
Qed.

Lemma lines_end hs : hs ≠ [] → ∃ y, lines hs = y ++ crlf.
Proof.
  destruct hs as [|l hs _] using rev_ind; [done|]. intros _. exists (lines hs ++ l). unfold lines. rewrite map_app, concat_app. simpl.
  by rewrite app_nil_r, app_assoc.
Qed.

(** The first empty line is the one behind the headers. *)
Lemma header_end hs a z rest :
  Forall (λ l, l ≠ [] ∧ plain l) hs → hs ≠ [] → a ++ crlf ++ crlf ++ z = lines hs ++ crlf ++ rest →
  (length (lines hs) ≤ length a + 2)%nat.
Proof.
  revert a. induction hs as [|l hs IH]; intros a Hhs Hne Heq; [done|]. apply Forall_cons in Hhs as [[Hl Hpl] Hhs].
  unfold lines in *. cbn [map concat] in *. rewrite <-!app_assoc in Heq. rewrite !length_app. change (length crlf) with 2%nat.
  assert (∀ i c, (a ++ crlf ++ crlf ++ z) !! i = Some c → (l ++ crlf ++ concat (map (λ l, l ++ crlf) hs) ++ crlf ++ rest) !! i = Some c) as Hi
    by (intros i c; by rewrite Heq).
  assert ((a ++ crlf ++ crlf ++ z) !! length a = Some CR) as Hcr by (by rewrite lookup_app_r, Nat.sub_diag by lia).
  apply Hi in Hcr. destruct (decide (length a < length l)%nat) as [Hlt|Hge].
  { rewrite lookup_app_l in Hcr by done. apply list_elem_of_lookup_2 in Hcr. unfold plain in Hpl. rewrite Forall_forall in Hpl. by destruct (Hpl _ Hcr). }
  destruct (decide (length a = length l)) as [Hal|Hne1].
  { destruct hs as [|l' hs]; [simpl; lia|]. exfalso. apply Forall_cons in Hhs as [[Hl' Hpl'] _].
    assert (a = l) as -> by (apply app_inj_1 in Heq as [? _]; done). apply app_inv_head in Heq.
    apply app_inv_head in Heq. destruct l' as [|c l']; [done|]. injection Heq as <- _. apply Forall_cons in Hpl' as [[? _] _]. done. }
  destruct (decide (length a = S (length l))) as [Hal|Hne2].
  { rewrite lookup_app_r in Hcr by lia. rewrite Hal in Hcr. by replace (S (length l) - length l)%nat with 1%nat in Hcr by lia. }
  destruct hs as [|l' hs]; [simpl; lia|]. set (T := concat _) in *.
  assert (a = (l ++ crlf) ++ drop (length l + 2) a) as Ha.
  { rewrite <-(take_drop (length l + 2) a) at 1. f_equal. assert (take (length l + 2) (a ++ crlf ++ crlf ++ z) = l ++ crlf) as Ht.
    { rewrite Heq, app_assoc. replace (length l + 2)%nat with (length (l ++ crlf)) by (rewrite length_app; done). by rewrite take_app_length. }
    by rewrite take_app_le in Ht by lia. }
  rewrite Ha, <-!app_assoc in Heq. apply app_inv_head in Heq. apply app_inv_head in Heq. apply IH in Heq; [|done..].
  rewrite length_drop in Heq. lia.
Qed.

(** ** A server that answers *)

Section chunked.
Context (endpoints_ : list ServerInfo) (request_sig : chars → chars * Z → chars) (status_code0 : Z).

(** One completed operation without errors; [net] is what the server has sent and the client
    has not received, and the operation takes any amount of it that Asio's contract allows. *)
Inductive deliver : client * chars → client * chars → Prop :=
| deliver_io s h o data net now :
    pending s = Some (h, o) → io_ok o (response_ s) None data →
    deliver (s, data ++ net) (complete endpoints_ request_sig status_code0 h None now (set_response (response_ s ++ data) (set_pending None s)), net).

(** [n] completed operations. *)
Inductive delivers : nat → client * chars → client * chars → Prop :=
| delivers_0 x : delivers 0 x x
| delivers_S n x y z : delivers n x y → deliver y z → delivers (S n) x z.

Definition total (chunks : list chars) : Z := Z.of_nat (length (concat chunks)).

(** The response: status line, headers, the chunks, and anything behind them. *)
Definition message (rh : head) (chunks : list chars) (tail : chars) : chars :=
  status_line rh ++ crlf ++ lines (headers rh) ++ crlf ++ encode_chunks chunks tail.

Context (rh : head) (chunks : list chars) (tail : chars).

(** Running, with [done] received so far. *)
Definition running (h : handler) (o : io) (done : list chars) (s : client) : Prop :=
  stopped_ s = false ∧ results s = [] ∧ pending s = Some (h, o) ∧ content_ s = done ∧ content_length_ s = total done.

(** The stages of a successful exchange, with the number of operations still to come. *)
Inductive stage : nat → client * chars → Prop :=
| at_connect ep srv s :
    endpoints_ !! 0%nat = Some srv → running (handle_connect_ 0) (async_connect ep) [] s → socket_open s = true → response_ s = [] →
    stage (2 * length chunks + 5) (s, message rh chunks tail)
| at_write d s :
    running handle_write_request_ (async_write d) [] s → response_ s = [] →
    stage (2 * length chunks + 4) (s, message rh chunks tail)
| at_status s net :
    running handle_read_status_line_ (async_read_until crlf) [] s → response_ s ++ net = message rh chunks tail →
    stage (2 * length chunks + 3) (s, net)
| at_headers s net :
    running handle_read_headers_ (async_read_until (crlf ++ crlf)) [] s →
    response_ s ++ net = lines (headers rh) ++ crlf ++ encode_chunks chunks tail →
    stage (2 * length chunks + 2) (s, net)
| at_size s net done todo :
    running handle_read_chunk_size_ (async_read_until crlf) done s → chunks = done ++ todo →
    response_ s ++ net = encode_chunks todo tail →
    stage (2 * length todo + 1) (s, net)
| at_data s net done c todo n :
    running (handle_read_chunk_data_ (Z.of_nat (length c))) (async_read_exactly n) done s → chunks = done ++ c :: todo →
    response_ s ++ net = c ++ crlf ++ encode_chunks todo tail →
    n = Z.max 0 (Z.of_nat (length c) + 2 - Z.of_nat (length (response_ s))) →
    stage (2 * length todo + 2) (s, net)
| at_end s net :
    stopped_ s = true → pending s = None → results s = [MkResult chunks (total chunks) []] →
    stage 0 (s, net).

(** Chunks are not empty and the whole body is smaller than 2 GB. *)
Definition body_ok : Prop :=
  Forall (λ c, c ≠ []) chunks ∧ Z.of_nat (length (encode_chunks chunks tail)) + 2 < 2 ^ 31.

Lemma encode_done done todo : (length (encode_chunks todo tail) ≤ length (encode_chunks (done ++ todo) tail))%nat.
Proof. induction done as [|c done IH]; simpl; [done|]. rewrite length_app. lia. Qed.

Lemma running_async h o h' o' done s x :
  running h o done s → running h' o' done (async h' o' (set_response x (set_pending None s))).
Proof. intros (H1 & H2 & _ & H4 & H5). done. Qed.

(** Each completed operation brings the exchange one stage further. *)
Lemma stage_size s net done todo data now net' :
  body_ok → running handle_read_chunk_size_ (async_read_until crlf) done s → chunks = done ++ todo →
  response_ s ++ net = encode_chunks todo tail → net = data ++ net' → contains crlf (response_ s ++ data) = true →
  stage (2 * length todo) (complete endpoints_ request_sig status_code0 handle_read_chunk_size_ None now (set_response (response_ s ++ data) (set_pending None s)), net').
Proof.
  intros [Hne Hlen] Hrun Hch Hnet Hd Hc. pose proof Hrun as (Hs & Hr & Hp & Hcont & Hcl). rewrite Hd, app_assoc in Hnet.
  set (size := match todo with [] => 0 | c :: _ => Z.of_nat (length c) end).
  set (rest := match todo with [] => tail | c :: todo' => c ++ crlf ++ encode_chunks todo' tail end).
  assert (encode_chunks todo tail = print_nat 16 size ++ crlf ++ rest) as Henc.
  { destruct todo as [|c todo']; [done|]. simpl. unfold encode_chunk. by rewrite <-!app_assoc. }
  assert (Z.of_nat (length (encode_chunks todo tail)) + 2 < 2 ^ 31) as Hlen'.
  { pose proof (encode_done done todo). rewrite <-Hch in *. lia. }
  rewrite Henc in Hnet. assert (0 ≤ size < 2 ^ 31 - 2) as Hsize.
  { rewrite Henc, !length_app in Hlen'. unfold size, rest in *. destruct todo; [lia|]. rewrite length_app in Hlen'. lia. }
  assert (Forall (λ c, c ≠ LF) (print_nat 16 size)) as Hlf.
  { pose proof (hex_no_lf size ltac:(lia)) as H. by apply Forall_app in H as [H _]. }
  destruct (prefix_line _ _ _ _ Hnet Hlf Hc) as (got & Hgot & Hgn).
  simpl complete. unfold handle_read_chunk_size. simpl stopped_. rewrite Hs. unfold http_chunk_size. cbn [response_ set_response].
  rewrite Hgot. change (crlf ++ got) with ([CR] ++ LF :: got). rewrite app_assoc.
  rewrite read_line_until by (apply hex_no_lf; lia). rewrite read_hex by lia. cbn [is_data istream_of].
  destruct todo as [|c todo']; unfold size, rest in *.
  - rewrite bool_decide_false by lia. rewrite app_nil_r in Hch. apply at_end; simpl; [done|done|].
    by rewrite Hr, Hcont, Hcl, Hch.
  - assert (c ≠ []) as Hcne. { rewrite Hch in Hne. apply Forall_app in Hne as [_ Hne]. by apply Forall_cons in Hne as [? _]. }
    rewrite bool_decide_true by (destruct c; [done|]; simpl; lia).
    replace (2 * length (c :: todo'))%nat with (2 * length todo' + 2)%nat by (simpl; lia).
    assert (length got ≤ length (c ++ crlf ++ encode_chunks todo' tail))%nat as Hgl by (rewrite <-Hgn, length_app; lia).
    rewrite Henc, !length_app in Hlen'. rewrite !length_app in Hgl. simpl length in Hlen', Hgl.
    rewrite ?length_app in Hlen'.
    eapply (at_data _ _ done c todo'); [|done|exact Hgn|].
    + split_and!; simpl; [done|done|done|done|done].
    + cbn [response_ set_response async set_pending]. unfold s32. rewrite Z.mod_small by lia.
      match goal with |- context [bool_decide ?P] => destruct (bool_decide_reflect P) end; lia.
Qed.

Lemma stage_data s net done c todo n data now net' :
  body_ok → running (handle_read_chunk_data_ (Z.of_nat (length c))) (async_read_exactly n) done s → chunks = done ++ c :: todo →
  response_ s ++ net = c ++ crlf ++ encode_chunks todo tail →
  n = Z.max 0 (Z.of_nat (length c) + 2 - Z.of_nat (length (response_ s))) →
  net = data ++ net' → Z.of_nat (length data) = n →
  stage (2 * length todo + 1)
    (complete endpoints_ request_sig status_code0 (handle_read_chunk_data_ (Z.of_nat (length c))) None now (set_response (response_ s ++ data) (set_pending None s)), net').
Proof.
  intros [Hne Hlen] Hrun Hch Hnet Hn Hd Hdl. pose proof Hrun as (Hs & Hr & Hp & Hcont & Hcl). rewrite Hd, app_assoc in Hnet.
  assert (∃ got, response_ s ++ data = c ++ crlf ++ got ∧ got ++ net' = encode_chunks todo tail) as (got & Hgot & Hgn).
  { set (P := response_ s ++ data) in *. assert (length c + 2 ≤ length P)%nat as HP by (unfold P; rewrite length_app; lia).
    exists (drop (length c + 2) P). assert (take (length c + 2) P = c ++ crlf) as Ht.
    { assert (take (length c + 2) (P ++ net') = c ++ crlf) as H.
      { rewrite Hnet, app_assoc. replace (length c + 2)%nat with (length (c ++ crlf)) by (by rewrite length_app).
        by rewrite take_app_length. }
      by rewrite take_app_le in H. }
    rewrite app_assoc, <-Ht, take_drop. split; [done|]. apply (app_inv_head (c ++ crlf)).
    rewrite app_assoc, <-Ht, take_drop, Ht, <-app_assoc. done. }
  simpl complete. unfold handle_read_chunk_data. simpl stopped_. rewrite Hs. unfold http_chunk_data. cbn [response_ set_response].
  rewrite Hgot, Nat2Z.id. unfold read_block. cbn [is_good is_eof is_fail istream_of negb andb is_data].
  rewrite bool_decide_false by (rewrite length_app; lia). rewrite take_app_length, drop_app_length.
  change (IStream (crlf ++ got) false false) with (istream_of ([CR] ++ LF :: got)).
  rewrite read_line_until by (by repeat constructor). cbn [is_data istream_of]. rewrite bool_decide_true by done. simpl negb.
  eapply (at_size _ _ (done ++ [c])); [|by rewrite Hch, <-app_assoc|exact Hgn].
  split_and!; simpl; [done|done|done|by rewrite Hcont|]. rewrite Hcl. unfold total. rewrite concat_app, length_app. simpl. rewrite app_nil_r.
  rewrite Z.mod_small; [lia|]. split; [lia|].
  assert (length (concat done) + length c ≤ length (encode_chunks chunks tail))%nat; [|lia].
  rewrite Hch. clear. induction done as [|x done IH]; simpl.
  - unfold encode_chunk. rewrite !length_app. lia.
  - unfold encode_chunk. rewrite !length_app. lia.
Qed.

(** The status line. *)
Lemma status_read got s :
  plain (reason rh) → response_ s = status_line rh ++ crlf ++ got →
  http_response_status status_code0 s = (text "HTTP/1.1", 200, set_response got s).
Proof.
  intros Hp H. unfold http_response_status. rewrite H. unfold status_line.
  rewrite <-app_assoc. set (T := " "%char :: reason rh ++ crlf ++ got).
  change (text "HTTP/1.1 200 " ++ reason rh ++ crlf ++ got) with (text "HTTP/1.1 200" ++ T).
  change (read_word [] (istream_of (text "HTTP/1.1 200" ++ T))) with (text "HTTP/1.1", istream_of (text " 200" ++ T)).
  cbv beta iota. change (read_int uint_t 10 status_code0 (istream_of (text " 200" ++ T))) with (200, istream_of T). cbv beta iota.
  replace T with ((" "%char :: reason rh ++ [CR]) ++ LF :: got) by (unfold T; simpl; by rewrite <-app_assoc).
  rewrite read_line_until; [done|]. constructor; [done|]. apply Forall_app. split; [by apply plain_no_lf|by repeat constructor].
Qed.

Lemma stage_status s net data now net' :
  head_ok rh → running handle_read_status_line_ (async_read_until crlf) [] s → response_ s ++ net = message rh chunks tail →
  net = data ++ net' → contains crlf (response_ s ++ data) = true →
  stage (2 * length chunks + 2)
    (complete endpoints_ request_sig status_code0 handle_read_status_line_ None now (set_response (response_ s ++ data) (set_pending None s)), net').
Proof.
  intros (Hp1 & _) Hrun Hnet Hd Hc. pose proof Hrun as (Hs & Hr & Hp & Hcont & Hcl). rewrite Hd, app_assoc in Hnet.
  destruct (prefix_line _ _ (status_line rh) _ Hnet) as (got & Hgot & Hgn); [|done|].
  { apply Forall_app. split; [by apply (bool_decide_unpack _); vm_compute|by apply plain_no_lf]. }
  simpl complete. unfold handle_read_status_line. simpl stopped_. rewrite Hs, (status_read got) by done.
  rewrite (bool_decide_true (200 = 200)) by done. rewrite bool_decide_true by done. simpl negb.
  apply at_headers; [|exact Hgn]. split_and!; done.
Qed.

(** The headers. *)
Lemma prefix_headers (got net rest : chars) :
  head_ok rh → got ++ net = lines (headers rh) ++ crlf ++ rest → contains (crlf ++ crlf) got = true →
  ∃ got', got = lines (headers rh) ++ crlf ++ got' ∧ got' ++ net = rest.
Proof.
  intros Hok Heq (a & b & Hgot)%contains_split. set (L := lines (headers rh) ++ crlf).
  assert (got ++ net = L ++ rest) as HL by (rewrite Heq; unfold L; by rewrite <-!app_assoc).
  assert (length L ≤ length got)%nat as Hlen.
  { assert (length (lines (headers rh)) ≤ length a + 2)%nat as H.
    { apply (header_end _ _ (b ++ net) rest); [by apply headers_plain|by unfold headers; destruct (before rh)|]. rewrite <-Heq, Hgot, <-!app_assoc. done. }
    unfold L. rewrite Hgot, !length_app. simpl. lia. }
  exists (drop (length L) got). assert (take (length L) got = L) as Ht.
  { assert (take (length L) (got ++ net) = L) as H by (by rewrite HL, take_app_length). by rewrite take_app_le in H. }
  split.
  - transitivity (L ++ drop (length L) got); [|unfold L; by rewrite <-!app_assoc]. rewrite <-Ht at 1. by rewrite take_drop.
  - apply (app_inv_head L). rewrite app_assoc, <-HL. f_equal. rewrite <-Ht at 1. by rewrite take_drop.
Qed.

(** One turn of the header loop. *)
Lemma headers_loop_other l T fuel te len :
  other_header l → ∃ len', headers_loop (S fuel) (istream_of ((l ++ crlf) ++ T)) te len = headers_loop fuel (istream_of T) te len'.
Proof.
  intros (Hne & Hpl & Hc). cbn [headers_loop]. rewrite <-app_assoc. change (crlf ++ T) with ([CR] ++ LF :: T). rewrite app_assoc.
  rewrite read_line_until by (apply Forall_app; split; [by apply plain_no_lf|by repeat constructor]). cbv beta iota.
  rewrite (bool_decide_false (l ++ [CR] = [CR])) by (destruct l as [|? [|]]; done). cbn [is_fail istream_of orb].
  rewrite contains_snoc; [|by apply (bool_decide_unpack _); vm_compute|done|done].
  destruct (contains (text "Content-Length") (l ++ [CR])); [|by exists len].
  destruct (read_word [] (istream_of (l ++ [CR]))) as [w hs]. destruct (read_int size_type 10 len hs) as [len' hs']. by exists len'.
Qed.

Lemma headers_loop_others hs T fuel te : ∀ len,
  Forall other_header hs → ∃ len', headers_loop (length hs + fuel) (istream_of (lines hs ++ T)) te len = headers_loop fuel (istream_of T) te len'.
Proof.
  induction hs as [|l hs IH]; intros len Hhs; [by exists len|]. apply Forall_cons in Hhs as [Hl Hhs].
  unfold lines. cbn [map concat length Nat.add]. rewrite <-(app_assoc (l ++ crlf)).
  destruct (headers_loop_other l (concat (map (λ l, l ++ crlf) hs) ++ T) (length hs + fuel) te len Hl) as [len1 ->]. by apply IH.
Qed.

Lemma headers_read got s :
  head_ok rh → response_ s = lines (headers rh) ++ crlf ++ got → ∃ len, http_headers s = (text "chunked", len, set_response got s).
Proof.
  intros (_ & Hb & Ha) H. unfold http_headers. rewrite H.
  assert (length (before rh) + S (length (after rh) + 1) ≤ S (length (lines (headers rh) ++ crlf ++ got)))%nat as Hfuel.
  { assert (∀ hs, length hs ≤ length (lines hs))%nat as Hln.
    { intros hs. unfold lines. induction hs as [|l hs IH]; [done|]. simpl. rewrite !length_app. simpl. lia. }
    pose proof (Hln (headers rh)) as H1. unfold headers in H1 at 1. rewrite length_app in *. simpl in *. lia. }
  set (n := S (length (lines (headers rh) ++ crlf ++ got))) in *. set (m := (n - (length (before rh) + S (length (after rh) + 1)))%nat).
  replace n with (length (before rh) + S (length (after rh) + S m))%nat by (unfold m; lia).
  unfold headers, lines. rewrite map_app, concat_app. cbn [map concat]. rewrite <-!app_assoc.
  destruct (headers_loop_others (before rh) (header_line ++ crlf ++ lines (after rh) ++ crlf ++ got) (S (length (after rh) + S m)) [] 0 Hb) as [len1 H1].
  unfold lines in H1. rewrite H1. clear H1.
  change (header_line ++ crlf ++ ?T) with ((header_line ++ [CR]) ++ LF :: T).
  cbn [headers_loop]. rewrite read_line_until by (by apply (bool_decide_unpack _); vm_compute).
  change (is_fail (istream_of ?T)) with false. cbv beta iota.
  replace (contains (text "Transfer-Encoding") (header_line ++ [CR])) with true by (by vm_compute).
  replace (bool_decide (header_line ++ [CR] = [CR])) with false by (by vm_compute). cbn [orb].
  change (read_word [] (istream_of (header_line ++ [CR]))) with (text "Transfer-Encoding:", istream_of (text " chunked" ++ [CR])). cbv beta iota.
  change (read_word [] (istream_of (text " chunked" ++ [CR]))) with (text "chunked", istream_of [CR]). cbv beta iota.
  destruct (headers_loop_others (after rh) (crlf ++ got) (S m) (text "chunked") len1 Ha) as [len2 H2]. unfold lines in H2. rewrite H2. clear H2.
  exists len2. cbn [headers_loop]. change (crlf ++ got) with ([CR] ++ LF :: got). rewrite read_line_until by (by repeat constructor).
  change (is_fail (istream_of got)) with false. by rewrite (bool_decide_true ([CR] = [CR])).
Qed.

Lemma stage_headers s net data now net' :
  head_ok rh → running handle_read_headers_ (async_read_until (crlf ++ crlf)) [] s →
  response_ s ++ net = lines (headers rh) ++ crlf ++ encode_chunks chunks tail →
  net = data ++ net' → contains (crlf ++ crlf) (response_ s ++ data) = true →
  stage (2 * length chunks + 1)
    (complete endpoints_ request_sig status_code0 handle_read_headers_ None now (set_response (response_ s ++ data) (set_pending None s)), net').
Proof.
  intros Hok Hrun Hnet Hd Hc. pose proof Hrun as (Hs & Hr & Hp & Hcont & Hcl). rewrite Hd, app_assoc in Hnet.
  destruct (prefix_headers _ _ _ Hok Hnet Hc) as (got & Hgot & Hgn). simpl complete. unfold handle_read_headers. simpl stopped_. rewrite Hs.
  destruct (headers_read got (set_response (response_ s ++ data) (set_pending None s)) Hok) as [len ->]; [done|].
  rewrite (bool_decide_true (text "chunked" = text "chunked")) by done.
  apply (at_size _ _ []); [|done|exact Hgn]. split_and!; done.
Qed.

Lemma stage_step k x y : head_ok rh → body_ok → stage k x → deliver x y → ∃ k', (k' < k)%nat ∧ stage k' y.
Proof.
  intros Hok Hb Hst Hdl. destruct Hdl as [s h o data net now Hp Hio]. inversion Hst as
    [ep srv s0 Hsrv Hrun Hopen Hresp|d s0 Hrun Hresp|s0 net0 Hrun Hnet|s0 net0 Hrun Hnet|s0 net0 done todo Hrun Hch Hnet|
     s0 net0 done c todo n Hrun Hch Hnet Hn|s0 net0 Hs0 Hp0]; subst s0;
    try (pose proof Hrun as (Hs & Hr & Hp' & Hcont & Hcl); rewrite Hp in Hp'; injection Hp' as -> ->; simpl in Hio).
  - subst data. exists (2 * length chunks + 4)%nat. split; [lia|]. simpl in *. subst net. unfold handle_connect. simpl.
    rewrite Hs, Hopen, Hsrv. simpl. eapply at_write; [|simpl; by rewrite app_nil_r]. split_and!; done.
  - subst data. exists (2 * length chunks + 3)%nat. split; [lia|]. simpl in *. subst net. unfold handle_write_request. simpl.
    rewrite Hs. apply at_status; [split_and!; done|]. simpl. rewrite app_nil_r, Hresp. done.
  - exists (2 * length chunks + 2)%nat. split; [lia|]. by eapply stage_status.
  - exists (2 * length chunks + 1)%nat. split; [lia|]. by eapply stage_headers.
  - exists (2 * length todo)%nat. split; [lia|]. by eapply stage_size.
  - exists (2 * length todo + 1)%nat. split; [lia|]. eapply stage_data; try done.
  - congruence.
Qed.

(** Until the end there is always enough on the way for the next operation. *)
Lemma stage_progress k s net : body_ok → stage k (s, net) → k = 0%nat ∨ ∃ y, deliver (s, net) y.
Proof.
  intros [Hne _] Hst.
  assert (∀ h o data, pending s = Some (h, o) → io_ok o (response_ s) None data → (∃ net', net = data ++ net') → ∃ y, deliver (s, net) y) as Hgo.
  { intros h o data Hp Hio [net' ->]. eexists. by apply (deliver_io s h o data net' 0). }
  inversion Hst as
    [ep srv s0 Hsrv Hrun Hopen Hresp|d s0 Hrun Hresp|s0 net0 Hrun Hnet|s0 net0 Hrun Hnet|s0 net0 done todo Hrun Hch Hnet|
     s0 net0 done c todo n Hrun Hch Hnet Hn|s0 net0 Hs0 Hp0]; subst; try (destruct Hrun as (Hs & Hr & Hp & Hcont & Hcl)); [right..|by left].
  - eapply (Hgo _ _ []); [exact Hp|done|by eexists].
  - eapply (Hgo _ _ []); [exact Hp|done|by eexists].
  - eapply (Hgo _ _ net); [exact Hp| |exists []; by rewrite app_nil_r]. simpl. rewrite Hnet. apply contains_app.
  - eapply (Hgo _ _ net); [exact Hp| |exists []; by rewrite app_nil_r]. cbn [io_ok]. rewrite Hnet.
    destruct (lines_end (headers rh)) as [y ->]; [by unfold headers; destruct (before rh)|]. rewrite <-app_assoc, (app_assoc crlf crlf). apply contains_app.
  - eapply (Hgo _ _ net); [exact Hp| |exists []; by rewrite app_nil_r]. cbn [io_ok]. rewrite Hnet.
    destruct todo as [|c todo]; [apply contains_app|]. simpl. unfold encode_chunk. rewrite <-!app_assoc. apply contains_app.
  - assert (Z.max 0 (Z.of_nat (length c) + 2 - Z.of_nat (length (response_ s))) ≤ Z.of_nat (length net)) as Hl.
    { assert (length (response_ s ++ net) = length (c ++ crlf ++ encode_chunks todo tail)) as H by (by rewrite Hnet).
      rewrite !length_app in H. simpl in H. lia. }
    eapply (Hgo _ _ (take (Z.to_nat (Z.max 0 (Z.of_nat (length c) + 2 - Z.of_nat (length (response_ s))))) net)); [exact Hp| |].
    + cbn [io_ok]. rewrite length_take. lia.
    + exists (drop (Z.to_nat (Z.max 0 (Z.of_nat (length c) + 2 - Z.of_nat (length (response_ s))))) net). by rewrite take_drop.
Qed.

Lemma stage_start srv rest now :
  endpoints_ = srv :: rest → stage (2 * length chunks + 5) (start endpoints_ now new_client, message rh chunks tail).
Proof.
  intros He. unfold start, start_connect. rewrite He. simpl. eapply at_connect; [by rewrite He|..]; try done.
Qed.

Lemma delivers_stage n k x y : head_ok rh → body_ok → stage k x → delivers n x y → ∃ k', (k' + n ≤ k)%nat ∧ stage k' y.
Proof.
  intros Hok Hb Hst Hd. induction Hd as [x|n x y z Hd IH Hdl]; [exists k; split; [lia|done]|].
  destruct (IH Hst) as (k1 & Hk1 & Hst1). destruct (stage_step k1 y z Hok Hb Hst1 Hdl) as (k2 & Hk2 & Hst2).
  exists k2. split; [lia|done].
Qed.

Lemma stage_zero x : stage 0 x → stopped_ x.1 = true ∧ results x.1 = [MkResult chunks (total chunks) []].
Proof. intros H. inversion H; subst; simpl; try lia; done. Qed.

End chunked.

(** ** The program *)

Definition main_request : chars :=
  concat (map (λ l, text l ++ [CR; LF])
    ["POST  HTTP/1.1"; "Host: 192.168.1.129"; "Connection: close"; "Content-Length: 0"; ""]%string).

(** What the program may ask of the network: to connect to its server and to write its request. *)
Definition main_io (o : io) : Prop :=
  match o with
  | async_connect ep => ep = (text "192.168.1.129", 8080)
  | async_write d => d = main_request
  | _ => True
  end.

(** The request is built once, from the empty buffer. *)
Definition request_ok (s : client) : Prop :=
  match pending s with
  | Some (h, o) => main_io o ∧ match h with handle_connect_ _ => request_ s = [] | _ => True end
  | None => True
  end.

Lemma main_start_connect iter now s : request_ s = [] → pending s = None → request_ok (start_connect main_servers iter now s).
Proof. intros Hr Hp. unfold request_ok. destruct iter as [|[|iter]]; simpl; by rewrite ?Hp. Qed.

Ltac no_request :=
  unfold request_ok, http_response_status, http_headers, http_chunk_size, http_chunk_data, http_content;
  repeat (simpl; case_match; simplify_eq/=); try done; congruence.

Lemma main_complete_request status_code0 h ec now s :
  pending s = None → (match h with handle_connect_ _ => request_ s = [] | _ => True end) →
  request_ok (complete main_servers main_builder status_code0 h ec now s).
Proof.
  intros Hp Hh. destruct h as [iter| | | |n| |n]; simpl.
  - unfold handle_connect. destruct (stopped_ s); [unfold request_ok; by rewrite Hp|].
    destruct (socket_open s); simpl; [|by apply main_start_connect]. destruct ec; [by apply main_start_connect|].
    destruct (main_servers !! iter) as [srv|] eqn:Hsrv; [|unfold request_ok; by rewrite Hp].
    destruct iter as [|[|iter]]; simplify_eq/=. unfold request_ok. simpl. rewrite Hh. by vm_compute.
  - unfold handle_write_request. no_request.
  - unfold handle_read_status_line. no_request.
  - unfold handle_read_headers. no_request.
  - unfold handle_read_content. no_request.
  - unfold handle_read_chunk_size. no_request.
  - unfold handle_read_chunk_data. no_request.
Qed.

Lemma main_steps_request status_code0 now s : http_main status_code0 now s → request_ok s.
Proof.
  unfold http_main. remember (start main_servers now new_client) as s0 eqn:Hs0.
  induction 1 as [s|s s' s'' _ IH Hst]; [subst; by vm_compute|]. specialize (IH Hs0). destruct Hst as [s' h o ec data now' Hp _|s' now' _].
  - apply main_complete_request; [done|]. unfold request_ok in IH. rewrite Hp in IH. by destruct h, IH.
  - unfold check_deadline. simpl. by repeat case_match.
Qed.

(** At most one line is printed: the message of the report, if it has one. *)
Lemma main_output_one s r : results s = [r] → main_output s = handle_result (res_error r) [].
Proof. unfold main_output. by intros ->. Qed.
