(* ===== verification/Mre.v ===== *)
(** * The manual reset event (my_lib/ManualResetEvent/ManualResetEvent.cpp)

    Any number of threads call [set], [reset], [wait] and [wait(timeout)] on one
    event.  A thread is inside one of the functions at a point between two
    atomic actions; an action of a thread is a partial function of the state
    ([None]: the thread has to wait).  Boost's part is modelled as documented: a
    mutex has at most one owner; waiting on the condition variable adds the
    thread to the set of waiting threads and unlocks in one action;
    [notify_one] removes one thread of the set if there is one; a thread can
    leave the set without being notified; and [timed_wait] with a predicate tests
    it once more when the time is over. *)

From stdpp Require Import numbers functions sets list.
From S2P Require Import Prelude.

(** ** Points between the actions *)

Inductive set_pc := set_lock | set_store | set_unlock | set_notify.
Inductive reset_pc := reset_lock | reset_store | reset_unlock.
Inductive wait_pc := wait_lock | wait_test | wait_blocked | wait_woken | wait_unlock.
Inductive timed_pc := timed_lock | timed_test | timed_blocked | timed_woken (expired : bool) | timed_last | timed_unlock (res : bool).

Inductive pc := idle | in_set (k : set_pc) | in_reset (k : reset_pc) | in_wait (k : wait_pc) | in_timed (k : timed_pc).

(** The members of the class, with the owner of the mutex and the threads
    waiting on the condition variable, and where the threads are. *)
Record mre := Mre {
  signaled_ : bool;
  mtx_ : option nat;
  cond_ : list nat;
  pcs : nat → pc;
}.

(** [ManualResetEvent(signaled)], before any call. *)
Definition new_event (signaled : bool) : mre := Mre signaled None [] (λ _, idle).

(** ** Actions *)

Definition goto (t : nat) (p : pc) (s : mre) : mre := Mre (signaled_ s) (mtx_ s) (cond_ s) (<[t:=p]> (pcs s)).
Definition set_signaled (b : bool) (s : mre) : mre := Mre b (mtx_ s) (cond_ s) (pcs s).

(** Locking waits until the mutex is free. *)
Definition lock (t : nat) (p : pc) (s : mre) : option mre :=
  match mtx_ s with
  | None => Some (goto t p (Mre (signaled_ s) (Some t) (cond_ s) (pcs s)))
  | Some _ => None
  end.
Definition unlock (t : nat) (p : pc) (s : mre) : option mre := Some (goto t p (Mre (signaled_ s) None (cond_ s) (pcs s))).
(** [cond_.wait(lock)]: into the set, and unlock. *)
Definition block (t : nat) (p : pc) (s : mre) : option mre :=
  Some (goto t p (Mre (signaled_ s) None (t :: cond_ s) (pcs s))).

(** Where a waiting thread goes on when it leaves the set; [expired]: its time is over. *)
Definition woken (expired : bool) (p : pc) : option pc :=
  match p with
  | in_wait wait_blocked => if expired then None else Some (in_wait wait_woken)
  | in_timed timed_blocked => Some (in_timed (timed_woken expired))
  | _ => None
  end.

Definition wake (expired : bool) (w : nat) (s : mre) : option mre :=
  if decide (w ∈ cond_ s) then
    p ← woken expired (pcs s w);
    Some (goto w p (Mre (signaled_ s) (mtx_ s) (filter (λ x, x ≠ w) (cond_ s)) (pcs s)))
  else None.

(** [cond_.notify_one()]; [target] is the thread the system picks. *)
Definition notify_one (t : nat) (target : option nat) (p : pc) (s : mre) : option mre :=
  match target with
  | None => if decide (cond_ s = []) then Some (goto t p s) else None
  | Some w => s' ← wake false w s; Some (goto t p s')
  end.

(** ** The functions *)

Definition set (t : nat) (target : option nat) (k : set_pc) (s : mre) : option mre :=
  match k with
  | set_lock => lock t (in_set set_store) s
  | set_store => Some (goto t (in_set set_unlock) (set_signaled true s))
  | set_unlock => unlock t (in_set set_notify) s
  | set_notify => notify_one t target idle s
  end.

Definition reset (t : nat) (k : reset_pc) (s : mre) : option mre :=
  match k with
  | reset_lock => lock t (in_reset reset_store) s
  | reset_store => Some (goto t (in_reset reset_unlock) (set_signaled false s))
  | reset_unlock => unlock t idle s
  end.

Definition wait (t : nat) (k : wait_pc) (s : mre) : option mre :=
  match k with
  | wait_lock => lock t (in_wait wait_test) s
  | wait_test => if negb (signaled_ s) then block t (in_wait wait_blocked) s else Some (goto t (in_wait wait_unlock) s)
  | wait_blocked => None
  | wait_woken => lock t (in_wait wait_test) s
  | wait_unlock => unlock t idle s
  end.

Definition is_signaled (s : mre) : bool := signaled_ s.

Definition wait_timeout (t : nat) (k : timed_pc) (s : mre) : option mre :=
  match k with
  | timed_lock => lock t (in_timed timed_test) s
  | timed_test => if negb (is_signaled s) then block t (in_timed timed_blocked) s else Some (goto t (in_timed (timed_unlock true)) s)
  | timed_blocked => None
  | timed_woken false => lock t (in_timed timed_test) s
  | timed_woken true => lock t (in_timed timed_last) s
  | timed_last => Some (goto t (in_timed (timed_unlock (is_signaled s))) s)
  | timed_unlock _ => unlock t idle s
  end.

(** The next action of a thread. *)
Definition action (t : nat) (target : option nat) (s : mre) : option mre :=
  match pcs s t with
  | idle => None
  | in_set k => set t target k s
  | in_reset k => reset t k s
  | in_wait k => wait t k s
  | in_timed k => wait_timeout t k s
  end.

Definition calls : list pc := [in_set set_lock; in_reset reset_lock; in_wait wait_lock; in_timed timed_lock].

(** ** Interleavings *)

(** [allowed t p]: thread [t] may make the call [p]. *)
Inductive step (allowed : nat → pc → Prop) : mre → mre → Prop :=
| step_call s t p : pcs s t = idle → p ∈ calls → allowed t p → step allowed s (goto t p s)
| step_action s s' t target : action t target s = Some s' → step allowed s s'
| step_wake s s' w expired : wake expired w s = Some s' → step allowed s s'.

Inductive reachable (allowed : nat → pc → Prop) (b : bool) : mre → Prop :=
| reach_start : reachable allowed b (new_event b)
| reach_step s s' : reachable allowed b s → step allowed s s' → reachable allowed b s'.

(** ** The invariant *)

Definition holds (p : pc) : bool :=
  match p with
  | in_set (set_store | set_unlock) | in_reset (reset_store | reset_unlock) | in_wait (wait_test | wait_unlock)
  | in_timed (timed_test | timed_last | timed_unlock _) => true
  | _ => false
  end.

Definition blocked (p : pc) : bool :=
  match p with in_wait wait_blocked | in_timed timed_blocked => true | _ => false end.

(** What a thread knows of [signaled_] at a point where it holds the mutex. *)
Definition knows (p : pc) : option bool :=
  match p with
  | in_set set_unlock | in_wait wait_unlock => Some true
  | in_reset reset_unlock => Some false
  | in_timed (timed_unlock r) => Some r
  | _ => None
  end.

Record mre_ok (s : mre) : Prop := {
  ok_owner : ∀ t, mtx_ s = Some t ↔ holds (pcs s t) = true;
  ok_waiting : ∀ t, t ∈ cond_ s ↔ blocked (pcs s t) = true;
  ok_nodup : NoDup (cond_ s);
  ok_knows : ∀ t r, knows (pcs s t) = Some r → signaled_ s = r;
}.

Lemma knows_holds p r : knows p = Some r → holds p = true.
Proof. by destruct p as [|[]|[]|[]|[]]. Qed.

Lemma pcs_goto t p s u : pcs (goto t p s) u = if decide (u = t) then p else pcs s u.
Proof.
  simpl. destruct (decide (u = t)) as [->|Hne]; [apply fn_lookup_insert|by apply fn_lookup_insert_ne].
Qed.

Lemma new_event_ok b : mre_ok (new_event b).
Proof. constructor; simpl; try done; [|constructor]. intros t. split; [by intros ?%elem_of_nil|done]. Qed.

(** Only the owner's point changes. *)
Lemma ok_move t p s b :
  mre_ok s → holds (pcs s t) = true → holds p = true → blocked p = false → (∀ r, knows p = Some r → b = r) →
  mre_ok (goto t p (set_signaled b s)).
Proof.
  intros [H1 H2 H3 H4] Ht Hp Hb Hk. assert (blocked (pcs s t) = false) as Hbt by (by destruct (pcs s t) as [|[]|[]|[]|[]]).
  apply H1 in Ht as Hm. constructor.
  - intros u. rewrite pcs_goto. simpl. case_decide as Hu; [subst u; by rewrite Hp, Hm|apply H1].
  - intros u. rewrite pcs_goto. simpl. case_decide as Hu; [subst u; by rewrite Hb, H2, Hbt|apply H2].
  - done.
  - intros u r. rewrite pcs_goto. simpl. case_decide as Hu; [apply Hk|]. intros Hr. apply knows_holds, H1 in Hr. congruence.
Qed.

Lemma ok_lock t p s s' :
  mre_ok s → lock t p s = Some s' → blocked (pcs s t) = false → holds p = true → blocked p = false → knows p = None → mre_ok s'.
Proof.
  unfold lock. intros [H1 H2 H3 H4] Hl Hbt Hp Hb Hk. destruct (mtx_ s) as [o|] eqn:Hm; simplify_eq. constructor.
  - intros u. rewrite pcs_goto. simpl. case_decide as Hu; [subst u; by rewrite Hp|]. rewrite <-H1. naive_solver.
  - intros u. rewrite pcs_goto. simpl. case_decide as Hu; [subst u; by rewrite Hb, H2, Hbt|apply H2].
  - done.
  - intros u r. rewrite pcs_goto. simpl. case_decide as Hu; [by rewrite Hk|]. apply H4.
Qed.

Lemma ok_unlock t p s s' :
  mre_ok s → unlock t p s = Some s' → holds (pcs s t) = true → holds p = false → blocked p = false → mre_ok s'.
Proof.
  unfold unlock. intros [H1 H2 H3 H4] [= <-] Ht Hp Hb. assert (blocked (pcs s t) = false) as Hbt by (by destruct (pcs s t) as [|[]|[]|[]|[]]).
  apply H1 in Ht as Hm. constructor.
  - intros u. rewrite pcs_goto. simpl. case_decide as Hu; [subst u; by rewrite Hp|]. rewrite <-H1. naive_solver.
  - intros u. rewrite pcs_goto. simpl. case_decide as Hu; [subst u; by rewrite Hb, H2, Hbt|apply H2].
  - done.
  - intros u r. rewrite pcs_goto. simpl. case_decide as Hu; [|apply H4]. intros Hr. apply knows_holds in Hr. congruence.
Qed.

Lemma ok_block t p s s' :
  mre_ok s → block t p s = Some s' → holds (pcs s t) = true → holds p = false → blocked p = true → mre_ok s'.
Proof.
  unfold block. intros [H1 H2 H3 H4] [= <-] Ht Hp Hb. assert (blocked (pcs s t) = false) as Hbt by (by destruct (pcs s t) as [|[]|[]|[]|[]]).
  apply H1 in Ht as Hm. constructor.
  - intros u. rewrite pcs_goto. simpl. case_decide as Hu; [subst u; by rewrite Hp|]. rewrite <-H1. naive_solver.
  - intros u. rewrite pcs_goto. simpl. rewrite elem_of_cons. case_decide as Hu; [subst u; naive_solver|]. rewrite H2. naive_solver.
  - simpl. constructor; [|done]. by rewrite H2, Hbt.
  - intros u r. rewrite pcs_goto. simpl. case_decide as Hu; [|apply H4]. intros Hr. apply knows_holds in Hr. congruence.
Qed.

(** Moves of threads that neither hold nor release anything. *)
Lemma ok_goto t p s :
  mre_ok s → holds (pcs s t) = false → blocked (pcs s t) = false → holds p = false → blocked p = false → mre_ok (goto t p s).
Proof.
  intros [H1 H2 H3 H4] Ht Hbt Hp Hb. constructor.
  - intros u. rewrite pcs_goto. simpl. case_decide as Hu; [subst u; by rewrite Hp, H1, Ht|apply H1].
  - intros u. rewrite pcs_goto. simpl. case_decide as Hu; [subst u; by rewrite Hb, H2, Hbt|apply H2].
  - done.
  - intros u r. rewrite pcs_goto. simpl. case_decide as Hu; [|apply H4]. intros Hr. apply knows_holds in Hr. congruence.
Qed.

Lemma wake_spec expired w s s' :
  wake expired w s = Some s' → ∃ p, w ∈ cond_ s ∧ woken expired (pcs s w) = Some p ∧
    s' = goto w p (Mre (signaled_ s) (mtx_ s) (filter (λ x, x ≠ w) (cond_ s)) (pcs s)).
Proof.
  unfold wake. destruct (decide (w ∈ cond_ s)); [|done]. intros (p & Hp & [= <-])%bind_Some. by exists p.
Qed.

Lemma woken_pc expired p q :
  woken expired p = Some q → blocked p = true ∧ holds p = false ∧ holds q = false ∧ blocked q = false ∧ knows q = None.
Proof. destruct p as [|[]|[]|[]|[]]; simpl; try done; [destruct expired; [done|]|]; by intros [= <-]. Qed.

Lemma ok_wake expired w s s' : mre_ok s → wake expired w s = Some s' → mre_ok s'.
Proof.
  intros [H1 H2 H3 H4] (p & Hw & Hp & ->)%wake_spec. apply woken_pc in Hp as (P1 & P2 & P3 & P4 & P5). constructor.
  - intros u. rewrite pcs_goto. simpl. case_decide as Hu; [subst u; by rewrite P3, H1, P2|apply H1].
  - intros u. rewrite pcs_goto. simpl. rewrite list_elem_of_filter. case_decide as Hu.
    + subst u. rewrite P4. split; [by intros [? _]|done].
    + rewrite <-H2. split; [by intros [_ ?]|done].
  - simpl. by apply NoDup_filter.
  - intros u r. rewrite pcs_goto. simpl. case_decide as Hu; [by rewrite P5|]. apply H4.
Qed.

Lemma goto_self t p s : goto t p s = goto t p (set_signaled (signaled_ s) s).
Proof. by destruct s. Qed.

(** An action of the owner that keeps the mutex. *)
Ltac mre_move Hok Hp :=
  lazymatch goal with |- context [set_signaled] => idtac | _ => rewrite goto_self end; apply ok_move; [exact Hok|by rewrite Hp|done|done|intros r Hr; simpl in *; congruence].

Lemma ok_action t target s s' : mre_ok s → action t target s = Some s' → mre_ok s'.
Proof.
  intros Hok. unfold action. destruct (pcs s t) as [|k|k|k|k] eqn:Hp; [done|..]; destruct k; simpl; intros Ha;
    first [ by eapply ok_lock; [exact Hok|exact Ha|rewrite ?Hp..]
          | by eapply ok_unlock; [exact Hok|exact Ha|rewrite ?Hp..]
          | by injection Ha as <-; mre_move Hok Hp
          | done | idtac ].
  - unfold notify_one in Ha. destruct target as [w|].
    + apply bind_Some in Ha as (s1 & Hw & [= <-]). pose proof (ok_wake _ _ _ _ Hok Hw) as Hok1.
      apply wake_spec in Hw as (p & Hin & Hwp & ->). apply woken_pc in Hwp as (P1 & P2 & P3 & P4 & P5).
      assert (t ≠ w) as Hne by (intros ->; by rewrite Hp in P1).
      apply ok_goto; [done|..]; rewrite ?pcs_goto, ?decide_False by done; simpl; by rewrite ?Hp.
    + destruct (decide (cond_ s = [])); simplify_eq. apply ok_goto; by rewrite ?Hp.
  - destruct (signaled_ s) eqn:Hs; simpl in Ha.
    + injection Ha as <-. mre_move Hok Hp.
    + eapply ok_block; [exact Hok|exact Ha|..]; by rewrite ?Hp.
  - unfold is_signaled in Ha. destruct (signaled_ s) eqn:Hs; simpl in Ha.
    + injection Ha as <-. mre_move Hok Hp.
    + eapply ok_block; [exact Hok|exact Ha|..]; by rewrite ?Hp.
  - destruct expired; (eapply ok_lock; [exact Hok|exact Ha|..]); by rewrite ?Hp.
  - injection Ha as <-. unfold is_signaled. mre_move Hok Hp.
Qed.

Lemma reachable_ok allowed b s : reachable allowed b s → mre_ok s.
Proof.
  induction 1 as [|s s' _ IH Hst]; [apply new_event_ok|]. destruct Hst as [s t p Hp Hc _|s s' t target Ha|s s' w e Hw].
  - assert (holds p = false ∧ blocked p = false) as [H1 H2].
    { unfold calls in Hc. rewrite !elem_of_cons, elem_of_nil in Hc. naive_solver. }
    apply ok_goto; by rewrite ?Hp.
  - by eapply ok_action.
  - by eapply ok_wake.
Qed.

(** ** One waiting thread *)

(** Only [w] waits; the others set and reset. *)
Definition one_waiter (w t : nat) (p : pc) : Prop :=
  match p with in_wait _ | in_timed _ => t = w | _ => True end.

(** A notification is on its way. *)
Definition notifying (p : pc) : bool := match p with in_set (set_unlock | set_notify) => true | _ => false end.

Record one_ok (w : nat) (s : mre) : Prop := {
  one_pc : ∀ t, one_waiter w t (pcs s t);
  one_notified : blocked (pcs s w) = true → signaled_ s = true → ∃ t, notifying (pcs s t) = true;
}.

Lemma one_goto w t p s s' :
  one_ok w s → (∀ u, pcs s' u = if decide (u = t) then p else pcs s u) → one_waiter w t p →
  (blocked (pcs s' w) = true → signaled_ s' = true →
     (blocked (pcs s w) = true ∧ signaled_ s = true ∧ notifying (pcs s t) = false) ∨ notifying p = true) →
  one_ok w s'.
Proof.
  intros [H1 H2] Hpcs Hp Hn. constructor.
  - intros u. rewrite Hpcs. case_decide as Hu; [by subst|apply H1].
  - intros Hb Hs. destruct (Hn Hb Hs) as [(B & S & Ht)|Ht].
    + destruct (H2 B S) as [u Hu]. exists u. rewrite Hpcs. rewrite decide_False; [done|]. intros ->. congruence.
    + exists t. rewrite Hpcs. by rewrite decide_True.
Qed.

Lemma lock_eq t p s s' : lock t p s = Some s' → s' = goto t p (Mre (signaled_ s) (Some t) (cond_ s) (pcs s)).
Proof. unfold lock. destruct (mtx_ s); [done|]. by intros [= <-]. Qed.

(** The other threads of a move. *)
Lemma blocked_goto w t p s : blocked p = false → blocked (pcs (goto t p s) w) = true → blocked (pcs s w) = true ∧ w ≠ t.
Proof. intros Hb. rewrite pcs_goto. case_decide; [congruence|done]. Qed.

(** Being woken, on notice or not. *)
Lemma one_wake w e v s s' : mre_ok s → one_ok w s → wake e v s = Some s' → one_ok w s' ∧ blocked (pcs s' w) = false.
Proof.
  intros Hok H1 (p & Hv & Hp & ->)%wake_spec. pose proof (woken_pc _ _ _ Hp) as (P1 & _ & _ & P4 & _).
  assert (v = w) as ->.
  { pose proof (one_pc _ _ H1 v) as Hw. by destruct (pcs s v) as [|[]|[]|[]|[]]. }
  assert (one_waiter w w p) as Hwp by (by destruct p).
  assert (blocked (pcs (goto w p (Mre (signaled_ s) (mtx_ s) (filter (λ x, x ≠ w) (cond_ s)) (pcs s))) w) = false) as Hb.
  { rewrite pcs_goto. by rewrite decide_True. }
  split; [|done]. eapply one_goto; [exact H1|intros u; by rewrite pcs_goto|done|]. intros Hc. congruence.
Qed.

(** A move of [t] that leaves [signaled_] alone. *)
Lemma one_move w t p s s' :
  one_ok w s → (∀ u, pcs s' u = if decide (u = t) then p else pcs s u) → signaled_ s' = signaled_ s → one_waiter w t p →
  blocked p = false → notifying (pcs s t) = false ∨ notifying p = true → one_ok w s'.
Proof.
  intros H1 Hpcs Hs Hp Hb Hn. eapply one_goto; [exact H1|exact Hpcs|done|]. rewrite Hs. intros Hbw Hsig.
  destruct Hn as [Hn|Hn]; [left|by right]. split_and!; [|done|done]. rewrite Hpcs in Hbw. case_decide; [congruence|done].
Qed.

Lemma one_action w t target s s' : mre_ok s → one_ok w s → action t target s = Some s' → one_ok w s'.
Proof.
  intros Hok H1 Ha. pose proof (one_pc _ _ H1 t) as Ht. unfold action in Ha.
  destruct (pcs s t) as [|k|k|k|k] eqn:Hp; [done|..]; destruct k; simpl in Ha;
    try (apply lock_eq in Ha as ->); try (injection Ha as <-); try done;
    try by (eapply one_move; [exact H1|intros u; by rewrite pcs_goto|done|done|done|rewrite Hp; auto]).
  - eapply one_goto; [exact H1|intros u; by rewrite pcs_goto|done|]. by right.
  - unfold notify_one in Ha. destruct target as [v|].
    + apply bind_Some in Ha as (s1 & Hw & [= <-]). destruct (one_wake w _ _ _ _ Hok H1 Hw) as [H2 Hb].
      eapply one_goto; [exact H2|intros u; by rewrite pcs_goto|done|]. intros Hbw. apply blocked_goto in Hbw as [Hbw _]; [|done]. congruence.
    + destruct (decide (cond_ s = [])) as [He|]; simplify_eq. eapply one_goto; [exact H1|intros u; by rewrite pcs_goto|done|].
      intros Hbw. apply blocked_goto in Hbw as [Hbw _]; [|done]. apply (ok_waiting _ Hok) in Hbw. rewrite He in Hbw. by apply elem_of_nil in Hbw.
  - eapply one_goto; [exact H1|intros u; by rewrite pcs_goto|done|]. by intros _.
  - destruct (signaled_ s) eqn:Hs; simpl in Ha; injection Ha as <-.
    + eapply one_move; [exact H1|intros u; by rewrite pcs_goto|done|done|done|rewrite Hp; auto].
    + eapply one_goto; [exact H1|intros u; by rewrite pcs_goto|done|]. simpl. congruence.
  - unfold is_signaled in Ha. destruct (signaled_ s) eqn:Hs; simpl in Ha; injection Ha as <-.
    + eapply one_move; [exact H1|intros u; by rewrite pcs_goto|done|done|done|rewrite Hp; auto].
    + eapply one_goto; [exact H1|intros u; by rewrite pcs_goto|done|]. simpl. congruence.
  - destruct expired; apply lock_eq in Ha as ->;
      (eapply one_move; [exact H1|intros u; by rewrite pcs_goto|done|done|done|rewrite Hp; auto]).
Qed.

Lemma reachable_one w b s : reachable (one_waiter w) b s → one_ok w s.
Proof.
  induction 1 as [|s s' Hr IH Hst]; [by constructor|]. pose proof (reachable_ok _ _ _ Hr) as Hok.
  destruct Hst as [s t p Hp Hc Hal|s s' t target Ha|s s' v e Hw].
  - assert (blocked p = false) as Hb by (unfold calls in Hc; rewrite !elem_of_cons, elem_of_nil in Hc; naive_solver).
    eapply one_move; [exact IH|intros u; by rewrite pcs_goto|done|done|done|]. left. by rewrite Hp.
  - by eapply one_action.
  - by eapply one_wake.
Qed.

(** ** Progress *)

(** The owner of the mutex can always go on. *)
Lemma owner_goes_on t s : mre_ok s → holds (pcs s t) = true → is_Some (action t None s).
Proof.
  intros Hok Ht. unfold action. destruct (pcs s t) as [|[]|[]|[]|[]]; try done; simpl; try (by eexists).
  - by destruct (signaled_ s); eexists.
  - unfold is_signaled. by destruct (signaled_ s); eexists.
Qed.

Lemma unlocked_goes_on t s :
  mre_ok s → mtx_ s = None → pcs s t ≠ idle → blocked (pcs s t) = false → ∃ target, is_Some (action t target s).
Proof.
  intros Hok Hm Hi Hb. unfold action. destruct (pcs s t) as [|[]|[]|[]|[]] eqn:Hp; try done; simpl; unfold lock; rewrite ?Hm;
    try (exists None; by eexists).
  - destruct (cond_ s) as [|v l] eqn:Hc.
    + exists None. unfold notify_one. rewrite ?Hc, decide_True by done. by eexists.
    + exists (Some v). unfold notify_one, wake. rewrite ?Hc, decide_True by (apply elem_of_cons; by left).
      assert (v ∈ cond_ s) as Hv by (rewrite Hc; apply elem_of_cons; by left). apply (ok_waiting _ Hok) in Hv.
      destruct (pcs s v) as [|[]|[]|[]|[]]; try done; simpl; by eexists.
  - exists None. by destruct (signaled_ s); eexists.
  - exists None. unfold is_signaled. by destruct (signaled_ s); eexists.
  - exists None. destruct expired; by eexists.
Qed.

(** Whatever a thread inside a call waits for, it or the owner of the mutex can act. *)
Lemma someone_goes_on t s :
  mre_ok s → pcs s t ≠ idle → blocked (pcs s t) = false →
  ∃ t' target s', action t' target s = Some s' ∧ (t' = t ∨ mtx_ s = Some t').
Proof.
  intros Hok Hi Hb. destruct (mtx_ s) as [o|] eqn:Hm.
  - destruct (owner_goes_on o s Hok) as [s' Hs']; [by apply (ok_owner _ Hok)|]. exists o, None, s'. auto.
  - destruct (unlocked_goes_on t s Hok Hm Hi Hb) as (target & s' & Hs'). exists t, target, s'. auto.
Qed.
