(* ===== verification/MreMain.v ===== *)
(** * The program of the manual reset event (my_lib/ManualResetEvent/Source.cpp)

    [main] starts a thread that runs [set_string], waits for the event and prints
    the string; the two threads share the string and the event.  A step is an
    action of one of them; inside [set] and [wait] these are the actions of [Mre].
    The sleep of [set_string] is a point at which the other thread may go on for
    any time. *)

From Stdlib Require Import Ascii String.
From stdpp Require Import numbers functions sets list relations.
From S2P Require Import Prelude StdText Mre.

Inductive mre_main_pc := main_create | main_call | main_waiting | main_done.
Inductive setter_pc := setter_absent | setter_assign | setter_sleep | setter_setting | setter_done.

Record program := Program {
  mre_ : mre;
  str_ : chars;
  main_ : mre_main_pc;
  setter_ : setter_pc;
  cout_ : chars;
}.

Abbreviation main_id := 0%nat.
Abbreviation setter_id := 1%nat.

Definition program_start : program := Program (new_event false) [] main_create setter_absent [].

Definition set_text : chars := text "set, hhhhhhh".

(** [set_string(mre, str)] *)
Definition set_string (target : option nat) (s : program) : option program :=
  match setter_ s with
  | setter_absent | setter_done => None
  | setter_assign => Some (Program (mre_ s) set_text (main_ s) setter_sleep (cout_ s))
  | setter_sleep => Some (Program (goto setter_id (in_set set_lock) (mre_ s)) (str_ s) (main_ s) setter_setting (cout_ s))
  | setter_setting =>
      match pcs (mre_ s) setter_id with
      | idle => Some (Program (mre_ s) (str_ s) (main_ s) setter_done (cout_ s))
      | _ => m ← action setter_id target (mre_ s); Some (Program m (str_ s) (main_ s) (setter_ s) (cout_ s))
      end
  end.

(** [main()]; the new thread begins with its first statement. *)
Definition mre_main (s : program) : option program :=
  match main_ s with
  | main_create => Some (Program (mre_ s) (str_ s) main_call setter_assign (cout_ s))
  | main_call => Some (Program (goto main_id (in_wait wait_lock) (mre_ s)) (str_ s) main_waiting (setter_ s) (cout_ s))
  | main_waiting =>
      match pcs (mre_ s) main_id with
      | idle => Some (Program (mre_ s) (str_ s) main_done (setter_ s) (cout_ s ++ str_ s ++ [LF]))
      | _ => m ← action main_id None (mre_ s); Some (Program m (str_ s) (main_ s) (setter_ s) (cout_ s))
      end
  | main_done => None
  end.

(** An action of one of the threads. *)
Inductive acts : program → program → Prop :=
| acts_main s s' : mre_main s = Some s' → acts s s'
| acts_setter s s' target : set_string target s = Some s' → acts s s'.

(** The condition variable may also wake a thread that nobody notified. *)
Inductive runs_to : program → Prop :=
| runs_start : runs_to program_start
| runs_act s s' : runs_to s → acts s s' → runs_to s'
| runs_wake s w m :
    runs_to s → wake false w (mre_ s) = Some m → runs_to (Program m (str_ s) (main_ s) (setter_ s) (cout_ s)).

(** ** The invariant *)

(** Where the threads are in the event, and what that says about it. *)
Definition main_at (p : mre_main_pc) (q : pc) (signaled : bool) : Prop :=
  match p, q with
  | main_waiting, in_wait _ => True
  | main_waiting, idle => signaled = true
  | main_waiting, _ => False
  | _, q => q = idle
  end.

Definition setter_at (p : setter_pc) (q : pc) (signaled : bool) : Prop :=
  match p, q with
  | setter_setting, in_set (set_lock | set_store) => signaled = false
  | setter_setting, (in_set (set_unlock | set_notify) | idle) => signaled = true
  | setter_setting, _ => False
  | setter_done, q => q = idle ∧ signaled = true
  | _, q => q = idle ∧ signaled = false
  end.

Definition str_is (p : setter_pc) : chars := match p with setter_absent | setter_assign => [] | _ => set_text end.
Definition printed (p : mre_main_pc) : chars := match p with main_done => set_text ++ [LF] | _ => [] end.

Record program_ok (s : program) : Prop := {
  po_event : reachable (one_waiter main_id) false (mre_ s);
  po_others : ∀ t, (2 ≤ t)%nat → pcs (mre_ s) t = idle;
  po_main : main_at (main_ s) (pcs (mre_ s) main_id) (signaled_ (mre_ s));
  po_setter : setter_at (setter_ s) (pcs (mre_ s) setter_id) (signaled_ (mre_ s));
  po_created : main_ s = main_create ↔ setter_ s = setter_absent;
  po_str : str_ s = str_is (setter_ s);
  po_cout : cout_ s = printed (main_ s);
}.

(** An action of the waiting thread. *)
Definition wait_rank (k : wait_pc) : nat :=
  match k with wait_lock | wait_woken => 6 | wait_test => 5 | wait_blocked => 4 | wait_unlock => 3 end.

Ltac wait_moves :=
  split_and!; [done|intros u Hu; by rewrite pcs_goto, decide_False|]; left; eexists; rewrite pcs_goto;
  split; [reflexivity|simpl; lia].

Lemma wait_action m k m' :
  mre_ok m → pcs m main_id = in_wait k → action main_id None m = Some m' →
  signaled_ m' = signaled_ m ∧ (∀ u, u ≠ main_id → pcs m' u = pcs m u) ∧
  ((∃ k', pcs m' main_id = in_wait k' ∧ wait_rank k' < wait_rank k) ∨ (pcs m' main_id = idle ∧ signaled_ m = true)).
Proof.
  intros Hok Hp Ha. unfold action in Ha. rewrite Hp in Ha. destruct k; simpl in Ha; try done.
  - apply lock_eq in Ha as ->. wait_moves.
  - destruct (signaled_ m) eqn:Hs; simpl in Ha; injection Ha as <-; wait_moves.
  - apply lock_eq in Ha as ->. wait_moves.
  - injection Ha as <-. split_and!; [done|intros u Hu; by rewrite pcs_goto, decide_False|]. right. rewrite pcs_goto.
    split; [done|]. apply (ok_knows _ Hok main_id). by rewrite Hp.
Qed.

(** Only the main thread can be waiting on the condition variable. *)
Definition no_other_waiter (m : mre) : Prop :=
  (pcs m main_id = idle ∨ ∃ k, pcs m main_id = in_wait k) ∧ ∀ u, u ≠ main_id → blocked (pcs m u) = false.

Lemma wake_main m w m' :
  no_other_waiter m → wake false w m = Some m' →
  pcs m main_id = in_wait wait_blocked ∧ pcs m' main_id = in_wait wait_woken ∧ (∀ u, u ≠ main_id → pcs m' u = pcs m u) ∧
  signaled_ m' = signaled_ m.
Proof.
  intros [Hm Ho] (p & _ & Hp & ->)%wake_spec. destruct (decide (w = main_id)) as [->|Hne].
  - destruct Hm as [Hm|[k Hm]]; rewrite Hm in Hp; [done|]. destruct k; try done. injection Hp as <-.
    split_and!; [done|by rewrite pcs_goto, decide_True|intros u Hu; by rewrite pcs_goto, decide_False|done].
  - apply woken_pc in Hp as (P1 & _). rewrite Ho in P1 by done. done.
Qed.

(** An action of the setting thread. *)
Definition set_next (k : set_pc) : pc :=
  match k with
  | set_lock => in_set set_store
  | set_store => in_set set_unlock
  | set_unlock => in_set set_notify
  | set_notify => idle
  end.

Lemma set_action m k target m' :
  no_other_waiter m → pcs m setter_id = in_set k → action setter_id target m = Some m' →
  pcs m' setter_id = set_next k ∧ (∀ u, 2 ≤ u → pcs m' u = pcs m u) ∧
  signaled_ m' = match k with set_store => true | _ => signaled_ m end ∧
  (pcs m' main_id = pcs m main_id ∨ pcs m main_id = in_wait wait_blocked ∧ pcs m' main_id = in_wait wait_woken).
Proof.
  intros Hw Hp Ha. unfold action in Ha. rewrite Hp in Ha. destruct k; simpl in Ha;
    try (apply lock_eq in Ha as ->); try (injection Ha as <-);
    try by (split_and!; [by rewrite pcs_goto|intros u Hu; rewrite pcs_goto, decide_False by lia; done|done|left; by rewrite pcs_goto]).
  unfold notify_one in Ha. destruct target as [w|].
  - apply bind_Some in Ha as (m1 & Hm1 & [= <-]). apply wake_main in Hm1 as (H1 & H2 & H3 & H4); [|done].
    split_and!; [by rewrite pcs_goto|intros u Hu; rewrite pcs_goto, decide_False by lia; apply H3; lia|done|].
    right. split; [done|]. by rewrite pcs_goto.
  - destruct (decide (cond_ m = [])); simplify_eq.
    split_and!; [by rewrite pcs_goto|intros u Hu; rewrite pcs_goto, decide_False by lia; done|done|left; by rewrite pcs_goto].
Qed.

Lemma program_waiter s : program_ok s → no_other_waiter (mre_ s).
Proof.
  intros [_ Ho Hm Hs _ _ _]. split.
  - destruct (main_ s), (pcs (mre_ s) main_id); naive_solver.
  - intros u Hu. destruct (decide (u = setter_id)) as [->|Hne].
    + destruct (setter_ s), (pcs (mre_ s) setter_id) as [|[]| | |]; naive_solver.
    + rewrite Ho by lia. done.
Qed.

Lemma event_action t target s m : program_ok s → action t target (mre_ s) = Some m → reachable (one_waiter main_id) false m.
Proof. intros Hok Ha. eapply reach_step; [apply (po_event _ Hok)|by eapply step_action]. Qed.

Lemma event_call t p s :
  program_ok s → pcs (mre_ s) t = idle → p ∈ calls → one_waiter main_id t p →
  reachable (one_waiter main_id) false (goto t p (mre_ s)).
Proof. intros Hok Ht Hc Hal. eapply reach_step; [apply (po_event _ Hok)|by constructor]. Qed.

(** ** How far the threads still have to go *)

Definition main_rank (p : mre_main_pc) (q : pc) : nat :=
  match p, q with
  | main_create, _ => 9
  | main_call, _ => 8
  | main_waiting, in_wait k => wait_rank k
  | main_waiting, _ => 2
  | main_done, _ => 0
  end.

Definition setter_rank (p : setter_pc) (q : pc) : nat :=
  match p, q with
  | setter_absent, _ => 8
  | setter_assign, _ => 7
  | setter_sleep, _ => 6
  | setter_setting, in_set set_lock => 5
  | setter_setting, in_set set_store => 4
  | setter_setting, in_set set_unlock => 3
  | setter_setting, in_set set_notify => 2
  | setter_setting, _ => 1
  | setter_done, _ => 0
  end.

Definition program_rank (s : program) : nat :=
  main_rank (main_ s) (pcs (mre_ s) main_id) + 10 * setter_rank (setter_ s) (pcs (mre_ s) setter_id).

Ltac fields := cbn [mre_ str_ main_ setter_ cout_].

Lemma mre_main_step s s' : program_ok s → mre_main s = Some s' → program_ok s' ∧ program_rank s' < program_rank s.
Proof.
  intros Hok Hs. pose proof Hok as [H1 H2 H3 H4 H5 H6 H7]. unfold mre_main in Hs. unfold program_rank.
  destruct (main_ s) eqn:Hm; [injection Hs as <-..| |done].
  - assert (setter_ s = setter_absent) as Ha by (by apply H5). rewrite Ha in *. split; [|simpl; lia]. by constructor.
  - simpl in H3. split; [|fields; rewrite !pcs_goto; simpl; lia]. constructor; fields; try done.
    + apply event_call; try done. set_solver.
    + intros t Ht. rewrite pcs_goto, decide_False by lia. by apply H2.
    + naive_solver.
  - destruct (pcs (mre_ s) main_id) as [| | |k|] eqn:Hq; try done.
    + injection Hs as <-. simpl in H3. rewrite H3 in *. split; [|simpl; rewrite ?Hq; lia].
      assert (str_ s = set_text) as Ht by (rewrite H6; destruct (setter_ s); naive_solver).
      constructor; fields; rewrite ?H3; try done; [naive_solver|]. by rewrite Ht, H7.
    + apply bind_Some in Hs as (m & Ha & [= <-]). pose proof (reachable_ok _ _ _ H1) as Hmre.
      destruct (wait_action _ _ _ Hmre Hq Ha) as (W1 & W2 & W3). split.
      * constructor; fields; rewrite ?W1, ?W2 by done; try done.
        -- by eapply event_action.
        -- intros t Ht. rewrite W2 by lia. by apply H2.
        -- destruct W3 as [(k' & -> & _)|[-> ->]]; done.
      * fields. rewrite (W2 setter_id) by done. cbn [main_rank].
        destruct W3 as [(k' & -> & ?)|[-> _]]; [lia|]. destruct k; simpl; lia.
Qed.

Lemma set_string_step target s s' : program_ok s → set_string target s = Some s' → program_ok s' ∧ program_rank s' < program_rank s.
Proof.
  intros Hok Hs. pose proof Hok as [H1 H2 H3 H4 H5 H6 H7]. unfold set_string in Hs. unfold program_rank.
  destruct (setter_ s) eqn:Hp; [done|injection Hs as <-..| |done].
  - split; [|simpl; lia]. constructor; fields; try done. naive_solver.
  - simpl in H4. destruct H4 as [H4 Hsig]. split; [|fields; rewrite !pcs_goto; simpl; lia]. constructor; fields; try done.
    + apply event_call; try done. set_solver.
    + intros t Ht. rewrite pcs_goto, decide_False by lia. by apply H2.
    + naive_solver.
  - destruct (pcs (mre_ s) setter_id) as [|k| | |] eqn:Hq; try done.
    + injection Hs as <-. simpl in H4. split; [|simpl; rewrite ?Hq; lia].
      constructor; fields; rewrite ?Hq; try done. naive_solver.
    + apply bind_Some in Hs as (m & Ha & [= <-]).
      destruct (set_action _ _ _ _ (program_waiter _ Hok) Hq Ha) as (S1 & S2 & S3 & S4). split.
      * constructor; fields; rewrite ?Hp; try done.
        -- by eapply event_action.
        -- intros t Ht. rewrite S2 by lia. by apply H2.
        -- destruct S4 as [->|[S4 ->]].
           ++ rewrite S3. destruct (main_ s), (pcs (mre_ s) main_id), k; naive_solver.
           ++ rewrite S4 in H3. by destruct (main_ s).
        -- rewrite S1, S3. destruct k; naive_solver.
      * fields. rewrite S1. destruct S4 as [->|[-> ->]].
        -- destruct k; cbn [setter_rank set_next]; lia.
        -- destruct (main_ s), k; cbn [main_rank wait_rank setter_rank set_next]; lia.
Qed.

Lemma acts_step s s' : program_ok s → acts s s' → program_ok s' ∧ program_rank s' < program_rank s.
Proof. intros Hok Ha. destruct Ha as [s s' Ha|s s' target Ha]; [by apply mre_main_step|by apply (set_string_step target)]. Qed.

Lemma runs_ok s : runs_to s → program_ok s.
Proof.
  induction 1 as [|s s' _ IH Ha|s w m _ IH Hw]; [constructor; try done; constructor|by apply (acts_step s s')|].
  pose proof IH as [H1 H2 H3 H4 H5 H6 H7]. destruct (wake_main _ _ _ (program_waiter _ IH) Hw) as (W1 & W2 & W3 & W4).
  constructor; fields; rewrite ?W2, ?W3, ?W4 by done; try done.
  - eapply reach_step; [exact H1|by eapply step_wake].
  - intros t Ht. rewrite W3 by lia. by apply H2.
  - rewrite W1 in H3. by destruct (main_ s).
Qed.

(** Who is inside a call of the event, and that its next action is one of the program. *)
Definition inside (t : nat) (s : program) : Prop :=
  t = main_id ∧ main_ s = main_waiting ∨ t = setter_id ∧ setter_ s = setter_setting.

Lemma who_inside t s : program_ok s → pcs (mre_ s) t ≠ idle → inside t s.
Proof.
  intros [_ H2 H3 H4 _ _ _] Ht. destruct t as [|[|t]]; [left|right|by rewrite H2 in Ht by lia]; (split; [done|]).
  - destruct (main_ s), (pcs (mre_ s) 0); naive_solver.
  - destruct (setter_ s), (pcs (mre_ s) 1); naive_solver.
Qed.

Lemma inside_acts t target m s : program_ok s → inside t s → action t target (mre_ s) = Some m → ∃ s', acts s s'.
Proof.
  intros [_ _ H3 _ _ _ _] [[-> Hw]|[-> Hw]] Ha.
  - exists (Program m (str_ s) (main_ s) (setter_ s) (cout_ s)). apply acts_main. unfold mre_main. rewrite Hw in *.
    unfold action in *. destruct (pcs (mre_ s) 0) as [| | |k|] eqn:Hq; try done. simpl in Ha |- *. by rewrite Ha.
  - exists (Program m (str_ s) (main_ s) (setter_ s) (cout_ s)). apply (acts_setter _ _ target). unfold set_string. rewrite Hw, Ha.
    destruct (pcs (mre_ s) 1) eqn:Hq; [|done..]. unfold action in Ha. by rewrite Hq in Ha.
Qed.

Lemma inside_goes_on t s :
  program_ok s → pcs (mre_ s) t ≠ idle → blocked (pcs (mre_ s) t) = false → ∃ s', acts s s'.
Proof.
  intros Hok Hi Hb. pose proof (reachable_ok _ _ _ (po_event _ Hok)) as Hmre.
  destruct (someone_goes_on t _ Hmre Hi Hb) as (u & target & m & Ha & Hu).
  apply (inside_acts u target m s); [done| |done]. apply who_inside; [done|]. destruct Hu as [->|Ho]; [done|].
  apply (ok_owner _ Hmre) in Ho. intros Hx. by rewrite Hx in Ho.
Qed.

(** As long as main has not printed one of the threads can act. *)
Lemma program_goes_on s : program_ok s → main_ s ≠ main_done → ∃ s', acts s s'.
Proof.
  intros Hok Hm. pose proof Hok as [H1 _ H3 H4 H5 _ _].
  destruct (main_ s) eqn:Hw; try done; try (eexists; apply acts_main; unfold mre_main; by rewrite Hw).
  destruct (pcs (mre_ s) main_id) as [| | |k|] eqn:Hq; try done; [eexists; apply acts_main; unfold mre_main; by rewrite Hw, Hq|].
  destruct (blocked (in_wait k)) eqn:Hb; [|apply (inside_goes_on main_id); by rewrite ?Hq].
  destruct (setter_ s) eqn:Hp; [naive_solver|eexists; apply (acts_setter _ _ None); unfold set_string; by rewrite Hp..| |].
  - destruct (pcs (mre_ s) setter_id) as [|k'| | |] eqn:Hi; try done.
    + eexists. apply (acts_setter _ _ None). unfold set_string. by rewrite Hp, Hi.
    + apply (inside_goes_on setter_id); by rewrite ?Hi.
  - destruct H4 as [Hi Hsig]. destruct (one_notified _ _ (reachable_one _ _ _ H1)) as [t Ht]; [by rewrite Hq|done|].
    destruct (who_inside t s Hok) as [[-> _]|[-> ?]]; [by intros Hx; rewrite Hx in Ht|by rewrite Hq in Ht|congruence].
Qed.

Lemma program_rank_bound s : program_rank s ≤ 89.
Proof.
  unfold program_rank. assert (main_rank (main_ s) (pcs (mre_ s) main_id) ≤ 9).
  { destruct (main_ s), (pcs (mre_ s) main_id) as [| | |[]|]; simpl; lia. }
  assert (setter_rank (setter_ s) (pcs (mre_ s) setter_id) ≤ 8).
  { destruct (setter_ s), (pcs (mre_ s) setter_id) as [|[]| | |]; simpl; lia. }
  lia.
Qed.

Lemma acts_bound n s s' : program_ok s → nsteps acts n s s' → program_ok s' ∧ n + program_rank s' ≤ program_rank s.
Proof.
  intros Hok Hn. induction Hn as [s|n s1 s2 s3 Ha _ IH]; [split; [done|lia]|].
  destruct (acts_step _ _ Hok Ha) as [Hok2 Hlt]. destruct (IH Hok2). split; [done|lia].
Qed.
