(* ===== verification/Console.v ===== *)
(** * Stop watch and console logs

    src/cpp_console/stop_watch.h ([stop_watch] over the times of stime.h),
    src/cpp_console/slog.h ([simple_logger], a log file with numbered records) and
    src/cpp_console/log_printer.h ([log_printer], whose records are printed by the
    destructor of a static object).  What stime::cur_time reads from the clock is
    an argument of each call; what the file system answers to open is an argument
    of [open_log]. *)

From Stdlib Require Import Ascii String.
From stdpp Require Import numbers sorting list.
From S2P Require Import Prelude StdText SString STime.

Local Open Scope Z_scope.

(** ** stop_watch *)

Record stop_watch := StopWatch { _running : bool; duration : stime_duration; time_point : stime }.

Definition new_watch : stop_watch := StopWatch false (StimeDuration 0) (Stime 0 0 0 0).

Definition is_running (w : stop_watch) : bool := _running w.

Definition watch_reset (w : stop_watch) : stop_watch := StopWatch false (StimeDuration 0) (time_point w).

Definition watch_restart (now : stime) (w : stop_watch) : stop_watch := StopWatch true (StimeDuration 0) now.

Definition watch_start (now : stime) (w : stop_watch) : stop_watch :=
  if negb (_running w) then StopWatch true (duration w) now else w.

(** [None]: the [int] or [long] arithmetic overflows. *)
Definition watch_stop (now : stime) (w : stop_watch) : option stop_watch :=
  if _running w then
    d ← stime_sub now (time_point w);
    sum ← duration_add (duration w) d;
    Some (StopWatch false sum (time_point w))
  else Some w.

(** [None]: the double does not fit a [long]. *)
Definition elapsed (w : stop_watch) : option Z := ck_long (total_milliseconds (duration w)).

(** Calls of the public operations, with the time each of them reads. *)
Inductive watch_call :=
| WReset
| WRestart (now : stime)
| WStart (now : stime)
| WStop (now : stime).

Definition watch_step (c : watch_call) (w : stop_watch) : option stop_watch :=
  match c with
  | WReset => Some (watch_reset w)
  | WRestart now => Some (watch_restart now w)
  | WStart now => Some (watch_start now w)
  | WStop now => watch_stop now w
  end.

Fixpoint watch_run (cs : list watch_call) (w : stop_watch) : option stop_watch :=
  match cs with
  | [] => Some w
  | c :: cs => w' ← watch_step c w; watch_run cs w'
  end.

(** ** simple_logger

    A std::ofstream: the contents of the file it has open, and whether a stream
    operation has failed.  Opening an open stream fails; a successful open clears
    the error; output to a failed or closed stream is lost. *)

Record ofstream := OFStream { of_file : option chars; of_fail : bool }.

Definition of_open (existing : option chars) (s : ofstream) : ofstream :=
  match of_file s, existing with
  | Some c, _ => OFStream (Some c) true
  | None, Some c => OFStream (Some c) false
  | None, None => OFStream None true
  end.

Definition of_put (out : chars) (s : ofstream) : ofstream :=
  match of_file s, of_fail s with
  | Some c, false => OFStream (Some (c ++ out)) false
  | f, _ => OFStream f true
  end.

Record simple_logger := SimpleLogger { _ofs : ofstream; rec_num : Z }.

Definition new_logger : simple_logger := SimpleLogger (OFStream None false) 0.

(** [existing]: what is in the file already, [None] if it cannot be opened. *)
Definition open_log (existing : option chars) (l : simple_logger) : simple_logger :=
  SimpleLogger (of_open existing (_ofs l)) (rec_num l).

(** One record of the file. *)
Definition log_line (num : Z) (time_str : chars) (line : Z) (msg : chars) : chars :=
  text "[" ++ print_int num ++ text "]" ++ (text "[" ++ time_str) ++ text "]" ++
  text "[" ++ print_int line ++ text "]" ++ text " -> " ++ msg ++ [LF].

Definition append_log (now : stime) (msg : chars) (line : Z) (l : simple_logger) : option simple_logger :=
  time_str ← stime_to_string now;
  num ← ck_int (rec_num l + 1);
  Some (SimpleLogger (of_put (log_line num time_str line msg) (_ofs l)) num).

Fixpoint append_all (recs : list (stime * chars * Z)) (l : simple_logger) : option simple_logger :=
  match recs with
  | [] => Some l
  | (now, msg, line) :: recs => l' ← append_log now msg line l; append_all recs l'
  end.

(** ** log_printer: a static auto_printer *)

Abbreviation auto_printer := (list chars).

Definition printer_append (str : chars) (_data : auto_printer) : auto_printer := _data ++ [str].

Definition log_printer_add (key : chars) (val : Z) (_printer : auto_printer) : option auto_printer :=
  num ← to_string n_long val;
  Some (printer_append (key ++ text ": " ++ num) _printer).

(** The destructor, from index [i]. *)
Fixpoint print_from (i : Z) (_data : auto_printer) : chars :=
  match _data with
  | [] => []
  | d :: _data => (text "[" ++ print_int (i + 1) ++ text "]" ++ d ++ [LF]) ++ print_from (i + 1) _data
  end.

Definition auto_printer_destroy (_data : auto_printer) : chars := print_from 0 _data.

Fixpoint add_records (recs : list (chars * Z)) (p : auto_printer) : option auto_printer :=
  match recs with
  | [] => Some p
  | (key, val) :: recs => p' ← log_printer_add key val p; add_records recs p'
  end.

(** ** What a watch has measured

    The intervals between a start and the stop that ends it, since the last reset
    or restart, and the start of the interval that is still open. *)

Definition measure (c : watch_call) (m : list (stime * stime) * option stime) : list (stime * stime) * option stime :=
  match c with
  | WReset => ([], None)
  | WRestart now => ([], Some now)
  | WStart now => (m.1, Some (default now m.2))
  | WStop now => match m.2 with Some t => (m.1 ++ [(t, now)], None) | None => m end
  end.

Definition measured (cs : list watch_call) : list (stime * stime) * option stime :=
  foldl (λ m c, measure c m) ([], None) cs.

(** The times the calls read. *)
Definition reading (c : watch_call) : option stime :=
  match c with
  | WReset => None
  | WRestart now | WStart now | WStop now => Some now
  end.

Definition readings (cs : list watch_call) : list stime := omap reading cs.

Definition interval_ms (i : stime * stime) : Z := day_ms i.2 - day_ms i.1.

(** [w] shows the intervals and the open interval of [m]. *)
Definition shows (m : list (stime * stime) * option stime) (w : stop_watch) : Prop :=
  _milliseconds (duration w) = sum_of interval_ms m.1 ∧
  (_running w = true ↔ is_Some m.2) ∧
  (∀ t, m.2 = Some t → time_point w = t) ∧
  Forall (λ i, valid_time i.1 ∧ valid_time i.2) m.1 ∧
  (∀ t, m.2 = Some t → valid_time t).

(** Closes goals about what a watch shows. *)
Ltac show_solver := unfold shows in *; simpl in *; split_and?; naive_solver.

Lemma sum_of_app {A} (f : A → Z) l1 l2 : sum_of f (l1 ++ l2) = sum_of f l1 + sum_of f l2.
Proof. unfold sum_of. induction l1 as [|x l1 IH]; simpl; lia. Qed.

Lemma sum_intervals_bound l :
  Forall (λ i, valid_time i.1 ∧ valid_time i.2) l →
  Z.abs (sum_of interval_ms l) ≤ 86400000 * Z.of_nat (length l).
Proof.
  induction 1 as [|[a b] l [Ha%day_ms_range Hb%day_ms_range] _ IH]; [done|].
  cbn [sum_of foldr length] in *. fold (sum_of interval_ms l) in *.
  unfold interval_ms at 1. simpl in *. lia.
Qed.

Lemma shows_new : shows ([], None) new_watch.
Proof. show_solver. Qed.

Lemma measure_length c m : (length (measure c m).1 ≤ S (length m.1))%nat.
Proof. destruct c, m as [l [t|]]; simpl; rewrite ?length_app; simpl; lia. Qed.

Lemma measured_length cs : (length (measured cs).1 ≤ length cs)%nat.
Proof.
  unfold measured. assert (∀ m, length (foldl (λ m c, measure c m) m cs).1 ≤ length m.1 + length cs)%nat as H.
  { induction cs as [|c cs IH]; intros m; simpl; [lia|]. specialize (IH (measure c m)). pose proof (measure_length c m). lia. }
  apply (H ([], None)).
Qed.

Lemma watch_step_shows c m w :
  shows m w → (∀ t, reading c = Some t → valid_time t) → Z.of_nat (length m.1) < 2 ^ 30 →
  ∃ w', watch_step c w = Some w' ∧ shows (measure c m) w'.
Proof.
  destruct w as [r d tp], m as [l o]. intros (Hd & Hr & Ho & Hl & Hv) Hc Hlen. simpl in *.
  destruct c as [|now|now|now]; simpl in Hc |- *.
  - eexists; split; [done|]. show_solver.
  - eexists; split; [done|]. show_solver.
  - unfold watch_start. destruct r, o; simpl; eexists; (split; [done|]); show_solver.
  - unfold watch_stop. simpl. destruct o as [t|]; simpl.
    + assert (r = true) as -> by (apply Hr; eauto). specialize (Ho t eq_refl) as ->.
      assert (valid_time now) as Hn by auto. assert (valid_time t) as Ht by auto.
      rewrite stime_sub_valid by done. simpl. unfold duration_add. simpl.
      pose proof (sum_intervals_bound l Hl). pose proof (day_ms_range _ Hn). pose proof (day_ms_range _ Ht).
      rewrite ck_long_some by (unfold in_type; simpl; lia). simpl.
      eexists; split; [done|]. unfold shows; simpl. split_and!.
      * rewrite sum_of_app, Hd. unfold sum_of; simpl. unfold interval_ms; simpl. lia.
      * split; [done|]. by intros [? ?].
      * done.
      * apply Forall_app; split; [done|]. by constructor.
      * done.
    + destruct r; [by destruct Hr as [[? ?] _]|]. eexists; split; [done|]. show_solver.
Qed.

Lemma watch_run_shows cs : ∀ m w,
  shows m w → Forall valid_time (readings cs) → Z.of_nat (length m.1 + length cs) < 2 ^ 30 →
  ∃ w', watch_run cs w = Some w' ∧ shows (foldl (λ m c, measure c m) m cs) w'.
Proof.
  induction cs as [|c cs IH]; intros m w Hs Hv Hlen; simpl; [by eauto|].
  simpl in Hlen. pose proof (measure_length c m).
  destruct (watch_step_shows c m w) as (w' & -> & Hs'); [done| |lia|].
  - intros t Ht. unfold readings in Hv. simpl in Hv. rewrite Ht in Hv. by inversion Hv.
  - simpl. apply IH; [done| |lia].
    unfold readings in *. simpl in Hv. destruct (reading c); [by inversion Hv|done].
Qed.

(** Intervals measured with a clock that does not go back are disjoint parts of the time
    between the first and the last reading. *)
Definition ascending (l : list stime) : Prop := StronglySorted (λ a b, day_ms a ≤ day_ms b) l.

(** The intervals of [m] fit between the times [lo] and [hi], the open one included. *)
Definition within (lo hi : Z) (m : list (stime * stime) * option stime) : Prop :=
  0 ≤ sum_of interval_ms m.1 ∧ lo + sum_of interval_ms m.1 ≤ hi ∧
  (∀ t, m.2 = Some t → lo + sum_of interval_ms m.1 ≤ day_ms t ≤ hi).

Lemma within_measure lo hi c m hi' :
  within lo hi m → hi ≤ hi' → (∀ t, reading c = Some t → hi' = day_ms t) → within lo hi' (measure c m).
Proof.
  destruct m as [l o]. intros (H0 & Hlo & Ho) Hh Hc. simpl in *.
  assert (sum_of interval_ms [] = 0) by done.
  destruct c as [|now|now|now]; simpl in *; try rewrite (Hc now eq_refl) in *; clear Hc.
  - split_and!; simpl; lia || done.
  - split_and!; simpl; try lia. intros t [= <-]. lia.
  - split_and!; simpl; try lia. intros t [= <-]. destruct o as [t|]; simpl; [specialize (Ho t eq_refl)|]; lia.
  - destruct o as [t|]; simpl; [|split_and!; simpl; done || lia].
    specialize (Ho t eq_refl).
    assert (sum_of interval_ms (l ++ [(t, now)]) = sum_of interval_ms l + (day_ms now - day_ms t)) as Hs.
    { rewrite sum_of_app. unfold sum_of at 2, interval_ms at 2; simpl. lia. }
    split_and!; simpl; rewrite ?Hs; done || lia.
Qed.

(** The last time the calls read, [hi] without any. *)
Definition last_reading (hi : Z) (cs : list watch_call) : Z := foldl (λ _ t, day_ms t) hi (readings cs).

Lemma within_run lo cs : ∀ hi m,
  within lo hi m → Forall (λ t, hi ≤ day_ms t) (readings cs) → ascending (readings cs) →
  within lo (last_reading hi cs) (foldl (λ m c, measure c m) m cs).
Proof.
  unfold last_reading, readings, ascending.
  induction cs as [|c cs IH]; intros hi m Hm Hhi Ha; simpl in *; [done|].
  destruct (reading c) as [t|] eqn:Hc; simpl in *.
  - apply StronglySorted_inv in Ha as [Ha Ht]. inversion Hhi as [|? ? Hh Hhi']; subst.
    apply IH; [|done..]. apply within_measure with hi; [done..|]. intros t' Ht'. by simplify_eq.
  - apply IH; [|done..]. apply within_measure with hi; [done|lia|]. by rewrite Hc.
Qed.

(** ** Contents of the log file *)

(** The records from number [n + 1] on. *)
Fixpoint log_lines (n : Z) (recs : list (stime * chars * Z)) : chars :=
  match recs with
  | [] => []
  | (now, msg, line) :: recs => log_line (n + 1) (format_time now) line msg ++ log_lines (n + 1) recs
  end.

Lemma valid_to_string t : valid_time t → stime_to_string t = Some (format_time t).
Proof. intros Ht. unfold valid_time in Ht. apply format_parse; lia. Qed.

Lemma append_all_lines recs : ∀ c n,
  Forall (λ r, valid_time r.1.1) recs → 0 ≤ n → n + Z.of_nat (length recs) < 2 ^ 31 →
  append_all recs (SimpleLogger (OFStream (Some c) false) n) =
  Some (SimpleLogger (OFStream (Some (c ++ log_lines n recs)) false) (n + Z.of_nat (length recs))).
Proof.
  induction recs as [|[[now msg] line] recs IH]; intros c n Hv Hn Hlen.
  - simpl. by rewrite app_nil_r, Z.add_0_r.
  - inversion Hv as [|? ? Hnow Hv']; subst. simpl in Hnow, Hlen. simpl.
    unfold append_log. simpl. rewrite valid_to_string by done. simpl.
    rewrite ck_int_some by (unfold in_type; simpl; lia). simpl. unfold of_put. simpl.
    rewrite IH by (done || lia). rewrite <-app_assoc. do 2 f_equal. lia.
Qed.

Lemma add_records_texts recs : ∀ p,
  Forall (λ r, in_type long_t r.2) recs →
  add_records recs p = Some (p ++ map (λ r, r.1 ++ text ": " ++ print_int r.2) recs).
Proof.
  induction recs as [|[k v] recs IH]; intros p Hv; simpl; [by rewrite app_nil_r|].
  inversion Hv; subst. unfold log_printer_add. rewrite (to_string_total n_long long_t) by done. simpl.
  rewrite IH by done. unfold printer_append. by rewrite <-app_assoc.
Qed.
