(* ===== verification/Logger.v ===== *)
(** * Loggers with format strings

    src/my_lib/boost_log/Logger.h ([BaseLogger]: the variadic [format] and the
    writing functions; Logger and LoggerMT differ only in the Boost source they
    write to), src/my_lib/boost_log/LogHelper.{cpp,h} (sinks, their filters and
    formatters, the names of the levels) and the program Source.cpp.

    Boost is outside the repository.  boost::lexical_cast is the parameter
    [lexical_cast]; a written record is appended to the list of records handed to
    Boost.Log, and a sink is the configuration the code gives it: a filter and a
    formatter.  Which attributes a record carries besides is an argument of the
    formatter. *)

From Stdlib Require Import Ascii String.
From stdpp Require Import numbers list.
From S2P Require Import Prelude StdText.

Local Open Scope Z_scope.

(** ** Levels *)

Inductive severity_level := trace | debug | notification | warning | error.

Definition level (s : severity_level) : Z :=
  match s with trace => 0 | debug => 1 | notification => 2 | warning => 3 | error => 4 end.

Definition strings : list string := ["TRACE"; "DEBUG"; "INFOM"; "WARNN"; "ERROR"]%string.

(** Output of a level, which as an enumerator may hold other values: the index is
    checked as a [size_t]. *)
Definition put_severity (lvl : Z) : chars :=
  if bool_decide (lvl mod 2 ^ 64 < Z.of_nat (length strings)) then
    text (default EmptyString (strings !! Z.to_nat (lvl mod 2 ^ 64)))
  else print_int lvl.

(** ** format *)

(** The exceptions: std::runtime_error for missing arguments, std::logic_error for extra
    ones, and what lexical_cast throws. *)
Inductive format_error := missing_arguments | extra_arguments | bad_lexical_cast.

Definition percent : ascii := "%"%char.

(** The overload without arguments.  [it] is what is left of the format string, [str] the
    text so far. *)
Fixpoint format0 (it str : chars) : format_error + chars :=
  match it with
  | [] => inr str
  | c :: it1 =>
      if bool_decide (c = percent) then
        match it1 with
        | c' :: it2 => if bool_decide (c' = percent) then format0 it2 (str ++ [c']) else inl missing_arguments
        | [] => inl missing_arguments
        end
      else format0 it1 (str ++ [c])
  end.

(** The loop of the overload with a value: [inr (str, rest)] when it stops at the place of the
    value, with [rest] the format string behind it. *)
Fixpoint format_scan (it str : chars) : format_error + chars * chars :=
  match it with
  | [] => inl extra_arguments
  | c :: it1 =>
      if bool_decide (c = percent) then
        match it1 with
        | c' :: it2 => if bool_decide (c' = percent) then format_scan it2 (str ++ [c']) else inr (str, it1)
        | [] => inr (str, it1)
        end
      else format_scan it1 (str ++ [c])
  end.

Section format.
Context {T : Type} (lexical_cast : T → option chars).

Fixpoint format (it : chars) (args : list T) : format_error + chars :=
  match args with
  | [] => format0 it []
  | val :: args =>
      match format_scan it [] with
      | inl e => inl e
      | inr (str, rest) =>
          match lexical_cast val with
          | None => inl bad_lexical_cast
          | Some v =>
              match format rest args with
              | inl e => inl e
              | inr tail => inr ((str ++ v) ++ tail)
              end
          end
      end
  end.

(** ** Writing: records handed to the Boost source, with its attributes *)

Record record := LogRecord { r_level : severity_level; r_message : chars; r_attributes : list (chars * chars) }.

Record logger := MkLogger { l_attributes : list (chars * chars); l_records : list record }.

(** An attribute that is there already is kept. *)
Definition add_attribute (attr val : chars) (l : logger) : logger :=
  if bool_decide (attr ∈ (l_attributes l).*1) then l
  else MkLogger (l_attributes l ++ [(attr, val)]) (l_records l).

Definition write (lvl : severity_level) (msg : chars) (l : logger) : logger :=
  MkLogger (l_attributes l) (l_records l ++ [LogRecord lvl msg (l_attributes l)]).

Definition log_debug (msg : chars) (l : logger) : logger := write debug msg l.
Definition log_info (msg : chars) (l : logger) : logger := write notification msg l.
Definition log_error (msg : chars) (l : logger) : logger := write error msg l.

Definition debug_fmt (fmt : chars) (args : list T) (l : logger) : format_error + logger :=
  match format fmt args with inl e => inl e | inr msg => inr (log_debug msg l) end.
Definition info_fmt (fmt : chars) (args : list T) (l : logger) : format_error + logger :=
  match format fmt args with inl e => inl e | inr msg => inr (log_info msg l) end.
Definition error_fmt (fmt : chars) (args : list T) (l : logger) : format_error + logger :=
  match format fmt args with inl e => inl e | inr msg => inr (log_error msg l) end.
End format.

(** ** Sinks *)

(** Texts of the attributes a formatter prints. *)
Record common_attributes := CommonAttributes { a_line_id : chars; a_ts : chars; a_pid : chars; a_tid : chars; a_clsname : chars }.

Definition put_record (a : common_attributes) (r : record) : chars :=
  text "[" ++ a_line_id a ++ text "] " ++ text "[" ++ a_ts a ++ text "] " ++
  text "<" ++ put_severity (level (r_level r)) ++ text "> " ++
  text "[" ++ a_pid a ++ text "] " ++ text "[" ++ a_tid a ++ text "] " ++
  text "[" ++ a_clsname a ++ text "] " ++ r_message r.

Record sink := Sink {
  s_filter : record → bool;
  s_formatter : common_attributes → record → chars;
  s_rotation_size : option Z;
  s_max_size : option Z; }.

Record log_helper := LogHelper { console_sink : option sink; file_sink : option sink }.

Definition add_console_log (h : log_helper) : log_helper :=
  LogHelper (Some (Sink (λ _, true) put_record None None)) (file_sink h).

Definition add_file_log (h : log_helper) : log_helper :=
  LogHelper (console_sink h) (Some (Sink (λ _, true) put_record (Some (1024 * 1024)) (Some (1024 * 1024 * 10)))).

Definition level_filter (low_level : Z) (r : record) : bool := bool_decide (low_level <= level (r_level r)).

Definition set_filter (f : record → bool) (s : sink) : sink :=
  Sink f (s_formatter s) (s_rotation_size s) (s_max_size s).

(** Without a sink nothing happens. *)
Definition set_console_sink_filter (low_level : Z) (h : log_helper) : log_helper :=
  match console_sink h with
  | Some s => LogHelper (Some (set_filter (level_filter low_level) s)) (file_sink h)
  | None => h
  end.

Definition set_file_sink_filter (low_level : Z) (h : log_helper) : log_helper :=
  match file_sink h with
  | Some s => LogHelper (console_sink h) (Some (set_filter (level_filter low_level) s))
  | None => h
  end.

(** The program of Source.cpp: the configuration of the sinks and the records it writes. *)
Definition log_main {T} (lexical_cast : T → option chars) (of_literal : chars → T) : log_helper * (format_error + logger) :=
  let helper := set_console_sink_filter 1 (add_console_log (LogHelper None None)) in
  let log := add_attribute (text "ClassName") (text "main") (MkLogger [] []) in
  let log := log_info (text "this is log") log in
  (helper, info_fmt lexical_cast (text "this is %") [of_literal (text "log")] log).

(** ** What a format string says *)

Inductive piece := Lit (c : ascii) | Hole.

Fixpoint pieces (it : chars) : list piece :=
  match it with
  | [] => []
  | c :: it1 =>
      if bool_decide (c = percent) then
        match it1 with
        | c' :: it2 => if bool_decide (c' = percent) then Lit percent :: pieces it2 else Hole :: pieces it1
        | [] => [Hole]
        end
      else Lit c :: pieces it1
  end.

Definition is_hole (p : piece) : bool := match p with Hole => true | Lit _ => false end.

Definition holes (it : chars) : nat := length (filter is_hole (pieces it)).

(** The pieces with the texts in the holes, as far as there are any. *)
Fixpoint fill (ps : list piece) (texts : list chars) : chars :=
  match ps, texts with
  | [], _ => []
  | Lit c :: ps, _ => c :: fill ps texts
  | Hole :: ps, v :: texts => v ++ fill ps texts
  | Hole :: ps, [] => fill ps []
  end.

(** Induction over a format string the way it is read. *)
Lemma format_ind (P : chars → Prop) :
  P [] →
  (∀ c it, c ≠ percent → P it → P (c :: it)) →
  (∀ it, P it → P (percent :: percent :: it)) →
  (∀ it, head it ≠ Some percent → P it → P (percent :: it)) →
  ∀ it, P it.
Proof.
  intros Hnil Hlit Hesc Hhole it. remember (length it) as n. assert (length it ≤ n)%nat as Hn by lia. clear Heqn.
  revert it Hn. induction n as [|n IH]; intros [|c it] Hn; simpl in Hn; try done; try lia.
  destruct (decide (c = percent)) as [->|Hc]; [|apply Hlit; [done|apply IH; lia]].
  destruct it as [|c' it]; [by apply Hhole|]. simpl in Hn.
  destruct (decide (c' = percent)) as [->|Hc']; [apply Hesc, IH; lia|].
  apply Hhole; [naive_solver|apply IH; simpl; lia].
Qed.

Lemma pieces_lit c it : c ≠ percent → pieces (c :: it) = Lit c :: pieces it.
Proof. intros Hc. simpl. by rewrite bool_decide_false. Qed.

Lemma pieces_hole it : head it ≠ Some percent → pieces (percent :: it) = Hole :: pieces it.
Proof. intros Hh. destruct it as [|c it]; [done|]. simpl. by rewrite (bool_decide_false (c = percent)) by naive_solver. Qed.

Lemma holes_lit c it : c ≠ percent → holes (c :: it) = holes it.
Proof. intros Hc. unfold holes. by rewrite pieces_lit, filter_cons_False by done || auto. Qed.

Lemma holes_escaped it : holes (percent :: percent :: it) = holes it.
Proof. unfold holes. simpl. by rewrite filter_cons_False by auto. Qed.

Lemma holes_hole it : head it ≠ Some percent → holes (percent :: it) = S (holes it).
Proof. intros Hh. unfold holes. by rewrite pieces_hole, filter_cons_True by done. Qed.

Lemma format0_spec it : ∀ str,
  format0 it str = if decide (holes it = 0%nat) then inr (str ++ fill (pieces it) []) else inl missing_arguments.
Proof.
  induction it as [|c it Hc IH|it IH|it Hc IH] using format_ind; intros str.
  - simpl. by rewrite app_nil_r.
  - rewrite holes_lit, pieces_lit by done. simpl. rewrite bool_decide_false, IH by done.
    case_decide; [|done]. by rewrite <-app_assoc.
  - rewrite holes_escaped. simpl. rewrite IH. case_decide; [|done]. by rewrite <-app_assoc.
  - rewrite holes_hole by done. destruct it as [|c' it]; [done|]. simpl in Hc |- *.
    by rewrite (bool_decide_false (c' = percent)) by naive_solver.
Qed.

(** The loop stops at the first hole of the [n] holes in [ps]. *)
Definition scanned (n : nat) (ps : list piece) (str : chars) (r : format_error + chars * chars) : Prop :=
  match r with
  | inl e => e = extra_arguments ∧ n = 0%nat
  | inr (str', rest) => n = S (holes rest) ∧
      ∃ pre, str' = str ++ pre ∧ ∀ v texts, fill ps (v :: texts) = pre ++ v ++ fill (pieces rest) texts
  end.

Lemma scanned_lit n ps str c r : scanned n ps (str ++ [c]) r → scanned n (Lit c :: ps) str r.
Proof.
  destruct r as [e|[str' rest]]; [done|]. intros (Hh & pre & -> & Hf). split; [done|].
  exists (c :: pre). split; [by rewrite <-app_assoc|]. intros v texts. simpl. by rewrite Hf.
Qed.

Lemma scanned_hole it str : scanned (S (holes it)) (Hole :: pieces it) str (inr (str, it)).
Proof. split; [done|]. exists []. by rewrite app_nil_r. Qed.

Lemma format_scan_spec it : ∀ str, scanned (holes it) (pieces it) str (format_scan it str).
Proof.
  induction it as [|c it Hc IH|it IH|it Hc IH] using format_ind; intros str.
  - done.
  - rewrite holes_lit, pieces_lit by done. cbn [format_scan]. rewrite bool_decide_false by done.
    apply scanned_lit, IH.
  - rewrite holes_escaped. apply scanned_lit, IH.
  - rewrite holes_hole, pieces_hole by done. destruct it as [|c' it]; [apply scanned_hole|].
    simpl in Hc. cbn [format_scan]. rewrite (bool_decide_true (percent = percent)) by done.
    rewrite (bool_decide_false (c' = percent)) by naive_solver. apply scanned_hole.
Qed.

Section format_spec.
Context {T : Type} (lexical_cast : T → option chars).

Lemma format_spec args texts : ∀ it,
  Forall2 (λ a t, lexical_cast a = Some t) args texts →
  format lexical_cast it args =
  match Nat.compare (holes it) (length args) with
  | Eq => inr (fill (pieces it) texts)
  | Lt => inl extra_arguments
  | Gt => inl missing_arguments
  end.
Proof.
  intros it H. revert it. induction H as [|a t args texts Ha _ IH]; intros it.
  - simpl. rewrite format0_spec. simpl.
    destruct (Nat.compare_spec (holes it) 0); case_decide; try lia; done.
  - simpl. pose proof (format_scan_spec it []) as Hs. destruct (format_scan it []) as [e|[str rest]].
    + destruct Hs as [-> ->]. done.
    + destruct Hs as (-> & pre & -> & Hf). rewrite Ha, IH. simpl.
      destruct (Nat.compare (holes rest) (length args)); [|done..].
      by rewrite Hf, <-app_assoc.
Qed.
End format_spec.

(** ** Writing a format string for given texts *)

(** [%] doubled. *)
Fixpoint escape (l : chars) : chars :=
  match l with
  | [] => []
  | c :: l => if bool_decide (c = percent) then percent :: percent :: escape l else c :: escape l
  end.

Fixpoint template (t0 : chars) (ts : list chars) : chars :=
  match ts with
  | [] => escape t0
  | t :: ts => escape t0 ++ percent :: template t ts
  end.

(** [t0] and the rest with the values in between. *)
Fixpoint expansion (t0 : chars) (ts vs : list chars) : chars :=
  match ts, vs with
  | t :: ts, v :: vs => t0 ++ v ++ expansion t ts vs
  | _, _ => t0
  end.

Lemma pieces_escape t it : pieces (escape t ++ it) = map Lit t ++ pieces it.
Proof.
  induction t as [|c t IH]; [done|]. simpl. case_bool_decide as Hc; simpl.
  - by rewrite IH, Hc.
  - by rewrite bool_decide_false, IH.
Qed.

Lemma template_head t ts : head t ≠ Some percent → (t = [] → ts = []) → head (template t ts) ≠ Some percent.
Proof.
  intros Ht Hts. destruct t as [|c t].
  - rewrite (Hts eq_refl). done.
  - assert (c ≠ percent) by naive_solver. destruct ts; simpl; rewrite bool_decide_false by done; naive_solver.
Qed.

(** Every text behind a value is followed by the end or is not empty and does not start with
    a percent sign: two marks next to each other read as one. *)
Fixpoint separated (ts : list chars) : Prop :=
  match ts with
  | [] => True
  | t :: ts => head t ≠ Some percent ∧ (t = [] → ts = []) ∧ separated ts
  end.

Lemma pieces_template ts : ∀ t0, separated ts →
  pieces (template t0 ts) = map Lit t0 ++ concat (map (λ t, Hole :: map Lit t) ts).
Proof.
  induction ts as [|t ts IH]; intros t0 Hs; simpl.
  - rewrite <-(app_nil_r (escape t0)), pieces_escape. done.
  - destruct Hs as (Hh & He & Hs). rewrite pieces_escape, pieces_hole by by apply template_head.
    by rewrite IH.
Qed.

Lemma fill_lits t ps texts : fill (map Lit t ++ ps) texts = t ++ fill ps texts.
Proof. induction t as [|c t IH]; [done|]. simpl. by rewrite IH. Qed.

Lemma fill_template t0 ts : ∀ vs, length vs = length ts →
  fill (map Lit t0 ++ concat (map (λ t, Hole :: map Lit t) ts)) vs = expansion t0 ts vs.
Proof.
  revert t0. induction ts as [|t ts IH]; intros t0 [|v vs] Hl; try done; rewrite fill_lits; simpl.
  - by rewrite app_nil_r.
  - rewrite IH by (simpl in Hl; lia). done.
Qed.

Lemma holes_lits t ps : filter is_hole (map Lit t ++ ps) = filter is_hole ps.
Proof. by induction t as [|c t IH]. Qed.

Lemma holes_template t0 ts : separated ts → holes (template t0 ts) = length ts.
Proof.
  intros Hs. unfold holes. rewrite pieces_template, holes_lits by done.
  clear Hs. induction ts as [|t ts IH]; [done|]. simpl. f_equal.
  by rewrite holes_lits.
Qed.
