(* ===== verification/Maze.v ===== *)
(** * Mazes and the creational patterns

    src/design_patterns/creational: common/Maze.{h,cpp} (rooms, walls, doors and
    mazes), and the four programs that build a maze with an abstract factory, a
    builder, factory methods and a singleton factory.

    Objects live in one memory; [new] is the interface [New].  A class with
    virtual functions is an inductive type of its subclasses ([Enter] dispatches
    on the object) or, for the factories and builders, a record of functions whose
    subclasses override fields.  The sides of a room are not initialised by its
    constructor: reading one before it is set faults, as does a search in the map
    of rooms that ends at end(). *)

From Stdlib Require Import Ascii String.
From stdpp Require Import gmap numbers sets list.
From S2P Require Import Prelude CAlloc StdText StdMap.

Local Open Scope Z_scope.

(** ** Objects (Maze.h) *)

Inductive Direction := North | South | East | West.

Definition dir_index (d : Direction) : nat :=
  match d with North => 0 | South => 1 | East => 2 | West => 3 end.

Inductive room_class := PlainRoom | RoomWithABomb | EnchantedRoom (spell : Z).
Inductive wall_class := PlainWall | CommonWall (room1 room2 : Z) | BombedWall.
Inductive door_class := PlainDoor | DoorNeedingSpell.

Inductive object :=
| ORoom (c : room_class) (roomNumber : Z) (sides : list (option Z))
| OWall (c : wall_class)
| ODoor (c : door_class) (room1 room2 : Z) (isOpen : bool)
| OSpell
| OMaze (rooms : list (Z * Z))
| OBuilder (currentMaze : Z).

Record world := World { objs : gmap Z object; out : chars }.

#[global] Instance objs_lens : Lens world (gmap Z object).
Proof. by refine {| view := objs; update h w := World h (out w) |}; intros; destruct s. Defined.

Section maze.
Context `{NW : !New}.

Definition new_object (o : object) : cmd world Z :=
  λ w, let a := new_addr (dom (objs w)) in Done (a, World (<[a:=o]> (objs w)) (out w)).

Definition print_line (s : string) : cmd world () := λ w, Done ((), World (objs w) (out w ++ text s ++ [LF])).

(** Constructors. *)
Definition new_Room (c : room_class) (roomNo : Z) : cmd world Z := new_object (ORoom c roomNo (replicate 4 None)).
Definition new_Wall (c : wall_class) : cmd world Z := new_object (OWall c).
Definition new_Door (c : door_class) (r1 r2 : Z) : cmd world Z := new_object (ODoor c r1 r2 false).
Definition new_Spell : cmd world Z := new_object OSpell.
Definition new_Maze : cmd world Z := new_object (OMaze []).

(** Members of Room. *)
Definition GetRoomNo (r : Z) : cmd world Z :=
  o ← zoom (load r); match o with ORoom _ n _ => mret n | _ => fault end.

Definition GetSide (r : Z) (d : Direction) : cmd world Z :=
  o ← zoom (load r);
  match o with ORoom _ _ sides => of_option (mjoin (sides !! dir_index d)) | _ => fault end.

Definition SetSide (r : Z) (d : Direction) (s : Z) : cmd world () :=
  o ← zoom (load r);
  match o with
  | ORoom c n sides => zoom (store r (ORoom c n (<[dir_index d := Some s]> sides)))
  | _ => fault
  end.

(** The virtual function of MapSite. *)
Definition Enter (p : Z) : cmd world () :=
  o ← zoom (load p);
  match o with
  | ORoom PlainRoom _ _ => print_line "Enter Room"
  | ORoom RoomWithABomb _ _ => print_line "Enter Room With A Bomb"
  | ORoom (EnchantedRoom _) _ _ => print_line "Enter Enchanted Room"
  | ODoor PlainDoor _ _ _ => print_line "Enter Door"
  | ODoor DoorNeedingSpell _ _ _ => print_line "Enter Enchanted Door"
  | OWall _ => mret ()
  | _ => fault
  end.

(** Flows off the end of a function that returns a value. *)
Definition OtherSideFrom (d r : Z) : cmd world Z := fault.

(** Members of Maze. *)
Definition get_rooms (m : Z) : cmd world (list (Z * Z)) :=
  o ← zoom (load m); match o with OMaze rooms => mret rooms | _ => fault end.

Definition AddRoom (m r : Z) : cmd world () :=
  n ← GetRoomNo r;
  rooms ← get_rooms m;
  zoom (store m (OMaze (m_insert n r rooms))).

(** [it->second], whatever [find] returned. *)
Definition RoomNo (m n : Z) : cmd world Z :=
  rooms ← get_rooms m;
  of_option (m_find n rooms).

(** ** Factories (abstract_factory/MazeFactory.h, singleton/MazeFactory.h) *)

Record MazeFactory := Factory {
  MakeMaze : cmd world Z;
  MakeWall : cmd world Z;
  MakeRoom : Z → cmd world Z;
  MakeDoor : Z → Z → cmd world Z; }.

Definition StdMazeFactory : MazeFactory := {|
  MakeMaze := new_Maze;
  MakeWall := new_Wall PlainWall;
  MakeRoom n := new_Room PlainRoom n;
  MakeDoor r1 r2 := new_Door PlainDoor r1 r2; |}.

Definition BombedMazeFactory : MazeFactory := {|
  MakeMaze := MakeMaze StdMazeFactory;
  MakeWall := new_Wall BombedWall;
  MakeRoom n := new_Room RoomWithABomb n;
  MakeDoor := MakeDoor StdMazeFactory; |}.

Definition CastSpell : cmd world Z := new_Spell.

Definition EnchantedMazeFactory : MazeFactory := {|
  MakeMaze := MakeMaze StdMazeFactory;
  MakeWall := MakeWall StdMazeFactory;
  MakeRoom n := (s ← CastSpell; new_Room (EnchantedRoom s) n);
  MakeDoor r1 r2 := new_Door DoorNeedingSpell r1 r2; |}.

(** abstract_factory/MazeGame.cpp *)
Definition CreateMaze (factory : MazeFactory) : cmd world Z :=
  m ← MakeMaze factory;
  r1 ← MakeRoom factory 1;
  r2 ← MakeRoom factory 2;
  d ← MakeDoor factory r1 r2;
  AddRoom m r1;;
  AddRoom m r2;;
  w ← MakeWall factory; SetSide r1 North w;;
  SetSide r1 East d;;
  w ← MakeWall factory; SetSide r1 South w;;
  w ← MakeWall factory; SetSide r1 West w;;
  w ← MakeWall factory; SetSide r2 North w;;
  w ← MakeWall factory; SetSide r2 East w;;
  w ← MakeWall factory; SetSide r2 South w;;
  SetSide r2 West d;;
  mret m.

(** abstract_factory/Main.cpp *)
Definition factory_main : cmd world Z :=
  m ← CreateMaze BombedMazeFactory;
  r1 ← RoomNo m 1;
  Enter r1;;
  mret 0.

(** ** Factory methods (factory_method): the game overrides the methods itself *)

Record MazeGame := Game {
  game_MakeMaze : cmd world Z;
  game_MakeRoom : Z → cmd world Z;
  game_MakeWall : cmd world Z;
  game_MakeDoor : Z → Z → cmd world Z; }.

Definition PlainMazeGame : MazeGame := {|
  game_MakeMaze := new_Maze;
  game_MakeRoom n := new_Room PlainRoom n;
  game_MakeWall := new_Wall PlainWall;
  game_MakeDoor r1 r2 := new_Door PlainDoor r1 r2; |}.

Definition BombedMazeGame : MazeGame := {|
  game_MakeMaze := game_MakeMaze PlainMazeGame;
  game_MakeRoom n := new_Room RoomWithABomb n;
  game_MakeWall := new_Wall BombedWall;
  game_MakeDoor := game_MakeDoor PlainMazeGame; |}.

Definition game_CreateMaze (this : MazeGame) : cmd world Z :=
  m ← game_MakeMaze this;
  r1 ← game_MakeRoom this 1;
  r2 ← game_MakeRoom this 2;
  theDoor ← game_MakeDoor this r1 r2;
  AddRoom m r1;;
  AddRoom m r2;;
  w ← game_MakeWall this; SetSide r1 North w;;
  SetSide r1 East theDoor;;
  w ← game_MakeWall this; SetSide r1 South w;;
  w ← game_MakeWall this; SetSide r1 West w;;
  w ← game_MakeWall this; SetSide r2 North w;;
  w ← game_MakeWall this; SetSide r2 East w;;
  w ← game_MakeWall this; SetSide r2 South w;;
  SetSide r2 West theDoor;;
  mret m.

Definition method_main : cmd world Z :=
  maze ← game_CreateMaze BombedMazeGame;
  r ← RoomNo maze 1;
  Enter r;;
  mret 0.

(** ** Singleton (singleton/MazeFactory.{h,cpp}): the static members *)

Record statics := Statics { _instance : option MazeFactory; _registry : list (chars * MazeFactory) }.

Definition Register (name : chars) (factory : MazeFactory) (s : statics) : statics :=
  Statics (_instance s) (m_insert name factory (_registry s)).

Definition Lookup (name : chars) (s : statics) : option MazeFactory :=
  if bool_decide (m_count name (_registry s) ≠ 0) then m_find name (_registry s) else None.

Definition Instance_ (s : statics) : option MazeFactory * statics :=
  let s := match _instance s with
           | None => Statics (Lookup (text "EnchantedMazeFactory") s) (_registry s)
           | Some _ => s
           end in
  (_instance s, s).

(** Before main: [_instance], [_registry], [bombed_factory] and [enchanted_factory], in this
    order; the constructors of the last two register themselves. *)
Definition static_init : statics :=
  Register (text "EnchantedMazeFactory") EnchantedMazeFactory
    (Register (text "BombedMazeFactory") BombedMazeFactory (Statics None [])).

(** singleton/MazeGame.cpp; a call through a null factory faults. *)
Definition singleton_CreateMaze : cmd (world * statics) Z :=
  λ '(w, s),
    let '(factory, s) := Instance_ s in
    match factory with
    | None => Fault
    | Some factory =>
        match CreateMaze factory w with
        | Done (m, w) => Done (m, (w, s))
        | Fault => Fault
        | OutOfFuel => OutOfFuel
        end
    end.

Definition singleton_main : cmd world Z :=
  λ w,
    match singleton_CreateMaze (w, static_init) with
    | Done (m, (w, _)) => (r1 ← RoomNo m 1; Enter r1;; mret 0) w
    | Fault => Fault
    | OutOfFuel => OutOfFuel
    end.

(** ** Builder (builder/MazeBuilder.{h,cpp}, builder/MazeGame.cpp) *)

Record MazeBuilder := Builder {
  BuildMaze : cmd world ();
  BuildRoom : Z → cmd world ();
  BuildDoor : Z → Z → cmd world ();
  GetMaze : cmd world Z; }.

(** The base class. *)
Definition NullBuilder : MazeBuilder := {|
  BuildMaze := mret ();
  BuildRoom _ := mret ();
  BuildDoor _ _ := mret ();
  GetMaze := mret NULL; |}.

Definition new_StandardMazeBuilder : cmd world Z := new_object (OBuilder NULL).

Definition _currentMaze (this : Z) : cmd world Z :=
  o ← zoom (load this); match o with OBuilder m => mret m | _ => fault end.

Definition CommonWall_ (r1 r2 : Z) : Direction := North.

Definition std_BuildMaze (this : Z) : cmd world () :=
  m ← new_Maze;
  zoom (store this (OBuilder m)).

Definition std_BuildRoom (this n : Z) : cmd world () :=
  m ← _currentMaze this;
  found ← RoomNo m n;
  if bool_decide (found = NULL) then
    room ← new_Room PlainRoom n;
    m ← _currentMaze this;
    AddRoom m room;;
    w ← new_Wall PlainWall; SetSide room North w;;
    w ← new_Wall PlainWall; SetSide room South w;;
    w ← new_Wall PlainWall; SetSide room East w;;
    w ← new_Wall PlainWall; SetSide room West w
  else mret ().

Definition std_BuildDoor (this n1 n2 : Z) : cmd world () :=
  m ← _currentMaze this;
  r1 ← RoomNo m n1;
  r2 ← RoomNo m n2;
  d ← new_Door PlainDoor r1 r2;
  SetSide r1 (CommonWall_ r1 r2) d;;
  SetSide r2 (CommonWall_ r2 r1) d.

Definition StandardMazeBuilder (this : Z) : MazeBuilder := {|
  BuildMaze := std_BuildMaze this;
  BuildRoom n := std_BuildRoom this n;
  BuildDoor n1 n2 := std_BuildDoor this n1 n2;
  GetMaze := _currentMaze this; |}.

Definition build_CreateMaze (builder : MazeBuilder) : cmd world Z :=
  BuildMaze builder;;
  BuildRoom builder 1;;
  BuildRoom builder 2;;
  BuildDoor builder 1 2;;
  GetMaze builder.

Definition builder_main : cmd world Z :=
  this ← new_StandardMazeBuilder;
  build_CreateMaze (StandardMazeBuilder this);;
  maze ← GetMaze (StandardMazeBuilder this);
  room ← RoomNo maze 1;
  Enter room;;
  mret 0.

End maze.
