(* ===== verification/MazeSpec.v ===== *)
(** * What the maze programs build

    [MazeFactoryOk] is what the client of a factory relies on: every method makes
    a new object of the product it is named after, and changes nothing else.  The
    three factories satisfy it; [CreateMaze] is proved against it. *)

From Stdlib Require Import Ascii String.
From stdpp Require Import gmap numbers sets list.
From S2P Require Import Prelude CAlloc StdText StdMap Maze.

Local Open Scope Z_scope.

Section spec.
Context `{NW : !New}.

(** ** Objects made since [w0]

    [owns w0 L w]: [w] has the objects [L] (address and value), which are distinct and not in
    [w0], besides everything [w0] has; nothing was printed. *)
Definition owns (w0 : world) (L : list (Z * object)) (w : world) : Prop :=
  NoDup L.*1 ∧ Forall (λ e, e.1 ≠ NULL ∧ objs w0 !! e.1 = None ∧ objs w !! e.1 = Some e.2) L ∧
  objs w0 ⊆ objs w ∧ out w = out w0.

Lemma owns_refl w : owns w [] w.
Proof. split_and!; [constructor|constructor|done|done]. Qed.

Lemma owns_lookup w0 L w i p o : owns w0 L w → L !! i = Some (p, o) → objs w !! p = Some o.
Proof. intros (_ & HF & _) Hi. by destruct (Forall_lookup_1 _ _ _ _ HF Hi) as (_ & _ & ?). Qed.

(** [m] makes one new object, [P] of it holds, and may make others. *)
Definition allocates (m : cmd world Z) (P : object → Prop) : Prop :=
  ∀ w, wp m (λ p w', p ≠ NULL ∧ objs w !! p = None ∧ objs w ⊆ objs w' ∧ out w' = out w ∧
                     ∃ o, objs w' !! p = Some o ∧ P o) w.

Lemma new_object_spec o w :
  wp (new_object o) (λ p w', p ≠ NULL ∧ objs w !! p = None ∧ objs w' = <[p:=o]> (objs w) ∧ out w' = out w) w.
Proof.
  eexists _, _. split; [done|]. simpl. split_and!; [apply new_addr_nonnull| |done..].
  apply not_elem_of_dom, new_addr_fresh.
Qed.

Lemma new_object_allocates o (P : object → Prop) : P o → allocates (new_object o) P.
Proof.
  intros HP w. eapply wp_mono; [apply new_object_spec|]. simpl. intros p w' (Hp & Hn & Ho & Hout).
  rewrite Ho. split_and!; [done..| |done|].
  - by apply insert_subseteq.
  - exists o. by rewrite lookup_insert_eq.
Qed.

Lemma owns_alloc m P w0 L w :
  allocates m P → owns w0 L w → wp m (λ p w', ∃ o, P o ∧ owns w0 ((p, o) :: L) w') w.
Proof.
  intros Hm (Hnd & HF & Hsub & Hout). eapply wp_mono; [apply Hm|]. simpl.
  intros p w' (Hp & Hn & Hsub' & Hout' & o & Ho & HP). exists o. split; [done|]. split_and!; simpl.
  - constructor; [|done]. intros ([q o'] & -> & Hq)%list_elem_of_fmap.
    rewrite Forall_forall in HF. destruct (HF _ Hq) as (_ & _ & ?). simpl in *. congruence.
  - constructor; simpl.
    + split_and!; [done| |done]. by eapply lookup_weaken_None.
    + eapply Forall_impl; [exact HF|]. intros [q o'] (? & ? & ?). split_and!; [done..|]. by eapply lookup_weaken.
  - by transitivity (objs w).
  - congruence.
Qed.

(** Overwriting an object of [L]. *)
Lemma owns_update w0 L w i p o o' :
  owns w0 L w → L !! i = Some (p, o) → owns w0 (<[i:=(p, o')]> L) (World (<[p:=o']> (objs w)) (out w)).
Proof.
  intros (Hnd & HF & Hsub & Hout) Hi. pose proof (Forall_lookup_1 _ _ _ _ HF Hi) as (Hp & Hp0 & _). simpl in *.
  assert ((<[i:=(p, o')]> L).*1 = L.*1) as HL.
  { rewrite list_fmap_insert. apply list_insert_id. by rewrite list_lookup_fmap, Hi. }
  split_and!; simpl.
  - by rewrite HL.
  - apply Forall_lookup. intros j [q oq] Hj. destruct (decide (j = i)) as [->|Hne].
    + rewrite list_lookup_insert_eq in Hj by by eapply lookup_lt_Some. simplify_eq/=. by rewrite lookup_insert_eq.
    + rewrite list_lookup_insert_ne in Hj by done.
      pose proof (Forall_lookup_1 _ _ _ _ HF Hj) as (? & ? & ?). simpl in *.
      rewrite lookup_insert_ne; [done|]. intros ->. apply Hne.
      eapply (NoDup_lookup L.*1); [done|rewrite list_lookup_fmap, Hj; done|by rewrite list_lookup_fmap, Hi].
  - apply map_subseteq_spec. intros q oq Hq. rewrite lookup_insert_ne by congruence. by eapply lookup_weaken.
  - done.
Qed.

Lemma owns_SetSide w0 L w i r c n sides d s :
  owns w0 L w → L !! i = Some (r, ORoom c n sides) →
  wp (SetSide r d s) (λ _ w', owns w0 (<[i:=(r, ORoom c n (<[dir_index d:=Some s]> sides))]> L) w') w.
Proof.
  intros HL Hi. pose proof (owns_lookup _ _ _ _ _ _ HL Hi) as Hr.
  eexists (), _. split; [|by eapply owns_update].
  unfold SetSide, mbind, cmd_bind, zoom, load, store. simpl. by rewrite Hr; simpl; rewrite Hr.
Qed.

Lemma owns_AddRoom w0 L w i m rooms j r c n sides :
  owns w0 L w → L !! i = Some (m, OMaze rooms) → L !! j = Some (r, ORoom c n sides) →
  wp (AddRoom m r) (λ _ w', owns w0 (<[i:=(m, OMaze (m_insert n r rooms))]> L) w') w.
Proof.
  intros HL Hi Hj. pose proof (owns_lookup _ _ _ _ _ _ HL Hi) as Hm. pose proof (owns_lookup _ _ _ _ _ _ HL Hj) as Hr.
  eexists (), _. split; [|by eapply owns_update].
  unfold AddRoom, GetRoomNo, get_rooms, mbind, cmd_bind, zoom, load, store. simpl.
  by repeat (first [rewrite Hr | rewrite Hm]; simpl).
Qed.

(** ** The interface of a factory *)

Class MazeFactoryOk (F : MazeFactory) (is_room : room_class → Prop) (is_wall : wall_class → Prop)
    (is_door : door_class → Prop) : Prop := {
  MakeMaze_ok : allocates (MakeMaze F) (λ o, o = OMaze []);
  MakeWall_ok : allocates (MakeWall F) (λ o, ∃ c, o = OWall c ∧ is_wall c);
  MakeRoom_ok : ∀ n, allocates (MakeRoom F n) (λ o, ∃ c, o = ORoom c n [None; None; None; None] ∧ is_room c);
  MakeDoor_ok : ∀ r1 r2, allocates (MakeDoor F r1 r2) (λ o, ∃ c, o = ODoor c r1 r2 false ∧ is_door c);
}.

#[global] Instance std_factory_ok :
  MazeFactoryOk StdMazeFactory (.= PlainRoom) (.= PlainWall) (.= PlainDoor).
Proof. split; intros; apply new_object_allocates; eauto. Qed.

#[global] Instance bombed_factory_ok :
  MazeFactoryOk BombedMazeFactory (.= RoomWithABomb) (.= BombedWall) (.= PlainDoor).
Proof. split; intros; apply new_object_allocates; eauto. Qed.

Definition is_enchanted (c : room_class) : Prop := ∃ s, c = EnchantedRoom s.

#[global] Instance enchanted_factory_ok :
  MazeFactoryOk EnchantedMazeFactory is_enchanted (.= PlainWall) (.= DoorNeedingSpell).
Proof.
  split; intros; try (apply new_object_allocates; eauto).
  intros w. apply wp_bind. eapply wp_mono; [apply new_object_spec|]. simpl.
  intros s w1 (_ & Hs & Hw1 & Hout1). eapply wp_mono; [apply new_object_spec|]. simpl.
  intros p w2 (Hp & Hn & Hw2 & Hout2). rewrite Hw1, Hw2 in *. split_and!; [done| | |congruence|].
  - by apply lookup_insert_None in Hn as [? _].
  - etransitivity; [by apply (insert_subseteq _ s OSpell)|]. apply insert_subseteq. done.
  - rewrite lookup_insert_eq. eexists; split; [done|]. eexists; split; [done|]. by eexists.
Qed.

(** ** The maze CreateMaze promises

    Two rooms with the numbers 1 and 2, one closed door between them that is the east side of
    room 1 and the west side of room 2, and six different walls on the other sides. *)
Record maze_layout (is_room : room_class → Prop) (is_wall : wall_class → Prop) (is_door : door_class → Prop)
    (h : gmap Z object) (m r1 r2 d : Z) (ws : list Z) : Prop := {
  ml_maze : h !! m = Some (OMaze [(1, r1); (2, r2)]);
  ml_room1 : ∃ c wn ws' ww, h !! r1 = Some (ORoom c 1 [Some wn; Some ws'; Some d; Some ww]) ∧ is_room c ∧
               take 3 ws = [wn; ws'; ww];
  ml_room2 : ∃ c wn ws' we, h !! r2 = Some (ORoom c 2 [Some wn; Some ws'; Some we; Some d]) ∧ is_room c ∧
               drop 3 ws = [wn; we; ws'];
  ml_door : ∃ c, h !! d = Some (ODoor c r1 r2 false) ∧ is_door c;
  ml_walls : Forall (λ p, ∃ c, h !! p = Some (OWall c) ∧ is_wall c) ws;
  ml_distinct : NoDup (m :: r1 :: r2 :: d :: ws);
}.

(** Steps of the proof below: a factory method, a statement on an object made before. *)
Ltac make_step ok p :=
  apply wp_bind; eapply wp_mono; [eapply owns_alloc; [apply ok|eassumption]|];
  match goal with H : owns _ _ _ |- _ => clear H end;
  cbv beta; intros p ? (? & ? & ?); destruct_and?; repeat match goal with H : ∃ _, _ |- _ => destruct H as (? & ? & ?) end; subst.
Tactic Notation "run_step" uconstr(rule) :=
  apply wp_bind; eapply wp_mono; [eapply rule; [eassumption|reflexivity..]|];
  match goal with H : owns _ _ _ |- _ => clear H end; intros ? ? ?; simpl in *.

Lemma CreateMaze_spec F is_room is_wall is_door `{!MazeFactoryOk F is_room is_wall is_door} w0 :
  wp (CreateMaze F) (λ m w', objs w0 ⊆ objs w' ∧ out w' = out w0 ∧
    ∃ r1 r2 d ws, maze_layout is_room is_wall is_door (objs w') m r1 r2 d ws ∧
                  Forall (λ p, objs w0 !! p = None) (m :: r1 :: r2 :: d :: ws)) w0.
Proof.
  unfold CreateMaze. pose proof (owns_refl w0) as HL.
  make_step MakeMaze_ok m. make_step MakeRoom_ok r1. make_step MakeRoom_ok r2. make_step MakeDoor_ok d.
  run_step (owns_AddRoom w0 _ _ 3 m _ 2 r1). run_step (owns_AddRoom w0 _ _ 3 m _ 1 r2).
  make_step MakeWall_ok w1. run_step (owns_SetSide w0 _ _ 3 r1). run_step (owns_SetSide w0 _ _ 3 r1).
  make_step MakeWall_ok w2. run_step (owns_SetSide w0 _ _ 4 r1).
  make_step MakeWall_ok w3. run_step (owns_SetSide w0 _ _ 5 r1).
  make_step MakeWall_ok w4. run_step (owns_SetSide w0 _ _ 5 r2).
  make_step MakeWall_ok w5. run_step (owns_SetSide w0 _ _ 6 r2).
  make_step MakeWall_ok w6. run_step (owns_SetSide w0 _ _ 7 r2). run_step (owns_SetSide w0 _ _ 7 r2).
  apply wp_ret.
  match goal with H : owns _ _ _ |- _ => destruct H as (Hnd & HF & Hsub & Hout) end.
  split_and!; [done..|]. exists r1, r2, d, [w1; w2; w3; w4; w5; w6].
  rewrite !Forall_cons in HF. simpl in HF, Hnd. destruct_and!.
  split; [split|]; simpl; eauto 10.
  - repeat constructor; eauto.
  - by rewrite <-(reverse_Permutation [w6; w5; w4; w3; w2; w1; d; r2; r1; m]) in Hnd.
  - repeat constructor; done.
Qed.
(** ** The singleton *)

Definition register_all (regs : list (chars * MazeFactory)) (s : statics) : statics :=
  foldl (λ s r, Register r.1 r.2 s) s regs.

Lemma register_all_instance regs : ∀ s, _instance (register_all regs s) = _instance s.
Proof. unfold register_all. induction regs as [|[n f] regs IH]; intros s; simpl; [done|]. by rewrite IH. Qed.

Lemma Instance_set f s : _instance s = Some f → Instance_ s = (Some f, s).
Proof. intros Hf. unfold Instance_. by rewrite Hf, Hf. Qed.

Lemma Instance_static : Instance_ static_init = (Some EnchantedMazeFactory, Statics (Some EnchantedMazeFactory) (_registry static_init)).
Proof. done. Qed.

Lemma singleton_CreateMaze_spec f is_room is_wall is_door `{!MazeFactoryOk f is_room is_wall is_door} w s s' :
  Instance_ s = (Some f, s') →
  wp singleton_CreateMaze (λ m '(w', s''), s'' = s' ∧ objs w ⊆ objs w' ∧ out w' = out w ∧
    ∃ r1 r2 d ws, maze_layout is_room is_wall is_door (objs w') m r1 r2 d ws) (w, s).
Proof.
  intros Hi. destruct (CreateMaze_spec f is_room is_wall is_door w) as (m & w' & Hm & ? & ? & r1 & r2 & d & ws & ? & _).
  exists m, (w', s'). unfold singleton_CreateMaze. rewrite Hi, Hm. split; [done|]. split_and!; [done..|]. by exists r1, r2, d, ws.
Qed.

(** ** The builder *)

Lemma RoomNo_missing w m rooms n : objs w !! m = Some (OMaze rooms) → m_find n rooms = None → RoomNo m n w = Fault.
Proof.
  intros Hm Hn. unfold RoomNo, get_rooms, mbind, cmd_bind, zoom, load. simpl. rewrite Hm. simpl. by rewrite Hn.
Qed.

Lemma RoomNo_found w m rooms n r : objs w !! m = Some (OMaze rooms) → m_find n rooms = Some r → RoomNo m n w = Done (r, w).
Proof.
  intros Hm Hn. unfold RoomNo, get_rooms, mbind, cmd_bind, zoom, load. simpl. rewrite Hm. simpl. rewrite Hn.
  by destruct w.
Qed.

Lemma current_maze w this m : objs w !! this = Some (OBuilder m) → _currentMaze this w = Done (m, w).
Proof. intros Ht. unfold _currentMaze, mbind, cmd_bind, zoom, load. simpl. rewrite Ht. by destruct w. Qed.

(** A room that is there is kept; a room that is not there is never made. *)
Lemma BuildRoom_spec w this m rooms n :
  objs w !! this = Some (OBuilder m) → objs w !! m = Some (OMaze rooms) →
  m_find n rooms ≠ Some NULL →
  std_BuildRoom this n w = match m_find n rooms with Some _ => Done ((), w) | None => Fault end.
Proof.
  intros Ht Hm Hnull. unfold std_BuildRoom, mbind, cmd_bind. rewrite (current_maze _ _ _ Ht).
  destruct (m_find n rooms) as [r|] eqn:Hn.
  - by rewrite (RoomNo_found _ _ _ _ _ Hm Hn), bool_decide_false by congruence.
  - by rewrite (RoomNo_missing _ _ _ _ Hm Hn).
Qed.

Lemma BuildMaze_spec w this m0 :
  objs w !! this = Some (OBuilder m0) →
  wp (std_BuildMaze this) (λ _ w', ∃ m, objs w' !! this = Some (OBuilder m) ∧ objs w' !! m = Some (OMaze [])) w.
Proof.
  intros Ht. apply wp_bind. eapply wp_mono; [apply new_object_spec|]. simpl.
  intros m w1 (Hm & Hn & Hw1 & _). apply wp_zoom, wp_store; simpl; rewrite Hw1.
  - rewrite lookup_insert_ne by congruence. eauto.
  - exists m. rewrite lookup_insert_eq, lookup_insert_ne, lookup_insert_eq; [done|congruence].
Qed.

(** A door replaces the north side of both rooms. *)
Lemma BuildDoor_spec w this m rooms n1 n2 r1 r2 c1 c2 k1 k2 s1 s2 :
  objs w !! this = Some (OBuilder m) → objs w !! m = Some (OMaze rooms) →
  m_find n1 rooms = Some r1 → m_find n2 rooms = Some r2 → r1 ≠ r2 →
  objs w !! r1 = Some (ORoom c1 k1 s1) → objs w !! r2 = Some (ORoom c2 k2 s2) →
  wp (std_BuildDoor this n1 n2) (λ _ w', ∃ d, objs w !! d = None ∧
    objs w' = <[r2 := ORoom c2 k2 (<[0%nat:=Some d]> s2)]> (<[r1 := ORoom c1 k1 (<[0%nat:=Some d]> s1)]>
                (<[d := ODoor PlainDoor r1 r2 false]> (objs w)))) w.
Proof.
  intros Ht Hm Hf1 Hf2 Hne Hr1 Hr2.
  apply wp_bind. eapply wp_done; [by apply current_maze|].
  apply wp_bind. eapply wp_done; [by eapply RoomNo_found|].
  apply wp_bind. eapply wp_done; [by eapply RoomNo_found|].
  apply wp_bind. eapply wp_mono; [apply new_object_spec|]. simpl. intros d w1 (_ & Hd & Hw1 & _).
  assert (objs w1 !! r1 = Some (ORoom c1 k1 s1)) as Hr1' by (rewrite Hw1, lookup_insert_ne; congruence).
  assert (objs w1 !! r2 = Some (ORoom c2 k2 s2)) as Hr2' by (rewrite Hw1, lookup_insert_ne; congruence).
  apply wp_bind, wp_bind, wp_zoom. eapply wp_load; [done|]. simpl. apply wp_zoom, wp_store; [by eauto|]. simpl.
  apply wp_bind, wp_zoom. eapply wp_load; [simpl; by rewrite lookup_insert_ne|]. simpl.
  apply wp_zoom, wp_store; simpl; [rewrite lookup_insert_ne by done; eauto|]. exists d. by rewrite Hw1.
Qed.

End spec.
