(* ===== verification/Visitors.v ===== *)
(** * Visitors

    src/design_patterns/visitors: nodes accept a visitor, which is called back for
    the class of the node.  A visitor is the record of its overloads; [visit]
    appends to standard output. *)

From Stdlib Require Import Ascii String.
From stdpp Require Import list.
From S2P Require Import Prelude StdText.

Inductive node := expr | stmt.

Record visitor := Visitor { visit_expr : cmd chars (); visit_stmt : cmd chars () }.

Definition put (s : string) : cmd chars () := λ out, Done ((), out ++ text s ++ [LF]).

Definition visitor1 : visitor := {| visit_expr := put "1-visit expr"; visit_stmt := put "1-visit stmt" |}.
Definition visitor2 : visitor := {| visit_expr := put "2-visit expr"; visit_stmt := put "2-visit stmt" |}.

(** The overload is chosen by the static type inside each class's [accept]. *)
Definition accept (n : node) (v : visitor) : cmd chars () :=
  match n with expr => visit_expr v | stmt => visit_stmt v end.

(** main only makes the objects. *)
Definition visitors_main : cmd chars Z :=
  let v1 := visitor1 in let v2 := visitor2 in let e := expr in let s := stmt in mret 0%Z.

Fixpoint accept_all (calls : list (node * visitor)) : cmd chars () :=
  match calls with
  | [] => mret ()
  | (n, v) :: calls => accept n v;; accept_all calls
  end.

(** Number of the visitor and name of the node, one line per call. *)
Lemma accept_all_lines (calls : list (node * bool)) out :
  accept_all (map (λ c : node * bool, (c.1, if c.2 then visitor1 else visitor2)) calls) out =
  Done ((), out ++ concat (map (λ c : node * bool, (if c.2 then "1"%char else "2"%char) :: text "-visit " ++
                                     (if c.1 then text "expr" else text "stmt") ++ [LF]) calls)).
Proof.
  revert out. induction calls as [|[n b] calls IH]; intros out; simpl; [by rewrite app_nil_r|].
  unfold mbind, cmd_bind. by destruct n, b; simpl; rewrite IH, <-app_assoc.
Qed.
