(* ===== verification/Icu.v ===== *)
(** * Text encodings

    src/my_lib/icu_encoding: Encoding.{h,cpp} ([convert] from one encoding to
    another through UTF-16), GBKEncoding and UTF8Encoding (the two subclasses),
    EncodingError and the program Source.cpp.

    ICU is outside the repository: its converters are the parameter class [Icu],
    and [IcuOk] states what its reference documents of them.  Arrays are lists with what
    they hold, of indeterminate contents when they are new ([NewArrays]).  A call that is
    undefined (an unterminated array read as a C string, a capacity above the size of the
    array it is given for, more elements read than there are) gives [None]. *)

From Stdlib Require Import Ascii String.
From stdpp Require Import numbers list.
From S2P Require Import Prelude StdText EvTime.

Local Open Scope Z_scope.

(** UErrorCode *)
Definition U_STRING_NOT_TERMINATED_WARNING : Z := -124.
Definition U_ZERO_ERROR : Z := 0.
Definition U_ILLEGAL_ARGUMENT_ERROR : Z := 1.
Definition U_MEMORY_ALLOCATION_ERROR : Z := 7.
Definition U_BUFFER_OVERFLOW_ERROR : Z := 15.

(** ** EncodingError *)

Record EncodingError := EncErr { err_val : Z }.

Definition is_error (e : EncodingError) : bool := bool_decide (err_val e > 0).
Definition no_error (e : EncodingError) : bool := bool_decide (err_val e <= 0).

(** ** ICU

    [UConverter] is the state of a converter.  The conversions take the capacity of the
    destination, the source and its length, and return the converter, the error code, the
    length of the whole output and what is written to the front of the destination. *)
Class Icu := {
  UConverter : Type;
  ucnv_open : chars → Z * UConverter;
  ucnv_getName : UConverter → chars;
  ucnv_getMaxCharSize : UConverter → Z;
  ucnv_getMinCharSize : UConverter → Z;
  ucnv_reset : UConverter → UConverter;
  UCNV_GET_MAX_BYTES_FOR_STRING : Z → Z → Z;
  ucnv_fromUChars : UConverter → Z → list Z → Z → UConverter * Z * Z * chars;
  ucnv_toUChars : UConverter → Z → chars → Z → UConverter * Z * Z * list Z;
}.

(** [new T[n]] for the two element types: [None] when it throws bad_alloc. *)
Class NewArrays := {
  new_wchars : nat → option (list Z);
  new_chars : nat → option chars;
  new_wchars_length : ∀ n a, new_wchars n = Some a → length a = n;
  new_chars_length : ∀ n a, new_chars n = Some a → length a = n;
}.

(** A negative length throws as well. *)
Definition new_array {A} (new : nat → option (list A)) (n : Z) : option (list A) :=
  if bool_decide (0 <= n) then new (Z.to_nat n) else None.

(** The first [n] elements of an array, and an array after [out] was written to its front by a
    callee that was told it has [capacity] elements. *)
Definition read_array {A} (n : Z) (a : list A) : option (list A) :=
  if bool_decide (0 <= n <= Z.of_nat (length a)) then Some (take (Z.to_nat n) a) else None.
Definition write_array {A} (capacity : Z) (out a : list A) : option (list A) :=
  if bool_decide (capacity <= Z.of_nat (length a)) then Some (out ++ drop (length out) a) else None.

Section encoding.
Context `{IC : !Icu}.

(** ** The two encodings: constructor and virtual functions *)

(** [None]: the exception of the constructor. *)
Definition gbk_new : option UConverter :=
  let '(ec, cnv) := ucnv_open (text "gbk") in if bool_decide (ec > 0) then None else Some cnv.
Definition gbk_get_name (cnv : UConverter) : chars := ucnv_getName cnv.
Definition gbk_get_max_char_size (cnv : UConverter) : Z := ucnv_getMaxCharSize cnv.
Definition gbk_get_min_char_size (cnv : UConverter) : Z := ucnv_getMinCharSize cnv.
Definition gbk_get_max_byte_count (cnv : UConverter) (wchar_count : Z) : Z :=
  UCNV_GET_MAX_BYTES_FOR_STRING wchar_count (gbk_get_max_char_size cnv).
Definition gbk_reset (cnv : UConverter) : UConverter := ucnv_reset cnv.

Definition gbk_from_unicode (cnv : UConverter) (src : list Z) (src_size : Z) (dst : chars) (dst_size : Z) :
    option (UConverter * Z * EncodingError * chars) :=
  src ← read_array src_size src;
  let '(cnv, ec, dst_length, out) := ucnv_fromUChars cnv dst_size src src_size in
  dst ← write_array dst_size out dst;
  let err := EncErr ec in
  let cnv := if is_error err then gbk_reset cnv else cnv in
  Some (cnv, dst_length, err, dst).

Definition gbk_to_unicode (cnv : UConverter) (src : chars) (src_size : Z) (dst : list Z) (dst_size : Z) :
    option (UConverter * Z * EncodingError * list Z) :=
  src ← read_array src_size src;
  let '(cnv, ec, dst_length, out) := ucnv_toUChars cnv dst_size src src_size in
  dst ← write_array dst_size out dst;
  let err := EncErr ec in
  let cnv := if is_error err then gbk_reset cnv else cnv in
  Some (cnv, dst_length, err, dst).

Definition utf8_new : option UConverter :=
  let '(ec, cnv) := ucnv_open (text "utf-8") in if bool_decide (ec > 0) then None else Some cnv.
Definition utf8_get_name (cnv : UConverter) : chars := ucnv_getName cnv.
Definition utf8_get_max_char_size (cnv : UConverter) : Z := ucnv_getMaxCharSize cnv.
Definition utf8_get_min_char_size (cnv : UConverter) : Z := ucnv_getMinCharSize cnv.
Definition utf8_get_max_byte_count (cnv : UConverter) (wchar_count : Z) : Z :=
  UCNV_GET_MAX_BYTES_FOR_STRING wchar_count (utf8_get_max_char_size cnv).
Definition utf8_reset (cnv : UConverter) : UConverter := ucnv_reset cnv.

Definition utf8_from_unicode (cnv : UConverter) (src : list Z) (src_size : Z) (dst : chars) (dst_size : Z) :
    option (UConverter * Z * EncodingError * chars) :=
  src ← read_array src_size src;
  let '(cnv, ec, dst_length, out) := ucnv_fromUChars cnv dst_size src src_size in
  dst ← write_array dst_size out dst;
  let err := EncErr ec in
  let cnv := if is_error err then utf8_reset cnv else cnv in
  Some (cnv, dst_length, err, dst).

Definition utf8_to_unicode (cnv : UConverter) (src : chars) (src_size : Z) (dst : list Z) (dst_size : Z) :
    option (UConverter * Z * EncodingError * list Z) :=
  src ← read_array src_size src;
  let '(cnv, ec, dst_length, out) := ucnv_toUChars cnv dst_size src src_size in
  dst ← write_array dst_size out dst;
  let err := EncErr ec in
  let cnv := if is_error err then utf8_reset cnv else cnv in
  Some (cnv, dst_length, err, dst).

(** ** Encoding: an object of one of the subclasses *)

Inductive Encoding := GBKEncoding (cnv_ : UConverter) | UTF8Encoding (cnv_ : UConverter).

Definition get_min_char_size (e : Encoding) : Z :=
  match e with GBKEncoding c => gbk_get_min_char_size c | UTF8Encoding c => utf8_get_min_char_size c end.

Definition get_max_byte_count (e : Encoding) (wchar_count : Z) : Z :=
  match e with
  | GBKEncoding c => gbk_get_max_byte_count c wchar_count
  | UTF8Encoding c => utf8_get_max_byte_count c wchar_count
  end.

Definition from_unicode (e : Encoding) (src : list Z) (src_size : Z) (dst : chars) (dst_size : Z) :
    option (Encoding * Z * EncodingError * chars) :=
  match e with
  | GBKEncoding c => '(c, n, err, dst) ← gbk_from_unicode c src src_size dst dst_size; Some (GBKEncoding c, n, err, dst)
  | UTF8Encoding c => '(c, n, err, dst) ← utf8_from_unicode c src src_size dst dst_size; Some (UTF8Encoding c, n, err, dst)
  end.

Definition to_unicode (e : Encoding) (src : chars) (src_size : Z) (dst : list Z) (dst_size : Z) :
    option (Encoding * Z * EncodingError * list Z) :=
  match e with
  | GBKEncoding c => '(c, n, err, dst) ← gbk_to_unicode c src src_size dst dst_size; Some (GBKEncoding c, n, err, dst)
  | UTF8Encoding c => '(c, n, err, dst) ← utf8_to_unicode c src src_size dst dst_size; Some (UTF8Encoding c, n, err, dst)
  end.

Context `{NA : !NewArrays}.

Record conv_result := ConvResult { r_src : option Encoding; r_dst : option Encoding; r_text : chars; r_err : EncodingError }.

(** Two different objects, [None] for a null pointer. *)
Definition convert (p_src p_dst : option Encoding) (src dst : chars) (err : EncodingError) : option conv_result :=
  match p_src, p_dst with
  | Some e_src, Some e_dst =>
      if is_empty src then Some (ConvResult p_src p_dst [] (EncErr U_ZERO_ERROR))
      else
        let length := Z.of_nat (length src) in
        let max_src_char_count := s32 (length / (get_min_char_size e_src mod 2 ^ 64)) in
        let wbuf_size := s32 ((max_src_char_count mod 2 ^ 64 * 2) mod 2 ^ 64) in
        match new_array new_wchars wbuf_size with
        | None => Some (ConvResult p_src p_dst dst (EncErr U_MEMORY_ALLOCATION_ERROR))
        | Some wbuf =>
            '(e_src, wchar_count, err, wbuf) ← to_unicode e_src src (s32 length) wbuf wbuf_size;
            if is_error err then Some (ConvResult (Some e_src) p_dst dst err)
            else
              let buf_size := get_max_byte_count e_dst wchar_count in
              match new_array new_chars buf_size with
              | None => Some (ConvResult (Some e_src) p_dst dst (EncErr U_MEMORY_ALLOCATION_ERROR))
              | Some buf =>
                  '(e_dst, _, err, buf) ← from_unicode e_dst wbuf wchar_count buf buf_size;
                  if is_error err then Some (ConvResult (Some e_src) (Some e_dst) dst err)
                  else
                    s ← c_string buf;
                    Some (ConvResult (Some e_src) (Some e_dst) s err)
              end
        end
  | _, _ => Some (ConvResult p_src p_dst dst (EncErr U_ILLEGAL_ARGUMENT_ERROR))
  end.

(** The program: from GBK to UTF-8 and back.  [None]: undefined, or a constructor throws. *)
Definition encoding_main (gbk_str : chars) : option chars :=
  gbk ← gbk_new; utf8 ← utf8_new;
  let out := text "gbk string: " ++ gbk_str ++ [LF] in
  r ← convert (Some (GBKEncoding gbk)) (Some (UTF8Encoding utf8)) gbk_str [] (EncErr 0);
  if is_error (r_err r) then Some (out ++ text "fail to convert" ++ [LF])
  else
    let out := out ++ text "utf-8 string: " ++ r_text r ++ [LF] in
    r' ← convert (r_dst r) (r_src r) (r_text r) gbk_str (r_err r);
    if is_error (r_err r') then Some (out ++ text "fail to convert" ++ [LF])
    else Some (out ++ text "gbk string: " ++ r_text r' ++ [LF]).

(** ** What ICU documents

    [decode c] and [encode c] are the conversions of the charset of [c], malformed input
    replaced; they do not depend on what the converter did before. *)
Class IcuOk := {
  decode : UConverter → chars → list Z;
  encode : UConverter → list Z → chars;
  to_uchars_ok : ∀ c cap src, 0 ≤ cap →
    ∃ c', ucnv_toUChars c cap src (Z.of_nat (length src)) =
          (c', if bool_decide (Z.of_nat (length (decode c src)) < cap) then U_ZERO_ERROR
               else if bool_decide (Z.of_nat (length (decode c src)) = cap) then U_STRING_NOT_TERMINATED_WARNING
               else U_BUFFER_OVERFLOW_ERROR,
           Z.of_nat (length (decode c src)), take (Z.to_nat cap) (decode c src ++ [0])) ∧
          decode c' = decode c ∧ encode c' = encode c ∧
          ucnv_getMinCharSize c' = ucnv_getMinCharSize c ∧ ucnv_getMaxCharSize c' = ucnv_getMaxCharSize c;
  from_uchars_ok : ∀ c cap src, 0 ≤ cap →
    ∃ c', ucnv_fromUChars c cap src (Z.of_nat (length src)) =
          (c', if bool_decide (Z.of_nat (length (encode c src)) < cap) then U_ZERO_ERROR
               else if bool_decide (Z.of_nat (length (encode c src)) = cap) then U_STRING_NOT_TERMINATED_WARNING
               else U_BUFFER_OVERFLOW_ERROR,
           Z.of_nat (length (encode c src)), take (Z.to_nat cap) (encode c src ++ [NUL])) ∧
          decode c' = decode c ∧ encode c' = encode c ∧
          ucnv_getMinCharSize c' = ucnv_getMinCharSize c ∧ ucnv_getMaxCharSize c' = ucnv_getMaxCharSize c;
  min_char_size : ∀ c, 1 ≤ ucnv_getMinCharSize c ≤ 8;
  max_char_size : ∀ c, 1 ≤ ucnv_getMaxCharSize c ≤ 8;
  decode_length : ∀ c src, Z.of_nat (length (decode c src)) ≤ 2 * (Z.of_nat (length src) / ucnv_getMinCharSize c);
  encode_length : ∀ c src, Z.of_nat (length (encode c src)) ≤ Z.of_nat (length src) * ucnv_getMaxCharSize c;
  max_bytes_macro : ∀ n m, UCNV_GET_MAX_BYTES_FOR_STRING n m = s32 ((n + 10) * m);
}.

Context `{!IcuOk}.

Definition cnv_of (e : Encoding) : UConverter := match e with GBKEncoding c => c | UTF8Encoding c => c end.

(** Same class and same charset. *)
Definition same_encoding (e e' : Encoding) : Prop :=
  match e, e' with GBKEncoding _, GBKEncoding _ => True | UTF8Encoding _, UTF8Encoding _ => True | _, _ => False end ∧
  decode (cnv_of e') = decode (cnv_of e) ∧ encode (cnv_of e') = encode (cnv_of e) ∧
  ucnv_getMinCharSize (cnv_of e') = ucnv_getMinCharSize (cnv_of e) ∧
  ucnv_getMaxCharSize (cnv_of e') = ucnv_getMaxCharSize (cnv_of e).

Lemma read_array_all {A} (a : list A) : read_array (Z.of_nat (length a)) a = Some a.
Proof. unfold read_array. rewrite bool_decide_true by lia. by rewrite Nat2Z.id, firstn_all. Qed.

Lemma read_array_front {A} (a b : list A) : take (length a) b = a → read_array (Z.of_nat (length a)) b = Some a.
Proof.
  intros Ht. unfold read_array. rewrite bool_decide_true; [by rewrite Nat2Z.id, Ht|].
  split; [lia|]. apply Nat2Z.inj_le. rewrite <-Ht, length_take. lia.
Qed.

Lemma write_array_some {A} cap (out a : list A) :
  cap ≤ Z.of_nat (length a) → write_array cap out a = Some (out ++ drop (length out) a).
Proof. intros Hc. unfold write_array. by rewrite bool_decide_true. Qed.

Lemma c_string_before s rest : c_string (s ++ NUL :: rest) = Some (before_nul s).
Proof.
  unfold c_string, before_nul. induction s as [|c s IH]; simpl; [done|]. case_bool_decide as Hc; simpl; [done|].
  destruct (span _ (s ++ NUL :: rest)) as [u r], (span _ s) as [u' r']; simpl in *. destruct r; [done|]. by simplify_eq.
Qed.

Lemma fitting_code n cap : n ≤ cap →
  is_error (EncErr (if bool_decide (n < cap) then U_ZERO_ERROR
                    else if bool_decide (n = cap) then U_STRING_NOT_TERMINATED_WARNING else U_BUFFER_OVERFLOW_ERROR)) = false.
Proof.
  intros Hn. destruct (decide (n < cap)); [by rewrite bool_decide_true|].
  by rewrite bool_decide_false, bool_decide_true by lia.
Qed.

(** With room for the text in an array of at least the capacity given, the text is at the
    front of the array. *)
Lemma to_unicode_spec e src dst cap :
  Z.of_nat (length (decode (cnv_of e) src)) ≤ cap ≤ Z.of_nat (length dst) →
  ∃ e' err dst', to_unicode e src (Z.of_nat (length src)) dst cap =
                 Some (e', Z.of_nat (length (decode (cnv_of e) src)), err, dst') ∧
                 take (length (decode (cnv_of e) src)) dst' = decode (cnv_of e) src ∧
                 is_error err = false ∧ same_encoding e e'.
Proof.
  intros [Hlen Hcap]. destruct e as [c|c]; simpl in *;
    destruct (to_uchars_ok c cap src) as (c' & Hc & Hd & He & Hmin & Hmax); [lia| |lia|];
    unfold gbk_to_unicode, utf8_to_unicode; rewrite read_array_all; simpl; rewrite Hc, write_array_some by done; simpl;
    rewrite fitting_code by done; do 3 eexists; (split; [done|]); (split; [|split; [by apply fitting_code|done]]);
    rewrite take_app_le by (rewrite length_take, length_app; simpl; lia);
    rewrite take_take, Nat.min_l by lia; by rewrite take_app_length.
Qed.

Lemma from_unicode_spec e src wbuf dst cap :
  take (length src) wbuf = src → Z.of_nat (length (encode (cnv_of e) src)) < cap ≤ Z.of_nat (length dst) →
  ∃ e' n rest, from_unicode e wbuf (Z.of_nat (length src)) dst cap =
               Some (e', n, EncErr U_ZERO_ERROR, encode (cnv_of e) src ++ NUL :: rest) ∧ same_encoding e e'.
Proof.
  intros Hsrc [Hlen Hcap]. destruct e as [c|c]; simpl in *;
    destruct (from_uchars_ok c cap src) as (c' & Hc & Hd & He & Hmin & Hmax); [lia| |lia|];
    unfold gbk_from_unicode, utf8_from_unicode; rewrite (read_array_front src) by done; simpl;
    rewrite Hc, write_array_some by done; simpl; rewrite bool_decide_true by lia;
    (rewrite take_ge by (rewrite length_app; simpl; lia)); rewrite <-app_assoc; simpl; by do 3 eexists.
Qed.

(** The lengths [convert] computes do not wrap and are large enough. *)
Lemma wbuf_size_ok e src :
  Z.of_nat (length src) < 2 ^ 24 →
  let n := Z.of_nat (length src) / ucnv_getMinCharSize (cnv_of e) in
  s32 ((s32 (Z.of_nat (length src) / (get_min_char_size e mod 2 ^ 64)) mod 2 ^ 64 * 2) mod 2 ^ 64) = 2 * n ∧
  0 ≤ 2 * n < 2 ^ 25 ∧ Z.of_nat (length (decode (cnv_of e) src)) ≤ 2 * n.
Proof.
  intros Hlen n. pose proof (min_char_size (cnv_of e)) as Hmin.
  assert (get_min_char_size e = ucnv_getMinCharSize (cnv_of e)) as -> by by destruct e.
  rewrite (Z.mod_small (ucnv_getMinCharSize _)) by lia. fold n.
  assert (0 ≤ n < 2 ^ 24).
  { unfold n. split; [apply Z.div_pos; lia|]. eapply Z.le_lt_trans; [|exact Hlen]. apply Z.div_le_upper_bound; nia. }
  pose proof (decode_length (cnv_of e) src).
  split_and!; [|lia..|done]. rewrite (s32_small n) by lia. rewrite (Z.mod_small n) by lia.
  rewrite Z.mod_small by lia. rewrite s32_small; lia.
Qed.

Lemma buf_size_ok e t :
  Z.of_nat (length t) < 2 ^ 25 →
  0 ≤ get_max_byte_count e (Z.of_nat (length t)) ∧
  Z.of_nat (length (encode (cnv_of e) t)) < get_max_byte_count e (Z.of_nat (length t)) ∧
  get_max_byte_count e (Z.of_nat (length t)) = (Z.of_nat (length t) + 10) * ucnv_getMaxCharSize (cnv_of e).
Proof.
  intros Hlen. pose proof (max_char_size (cnv_of e)) as Hmax. pose proof (encode_length (cnv_of e) t).
  assert (get_max_byte_count e (Z.of_nat (length t)) = s32 ((Z.of_nat (length t) + 10) * ucnv_getMaxCharSize (cnv_of e))) as ->
    by (destruct e; apply max_bytes_macro).
  rewrite s32_small by nia. nia.
Qed.

(** The sizes of the two arrays, in elements. *)
Definition wbuf_elements (e_src : Encoding) (src : chars) : Z :=
  2 * (Z.of_nat (length src) / ucnv_getMinCharSize (cnv_of e_src)).
Definition buf_elements (e_src e_dst : Encoding) (src : chars) : Z :=
  (Z.of_nat (length (decode (cnv_of e_src) src)) + 10) * ucnv_getMaxCharSize (cnv_of e_dst).

(** Every outcome of a conversion between two objects. *)
Lemma convert_spec e_src e_dst src dst err :
  src ≠ [] → Z.of_nat (length src) < 2 ^ 24 →
  ∃ r, convert (Some e_src) (Some e_dst) src dst err = Some r ∧
    match new_wchars (Z.to_nat (wbuf_elements e_src src)), new_chars (Z.to_nat (buf_elements e_src e_dst src)) with
    | Some _, Some _ =>
        is_error (r_err r) = false ∧
        r_text r = before_nul (encode (cnv_of e_dst) (decode (cnv_of e_src) src)) ∧
        ∃ e e', r_src r = Some e ∧ r_dst r = Some e' ∧ same_encoding e_src e ∧ same_encoding e_dst e'
    | _, _ => r_err r = EncErr U_MEMORY_ALLOCATION_ERROR ∧ r_text r = dst
    end.
Proof.
  intros Hne Hlen. destruct (wbuf_size_ok e_src src Hlen) as (Hw & Hw0 & Hwd).
  unfold convert. rewrite Hw. assert (is_empty src = false) as -> by by destruct src.
  fold (wbuf_elements e_src src) in *. set (n := wbuf_elements e_src src) in *.
  unfold new_array at 1. rewrite bool_decide_true by lia.
  destruct (new_wchars (Z.to_nat n)) as [wbuf|] eqn:Hn; [|by eexists]. apply new_wchars_length in Hn.
  rewrite (s32_small (Z.of_nat (length src))) by lia.
  destruct (to_unicode_spec e_src src wbuf n) as (e & er & wbuf' & -> & Ht & Her & He); [lia|]. simpl. rewrite Her.
  set (t := decode (cnv_of e_src) src) in *.
  destruct (buf_size_ok e_dst t) as (Hb0 & Hb & Hbe); [lia|].
  assert (get_max_byte_count e_dst (Z.of_nat (length t)) = buf_elements e_src e_dst src) as Hbs by done.
  rewrite Hbs in *. unfold new_array. rewrite bool_decide_true by lia.
  destruct (new_chars (Z.to_nat (buf_elements e_src e_dst src))) as [buf|] eqn:Hn2; [|by eexists]. apply new_chars_length in Hn2.
  destruct (from_unicode_spec e_dst t wbuf' buf (buf_elements e_src e_dst src)) as (e' & m & rest & -> & He'); [done|lia|].
  simpl. rewrite c_string_before. simpl. eexists; split; [done|]. simpl. split_and!; [done..|].
  by exists e, e'.
Qed.

End encoding.

(** ** Concrete converters

    They satisfy [IcuOk]: the first charset has one byte per character, the second
    writes a character as two hexadecimal digits.  The state of a converter is
    which of the two it is. *)

Definition hex_encode (t : list Z) : chars := concat (map (λ z, [digit_char (z mod 256 / 16); digit_char (z mod 16)]) t).

Fixpoint hex_decode (s : chars) : list Z :=
  match s with
  | a :: b :: s => digits_value 16 [a; b] :: hex_decode s
  | _ => []
  end.

Definition demo_decode (hex : bool) (s : chars) : list Z := if hex then hex_decode s else map code s.
Definition demo_encode (hex : bool) (t : list Z) : chars := if hex then hex_encode t else map chr t.

Definition demo_code (n cap : Z) : Z :=
  if bool_decide (n < cap) then U_ZERO_ERROR
  else if bool_decide (n = cap) then U_STRING_NOT_TERMINATED_WARNING else U_BUFFER_OVERFLOW_ERROR.

#[global] Instance demo_icu : Icu := {|
  UConverter := bool;
  ucnv_open n := (U_ZERO_ERROR, bool_decide (n = text "utf-8"));
  ucnv_getName c := if c then text "hex" else text "bytes";
  ucnv_getMaxCharSize c := if c then 2 else 1;
  ucnv_getMinCharSize c := if c then 2 else 1;
  ucnv_reset c := c;
  UCNV_GET_MAX_BYTES_FOR_STRING n m := s32 ((n + 10) * m);
  ucnv_fromUChars c cap src n :=
    let out := demo_encode c (take (Z.to_nat n) src) in
    (c, demo_code (Z.of_nat (length out)) cap, Z.of_nat (length out), take (Z.to_nat cap) (out ++ [NUL]));
  ucnv_toUChars c cap src n :=
    let out := demo_decode c (take (Z.to_nat n) src) in
    (c, demo_code (Z.of_nat (length out)) cap, Z.of_nat (length out), take (Z.to_nat cap) (out ++ [0]));
|}.

Lemma hex_decode_length s : Z.of_nat (length (hex_decode s)) ≤ Z.of_nat (length s) / 2.
Proof.
  remember (length s) as n eqn:Hn. revert s Hn. induction (lt_wf n) as [n _ IH]. intros [|a [|b s]] ->; simpl.
  - done.
  - done.
  - specialize (IH (length s)). rewrite !Nat2Z.inj_succ.
    assert (Z.of_nat (length (hex_decode s)) ≤ Z.of_nat (length s) / 2) by (apply IH; simpl; lia).
    replace (Z.succ (Z.succ (Z.of_nat (length s)))) with (Z.of_nat (length s) + 1 * 2) by lia.
    rewrite Z.div_add by lia. lia.
Qed.

Lemma hex_encode_length t : length (hex_encode t) = (2 * length t)%nat.
Proof. induction t as [|z t IH]; [done|]. simpl. unfold hex_encode in IH. lia. Qed.

#[global] Instance demo_icu_ok : IcuOk.
Proof.
  refine {| decode := demo_decode : UConverter → _; encode := demo_encode : UConverter → _ |}; simpl.
  - intros c cap src _. exists c. by rewrite Nat2Z.id, take_ge.
  - intros c cap src _. exists c. by rewrite Nat2Z.id, take_ge.
  - intros []; lia.
  - intros []; lia.
  - intros [] src; simpl; [pose proof (hex_decode_length src)|rewrite length_map, Z.div_1_r]; lia.
  - intros [] src; simpl; [rewrite hex_encode_length|rewrite length_map]; lia.
  - done.
Defined.

(** Arrays are new when they have at most [2^30] elements, and hold question marks then. *)
#[global] Instance demo_arrays : NewArrays.
Proof.
  refine {| new_wchars n := if bool_decide (Z.of_nat n <= 2 ^ 30) then Some (replicate n 63) else None;
            new_chars n := if bool_decide (Z.of_nat n <= 2 ^ 30) then Some (replicate n "?"%char) else None |};
    intros n a; case_bool_decide; intros [= <-]; by rewrite length_replicate.
Defined.
