(* ===== verification/ProgOpt.v ===== *)
(** * Program options

    src/my_lib/ProgramOptions: the table of options, reading a configuration file
    and looking values up.

    boost::program_options is outside the repository: the class [ProgramOptionsLib]
    has the three functions the code calls, and [ProgramOptionsOk] what their
    reference says.  A value is a boost::any of one of the two types used. *)

From Stdlib Require Import Ascii String.
From stdpp Require Import numbers list.
From S2P Require Import Prelude StdText StdMap.

Local Open Scope Z_scope.

Inductive any := any_int (z : Z) | any_string (s : chars).
Inductive any_type := t_int | t_string.

Definition type_of (v : any) : any_type := match v with any_int _ => t_int | any_string _ => t_string end.

Record option_desc := OptionDesc { o_name : chars; o_type : any_type; o_default : option any; o_required : bool }.

#[global] Instance any_eq : EqDecision any.
Proof. solve_decision. Defined.
#[global] Instance any_type_eq : EqDecision any_type.
Proof. solve_decision. Defined.
#[global] Instance option_desc_eq : EqDecision option_desc.
Proof. solve_decision. Defined.

Abbreviation variables_map := (list (chars * any)).

(** Parsing gives the entries of the file or an exception; store enters values and defaults into
    the map; notify throws for a required option without a value. *)
Class ProgramOptionsLib := {
  parse_config_file : chars → list option_desc → option (list (chars * any));
  po_store : list (chars * any) → list option_desc → variables_map → option variables_map;
  po_notify : list option_desc → variables_map → bool;
}.

Definition with_default (n : string) (d : Z) : option_desc := OptionDesc (text n) t_int (Some (any_int d)) false.
Definition required (n : string) (t : any_type) : option_desc := OptionDesc (text n) t None true.

(** The descriptions [add_options] enters. *)
Definition option_table : list option_desc :=
  [with_default "num_threads" 4;
   with_default "max_interval" 10;
   required "datasource.database" t_string;
   required "datasource.username" t_string;
   required "datasource.password" t_string;
   required "http_server.ip" t_string;
   required "http_server.port" t_int;
   required "http_server.path" t_string;
   with_default "http_server.connection_timeout" 5;
   with_default "http_server.transfer_timeout" 10;
   with_default "http_server.max_connections" 20;
   with_default "log.console.low_level" 0;
   with_default "log.file.low_level" 0].

Record program_options := ProgramOptions { desc_ : list option_desc; map_ : variables_map }.

Definition new_options : program_options := ProgramOptions [] [].

Definition add_options (po : program_options) : program_options :=
  ProgramOptions (desc_ po ++ option_table) (map_ po).

Section options.
Context `{PL : !ProgramOptionsLib}.

(** An exception of parsing or storing leaves the map, one of notify comes after storing. *)
Definition store (cfg : chars) (po : program_options) : bool * program_options :=
  match parse_config_file cfg (desc_ po) with
  | None => (false, po)
  | Some parsed =>
      match po_store parsed (desc_ po) (map_ po) with
      | None => (false, po)
      | Some m => (po_notify (desc_ po) m, ProgramOptions (desc_ po) m)
      end
  end.

(** [as<T>] throws bad_any_cast for the other type, which is caught. *)
Definition get_int (key : chars) (po : program_options) : option Z :=
  if bool_decide (m_count key (map_ po) ≠ 0) then
    match m_find key (map_ po) with Some (any_int z) => Some z | _ => None end
  else None.

Definition get_string (key : chars) (po : program_options) : option chars :=
  if bool_decide (m_count key (map_ po) ≠ 0) then
    match m_find key (map_ po) with Some (any_string s) => Some s | _ => None end
  else None.

(** The program of Source.cpp: what it prints after a failed or successful store. *)
Definition options_main (cfg : chars) : chars :=
  let '(_, po) := store cfg (add_options new_options) in
  (match get_int (text "num_threads") po with Some n => text "num threads: " ++ print_int n ++ [LF] | None => [] end) ++
  (match get_string (text "datasource.database") po with Some d => text "database: " ++ d ++ [LF] | None => [] end).

(** ** What the library documents *)

Definition described (ds : list option_desc) (k : chars) (v : any) : Prop :=
  ∃ d, d ∈ ds ∧ o_name d = k ∧ o_type d = type_of v.

(** A value of the file is kept, a value that is in the map before is not overwritten, and
    options without either have their default. *)
Definition stored (parsed : list (chars * any)) (ds : list option_desc) (m : variables_map) (k : chars) : option any :=
  match m_find k m with
  | Some v => Some v
  | None =>
      match list_find (λ e, e.1 = k) parsed with
      | Some (_, (_, v)) => Some v
      | None => list_find (λ d, o_name d = k) ds ≫= λ '(_, d), o_default d
      end
  end.

Class ProgramOptionsOk := {
  parse_ok : ∀ cfg ds parsed, parse_config_file cfg ds = Some parsed → Forall (λ e, described ds e.1 e.2) parsed;
  store_ok : ∀ parsed ds m m', po_store parsed ds m = Some m' → ∀ k, m_find k m' = stored parsed ds m k;
  notify_ok : ∀ ds m, po_notify ds m = true ↔ ∀ d, d ∈ ds → o_required d = true → is_Some (m_find (o_name d) m);
}.

Lemma option_table_names : NoDup (map o_name option_table).
Proof. apply (bool_decide_unpack (NoDup _)). by vm_compute. Qed.

Lemma option_table_default d :
  d ∈ option_table → (o_required d = false → is_Some (o_default d)) ∧ (∀ v, o_default d = Some v → type_of v = o_type d).
Proof.
  revert d. apply Forall_forall. unfold option_table.
  repeat (constructor; [split; simpl; [by eauto|by intros v [= <-]]|]). constructor.
Qed.

Lemma option_table_unique d d' : d ∈ option_table → d' ∈ option_table → o_name d = o_name d' → d = d'.
Proof.
  intros (i & Hi)%list_elem_of_lookup (j & Hj)%list_elem_of_lookup Hn.
  assert (i = j) as ->; [|congruence].
  apply (NoDup_lookup (map o_name option_table) i j (o_name d)); [apply option_table_names| |];
    change (map o_name option_table) with (o_name <$> option_table); rewrite list_lookup_fmap.
  - by rewrite Hi.
  - by rewrite Hj, Hn.
Qed.

Context `{!ProgramOptionsOk}.

(** Every value in the map after a store belongs to an option of the table and has its type. *)
Lemma store_typed cfg ok po k v :
  store cfg (add_options new_options) = (ok, po) → m_find k (map_ po) = Some v → described option_table k v.
Proof.
  unfold store. cbn [add_options new_options desc_ map_ app]. destruct (parse_config_file cfg option_table) as [parsed|] eqn:Hp; [|by intros [= <- <-]].
  destruct (po_store parsed option_table []) as [m|] eqn:Hs; [|by intros [= <- <-]]. intros [= <- <-]. cbn [map_].
  rewrite (store_ok _ _ _ _ Hs). unfold stored. cbn [m_find].
  destruct (list_find (λ e, e.1 = k) parsed) as [[i [k' v']]|] eqn:Hf.
  - intros [= <-]. apply list_find_Some in Hf as (Hi & Hk & _). simpl in Hk. subst.
    pose proof (Forall_lookup_1 _ _ _ _ (parse_ok _ _ _ Hp) Hi) as Hd. done.
  - intros ([i d] & Hd & Hv)%bind_Some. apply list_find_Some in Hd as (Hi%list_elem_of_lookup_2 & Hk & _).
    exists d. split_and!; [done..|]. symmetry. by apply (option_table_default d).
Qed.

Lemma store_complete cfg po d :
  store cfg (add_options new_options) = (true, po) → d ∈ option_table → is_Some (m_find (o_name d) (map_ po)).
Proof.
  unfold store. cbn [add_options new_options desc_ map_ app]. destruct (parse_config_file cfg option_table) as [parsed|] eqn:Hp; [|done].
  destruct (po_store parsed option_table []) as [m|] eqn:Hs; [|done]. intros [= Hn <-] Hd. cbn [map_].
  destruct (o_required d) eqn:Hr; [by apply (notify_ok option_table m)|].
  rewrite (store_ok _ _ _ _ Hs). unfold stored. cbn [m_find].
  destruct (list_find (λ e, e.1 = o_name d) parsed) as [[i [k' v']]|]; [by eauto|].
  destruct (list_find (λ d', o_name d' = o_name d) option_table) as [[i d']|] eqn:Hf.
  - apply list_find_Some in Hf as (Hi%list_elem_of_lookup_2 & Hk & _). simpl.
    rewrite (option_table_unique d' d) by done. by apply option_table_default.
  - exfalso. apply list_find_None in Hf. rewrite Forall_forall in Hf. by eapply Hf.
Qed.

Lemma get_int_spec key po z : get_int key po = Some z ↔ m_find key (map_ po) = Some (any_int z).
Proof. unfold get_int, m_count. destruct (m_find key (map_ po)) as [[]|]; simpl; naive_solver. Qed.

Lemma get_string_spec key po s : get_string key po = Some s ↔ m_find key (map_ po) = Some (any_string s).
Proof. unfold get_string, m_count. destruct (m_find key (map_ po)) as [[]|]; simpl; naive_solver. Qed.

End options.
