(* ===== verification/InetServer.v ===== *)
(** * The TCP test server

    src/network/tcp/inet_server.c: a thread accepts connections and notes the time
    of each in the table [fds], two threads read from the last one, and a timer
    starts a thread every FD_AGE seconds that closes the connections older than
    that.  The table is guarded by a mutex; [con_fd] is not.

    The threads are programs over the shared state: [exec] performs one action of
    one thread, up to and including its next system call, and any interleaving is
    a sequence of actions.  The system is the rest of the state: which descriptors
    are open, and the clock.  What accept and read return is part of the action,
    within what the system can return; close succeeds exactly for an open
    descriptor.  [bad] records an array access out of bounds. *)

From Stdlib Require Import Ascii String.
From stdpp Require Import gmap numbers sets list.
From S2P Require Import Prelude StdText.

Local Open Scope Z_scope.

Definition BUF_SIZE : Z := 1024.
Definition FD_AGE : Z := 20.
Definition MAX_FD : Z := 1024.

(** ** Threads *)

Inductive thread_id := TMain | TReader (k : nat) | THandler (k : nat).

#[global] Instance thread_id_eq : EqDecision thread_id.
Proof. solve_decision. Defined.

Inductive main_pc := MAccept | MCheck | MClose | MLock | MStore | MUnlock.
Inductive reader_pc := RCheck | RRead | RTerminate (n : Z).
Inductive handler_pc := HLock (now : Z) | HLoop (i now : Z) | HZero (i now : Z) | HUnlock (now : Z) | HDone.

Record server := Server {
  con_fd : Z;
  fds : list Z;
  mtx : option thread_id;
  main_at : main_pc;
  readers : gmap nat reader_pc;
  handlers : gmap nat handler_pc;
  open_fds : gmap Z Z;                (** the open connections, with the time each was accepted *)
  clock : Z;
  swept : list (Z * Z);               (** acceptance time and time of the sweep, for each connection a sweep closed *)
  bad : bool;
}.

Definition set_con_fd (v : Z) (s : server) := Server v (fds s) (mtx s) (main_at s) (readers s) (handlers s) (open_fds s) (clock s) (swept s) (bad s).
Definition set_fds (v : list Z) (s : server) := Server (con_fd s) v (mtx s) (main_at s) (readers s) (handlers s) (open_fds s) (clock s) (swept s) (bad s).
Definition set_mtx (v : option thread_id) (s : server) := Server (con_fd s) (fds s) v (main_at s) (readers s) (handlers s) (open_fds s) (clock s) (swept s) (bad s).
Definition set_main (v : main_pc) (s : server) := Server (con_fd s) (fds s) (mtx s) v (readers s) (handlers s) (open_fds s) (clock s) (swept s) (bad s).
Definition set_reader (k : nat) (v : reader_pc) (s : server) := Server (con_fd s) (fds s) (mtx s) (main_at s) (<[k:=v]> (readers s)) (handlers s) (open_fds s) (clock s) (swept s) (bad s).
Definition set_handler (k : nat) (v : handler_pc) (s : server) := Server (con_fd s) (fds s) (mtx s) (main_at s) (readers s) (<[k:=v]> (handlers s)) (open_fds s) (clock s) (swept s) (bad s).
Definition set_open (v : gmap Z Z) (s : server) := Server (con_fd s) (fds s) (mtx s) (main_at s) (readers s) (handlers s) v (clock s) (swept s) (bad s).
Definition set_clock (v : Z) (s : server) := Server (con_fd s) (fds s) (mtx s) (main_at s) (readers s) (handlers s) (open_fds s) v (swept s) (bad s).
Definition add_swept (b now : Z) (s : server) := Server (con_fd s) (fds s) (mtx s) (main_at s) (readers s) (handlers s) (open_fds s) (clock s) (swept s ++ [(b, now)]) (bad s).
Definition set_bad (s : server) := Server (con_fd s) (fds s) (mtx s) (main_at s) (readers s) (handlers s) (open_fds s) (clock s) (swept s) true.

(** An access to [fds[i]]. *)
Definition in_table (i : Z) : bool := bool_decide (0 <= i <= MAX_FD).
Definition get_tm (i : Z) (s : server) : Z := default 0 (fds s !! Z.to_nat i).
Definition put_tm (i t : Z) (s : server) : server :=
  if in_table i then set_fds (<[Z.to_nat i := t]> (fds s)) s else set_bad s.

Definition lock (t : thread_id) (s : server) : option server :=
  match mtx s with None => Some (set_mtx (Some t) s) | Some _ => None end.
Definition unlock (s : server) : server := set_mtx None s.

(** The main thread's loop; [a] is what accept returns.  [None]: blocked, or not a possible
    result. *)
Definition main_step (a : Z) (s : server) : option server :=
  match main_at s with
  | MAccept =>
      if bool_decide (a = -1) then Some (set_con_fd a s)
      else if bool_decide (0 <= a) && bool_decide (open_fds s !! a = None)
      then Some (set_main MCheck (set_con_fd a (set_open (<[a := clock s]> (open_fds s)) s)))
      else None
  | MCheck => Some (set_main (if bool_decide (con_fd s > MAX_FD) then MClose else MLock) s)
  | MClose => Some (set_main MAccept (set_open (delete (con_fd s) (open_fds s)) s))
  | MLock => set_main MStore <$> lock TMain s
  | MStore => Some (set_main MUnlock (put_tm (con_fd s) (clock s) s))
  | MUnlock => Some (set_main MAccept (unlock s))
  end.

(** read_task; [n] is what read returns. *)
Definition read_step (k : nat) (n : Z) (s : server) : option server :=
  match readers s !! k with
  | Some RCheck => Some (if bool_decide (con_fd s <= 0) then s else set_reader k RRead s)
  | Some RRead =>
      if bool_decide (n = -1) then Some (set_reader k RCheck s)
      else if bool_decide (0 <= n <= BUF_SIZE - 1) && bool_decide (is_Some (open_fds s !! con_fd s))
      then Some (set_reader k (RTerminate n) s)
      else None
  | Some (RTerminate n) =>
      Some (set_reader k RCheck (if bool_decide (0 <= n < BUF_SIZE) then s else set_bad s))
  | None => None
  end.

(** timer_handler *)
Definition handler_step (k : nat) (s : server) : option server :=
  match handlers s !! k with
  | Some (HLock now) => set_handler k (HLoop 0 now) <$> lock (THandler k) s
  | Some (HLoop i now) =>
      if bool_decide (i <= MAX_FD) then
        if negb (in_table i) then Some (set_bad s)
        else if bool_decide (get_tm i s > 0) && bool_decide (get_tm i s + FD_AGE < now) then
          match open_fds s !! i with
          | None => Some (set_handler k (HLoop (i + 1) now) s)
          | Some b => Some (set_handler k (HZero i now) (add_swept b now (set_open (delete i (open_fds s)) s)))
          end
        else Some (set_handler k (HLoop (i + 1) now) s)
      else Some (set_handler k (HUnlock now) s)
  | Some (HZero i now) => Some (set_handler k (HLoop (i + 1) now) (put_tm i 0 s))
  | Some (HUnlock now) => Some (set_handler k HDone (unlock s))
  | Some HDone | None => None
  end.

(** ** Actions *)

Inductive action :=
| AMain (accept_result : Z)
| ARead (k : nat) (read_result : Z)
| AHandle (k : nat)
| AExpire                        (** the timer starts a handler, which reads the clock *)
| ATick (dt : Z).

Definition exec (a : action) (s : server) : option server :=
  match a with
  | AMain r => main_step r s
  | ARead k n => read_step k n s
  | AHandle k => handler_step k s
  | AExpire => Some (set_handler (fresh (dom (handlers s))) (HLock (clock s)) s)
  | ATick dt => if bool_decide (0 <= dt) then Some (set_clock (clock s + dt) s) else None
  end.

Fixpoint run (acts : list action) (s : server) : option server :=
  match acts with
  | [] => Some s
  | a :: acts => s' ← exec a s; run acts s'
  end.

(** ** Start: the part of main before the loop *)

Inductive sys := SSocket | SDefer | SReuse | SBind | SListen | SClose (fd : Z).

(** System calls made, and the descriptor or the exit code.  The options may fail. *)
Definition start (sock defer reuse bind listen : Z) : list sys * (Z + Z) :=
  if bool_decide (sock = -1) then ([SSocket], inr 1)
  else if bool_decide (bind = -1) then ([SSocket; SDefer; SReuse; SBind; SClose sock], inr 1)
  else if bool_decide (listen = -1) then ([SSocket; SDefer; SReuse; SBind; SListen; SClose sock], inr 1)
  else ([SSocket; SDefer; SReuse; SBind; SListen], inl sock).

(** timer_set: first expiry after a second, then every [milliseconds]. *)
Record itimerspec := ITimer { value_sec : Z; interval_sec : Z; interval_nsec : Z }.
Definition timer_set (milliseconds : Z) : itimerspec :=
  ITimer 1 (Z.quot milliseconds 1000) (Z.rem milliseconds 1000 * 1000000).

(** The timer of main, and the state when its loop starts, [now] seconds after the epoch. *)
Definition main_timer : itimerspec := timer_set (1000 * FD_AGE).
Definition server0 (now : Z) : server :=
  Server 0 (replicate (Z.to_nat (MAX_FD + 1)) 0) None MAccept {[ 0%nat := RCheck; 1%nat := RCheck ]} ∅ ∅ now [] false.
