(* ===== verification/InetSpec.v ===== *)
(** * The server's invariant

    [Inv] holds after every interleaving of the threads: every open connection is
    in the table with a time not before its acceptance, or is the one the main
    thread has just accepted; an entry of the table belongs to an open connection,
    or to the one a handler has just closed; what a handler has passed is not
    overdue. *)

From Stdlib Require Import Ascii String.
From stdpp Require Import gmap numbers sets list.
From S2P Require Import Prelude StdText InetServer.

Local Open Scope Z_scope.

(** Accepted and not yet in the table. *)
Definition in_flight (s : server) (i : Z) : Prop :=
  con_fd s = i ∧ match main_at s with MCheck | MClose | MLock | MStore => True | _ => False end.

Definition main_ok (s : server) : Prop :=
  match main_at s with
  | MAccept => True
  | MCheck => 0 ≤ con_fd s
  | MClose => MAX_FD < con_fd s
  | MLock => 0 ≤ con_fd s ≤ MAX_FD
  | MStore | MUnlock => 0 ≤ con_fd s ≤ MAX_FD ∧ mtx s = Some TMain
  end.

(** No entry below [i] is older than FD_AGE at time [now]. *)
Definition young_below (s : server) (i now : Z) : Prop := ∀ j, 0 ≤ j < i → 0 < get_tm j s → now ≤ get_tm j s + FD_AGE.

Definition handler_ok (s : server) (k : nat) (h : handler_pc) : Prop :=
  match h with
  | HLock now => now ≤ clock s
  | HLoop i now => mtx s = Some (THandler k) ∧ 0 ≤ i ≤ MAX_FD + 1 ∧ now ≤ clock s ∧ young_below s i now
  | HZero i now => mtx s = Some (THandler k) ∧ 0 ≤ i ≤ MAX_FD ∧ now ≤ clock s ∧ young_below s i now
  | HUnlock now => mtx s = Some (THandler k) ∧ young_below s (MAX_FD + 1) now
  | HDone => True
  end.

(** Some handler has closed [i] and not yet cleared its entry. *)
Definition clearing (s : server) (i : Z) : Prop := ∃ k now, handlers s !! k = Some (HZero i now).

Definition recorded (s : server) (i b : Z) : Prop := 0 ≤ i ≤ MAX_FD ∧ 0 < get_tm i s ∧ b ≤ get_tm i s.

Record Inv (s : server) : Prop := {
  inv_table : length (fds s) = Z.to_nat (MAX_FD + 1);
  inv_clock : 0 < clock s;
  inv_main : main_ok s;
  inv_open : ∀ i b, open_fds s !! i = Some b → b ≤ clock s ∧ (recorded s i b ∨ in_flight s i);
  inv_flight : ∀ i, in_flight s i → is_Some (open_fds s !! i);
  inv_entry : ∀ i, 0 ≤ i ≤ MAX_FD → 0 < get_tm i s → (is_Some (open_fds s !! i) ∧ ¬ in_flight s i) ∨ clearing s i;
  inv_clearing : ∀ i, clearing s i → is_Some (open_fds s !! i) → in_flight s i;
  inv_readers : ∀ k n, readers s !! k = Some (RTerminate n) → 0 ≤ n < BUF_SIZE;
  inv_handlers : ∀ k h, handlers s !! k = Some h → handler_ok s k h;
  inv_swept : Forall (λ e, e.1 + FD_AGE < e.2) (swept s);
  inv_bad : bad s = false;
}.

Lemma Inv_start now : 0 < now → Inv (server0 now).
Proof.
  intros Hnow. assert (∀ i, get_tm i (server0 now) = 0) as Htm.
  { intros i. unfold get_tm. destruct (fds (server0 now) !! Z.to_nat i) eqn:H; [|done].
    by apply lookup_replicate in H as [-> _]. }
  split; simpl; try done.
  - by intros i [_ ?].
  - intros i Hi. rewrite Htm. lia.
  - by intros i (k & now' & ?).
  - intros k n [[<- ?]|[_ [<- ?]%lookup_singleton_Some]]%lookup_insert_Some; done.
Qed.

(** Entries of the table after a write. *)
Lemma get_put_tm i t j s :
  length (fds s) = Z.to_nat (MAX_FD + 1) → 0 ≤ i ≤ MAX_FD → 0 ≤ j →
  get_tm j (put_tm i t s) = if decide (j = i) then t else get_tm j s.
Proof.
  intros Hl Hi Hj. unfold put_tm, in_table. rewrite bool_decide_true by done. unfold get_tm. simpl.
  unfold MAX_FD in *. case_decide as Hij.
  - subst j. rewrite list_lookup_insert_eq; [done|lia].
  - rewrite list_lookup_insert_ne; [done|lia].
Qed.

(** Handlers that do not hold the mutex have nothing to say about the table. *)
Lemma handlers_outside s :
  Inv s → (∀ k, mtx s ≠ Some (THandler k)) →
  ∀ k h, handlers s !! k = Some h → match h with HLock now => now ≤ clock s | HDone => True | _ => False end.
Proof.
  intros HI Hm k h Hk. pose proof (inv_handlers s HI k h Hk) as Hh.
  destruct h; simpl in Hh; naive_solver.
Qed.

Lemma not_clearing s i : Inv s → (∀ k, mtx s ≠ Some (THandler k)) → ¬ clearing s i.
Proof. intros HI Hm (k & now & Hk). by apply (handlers_outside s HI Hm) in Hk. Qed.

(** The handler that holds the mutex is the only one that can be clearing. *)
Lemma clearing_owner s k i : Inv s → mtx s = Some (THandler k) → clearing s i → ∃ now, handlers s !! k = Some (HZero i now).
Proof.
  intros HI Hm (k' & now & Hk). destruct (inv_handlers s HI k' _ Hk) as (Hm' & _).
  rewrite Hm in Hm'. simplify_eq. eauto.
Qed.

(** ** The actions keep the invariant *)

(** The fields of the invariant that an action does not touch. *)
Ltac keep HI := split; try exact (inv_table _ HI); try exact (inv_clock _ HI); try exact (inv_main _ HI);
  try exact (inv_open _ HI); try exact (inv_flight _ HI); try exact (inv_entry _ HI); try exact (inv_clearing _ HI); try exact (inv_readers _ HI);
  try exact (inv_handlers _ HI); try exact (inv_swept _ HI); try exact (inv_bad _ HI); simpl.

(** One lemma per place of the accepting thread. *)
Ltac main_at_place HI Hpc Hs Hm :=
  intros HI Hpc Hs; pose proof (inv_main _ HI) as Hm; unfold main_ok in Hm; unfold main_step in Hs; rewrite Hpc in Hm, Hs.

Lemma main_accept_inv a s s' : Inv s → main_at s = MAccept → main_step a s = Some s' → Inv s'.
Proof.
  main_at_place HI Hpc Hs Hm.
  assert (∀ i, ¬ in_flight s i) as Hno by (intros i [_ H]; by rewrite Hpc in H).
  case_bool_decide as Ha; [|case_bool_decide as Ha0; [|done]; simpl in Hs; case_bool_decide as Hopen; [|done]]; simplify_eq.
  + keep HI.
    * unfold main_ok. simpl. by rewrite Hpc.
    * intros i b Hb. destruct (inv_open s HI i b Hb) as (? & [?|[]%Hno]). auto.
    * intros i [_ H]. simpl in H. by rewrite Hpc in H.
    * intros i Hi Ht. destruct (inv_entry s HI i Hi Ht) as [[? _]|?]; [|by right]. left; split; [done|].
      intros [_ Hx]. simpl in Hx. by rewrite Hpc in Hx.
    * intros i Hcl Ho. by destruct (Hno i); apply (inv_clearing s HI).
  + keep HI.
    * done.
    * intros i b [[<- <-]|[Hne Hb]]%lookup_insert_Some; [split; [done|]; right; done|].
      destruct (inv_open s HI i b Hb) as (? & [?|[]%Hno]). auto.
    * intros i [<- _]. rewrite lookup_insert_eq. eauto.
    * intros i Hi Ht. destruct (inv_entry s HI i Hi Ht) as [[[b Hb] _]|?]; [|by right].
      left. split; [rewrite lookup_insert_ne by congruence; eauto|]. intros [Hx _]. simpl in Hx. congruence.
    * intros i Hcl Ho. destruct (decide (i = a)) as [->|Hne]; [done|]. rewrite lookup_insert_ne in Ho by done.
      by destruct (Hno i); apply (inv_clearing s HI).
Qed.

Lemma main_check_inv a s s' : Inv s → main_at s = MCheck → main_step a s = Some s' → Inv s'.
Proof.
  main_at_place HI Hpc Hs Hm.
  simplify_eq. assert (∀ i, in_flight s i ↔ con_fd s = i) as Hfl by (intros i; unfold in_flight; rewrite Hpc; naive_solver).
  assert (∀ i pc, pc = MClose ∨ pc = MLock → in_flight (set_main pc s) i ↔ in_flight s i) as Hfl'.
  { intros i pc Hp. rewrite Hfl. unfold in_flight. simpl. destruct Hp as [-> | ->]; naive_solver. }
  case_bool_decide as Hmax; keep HI.
  + unfold main_ok; simpl. lia.
  + intros i b Hb. rewrite Hfl' by auto. by apply (inv_open s HI).
  + intros i. rewrite Hfl' by auto. apply (inv_flight s HI).
  + intros i Hi Ht. rewrite Hfl' by auto. by apply (inv_entry s HI).
  + intros i Hcl Ho. rewrite Hfl' by auto. by apply (inv_clearing s HI).
  + unfold main_ok; simpl. lia.
  + intros i b Hb. rewrite Hfl' by auto. by apply (inv_open s HI).
  + intros i. rewrite Hfl' by auto. apply (inv_flight s HI).
  + intros i Hi Ht. rewrite Hfl' by auto. by apply (inv_entry s HI).
  + intros i Hcl Ho. rewrite Hfl' by auto. by apply (inv_clearing s HI).
Qed.

Lemma main_close_inv a s s' : Inv s → main_at s = MClose → main_step a s = Some s' → Inv s'.
Proof.
  main_at_place HI Hpc Hs Hm.
  simplify_eq. keep HI.
  + done.
  + intros i b [Hne Hb]%lookup_delete_Some. destruct (inv_open s HI i b Hb) as (? & [?|[? _]]); [auto|done].
  + by intros i [_ ?].
  + intros i Hi Ht. destruct (inv_entry s HI i Hi Ht) as [[[b Hb] _]|?]; [|by right]. left.
    split; [rewrite lookup_delete_ne by lia; eauto|]. by intros [_ ?].
  + intros i Hcl [b [Hne Hb]%lookup_delete_Some]. destruct (inv_clearing s HI i Hcl) as [? _]; [by eauto|done].
Qed.

Lemma main_lock_inv a s s' : Inv s → main_at s = MLock → main_step a s = Some s' → Inv s'.
Proof.
  main_at_place HI Hpc Hs Hm.
  unfold lock in Hs. destruct (mtx s) eqn:Hmtx; [done|]. simplify_eq/=.
  assert (∀ i, in_flight (set_main MStore (set_mtx (Some TMain) s)) i ↔ in_flight s i) as Hfl'
    by (intros i; unfold in_flight; simpl; rewrite Hpc; done).
  keep HI.
  + done.
  + intros i b Hb. rewrite Hfl'. by apply (inv_open s HI).
  + intros i. rewrite Hfl'. apply (inv_flight s HI).
  + intros i Hi Ht. rewrite Hfl'. by apply (inv_entry s HI).
  + intros i []%(not_clearing s); [done|by rewrite Hmtx].
  + intros k h Hk. apply (handlers_outside s HI) in Hk; [|by rewrite Hmtx]. by destruct h.
Qed.

Lemma main_store_inv a s s' : Inv s → main_at s = MStore → main_step a s = Some s' → Inv s'.
Proof.
  main_at_place HI Hpc Hs Hm.
  simplify_eq. destruct Hm as [Hc Hmtx].
  assert (∀ k, mtx s ≠ Some (THandler k)) as Hout by (by rewrite Hmtx).
  assert (∀ j, 0 ≤ j → get_tm j (set_main MUnlock (put_tm (con_fd s) (clock s) s)) =
               if decide (j = con_fd s) then clock s else get_tm j s) as Htm
    by (intros j Hj; apply get_put_tm; [apply HI|done..]).
  pose proof (inv_clock s HI). unfold put_tm, in_table in *. rewrite bool_decide_true in * by done. keep HI.
  + rewrite length_insert. apply HI.
  + done.
  + intros i b Hb. destruct (inv_open s HI i b Hb) as (Hbc & [(Hi & H0 & Hle)|[<- _]]); split; try done; left; unfold recorded.
    * rewrite Htm by lia. case_decide; lia.
    * rewrite Htm by lia. rewrite decide_True by done. lia.
  + by intros i [_ ?].
  + intros i Hi Ht. rewrite Htm in Ht by lia. left. split; [|by intros [_ ?]]. case_decide as Hic.
    * subst i. apply (inv_flight s HI). split; [done|]. by rewrite Hpc.
    * destruct (inv_entry s HI i Hi Ht) as [[? _]|[]%(not_clearing s)]; done.
  + by intros i []%(not_clearing s).
  + intros k h Hk. apply (handlers_outside s HI) in Hk; [|done]. by destruct h.
Qed.

Lemma main_unlock_inv a s s' : Inv s → main_at s = MUnlock → main_step a s = Some s' → Inv s'.
Proof.
  main_at_place HI Hpc Hs Hm.
  simplify_eq. destruct Hm as [Hc Hmtx].
  assert (∀ i, ¬ in_flight s i) as Hno by (intros i [_ H]; by rewrite Hpc in H).
  keep HI.
  + done.
  + intros i b Hb. destruct (inv_open s HI i b Hb) as (? & [?|[]%Hno]). auto.
  + by intros i [_ ?].
  + intros i Hi Ht. destruct (inv_entry s HI i Hi Ht) as [[? _]|?]; [|by right]. left; split; [done|]. by intros [_ ?].
  + intros i []%(not_clearing s); [done|by rewrite Hmtx].
  + intros k h Hk. apply (handlers_outside s HI) in Hk; [|by rewrite Hmtx]. by destruct h.
Qed.

Lemma main_step_inv a s s' : Inv s → main_step a s = Some s' → Inv s'.
Proof.
  destruct (main_at s) eqn:Hpc;
    eauto using main_accept_inv, main_check_inv, main_close_inv, main_lock_inv, main_store_inv, main_unlock_inv.
Qed.

Lemma read_step_inv k n s s' : Inv s → read_step k n s = Some s' → Inv s'.
Proof.
  intros HI. unfold read_step. destruct (readers s !! k) as [[| |m]|] eqn:Hk; intros Hs; [..|done].
  - case_bool_decide; simplify_eq; [done|]. keep HI.
    intros k' m [[<- ?]|[_ ?]]%lookup_insert_Some; [done|]. by apply (inv_readers s HI k').
  - case_bool_decide; [|case_bool_decide; [|done]; simpl in Hs; case_bool_decide; [|done]]; simplify_eq; keep HI.
    + intros k' m [[<- ?]|[_ ?]]%lookup_insert_Some; [done|]. by apply (inv_readers s HI k').
    + intros k' m [[<- [= <-]]|[_ ?]]%lookup_insert_Some; [lia|]. by apply (inv_readers s HI k').
  - pose proof (inv_readers s HI k m Hk). rewrite bool_decide_true in Hs by done. simplify_eq. keep HI.
    intros k' m' [[<- ?]|[_ ?]]%lookup_insert_Some; [done|]. by apply (inv_readers s HI k').
Qed.

Lemma handlers_others s k k' h :
  Inv s → mtx s = Some (THandler k) → handlers s !! k' = Some h → k' ≠ k →
  match h with HLock now => now ≤ clock s | HDone => True | _ => False end.
Proof.
  intros HI Hm Hk Hne. pose proof (inv_handlers s HI k' h Hk) as Hh. destruct h; simpl in Hh; naive_solver.
Qed.

(** A handler that is not clearing can move without changing who is. *)
Lemma clearing_move s s' k h h' i :
  handlers s !! k = Some h → (∀ now, h ≠ HZero i now) → handlers s' = <[k:=h']> (handlers s) →
  clearing s i → clearing s' i.
Proof.
  intros Hk Hh Hs (k' & now & Hk'). exists k', now. rewrite Hs, lookup_insert_ne; [done|]. intros ->. naive_solver.
Qed.

(** The other handlers, when handler [k] holds or just held the mutex. *)
Lemma handlers_step s s' k h' :
  Inv s → mtx s = Some (THandler k) → clock s' = clock s →
  handler_ok s' k h' → ∀ k' h, <[k:=h']> (handlers s) !! k' = Some h → handler_ok s' k' h.
Proof.
  intros HI Hm Hc Hok k' h Hk. apply lookup_insert_Some in Hk as [[<- <-]|[Hne Hk]]; [done|].
  apply (handlers_others s k) in Hk; [|done..]. destruct h; try done. simpl. by rewrite Hc.
Qed.

Lemma young_next s i now :
  young_below s i now → 0 ≤ i → (0 < get_tm i s → now ≤ get_tm i s + FD_AGE) → young_below s (i + 1) now.
Proof. intros Hy Hi Ht j Hj Hp. destruct (decide (j = i)) as [->|]; [auto|]. apply Hy; lia || done. Qed.

(** The descriptor a handler closes is a recorded connection that is too old. *)
Lemma overdue_open s k i now :
  Inv s → handlers s !! k = Some (HLoop i now) → 0 ≤ i ≤ MAX_FD → 0 < get_tm i s →
  ∃ b, open_fds s !! i = Some b ∧ b ≤ get_tm i s ∧ ¬ in_flight s i.
Proof.
  intros HI Hk Hi Ht. destruct (inv_handlers s HI k _ Hk) as (Hm & _).
  destruct (inv_entry s HI i Hi Ht) as [[[b Hb] Hfl]|Hcl].
  - exists b. split_and!; [done| |done]. by destruct (inv_open s HI i b Hb) as (_ & [(_ & _ & ?)|?]).
  - apply (clearing_owner s k) in Hcl as [now' Hk']; [congruence|done..].
Qed.

(** Only handler [k] moves: nobody else is clearing. *)
Lemma clearing_moved s s' k h' i :
  Inv s → mtx s = Some (THandler k) → handlers s' = <[k:=h']> (handlers s) → clearing s' i → ∃ now, h' = HZero i now.
Proof.
  intros HI Hm Hs (k' & now & Hk'). rewrite Hs in Hk'. apply lookup_insert_Some in Hk' as [[<- ->]|[Hne Hk']]; [by eauto|].
  by apply (handlers_others s k) in Hk'.
Qed.

Lemma handler_lock_inv k now s : Inv s → handlers s !! k = Some (HLock now) → mtx s = None →
  Inv (set_handler k (HLoop 0 now) (set_mtx (Some (THandler k)) s)).
Proof.
  intros HI Hk Hmtx. pose proof (inv_handlers s HI k _ Hk) as Hh. simpl in Hh. keep HI.
  - pose proof (inv_main s HI) as Hm. unfold main_ok in *. simpl. rewrite Hmtx in Hm. destruct (main_at s); naive_solver.
  - intros i Hi Ht. destruct (inv_entry s HI i Hi Ht) as [?|[]%(not_clearing s)]; [by left|done|by rewrite Hmtx].
  - intros i (k' & now' & Hk'). simpl in Hk'. apply lookup_insert_Some in Hk' as [[_ ?]|[_ Hk']]; [done|].
    apply (handlers_outside s HI) in Hk'; [done|by rewrite Hmtx].
  - intros k' h [[<- <-]|[Hne Hk']]%lookup_insert_Some.
    + simpl. split_and!; try done. intros j ?; lia.
    + apply (handlers_outside s HI) in Hk'; [|by rewrite Hmtx]. by destruct h.
Qed.

(** Going on to the next descriptor, or to the end of the loop, without a change. *)
Lemma handler_next_inv k i now h' s : Inv s → handlers s !! k = Some (HLoop i now) →
  handler_ok (set_handler k h' s) k h' → (∀ j n, h' ≠ HZero j n) → Inv (set_handler k h' s).
Proof.
  intros HI Hk Hok Hz. destruct (inv_handlers s HI k _ Hk) as (Hm & _). keep HI.
  - intros j Hj Htj. destruct (inv_entry s HI j Hj Htj) as [?|?]; [by left|right]. by eapply (clearing_move s _ k).
  - intros j [n Hj]%(clearing_moved s _ k h'); [by destruct (Hz j n)|done..].
  - by eapply (handlers_step s _ k).
Qed.

Lemma handler_close_inv k i now b s : Inv s → handlers s !! k = Some (HLoop i now) → i ≤ MAX_FD →
  0 < get_tm i s → get_tm i s + FD_AGE < now → open_fds s !! i = Some b →
  Inv (set_handler k (HZero i now) (add_swept b now (set_open (delete i (open_fds s)) s))).
Proof.
  intros HI Hk Hmax Ht Hage Hb. destruct (inv_handlers s HI k _ Hk) as (Hm & Hi & Hnow & Hy).
  destruct (overdue_open s k i now) as (b' & Hb' & Hle & Hfl); [done..|lia|done|]. simplify_eq. keep HI.
  - intros j bj [Hne Hj]%lookup_delete_Some. by apply (inv_open s HI).
  - intros j Hj. assert (j ≠ i) by (intros ->; done). rewrite lookup_delete_ne by done. by apply (inv_flight s HI).
  - intros j Hj Htj. destruct (decide (j = i)) as [->|Hne].
    + right. exists k, now. simpl. by rewrite lookup_insert_eq.
    + rewrite lookup_delete_ne by done. destruct (inv_entry s HI j Hj Htj) as [?|?]; [by left|right].
      by eapply (clearing_move s _ k).
  - intros j [n [= -> ->]]%(clearing_moved s _ k (HZero i now)); [|done..]. rewrite lookup_delete_eq. by intros [??].
  - eapply (handlers_step s _ k); [done..|]. simpl. split_and!; [done|lia|lia|done|done].
  - apply Forall_app; split; [apply HI|]. constructor; [simpl; lia|constructor].
Qed.

Lemma handler_zero_inv k i now s : Inv s → handlers s !! k = Some (HZero i now) →
  Inv (set_handler k (HLoop (i + 1) now) (put_tm i 0 s)).
Proof.
  intros HI Hk. destruct (inv_handlers s HI k _ Hk) as (Hm & Hi & Hnow & Hy).
  assert (clearing s i) as Hcl by (by exists k, now).
  assert (∀ j, 0 ≤ j → get_tm j (set_handler k (HLoop (i + 1) now) (put_tm i 0 s)) = if decide (j = i) then 0 else get_tm j s) as Htm
    by (intros j Hj; apply get_put_tm; [apply HI|done..]).
  unfold put_tm, in_table in *. rewrite bool_decide_true in * by done. keep HI.
  - rewrite length_insert. apply HI.
  - intros j b Hb. destruct (inv_open s HI j b Hb) as (? & [(Hj & H0 & Hle)|?]); (split; [done|]); [|by right].
    destruct (decide (j = i)) as [->|Hne]; [right; apply (inv_clearing s HI); eauto|].
    left. unfold recorded. by rewrite Htm, decide_False by (done || lia).
  - intros j Hj Htj. rewrite Htm in Htj by lia. case_decide; [lia|].
    destruct (inv_entry s HI j Hj Htj) as [?|Hj']; [by left|].
    apply (clearing_owner s k) in Hj' as [n Hn]; [congruence|done..].
  - by intros j [n ?]%(clearing_moved s _ k (HLoop (i + 1) now)).
  - eapply (handlers_step s _ k); [done..|]. simpl. split_and!; [done|lia|lia|done|].
    intros j Hj. rewrite Htm by lia. case_decide; [lia|]. apply Hy. lia.
Qed.

Lemma handler_unlock_inv k now s : Inv s → handlers s !! k = Some (HUnlock now) → Inv (set_handler k HDone (unlock s)).
Proof.
  intros HI Hk. destruct (inv_handlers s HI k _ Hk) as (Hm & Hy). keep HI.
  - pose proof (inv_main s HI) as Hma. unfold main_ok in *. simpl. rewrite Hm in Hma. destruct (main_at s); naive_solver.
  - intros i Hi Ht. destruct (inv_entry s HI i Hi Ht) as [?|?]; [by left|right]. by eapply (clearing_move s _ k).
  - by intros j [n ?]%(clearing_moved s _ k HDone).
  - intros k' h [[<- <-]|[Hne Hk']]%lookup_insert_Some; [done|].
    apply (handlers_others s k) in Hk'; [|done..]. by destruct h.
Qed.

Lemma handler_step_inv k s s' : Inv s → handler_step k s = Some s' → Inv s'.
Proof.
  intros HI. unfold handler_step. destruct (handlers s !! k) as [h|] eqn:Hk; [|done].
  pose proof (inv_handlers s HI k h Hk) as Hh. destruct h as [now|i now|i now|now|]; intros Hs; simpl in Hh.
  - unfold lock in Hs. destruct (mtx s) eqn:Hmtx; [done|]. simplify_eq/=. by apply handler_lock_inv.
  - destruct Hh as (Hm & Hi & Hnow & Hy). case_bool_decide as Hmax.
    + unfold in_table in Hs. rewrite bool_decide_true in Hs by lia. simpl in Hs.
      assert ((0 < get_tm i s → now ≤ get_tm i s + FD_AGE) → Inv (set_handler k (HLoop (i + 1) now) s)) as Hnext.
      { intros Ht. eapply handler_next_inv; [done..| |done]. simpl. split_and!; [done|lia|lia|done|]. apply young_next; [done|lia|done]. }
      case_bool_decide as Ht; simpl in Hs; [|simplify_eq; apply Hnext; lia].
      case_bool_decide as Hage; [|simplify_eq; apply Hnext; lia].
      destruct (overdue_open s k i now) as (b & Hb & _); [done|done|lia|lia|]. rewrite Hb in Hs. simplify_eq.
      apply handler_close_inv; done || lia.
    + simplify_eq. eapply handler_next_inv; [done..| |done]. simpl. split; [done|]. intros j Hj. apply Hy. lia.
  - simplify_eq. by apply handler_zero_inv.
  - simplify_eq. by eapply handler_unlock_inv.
  - done.
Qed.

Lemma exec_inv a s s' : Inv s → exec a s = Some s' → Inv s'.
Proof.
  intros HI. destruct a as [r|k n|k| |dt]; simpl.
  - by apply main_step_inv.
  - by apply read_step_inv.
  - by apply handler_step_inv.
  - intros [= <-]. set (k := fresh _). assert (handlers s !! k = None) as Hk by (apply not_elem_of_dom, is_fresh). keep HI.
    + intros i Hi Ht. destruct (inv_entry s HI i Hi Ht) as [?|(k' & now & Hk')]; [by left|right].
      exists k', now. simpl. rewrite lookup_insert_ne; [done|congruence].
    + intros i (k' & now & Hk'). simpl in Hk'. apply lookup_insert_Some in Hk' as [[_ ?]|[_ Hk']]; [done|]. apply (inv_clearing s HI). by exists k', now.
    + intros k' h [[<- <-]|[_ Hk']]%lookup_insert_Some; [simpl; lia|]. by apply (inv_handlers s HI).
  - case_bool_decide as Hdt; [|done]. intros [= <-]. keep HI.
    + pose proof (inv_clock s HI). lia.
    + intros i b Hb. destruct (inv_open s HI i b Hb) as (? & ?). split; [lia|done].
    + intros k h Hk. pose proof (inv_handlers s HI k h Hk) as Hh. destruct h; simpl in *; destruct_and?; split_and?; done || lia.
Qed.

Lemma run_inv acts : ∀ s s', Inv s → run acts s = Some s' → Inv s'.
Proof.
  induction acts as [|a acts IH]; intros s s' HI; simpl; [by intros [= <-]|].
  intros (s1 & Ha & Hs)%bind_Some. eapply IH; [|done]. by eapply exec_inv.
Qed.

(** ** A whole sweep *)

Definition overdue (s : server) (now i : Z) : bool :=
  bool_decide (0 ≤ i ≤ MAX_FD ∧ 0 < get_tm i s ∧ get_tm i s + FD_AGE < now).

(** [s'] is [s] with the overdue connections from [i] on closed. *)
Definition swept_from (i now : Z) (s s' : server) : Prop :=
  (∀ j, 0 ≤ j → get_tm j s' = if bool_decide (i ≤ j) && overdue s now j then 0 else get_tm j s) ∧
  (∀ j, open_fds s' !! j = if bool_decide (i ≤ j) && overdue s now j then None else open_fds s !! j).

(** Closing [i], or not, and then sweeping from [i + 1] on. *)
Lemma swept_step i now s s1 s' :
  0 ≤ i ≤ MAX_FD → swept_from (i + 1) now s1 s' →
  (∀ j, 0 ≤ j → get_tm j s1 = if bool_decide (j = i) && overdue s now j then 0 else get_tm j s) →
  (∀ j, open_fds s1 !! j = if bool_decide (j = i) && overdue s now j then None else open_fds s !! j) →
  swept_from i now s s'.
Proof.
  intros Hi [Ht Ho] Ht1 Ho1.
  assert (∀ j, i + 1 ≤ j → overdue s1 now j = overdue s now j) as Hov.
  { intros j Hj. unfold overdue. rewrite Ht1, (bool_decide_false (j = i)) by lia. done. }
  split; intros j.
  - intros Hj. rewrite Ht, Ht1 by done. destruct (decide (j = i)) as [->|].
    + rewrite (bool_decide_false (i + 1 ≤ i)), (bool_decide_true (i ≤ i)), bool_decide_true by lia. done.
    + rewrite (bool_decide_false (j = i)) by done. simpl.
      destruct (decide (i + 1 ≤ j)); [rewrite !bool_decide_true, Hov by lia|rewrite !bool_decide_false by lia]; done.
  - rewrite Ho, Ho1. destruct (decide (j = i)) as [->|].
    + rewrite (bool_decide_false (i + 1 ≤ i)), (bool_decide_true (i ≤ i)), bool_decide_true by lia. done.
    + rewrite (bool_decide_false (j = i)) by done. simpl.
      destruct (decide (i + 1 ≤ j)); [rewrite !bool_decide_true, Hov by lia|rewrite !bool_decide_false by lia]; done.
Qed.

Lemma run_handle k n s s1 : handler_step k s = Some s1 → run (replicate (S n) (AHandle k)) s = run (replicate n (AHandle k)) s1.
Proof. intros Hs. simpl. by rewrite Hs. Qed.

Lemma sweep_loop k now d : ∀ s i,
  i = MAX_FD + 1 - Z.of_nat d → 0 ≤ i → Inv s → handlers s !! k = Some (HLoop i now) →
  ∃ n s', (n ≤ 2 * d + 1)%nat ∧ run (replicate n (AHandle k)) s = Some s' ∧
          handlers s' !! k = Some (HUnlock now) ∧ swept_from i now s s'.
Proof.
  induction d as [|d IH]; intros s i -> Hi HI Hk.
  - exists 1%nat. eexists. split; [lia|]. split; [|split].
    + simpl. unfold handler_step. rewrite Hk, bool_decide_false by lia. done.
    + simpl. by rewrite lookup_insert_eq.
    + split; intros j; intros; (destruct (overdue s now j) eqn:Hov; [|by rewrite andb_false_r]);
        apply bool_decide_eq_true in Hov as (? & _); by rewrite bool_decide_false by lia.
  - set (i := MAX_FD + 1 - Z.of_nat (S d)) in *. assert (i ≤ MAX_FD) as Hmax by lia.
    destruct (overdue s now i) eqn:Hov.
    + apply bool_decide_eq_true in Hov as (_ & Ht & Hage).
      destruct (overdue_open s k i now) as (b & Hb & _); [done|done|lia|lia|].
      set (s1 := set_handler k (HZero i now) (add_swept b now (set_open (delete i (open_fds s)) s))).
      assert (handler_step k s = Some s1) as Hs1.
      { unfold handler_step. rewrite Hk, bool_decide_true by done. unfold in_table.
        rewrite !bool_decide_true by lia. simpl. by rewrite Hb. }
      assert (Inv s1) as HI1 by by eapply handler_step_inv.
      set (s2 := set_handler k (HLoop (i + 1) now) (put_tm i 0 s1)).
      assert (handler_step k s1 = Some s2) as Hs2.
      { unfold handler_step. simpl. by rewrite lookup_insert_eq. }
      destruct (IH s2 (i + 1)) as (n & s' & Hn & Hrun & Hk' & Hsw); [lia|lia|by eapply handler_step_inv| |].
      { simpl. by rewrite lookup_insert_eq. }
      exists (S (S n)), s'. split; [lia|]. split; [by rewrite (run_handle _ _ _ s1), (run_handle _ _ _ s2)|]. split; [done|].
      eapply swept_step; [lia|done| |].
      * intros j Hj. change (get_tm j s2) with (get_tm j (put_tm i 0 s1)). rewrite get_put_tm by (done || lia || apply HI1).
        destruct (decide (j = i)) as [->|]; [|by rewrite bool_decide_false].
        unfold overdue. by rewrite !bool_decide_true by (done || lia).
      * intros j. assert (open_fds s2 = delete i (open_fds s)) as ->.
        { unfold s2, put_tm, in_table. rewrite bool_decide_true by lia. done. }
        destruct (decide (j = i)) as [->|Hne].
        -- rewrite lookup_delete_eq. unfold overdue. by rewrite !bool_decide_true by (done || lia).
        -- rewrite lookup_delete_ne by done. by rewrite bool_decide_false.
    + set (s1 := set_handler k (HLoop (i + 1) now) s).
      assert (handler_step k s = Some s1) as Hs1.
      { unfold handler_step. rewrite Hk, bool_decide_true by done. unfold in_table. rewrite bool_decide_true by lia. simpl.
        apply bool_decide_eq_false in Hov. case_bool_decide; simpl; [|done]. case_bool_decide; [|done]. destruct Hov. lia. }
      destruct (IH s1 (i + 1)) as (n & s' & Hn & Hrun & Hk' & Hsw); [lia|lia|by eapply handler_step_inv| |].
      { simpl. by rewrite lookup_insert_eq. }
      exists (S n), s'. split; [lia|]. split; [by rewrite (run_handle _ _ _ s1)|]. split; [done|].
      eapply swept_step; [lia|done| |]; intros j; intros; (destruct (decide (j = i)) as [->|];
        [by rewrite Hov, andb_false_r|by rewrite bool_decide_false]).
Qed.

Lemma run_app acts acts' s : run (acts ++ acts') s = run acts s ≫= run acts'.
Proof.
  revert s. induction acts as [|a acts IH]; intros s; simpl; [done|].
  destruct (exec a s); simpl; [apply IH|done].
Qed.

Lemma sweep_run k now s :
  Inv s → handlers s !! k = Some (HLock now) → mtx s = None →
  ∃ n s', (n ≤ 2053)%nat ∧ run (replicate n (AHandle k)) s = Some s' ∧
          handlers s' !! k = Some HDone ∧ mtx s' = None ∧ swept_from 0 now s s'.
Proof.
  intros HI Hk Hm. set (s1 := set_handler k (HLoop 0 now) (set_mtx (Some (THandler k)) s)).
  assert (handler_step k s = Some s1) as Hs1 by (unfold handler_step, lock; by rewrite Hk, Hm).
  destruct (sweep_loop k now (Z.to_nat (MAX_FD + 1)) s1 0) as (n & s2 & Hn & Hrun & Hk2 & Hsw);
    [done|done|by eapply handler_step_inv|simpl; by rewrite lookup_insert_eq|].
  exists (S n + 1)%nat, (set_handler k HDone (unlock s2)). split; [unfold MAX_FD in Hn; lia|]. split_and!.
  - rewrite replicate_add, run_app, (run_handle _ _ _ s1), Hrun by done. simpl. unfold handler_step. by rewrite Hk2.
  - simpl. by rewrite lookup_insert_eq.
  - done.
  - exact Hsw.
Qed.
