(* ===== verification/Echo.v ===== *)
(** * The libevent echo server

    src/network/libevent/echo_server.c.  libevent is outside the repository: the
    class [Libevent] has the functions the program calls on a library state
    [lib], and [LibeventOk] what its manual says of the two buffers of a
    bufferevent.  The state of the program is [lib] and what was printed. *)

From Stdlib Require Import Ascii String.
From stdpp Require Import numbers list.
From S2P Require Import Prelude StdText.

Local Open Scope Z_scope.

Definition LISTEN_PORT : Z := 9999.
Definition LISTEN_BACKLOG : Z := 32.
Definition MAX_LINE : Z := 256.
Definition FD_SETSIZE : Z := 1024.

Definition EV_READ : Z := 2.
Definition EV_WRITE : Z := 4.
Definition EV_PERSIST : Z := 16.
Definition BEV_EVENT_EOF : Z := 16.
Definition BEV_EVENT_ERROR : Z := 32.
Definition BEV_EVENT_TIMEOUT : Z := 64.
Definition BEV_OPT_CLOSE_ON_FREE : Z := 1.

Class Libevent := {
  lib : Type;
  bufferevent_socket_new : Z → Z → lib → Z * lib;      (** null when it fails *)
  bufferevent_setcb : Z → lib → lib;
  bufferevent_enable : Z → Z → lib → lib;
  bufferevent_getfd : Z → lib → Z;
  bufferevent_read : Z → Z → lib → Z * chars * lib;
  bufferevent_write : Z → chars → lib → lib;
  bufferevent_free : Z → lib → lib;
}.

Section echo.
Context `{LE : !Libevent}.

Record prog := Prog { p_lib : lib; p_out : chars }.

Definition with_lib {A} (f : lib → A * lib) : cmd prog A :=
  λ s, let '(a, l) := f (p_lib s) in Done (a, Prog l (p_out s)).

Definition printf (t : chars) : cmd prog () := λ s, Done ((), Prog (p_lib s) (p_out s ++ t)).

(** do_accept; [fd] is what accept returned.  The result tells whether a bufferevent was made;
    messages of perror are not part of the output. *)
Definition do_accept (fd : Z) : cmd prog bool :=
  if bool_decide (fd < 0) then mret false
  else if bool_decide (fd > FD_SETSIZE) then mret false
  else
    printf (text "ACCEPT: fd = " ++ print_int fd ++ [LF]);;
    bev ← with_lib (bufferevent_socket_new fd BEV_OPT_CLOSE_ON_FREE);
    if bool_decide (bev = NULL) then fault
    else
      with_lib (λ l, ((), bufferevent_setcb bev l));;
      with_lib (λ l, ((), bufferevent_enable bev (Z.lor EV_READ (Z.lor EV_WRITE EV_PERSIST)) l));;
      mret true.

(** One turn of the loop of read_cb: [line] is the array of MAX_LINE + 1 characters. *)
Definition read_cb_body (bev fd : Z) (_ : ()) : cmd prog (() + ()) :=
  '(n, data) ← with_lib (bufferevent_read bev MAX_LINE);
  if bool_decide (n > 0) then
    if bool_decide (n <= MAX_LINE) then
      line ← of_option (c_string (data ++ [NUL]));
      printf (text "fd=" ++ print_int fd ++ text ", read line: " ++ line ++ [LF]);;
      with_lib (λ l, ((), bufferevent_write bev data l));;
      mret (inl ())
    else fault
  else mret (inr ()).

Definition read_cb (fuel : nat) (bev : Z) : cmd prog () :=
  fd ← with_lib (λ l, (bufferevent_getfd bev l, l));
  loop fuel (read_cb_body bev fd) ().

Definition write_cb (bev : Z) : cmd prog () := mret ().

Definition error_text (event : Z) : chars :=
  if bool_decide (Z.land event BEV_EVENT_TIMEOUT ≠ 0) then text "Timed out" ++ [LF]
  else if bool_decide (Z.land event BEV_EVENT_EOF ≠ 0) then text "connection closed" ++ [LF]
  else if bool_decide (Z.land event BEV_EVENT_ERROR ≠ 0) then text "some other error" ++ [LF]
  else [].

Definition error_cb (bev event : Z) : cmd prog () :=
  fd ← with_lib (λ l, (bufferevent_getfd bev l, l));
  printf (text "fd = " ++ print_int fd ++ text ", ");;
  printf (error_text event);;
  with_lib (λ l, ((), bufferevent_free bev l)).

(** main up to the dispatch loop: exit code, or the listener that is handed to libevent. *)
Definition echo_main (listener bind listen : Z) : chars * (Z + Z) :=
  if bool_decide (bind < 0) then ([], inr 1)
  else if bool_decide (listen < 0) then ([], inr 1)
  else (text "Listening..." ++ [LF], inl listener).

(** ** What libevent documents of a bufferevent's buffers *)

Class LibeventOk := {
  input : Z → lib → chars;
  output : Z → lib → chars;
  read_ok : ∀ bev size l, 0 ≤ size →
    ∃ l', bufferevent_read bev size l =
          (Z.of_nat (length (take (Z.to_nat size) (input bev l))), take (Z.to_nat size) (input bev l), l') ∧
          input bev l' = drop (Z.to_nat size) (input bev l) ∧ output bev l' = output bev l ∧
          bufferevent_getfd bev l' = bufferevent_getfd bev l;
  write_ok : ∀ bev data l,
    input bev (bufferevent_write bev data l) = input bev l ∧
    output bev (bufferevent_write bev data l) = output bev l ++ data ∧
    bufferevent_getfd bev (bufferevent_write bev data l) = bufferevent_getfd bev l;
}.

Context `{!LibeventOk}.

(** Pieces of at most MAX_LINE bytes, and the lines printed for them. *)
Fixpoint pieces_of (fuel : nat) (l : chars) : list chars :=
  match fuel, l with
  | S fuel, _ :: _ => take (Z.to_nat MAX_LINE) l :: pieces_of fuel (drop (Z.to_nat MAX_LINE) l)
  | _, _ => []
  end.

Definition piece_line (fd : Z) (p : chars) : chars :=
  text "fd=" ++ print_int fd ++ text ", read line: " ++ before_nul p ++ [LF].

Lemma pieces_of_concat fuel l : (length l ≤ fuel)%nat → concat (pieces_of fuel l) = l.
Proof.
  revert l. induction fuel as [|fuel IH]; intros [|c l] Hl; try done; [simpl in Hl; lia|].
  cbn [pieces_of concat]. rewrite IH; [by rewrite take_drop|].
  rewrite length_drop. change (Z.to_nat MAX_LINE) with 256%nat. simpl in *. lia.
Qed.

Lemma pieces_of_short fuel l : Forall (λ p, Z.of_nat (length p) ≤ MAX_LINE) (pieces_of fuel l).
Proof.
  revert l. induction fuel as [|fuel IH]; intros [|c l]; try by constructor. cbn [pieces_of]. constructor; [|apply IH].
  rewrite length_take. unfold MAX_LINE. lia.
Qed.

Lemma echo_loop_spec bev fd fuel : ∀ s,
  (length (input bev (p_lib s)) < fuel)%nat →
  wp (loop fuel (read_cb_body bev fd) ()) (λ _ s',
    input bev (p_lib s') = [] ∧ output bev (p_lib s') = output bev (p_lib s) ++ input bev (p_lib s) ∧
    p_out s' = p_out s ++ concat (map (piece_line fd) (pieces_of fuel (input bev (p_lib s))))) s.
Proof.
  induction fuel as [|fuel IH]; intros s Hlen; [lia|]. apply wp_loop. unfold read_cb_body. apply wp_bind.
  destruct (read_ok bev MAX_LINE (p_lib s)) as (l' & Hread & Hin & Hout & _); [done|].
  eapply wp_done; [unfold with_lib; by rewrite Hread|]. cbv beta iota.
  set (p := take (Z.to_nat MAX_LINE) (input bev (p_lib s))) in *.
  assert (length p ≤ 256)%nat as Hp by (unfold p; rewrite length_take; change (Z.to_nat MAX_LINE) with 256%nat; lia).
  destruct (input bev (p_lib s)) as [|c l] eqn:Hinp.
  - assert (p = []) as -> by done. rewrite bool_decide_false by done. apply wp_ret, wp_ret. simpl.
    rewrite Hin, Hout, !app_nil_r. done.
  - assert (0 < length p)%nat by (unfold p; simpl; lia).
    rewrite bool_decide_true, bool_decide_true by (unfold MAX_LINE; lia).
    rewrite c_string_terminated. apply wp_bind, wp_ret, wp_bind. eapply wp_done; [done|].
    apply wp_bind. eapply wp_done; [done|]. apply wp_ret. cbn [p_lib p_out].
    destruct (write_ok bev p l') as (Hw1 & Hw2 & _).
    eapply wp_mono.
    + apply IH. cbn [p_lib]. rewrite Hw1, Hin, length_drop. change (Z.to_nat MAX_LINE) with 256%nat. simpl in *. lia.
    + intros _ s' (? & Ho & Hpr). cbn [p_lib p_out] in Ho, Hpr. split; [done|]. split.
      * rewrite Ho, Hw1, Hw2, Hin, Hout, <-app_assoc. unfold p. by rewrite take_drop.
      * rewrite Hpr, Hw1, Hin.
        change (pieces_of (S fuel) (c :: l)) with (p :: pieces_of fuel (drop (Z.to_nat MAX_LINE) (c :: l))).
        cbn [map concat]. by rewrite <-(app_assoc (p_out s)).
Qed.

End echo.
