(* ===== verification/Sock.v ===== *)
(** * Socket programs

    src/network/udp, src/network/unixsock and src/network/tcp/inet_client.c as
    interaction trees: a program is a tree of system calls ([sysE]) whose
    continuations depend on the answers; the servers' and the client's endless
    loops are [ITree.iter].

    An array on the stack is a list of characters; what it holds before it is
    written is an argument of the program.  Reading a C string that has no
    terminator in its array, or writing behind its end, is the event
    [Undefined]. *)

From Stdlib Require Import Ascii String ZArith List Bool.
From ITree Require Import ITree.
From S2P Require Import Prelude StdText.

Import ListNotations ITreeNotations.
Local Open Scope itree_scope.
Local Open Scope Z_scope.

(** ** System calls *)

Variant sysE : Type -> Type :=
| Socket : sysE Z
| Bind (fd : Z) : sysE Z
| Listen (fd : Z) : sysE Z
| Accept (fd : Z) : sysE (Z * chars)          (** descriptor and what is stored of the peer's path *)
| Connect (fd : Z) : sysE Z
| Fork : sysE Z
| Getpid : sysE Z
| Recv (fd size : Z) : sysE (Z * chars)       (** result and the bytes stored *)
| RecvFrom (fd size : Z) : sysE (Z * chars * chars)   (** and the sender *)
| Send (fd : Z) (data : chars) : sysE Z
| Close (fd : Z) : sysE Z
| Fgets (size : Z) : sysE (chars * bool)      (** what was read, and feof *)
| Print (s : chars) : sysE unit
| Perror (s : string) : sysE unit
| Strerror : sysE chars
| Sleep : sysE unit
| Unlink : sysE unit
| InetAton : sysE Z
| Exit (code : Z) : sysE void
| Undefined : sysE void.

Abbreviation prog := (itree sysE).

Definition exit {A} (code : Z) : prog A := v <- ITree.trigger (Exit code) ;; match v : void with end.
Definition undefined {A} : prog A := v <- ITree.trigger Undefined ;; match v : void with end.
Definition sys {A} (e : sysE A) : prog A := ITree.trigger e.

(** Text with a line end. *)
Definition ln (s : chars) : chars := s ++ [LF].

(** The bytes [data] written to the front of an array. *)
Definition write_front (data buf : chars) : chars := data ++ skipn (length data) buf.

(** [buf[i] = 0] *)
Definition terminate (i : Z) (buf : chars) : option chars :=
  if (0 <=? i) && (i <? Z.of_nat (length buf)) then
    Some (firstn (Z.to_nat i) buf ++ NUL :: skipn (S (Z.to_nat i)) buf)
  else None.

Definition or_undefined {A} (o : option A) : prog A := match o with Some a => Ret a | None => undefined end.

(** ** udp_client.c *)

Definition BUFLEN : Z := 512.
Definition NPACK : nat := 10.

Definition diep {A} (s : string) : prog A := sys (Perror s) ;; exit 1.

Definition packet (i : nat) : chars := text "This is packet " ++ print_int (Z.of_nat i) ++ [LF].

(** The loop body for packet [i]; sprintf writes the text and a terminator. *)
Definition udp_send (s : Z) (i : nat) (buf : chars) : prog chars :=
  sys (Print (ln (text "Sending packet " ++ print_int (Z.of_nat i)))) ;;
  let buf := write_front (packet i ++ [NUL]) buf in
  r <- sys (Send s buf) ;;
  if r =? -1 then diep "sendto()" else Ret buf.

Definition udp_client (buf : chars) : prog Z :=
  s <- sys Socket ;;
  if s =? -1 then diep "socket"
  else
    a <- sys InetAton ;;
    if a =? 0 then sys (Perror "inet_aton() failed") ;; exit 1
    else
      ITree.iter (fun '(i, buf) =>
        if (i <? NPACK)%nat then buf <- udp_send s i buf ;; Ret (inl (S i, buf)) else Ret (inr tt)) (O, buf) ;;
      sys (Close s) ;;
      Ret 0.

(** ** udp_server.c *)

Definition udp_receive (s : Z) (buf : chars) : prog chars :=
  '(r, data, from) <- sys (RecvFrom s BUFLEN) ;;
  if r =? -1 then diep "recvfrom()"
  else
    let buf := write_front data buf in
    str <- or_undefined (c_string buf) ;;
    sys (Print (ln (text "Received packet from " ++ from) ++ ln (text "Data: " ++ str) ++ [LF])) ;;
    Ret buf.

Definition udp_server (buf : chars) : prog Z :=
  s <- sys Socket ;;
  if s =? -1 then diep "socket"
  else
    b <- sys (Bind s) ;;
    if b =? -1 then diep "bind"
    else
      ITree.iter (fun '(i, buf) =>
        if (i <? NPACK)%nat then buf <- udp_receive s buf ;; Ret (inl (S i, buf)) else Ret (inr tt)) (O, buf) ;;
      sys (Close s) ;;
      Ret 0.

(** ** unixsock_server.c *)

(** One turn of the child's loop: again with the array, or done. *)
Definition serve_turn (s2 : Z) (str : chars) : prog (chars + unit) :=
  '(n, data) <- sys (Recv s2 100) ;;
  let str := write_front data str in
  (if n <? 0 then sys (Perror "recv") else Ret tt) ;;
  let done := n <=? 0 in
  pid <- sys Getpid ;;
  t <- or_undefined (c_string str) ;;
  sys (Print (ln (text "[" ++ print_int pid ++ text "][" ++ t ++ text "]"))) ;;
  if done then Ret (inr tt)
  else
    r <- sys (Send s2 (firstn (Z.to_nat n) str)) ;;
    if r <? 0 then sys (Perror "send") ;; Ret (inr tt) else Ret (inl str).

Definition serve_child {A} (s2 : Z) (str : chars) : prog A :=
  ITree.iter (serve_turn s2) str ;;
  sys (Close s2) ;;
  exit 0.

(** [sun_path] is the array of that name in [remote], which the parent keeps from one
    connection to the next. *)
Definition unix_server (str sun_path : chars) : prog void :=
  s <- sys Socket ;;
  if s =? -1 then sys (Perror "socket") ;; exit 1
  else
    sys Unlink ;;
    b <- sys (Bind s) ;;
    if b =? -1 then sys (Perror "bind") ;; exit 1
    else
      l <- sys (Listen s) ;;
      if l =? -1 then sys (Perror "listen") ;; exit 1
      else
        ITree.iter (fun sun_path : chars =>
          sys (Print (ln (text "Waiting for a connection..."))) ;;
          '(s2, stored) <- sys (Accept s) ;;
          if s2 =? -1 then sys (Perror "accept") ;; exit 1
          else
            let sun_path := write_front stored sun_path in
            pid <- sys Fork ;;
            if pid <? 0 then sys (Perror "fork") ;; exit 1
            else if pid =? 0 then
              path <- or_undefined (c_string sun_path) ;;
              sys (Print (ln (text "accept: " ++ print_int s2 ++ text ", path: " ++ path))) ;;
              serve_child s2 str
            else Ret (inl sun_path)) sun_path.

(** ** unixsock_client.c *)

(** [str[strcspn(str, "\n")] = 0]: cut at the line end. *)
Definition cut_line (t : chars) : chars := fst (span (fun c => negb (Ascii.eqb c LF)) t).

(** One turn of the loop; [None] for a turn after which the loop ends. *)
Definition client_turn (s : Z) (str : chars) : prog (chars + unit) :=
  sys (Print (text "> ")) ;;
  '(line, eof) <- sys (Fgets 100) ;;
  let str := match line with [] => str | _ => write_front (line ++ [NUL]) str end in
  if (eof : bool) then Ret (inr tt)
  else
    t <- or_undefined (c_string str) ;;
    let str := write_front (cut_line t ++ [NUL]) str in
    t <- or_undefined (c_string str) ;;
    r <- sys (Send s t) ;;
    if r =? -1 then sys (Perror "send") ;; exit 1
    else
      '(n, data) <- sys (Recv s 100) ;;
      let str := write_front data str in
      if 0 <? n then
        str <- or_undefined (terminate n str) ;;
        t <- or_undefined (c_string str) ;;
        sys (Print (ln (text "echo> " ++ t))) ;;
        Ret (inl str)
      else
        (if n <? 0 then sys (Perror "recv") else sys (Print (ln (text "Server closed connection")))) ;;
        exit 1.

Definition unix_client (str : chars) : prog Z :=
  s <- sys Socket ;;
  if s =? -1 then sys (Perror "socket") ;; exit 1
  else
    sys (Print (ln (text "Trying to connect..."))) ;;
    c <- sys (Connect s) ;;
    if c =? -1 then sys (Perror "connect") ;; exit 1
    else
      sys (Print (ln (text "Connected."))) ;;
      ITree.iter (client_turn s) str ;;
      sys (Close s) ;;
      Ret 0.

(** ** inet_client.c *)

Definition MSG_TO_SVR : chars := text "hey! wifidog".

(** The message: snprintf to 32 bytes cuts the text at 31. *)
Definition message (arg : option chars) : chars :=
  match arg with
  | Some a => firstn 31 (MSG_TO_SVR ++ text " (" ++ a ++ text ")")
  | None => MSG_TO_SVR
  end.

(** From the label [restart] to the next jump to it. *)
Definition restart_body (msg : chars) (_ : unit) : prog (unit + void) :=
  sock_fd <- sys Socket ;;
  c <- sys (Connect sock_fd) ;;
  if c <? 0 then
    err <- sys Strerror ;;
    sys (Print (ln (text "failt to connect to server: " ++ err))) ;;
    sys Sleep ;;
    Ret (inl tt)
  else
    sys Sleep ;;
    r <- sys (Send sock_fd msg) ;;
    (if r <? 0 then err <- sys Strerror ;; sys (Print (ln (text "send msg error: " ++ err))) else Ret tt) ;;
    sys Sleep ;;
    sys (Print (ln (text "close " ++ print_int sock_fd))) ;;
    sys (Close sock_fd) ;;
    Ret (inl tt).

Definition inet_client (arg : option chars) : prog void := ITree.iter (restart_body (message arg)) tt.
