(* ===== verification/SockSpec.v ===== *)
(** * Running the socket programs

    [run] executes a program against a scripted system [net]: the lists say what
    the coming calls of each kind return (with a default when they are used up),
    so a statement for every [net] covers everything the system can do; sent
    data, open descriptors and printed text are recorded.  [runs] is that some
    fuel suffices. *)

From Stdlib Require Import Ascii String.
From stdpp Require Import numbers list.
From ITree Require Import ITree.
From S2P Require Import Prelude StdText Sock.

Local Open Scope Z_scope.

Record net := Net {
  n_next : Z;                       (** the next descriptor *)
  n_open : list Z;
  n_connect : list bool;            (** whether the coming connects succeed *)
  n_recv : list (Z * chars);
  n_from : list (Z * chars * chars);
  n_lines : list (chars * bool);
  n_sent : list chars;
  n_out : chars; }.

Definition print_to (s : chars) (w : net) : net :=
  Net (n_next w) (n_open w) (n_connect w) (n_recv w) (n_from w) (n_lines w) (n_sent w) (n_out w ++ s).
Definition send_to (s : chars) (w : net) : net :=
  Net (n_next w) (n_open w) (n_connect w) (n_recv w) (n_from w) (n_lines w) (n_sent w ++ [s]) (n_out w).
Definition set_recv (l : list (Z * chars)) (w : net) : net :=
  Net (n_next w) (n_open w) (n_connect w) l (n_from w) (n_lines w) (n_sent w) (n_out w).
Definition set_from (l : list (Z * chars * chars)) (w : net) : net :=
  Net (n_next w) (n_open w) (n_connect w) (n_recv w) l (n_lines w) (n_sent w) (n_out w).
Definition set_lines (l : list (chars * bool)) (w : net) : net :=
  Net (n_next w) (n_open w) (n_connect w) (n_recv w) (n_from w) l (n_sent w) (n_out w).
Definition set_connect (l : list bool) (w : net) : net :=
  Net (n_next w) (n_open w) l (n_recv w) (n_from w) (n_lines w) (n_sent w) (n_out w).
Definition open_fd (w : net) : net :=
  Net (n_next w + 1) (n_next w :: n_open w) (n_connect w) (n_recv w) (n_from w) (n_lines w) (n_sent w) (n_out w).
Definition close_fd (fd : Z) (w : net) : net :=
  Net (n_next w) (filter (λ x, x ≠ fd) (n_open w)) (n_connect w) (n_recv w) (n_from w) (n_lines w) (n_sent w) (n_out w).

(** The answer to a call, or the end of the program. *)
Inductive reply (A : Type) := Reply (a : A) (w : net) | Stop (code : Z) | Crash.
Arguments Reply {A} a w.
Arguments Stop {A} code.
Arguments Crash {A}.

Definition answer {A} (c : sysE A) (w : net) : reply A :=
  match c in sysE A return reply A with
  | Socket => Reply (n_next w) (open_fd w)
  | Bind _ => Reply 0 w
  | Listen _ => Reply 0 w
  | Accept _ => Reply (n_next w, []) (open_fd w)
  | Connect _ =>
      match n_connect w with
      | b :: l => Reply (if b then 0 else -1) (set_connect l w)
      | [] => Reply 0 w
      end
  | Fork => Reply 0 w
  | Getpid => Reply 1 w
  | Recv _ _ => match n_recv w with r :: l => Reply r (set_recv l w) | [] => Reply (0, []) w end
  | RecvFrom _ _ => match n_from w with r :: l => Reply r (set_from l w) | [] => Reply (-1, [], []) w end
  | Send _ data => Reply (Z.of_nat (length data)) (send_to data w)
  | Close fd => Reply 0 (close_fd fd w)
  | Fgets _ => match n_lines w with r :: l => Reply r (set_lines l w) | [] => Reply ([], true) w end
  | Print s => Reply tt (print_to s w)
  | Perror _ => Reply tt w
  | Strerror => Reply [] w
  | Sleep => Reply tt w
  | Unlink => Reply tt w
  | InetAton => Reply 1 w
  | Exit code => Stop code
  | Undefined => Crash
  end.

#[global] Arguments answer : simpl never.

Inductive ending (R : Type) := Returned (r : R) | Exited (code : Z) | Crashed.
Arguments Returned {R} r.
Arguments Exited {R} code.
Arguments Crashed {R}.

Fixpoint run {R} (fuel : nat) (t : prog R) (w : net) : option (ending R * net) :=
  match fuel with
  | O => None
  | S fuel =>
      match observe t with
      | RetF r => Some (Returned r, w)
      | TauF u => run fuel u w
      | VisF c k =>
          match answer c w with
          | Reply a w' => run fuel (k a) w'
          | Stop code => Some (Exited code, w)
          | Crash => Some (Crashed, w)
          end
      end
  end.

Definition runs {R} (t : prog R) (w : net) (e : ending R) (w' : net) : Prop := ∃ fuel, run fuel t w = Some (e, w').

Lemma run_more {R} n m (t : prog R) w r : run n t w = Some r → (n ≤ m)%nat → run m t w = Some r.
Proof.
  revert m t w. induction n as [|n IH]; intros [|m] t w Hr Hm; try done; [lia|]. simpl in *.
  destruct (observe t) as [x|u|A c k]; [done|apply IH; [done|lia]|].
  destruct (answer c w); [apply IH; [done|lia]|done|done].
Qed.

(** A script has one run. *)
Lemma runs_det {R} (t : prog R) w e1 w1 e2 w2 : runs t w e1 w1 → runs t w e2 w2 → e1 = e2 ∧ w1 = w2.
Proof.
  intros [n Hn] [m Hm]. apply (run_more _ (n + m)) in Hn; [|lia]. apply (run_more _ (n + m)) in Hm; [|lia]. naive_solver.
Qed.

Lemma runs_ret {R} (r : R) w : runs (Ret r) w (Returned r) w.
Proof. by exists 1%nat. Qed.

Lemma runs_tau {R} (t : prog R) w e w' : runs t w e w' → runs (Tau t) w e w'.
Proof. intros [n Hn]. by exists (S n). Qed.

Lemma runs_sys {A} (c : sysE A) w a w' : answer c w = Reply a w' → runs (sys c) w (Returned a) w'.
Proof. intros Ha. exists 2%nat. simpl. by rewrite Ha. Qed.

Lemma runs_bind {A B} (t : prog A) (k : A → prog B) w a w1 e w' :
  runs t w (Returned a) w1 → runs (k a) w1 e w' → runs (ITree.bind t k) w e w'.
Proof.
  intros [n Hn] Hk. revert t w Hn. induction n as [|n IH]; intros t w Hn; [done|]. simpl in Hn.
  destruct (observe t) as [r|u|X c kk] eqn:Ht.
  - simplify_eq. destruct Hk as [m Hm]. exists m. destruct m as [|m]; [done|]. simpl in Hm |- *. by rewrite Ht.
  - destruct (IH u w Hn) as [m Hm]. exists (S m). simpl. by rewrite Ht.
  - destruct (answer c w) as [x w2|code|] eqn:Hc; try done.
    destruct (IH (kk x) w2 Hn) as [m Hm]. exists (S m). simpl. rewrite Ht. simpl. by rewrite Hc.
Qed.

(** A program that ends inside [t] ends. *)
Definition cast_end {A B} (e : ending A) : option (ending B) :=
  match e with Returned _ => None | Exited c => Some (Exited c) | Crashed => Some Crashed end.

Lemma runs_bind_end {A B} (t : prog A) (k : A → prog B) w e e' w1 :
  runs t w e w1 → cast_end e = Some e' → runs (ITree.bind t k) w e' w1.
Proof.
  intros [n Hn] He. revert t w Hn. induction n as [|n IH]; intros t w Hn; [done|]. simpl in Hn.
  destruct (observe t) as [r|u|X c kk] eqn:Ht.
  - by simplify_eq.
  - destruct (IH u w Hn) as [m Hm]. exists (S m). simpl. by rewrite Ht.
  - destruct (answer c w) as [x w2|code|] eqn:Hc.
    + destruct (IH (kk x) w2 Hn) as [m Hm]. exists (S m). simpl. rewrite Ht. simpl. by rewrite Hc.
    + exists 1%nat. simpl. rewrite Ht. simpl. rewrite Hc. by simplify_eq/=.
    + exists 1%nat. simpl. rewrite Ht. simpl. rewrite Hc. by simplify_eq/=.
Qed.

Lemma runs_same {R} (t u : prog R) w e w' : observe t = observe u → runs u w e w' → runs t w e w'.
Proof. intros Ho [[|n] Hn]; [done|]. exists (S n). simpl in *. by rewrite Ho. Qed.

Definition iter_next {I R} (body : I → prog (I + R)) (lr : I + R) : prog R :=
  match lr with inl j => Tau (ITree.iter body j) | inr r => Ret r end.

Lemma runs_iter {I R} (body : I → prog (I + R)) i w j w1 e w' :
  runs (body i) w (Returned (inl j)) w1 → runs (ITree.iter body j) w1 e w' → runs (ITree.iter body i) w e w'.
Proof.
  intros Hb Hi. apply (runs_same _ (ITree.bind (body i) (iter_next body))); [done|].
  eapply runs_bind; [exact Hb|apply runs_tau, Hi].
Qed.

Lemma runs_iter_done {I R} (body : I → prog (I + R)) i w r w' :
  runs (body i) w (Returned (inr r)) w' → runs (ITree.iter body i) w (Returned r) w'.
Proof.
  intros Hb. apply (runs_same _ (ITree.bind (body i) (iter_next body))); [done|].
  eapply runs_bind; [exact Hb|apply runs_ret].
Qed.

Lemma runs_iter_end {I R} (body : I → prog (I + R)) i w e e' w' :
  runs (body i) w e w' → cast_end e = Some e' → runs (ITree.iter body i) w e' w'.
Proof.
  intros Hb He. apply (runs_same _ (ITree.bind (body i) (iter_next body))); [done|]. by eapply runs_bind_end.
Qed.

Lemma runs_exit {A} code w : runs (exit (A := A) code) w (Exited code) w.
Proof. by exists 1%nat. Qed.

Lemma runs_undefined {A} w : runs (undefined (A := A)) w Crashed w.
Proof. by exists 1%nat. Qed.

(** One call, then the rest. *)
Lemma runs_call {A B} (c : sysE A) (k : A → prog B) w a w1 e w' :
  answer c w = Reply a w1 → runs (k a) w1 e w' → runs (ITree.bind (sys c) k) w e w'.
Proof. intros Ha. eapply runs_bind. by apply runs_sys. Qed.

(** Runs one call of the program, or the end of it. *)
Ltac call := eapply runs_call; [reflexivity|].

(** ** Arrays *)

Lemma c_string_app s rest : NUL ∉ s → c_string (s ++ NUL :: rest) = Some s.
Proof.
  intros Hs. unfold c_string. rewrite span_intro; [done| |done].
  apply Forall_forall. intros c Hc. rewrite bool_decide_false; [done|]. by intros ->.
Qed.

Lemma write_front_length data buf : (length data ≤ length buf)%nat → length (write_front data buf) = length buf.
Proof. intros Hl. unfold write_front. rewrite length_app, length_skipn. lia. Qed.

Lemma c_string_front s buf : NUL ∉ s → c_string (write_front (s ++ [NUL]) buf) = Some s.
Proof. intros Hs. unfold write_front. rewrite <-app_assoc. by apply c_string_app. Qed.

(** Some string is in an array whose last element is a terminator. *)
Lemma c_string_last buf : last buf = Some NUL → is_Some (c_string buf).
Proof.
  intros (l & ->)%last_Some. rewrite c_string_terminated. eauto.
Qed.

Lemma write_front_last data buf : (length data < length buf)%nat → last (write_front data buf) = last buf.
Proof.
  intros Hl. unfold write_front. rewrite last_app.
  assert (last (skipn (length data) buf) = last buf) as ->.
  { rewrite !last_lookup. rewrite length_skipn. change (skipn (length data) buf) with (drop (length data) buf).
    rewrite lookup_drop. f_equal. lia. }
  destruct (last buf) eqn:Hb; [done|]. apply last_None in Hb as ->. simpl in Hl. lia.
Qed.

Lemma print_int_no_nul n : 0 ≤ n → NUL ∉ print_int n.
Proof.
  intros Hn Hin. unfold print_int in Hin. rewrite bool_decide_false in Hin by lia.
  destruct (print_nat_spec 10 n) as (_ & Hd & _); [lia..|]. rewrite Forall_forall in Hd. by apply Hd in Hin.
Qed.

Lemma packet_no_nul i : NUL ∉ packet i.
Proof.
  unfold packet. rewrite !elem_of_app. intros [H|[H|H]].
  - by apply (bool_decide_unpack (NUL ∉ text "This is packet ")) in H.
  - by apply print_int_no_nul in H; [|lia].
  - by apply list_elem_of_singleton in H.
Qed.

Lemma packet_length i : (i < NPACK)%nat → length (packet i) = 17%nat.
Proof. unfold NPACK. intros Hi. do 10 (destruct i as [|i]; [done|]). lia. Qed.

(** ** UDP *)

(** What the client sends, from packet [i] on: the text, a terminator, and what the array
    held before. *)
Fixpoint datagrams (i n : nat) (buf : chars) : list chars :=
  match n with
  | O => []
  | S n => let buf := write_front (packet i ++ [NUL]) buf in buf :: datagrams (S i) n buf
  end.

Definition sending (i n : nat) : chars :=
  concat (map (λ i, ln (text "Sending packet " ++ print_int (Z.of_nat i))) (seq i n)).

Definition received (from : chars) (i n : nat) : chars :=
  concat (map (λ i, ln (text "Received packet from " ++ from) ++ ln (text "Data: " ++ packet i) ++ [LF]) (seq i n)).

Definition sent_and_printed (sent : list chars) (out : chars) (w : net) : net :=
  Net (n_next w) (n_open w) (n_connect w) (n_recv w) (n_from w) (n_lines w) (n_sent w ++ sent) (n_out w ++ out).

Lemma sent_and_printed_nil w : sent_and_printed [] [] w = w.
Proof. destruct w. unfold sent_and_printed; simpl. by rewrite !app_nil_r. Qed.

Lemma sent_and_printed_app s1 o1 s2 o2 w :
  sent_and_printed s2 o2 (sent_and_printed s1 o1 w) = sent_and_printed (s1 ++ s2) (o1 ++ o2) w.
Proof. unfold sent_and_printed; simpl. by rewrite <-!app_assoc. Qed.

Definition udp_send_body (s : Z) : nat * chars → prog (nat * chars + unit) := λ '(i, buf),
  if (i <? NPACK)%nat then ITree.bind (udp_send s i buf) (λ buf, Ret (inl (S i, buf))) else Ret (inr tt).

Definition udp_receive_body (s : Z) : nat * chars → prog (nat * chars + unit) := λ '(i, buf),
  if (i <? NPACK)%nat then ITree.bind (udp_receive s buf) (λ buf, Ret (inl (S i, buf))) else Ret (inr tt).

Lemma udp_send_loop s n : ∀ i buf w,
  (i + n = NPACK)%nat → length buf = 512%nat →
  runs (ITree.iter (udp_send_body s) (i, buf)) w (Returned tt) (sent_and_printed (datagrams i n buf) (sending i n) w).
Proof.
  induction n as [|n IH]; intros i buf w Hi Hl.
  - apply runs_iter_done. unfold udp_send_body. assert ((i <? NPACK)%nat = false) as -> by (apply Nat.ltb_ge; lia).
    unfold sending. simpl. rewrite sent_and_printed_nil. apply runs_ret.
  - set (d := write_front (packet i ++ [NUL]) buf).
    assert (length d = 512%nat) as Hd.
    { unfold d. rewrite write_front_length; [done|]. rewrite length_app, packet_length by lia. simpl. lia. }
    apply (runs_iter _ _ _ (S i, d) (sent_and_printed [d] (ln (text "Sending packet " ++ print_int (Z.of_nat i))) w)).
    + unfold udp_send_body. assert ((i <? NPACK)%nat = true) as -> by (apply Nat.ltb_lt; lia).
      eapply runs_bind; [|apply runs_ret]. unfold udp_send. call. call. fold d.
      assert ((Z.of_nat (length d) =? -1) = false) as -> by (apply Z.eqb_neq; lia). apply runs_ret.
    + specialize (IH (S i) d (sent_and_printed [d] (ln (text "Sending packet " ++ print_int (Z.of_nat i))) w)).
      rewrite sent_and_printed_app in IH. apply IH; [lia|done].
Qed.

Lemma udp_client_runs buf w :
  length buf = 512%nat → n_next w ≠ -1 →
  runs (udp_client buf) w (Returned 0)
    (close_fd (n_next w) (sent_and_printed (datagrams 0 NPACK buf) (sending 0 NPACK) (open_fd w))).
Proof.
  intros Hl Hn. unfold udp_client. call. assert ((n_next w =? -1) = false) as -> by by apply Z.eqb_neq.
  call. simpl. eapply runs_bind; [apply (udp_send_loop _ NPACK); done|]. call. apply runs_ret.
Qed.

(** The server, fed with the client's datagrams. *)
Definition arrivals (from : chars) (ds : list chars) : list (Z * chars * chars) :=
  map (λ d, (Z.of_nat (length d), d, from)) ds.

Lemma udp_receive_loop s from n : ∀ i sbuf buf w,
  (i + n = NPACK)%nat → length sbuf = 512%nat → length buf = 512%nat →
  n_from w = arrivals from (datagrams i n sbuf) →
  runs (ITree.iter (udp_receive_body s) (i, buf)) w (Returned tt) (set_from [] (sent_and_printed [] (received from i n) w)).
Proof.
  induction n as [|n IH]; intros i sbuf buf w Hi Hls Hl Hf.
  - apply runs_iter_done. unfold udp_receive_body. assert ((i <? NPACK)%nat = false) as -> by (apply Nat.ltb_ge; lia).
    unfold received. simpl. rewrite sent_and_printed_nil. destruct w; simpl in *; subst. apply runs_ret.
  - set (d := write_front (packet i ++ [NUL]) sbuf).
    assert (length d = 512%nat) as Hd.
    { unfold d. rewrite write_front_length; [done|]. rewrite length_app, packet_length by lia. simpl. lia. }
    set (out := ln (text "Received packet from " ++ from) ++ ln (text "Data: " ++ packet i) ++ [LF]).
    assert (write_front d buf = d) as Hdd.
    { unfold write_front. rewrite skipn_all2 by lia. by rewrite app_nil_r. }
    apply (runs_iter _ _ _ (S i, d) (print_to out (set_from (arrivals from (datagrams (S i) n d)) w))).
    + unfold udp_receive_body. assert ((i <? NPACK)%nat = true) as -> by (apply Nat.ltb_lt; lia).
      eapply runs_bind; [|apply runs_ret]. unfold udp_receive.
      eapply runs_call; [unfold answer; rewrite Hf; reflexivity|]. cbv beta iota. fold d.
      assert ((Z.of_nat (length d) =? -1) = false) as -> by (apply Z.eqb_neq; lia).
      rewrite Hdd. unfold d at 1. rewrite c_string_front by apply packet_no_nul. simpl or_undefined.
      eapply runs_bind; [apply runs_ret|]. call. apply runs_ret.
    + specialize (IH (S i) d d (print_to out (set_from (arrivals from (datagrams (S i) n d)) w))).
      assert (set_from [] (sent_and_printed [] (received from (S i) n) (print_to out (set_from (arrivals from (datagrams (S i) n d)) w)))
              = set_from [] (sent_and_printed [] (received from i (S n)) w)) as Heq.
      { change (received from i (S n)) with (out ++ received from (S i) n).
        unfold set_from, sent_and_printed, print_to. cbn [n_next n_open n_connect n_recv n_from n_lines n_sent n_out].
        by rewrite <-(app_assoc (n_out w)). }
      rewrite Heq in IH. apply IH; [lia|done..].
Qed.

Lemma udp_server_runs sbuf buf from w :
  length sbuf = 512%nat → length buf = 512%nat → n_next w ≠ -1 →
  n_from w = arrivals from (datagrams 0 NPACK sbuf) →
  runs (udp_server buf) w (Returned 0)
    (close_fd (n_next w) (set_from [] (sent_and_printed [] (received from 0 NPACK) (open_fd w)))).
Proof.
  intros Hls Hl Hn Hf. unfold udp_server. call. assert ((n_next w =? -1) = false) as -> by by apply Z.eqb_neq.
  call. simpl. eapply runs_bind; [apply (udp_receive_loop _ from NPACK 0 sbuf); done|]. call. apply runs_ret.
Qed.

(** ** The echo server on a Unix socket *)

(** Results of the recv calls for the messages [ms]. *)
Definition messages (ms : list chars) : list (Z * chars) := map (λ m, (Z.of_nat (length m), m)) ms.

Definition short_message (m : chars) : Prop := (1 ≤ length m ≤ 99)%nat ∧ NUL ∉ m.

(** The length of the longest message: what is behind it in the array stays as it was. *)
Definition longest (ms : list chars) : nat := foldr (λ m k, Nat.max (length m) k) 0%nat ms.

Lemma firstn_front d str : firstn (length d) (write_front d str) = d.
Proof. unfold write_front. by rewrite firstn_app, Nat.sub_diag, firstn_all, firstn_O, app_nil_r. Qed.

Lemma c_string_some str : NUL ∈ str → ∃ t, c_string str = Some t.
Proof.
  intros (a & b & ->)%list_elem_of_split. revert b. induction a as [|c a IH]; intros b; [by eexists|].
  destruct (IH b) as [t Ht]. unfold c_string in *. simpl. case_bool_decide; simpl; [by eexists|].
  destruct (span _ (a ++ NUL :: b)) as [u r]. destruct r; [done|]. by eexists.
Qed.

Lemma c_string_none str : NUL ∉ str → c_string str = None.
Proof.
  intros Hn. unfold c_string. rewrite span_intro_all; [done|].
  apply Forall_forall. intros c Hc. rewrite bool_decide_false; [done|]. by intros ->.
Qed.

(** Where an array has a terminator after a message was stored. *)
Lemma nul_behind d str n :
  NUL ∉ d → NUL ∈ drop n (write_front d str) ↔ NUL ∈ drop (Nat.max (length d) n) str.
Proof.
  intros Hd. unfold write_front. change (@skipn ascii) with (@drop ascii). rewrite drop_app, drop_drop, elem_of_app.
  replace (length d + (n - length d))%nat with (Nat.max (length d) n) by lia.
  split; [|by right]. intros [Hin|?]; [|done]. destruct Hd. eapply elem_of_submseteq; [exact Hin|]. apply sublist_submseteq, sublist_drop.
Qed.

Lemma nul_front d str : NUL ∉ d → NUL ∈ write_front d str ↔ NUL ∈ drop (length d) str.
Proof. intros Hd. pose proof (nul_behind d str 0 Hd) as H. rewrite Nat.max_0_r in H. done. Qed.

Lemma nul_deeper (str : chars) n m : (n ≤ m)%nat → NUL ∈ drop m str → NUL ∈ drop n str.
Proof.
  intros Hn Hin. replace m with (n + (m - n))%nat in Hin by lia. rewrite <-drop_drop in Hin.
  eapply elem_of_submseteq; [exact Hin|]. apply sublist_submseteq, sublist_drop.
Qed.

Definition served_line (t : chars) : chars := ln (text "[" ++ print_int 1 ++ text "][" ++ t ++ text "]").

(** One turn: the message is sent back if printf finds a terminator in the array. *)
Lemma serve_turn_message s2 d ms str w :
  short_message d → n_recv w = messages (d :: ms) → NUL ∈ drop (length d) str →
  ∃ t, runs (serve_turn s2 str) w (Returned (inl (write_front d str))) (sent_and_printed [d] (served_line t) (set_recv (messages ms) w)).
Proof.
  intros [Hd Hnul] Hr Hin. apply (nul_front d str Hnul) in Hin. destruct (c_string_some _ Hin) as [t Ht]. exists t.
  unfold serve_turn. eapply runs_call; [unfold answer; rewrite Hr; reflexivity|]. cbv beta iota.
  assert ((Z.of_nat (length d) <? 0) = false) as -> by (apply Z.ltb_ge; lia).
  assert ((Z.of_nat (length d) <=? 0) = false) as -> by (apply Z.leb_gt; lia).
  eapply runs_bind; [apply runs_ret|]. call. rewrite Ht. eapply runs_bind; [apply runs_ret|]. call. call.
  rewrite Nat2Z.id, firstn_front.
  assert ((Z.of_nat (length d) <? 0) = false) as -> by (apply Z.ltb_ge; lia). apply runs_ret.
Qed.

Lemma serve_turn_crash s2 d ms str w :
  n_recv w = messages (d :: ms) → NUL ∉ write_front d str → runs (serve_turn s2 str) w Crashed (set_recv (messages ms) w).
Proof.
  intros Hr Hno. unfold serve_turn. eapply runs_call; [unfold answer; rewrite Hr; reflexivity|]. cbv beta iota.
  assert ((Z.of_nat (length d) <? 0) = false) as -> by (apply Z.ltb_ge; lia).
  eapply runs_bind; [apply runs_ret|]. call. rewrite c_string_none by done.
  eapply runs_bind_end; [apply runs_undefined|done].
Qed.

(** The turn that sees the end of the connection. *)
Lemma serve_turn_eof s2 str w :
  n_recv w = [] →
  if decide (NUL ∈ str) then ∃ t, runs (serve_turn s2 str) w (Returned (inr tt)) (sent_and_printed [] (served_line t) w)
  else runs (serve_turn s2 str) w Crashed w.
Proof.
  intros Hr. case_decide as Hin; [destruct (c_string_some _ Hin) as [t Ht]; exists t|apply c_string_none in Hin as Ht];
    unfold serve_turn; (eapply runs_call; [unfold answer; rewrite Hr; reflexivity|]); cbv beta iota; simpl;
    (eapply runs_bind; [apply runs_ret|]); call; change (write_front [] str) with str; rewrite Ht.
  - eapply runs_bind; [apply runs_ret|]. call.
    assert (∀ s, print_to s w = sent_and_printed [] s w) as <- by (intros s; destruct w; unfold sent_and_printed; simpl; by rewrite app_nil_r).
    apply runs_ret.
  - eapply runs_bind_end; [apply runs_undefined|done].
Qed.

(** The whole loop, for every array: all messages are sent back if the array has a terminator
    behind the longest of them; if not, the messages before the first turn that leaves
    none are. *)
Lemma serve_loop s2 ms : ∀ str w,
  Forall short_message ms → n_recv w = messages ms →
  ∃ w', n_open w' = n_open w ∧
    if decide (NUL ∈ drop (longest ms) str) then
      runs (ITree.iter (serve_turn s2) str) w (Returned tt) w' ∧ n_sent w' = n_sent w ++ ms
    else
      ∃ k, runs (ITree.iter (serve_turn s2) str) w Crashed w' ∧ n_sent w' = n_sent w ++ take k ms ∧
           NUL ∉ drop (longest (take (S k) ms)) str.
Proof.
  induction ms as [|d ms IH]; intros str w Hms Hr.
  - pose proof (serve_turn_eof s2 str w Hr) as Ht. simpl. rewrite drop_0. case_decide as Hin.
    + destruct Ht as [t Ht]. eexists. split; [|split; [apply runs_iter_done, Ht|]]; done.
    + exists w. split; [done|]. exists 0%nat. split_and!; [by eapply runs_iter_end|by rewrite app_nil_r|done].
  - apply Forall_cons in Hms as [Hd Hms]. pose proof Hd as [_ Hnul]. destruct (decide (NUL ∈ drop (length d) str)) as [Hin|Hno].
    + destruct (serve_turn_message s2 d ms str w Hd Hr Hin) as [t Ht].
      destruct (IH (write_front d str) (sent_and_printed [d] (served_line t) (set_recv (messages ms) w)) Hms eq_refl) as (w' & Ho & H).
      exists w'. split; [done|]. simpl longest.
      rewrite (decide_ext _ (NUL ∈ drop (Nat.max (length d) (longest ms)) str)) in H by (by apply nul_behind).
      case_decide.
      * destruct H as [Hrun Hs]. split; [by eapply runs_iter|]. rewrite Hs. simpl. by rewrite <-app_assoc.
      * destruct H as (k & Hrun & Hs & Hk). exists (S k). split_and!; [by eapply runs_iter|rewrite Hs; simpl; by rewrite <-app_assoc|].
        rewrite nul_behind in Hk by done. done.
    + exists (set_recv (messages ms) w). split; [done|]. rewrite decide_False.
      2: { intros Hin. apply Hno. eapply nul_deeper; [|exact Hin]. simpl. lia. }
      exists 0%nat. simpl. rewrite Nat.max_0_r. split_and!; [|by rewrite app_nil_r|done].
      eapply runs_iter_end; [eapply serve_turn_crash; [done|]|done]. by rewrite nul_front.
Qed.

(** The server in the process that serves the first connection, of a client without a path
    of its own, from the fork on. *)
Definition first_child (str path : chars) (s2 : Z) : prog (chars + void) :=
  ITree.bind (or_undefined (c_string path)) (λ path,
    ITree.bind (sys (Print (ln (text "accept: " ++ print_int s2 ++ text ", path: " ++ path)))) (λ _, serve_child s2 str)).

Definition connected (w : net) : net := open_fd (print_to (ln (text "Waiting for a connection...")) (open_fd w)).

Lemma unix_server_first str path w e e' w' :
  n_next w ≠ -1 → n_next w + 1 ≠ -1 →
  runs (first_child str path (n_next w + 1)) (connected w) e w' → cast_end e = Some e' → runs (unix_server str path) w e' w'.
Proof.
  intros Hn Hn1 Hrun He. unfold unix_server. call.
  assert ((n_next w =? -1) = false) as -> by by apply Z.eqb_neq. call. call. simpl. call. simpl.
  eapply (runs_iter_end _ _ _ e); [|done]. call. call. cbv beta iota.
  simpl n_next. assert ((n_next w + 1 =? -1) = false) as -> by by apply Z.eqb_neq. call. simpl Z.ltb. simpl Z.eqb. cbv iota.
  exact Hrun.
Qed.

Lemma unix_server_runs ms str path w :
  Forall short_message ms → n_recv w = messages ms → n_next w ≠ -1 → n_next w + 1 ≠ -1 →
  if decide (NUL ∈ path ∧ NUL ∈ drop (longest ms) str) then
    ∃ w', runs (unix_server str path) w (Exited 0) w' ∧ n_sent w' = n_sent w ++ ms ∧ n_next w + 1 ∉ n_open w'
  else ∃ w' k, runs (unix_server str path) w Crashed w' ∧ n_sent w' = n_sent w ++ take k ms.
Proof.
  intros Hms Hr Hn Hn1. destruct (decide (NUL ∈ path)) as [Hp|Hp].
  2: { rewrite decide_False by naive_solver. exists (connected w), 0%nat. split; [|simpl; by rewrite app_nil_r].
       eapply (unix_server_first _ _ _ Crashed); [done|done| |done]. unfold first_child. rewrite c_string_none by done.
       eapply runs_bind_end; [apply runs_undefined|done]. }
  destruct (c_string_some _ Hp) as [t Ht].
  set (w2 := print_to (ln (text "accept: " ++ print_int (n_next w + 1) ++ text ", path: " ++ t)) (connected w)).
  destruct (serve_loop (n_next w + 1) ms str w2 Hms Hr) as (w' & _ & H).
  rewrite (decide_ext _ (NUL ∈ drop (longest ms) str)) by naive_solver. case_decide.
  - destruct H as [Hrun Hs]. exists (close_fd (n_next w + 1) w'). split_and!.
    + eapply (unix_server_first _ _ _ (Exited 0)); [done|done| |done]. unfold first_child. rewrite Ht.
      eapply runs_bind; [apply runs_ret|]. call. fold w2. unfold serve_child. eapply runs_bind; [exact Hrun|]. call. apply runs_exit.
    + done.
    + simpl. rewrite list_elem_of_filter. naive_solver.
  - destruct H as (k & Hrun & Hs & _). exists w', k. split; [|done].
    eapply (unix_server_first _ _ _ Crashed); [done|done| |done]. unfold first_child. rewrite Ht.
    eapply runs_bind; [apply runs_ret|]. call. fold w2. unfold serve_child. by eapply runs_bind_end.
Qed.

(** A message that fills the array is printed without a terminator. *)
Lemma serve_child_crash {A} s2 str m w ms :
  length m = 100%nat → NUL ∉ m → length str = 100%nat → n_recv w = messages (m :: ms) →
  ∃ w', runs (serve_child (A := A) s2 str) w Crashed w' ∧ n_sent w' = n_sent w.
Proof.
  intros Hm Hnul Hl Hr. exists (set_recv (messages ms) w). split; [|done].
  unfold serve_child. eapply (runs_bind_end _ _ _ Crashed); [|done]. eapply (runs_iter_end _ _ _ Crashed); [|done].
  apply (serve_turn_crash _ m); [done|]. rewrite nul_front by done. rewrite drop_ge by lia. by intros ?%elem_of_nil.
Qed.

(** ** Its client *)

Definition good_line (l : chars) : Prop := (1 ≤ length l ≤ 98)%nat ∧ (NUL ∉ l) ∧ (LF ∉ l).

(** What fgets delivers for the lines, then the end of the input. *)
Definition typed (ls : list chars) : list (chars * bool) := map (λ l, (l ++ [LF], false)) ls ++ [([], true)].

Lemma cut_line_line l : LF ∉ l → cut_line (l ++ [LF]) = l.
Proof.
  intros Hl. unfold cut_line. rewrite span_intro; [done| |by rewrite Ascii.eqb_refl].
  apply Forall_forall. intros c Hc. destruct (Ascii.eqb_spec c LF) as [->|]; [done|done].
Qed.

Lemma terminate_front l str : (length l < length str)%nat →
  ∃ str', terminate (Z.of_nat (length l)) (write_front l str) = Some str' ∧ length str' = length str ∧
          (NUL ∉ l → c_string str' = Some l).
Proof.
  intros Hl. unfold terminate. rewrite write_front_length by lia.
  assert (((0 <=? Z.of_nat (length l)) && (Z.of_nat (length l) <? Z.of_nat (length str))) = true) as -> by lia.
  rewrite Nat2Z.id, firstn_front. eexists. split; [done|]. split; [|apply c_string_app].
  rewrite length_app. simpl. rewrite length_skipn, write_front_length by lia. lia.
Qed.

Definition chat (ls : list chars) : chars := concat (map (λ l, text "> " ++ ln (text "echo> " ++ l)) ls).

Lemma client_turn_line s l ls str w :
  good_line l → length str = 100%nat →
  n_lines w = typed (l :: ls) → n_recv w = messages (l :: ls) →
  ∃ str', length str' = 100%nat ∧
    runs (client_turn s str) w (Returned (inl str'))
      (sent_and_printed [l] (chat [l]) (set_recv (messages ls) (set_lines (typed ls) w))).
Proof.
  intros ((Hl1 & Hl2) & Hnul & Hlf) Hstr Hlines Hr.
  set (str1 := write_front ((l ++ [LF]) ++ [NUL]) str).
  assert (length str1 = 100%nat) as Hs1 by (unfold str1; rewrite write_front_length; rewrite ?length_app; simpl; lia).
  set (str2 := write_front (l ++ [NUL]) str1).
  assert (length str2 = 100%nat) as Hs2 by (unfold str2; rewrite write_front_length; rewrite ?length_app; simpl; lia).
  destruct (terminate_front l str2) as (str3 & Ht & Hs3 & Hc3); [lia|].
  exists str3. split; [lia|]. unfold client_turn. call.
  eapply runs_call; [unfold answer; simpl; rewrite Hlines; reflexivity|]. cbv beta iota.
  assert (match l ++ [LF] with [] => str | _ => write_front ((l ++ [LF]) ++ [NUL]) str end = str1) as -> by by destruct l.
  unfold str1 at 1. rewrite c_string_front.
  2:{ rewrite elem_of_app, list_elem_of_singleton. by intros [?|?]. }
  eapply runs_bind; [apply runs_ret|]. rewrite cut_line_line by done. fold str2.
  unfold str2 at 1. rewrite c_string_front by done. eapply runs_bind; [apply runs_ret|]. call.
  assert ((Z.of_nat (length l) =? -1) = false) as -> by (apply Z.eqb_neq; lia).
  eapply runs_call; [unfold answer; simpl; rewrite Hr; reflexivity|]. cbv beta iota.
  assert ((0 <? Z.of_nat (length l)) = true) as -> by (apply Z.ltb_lt; lia).
  fold str2. rewrite Ht. eapply runs_bind; [apply runs_ret|]. rewrite Hc3 by done. eapply runs_bind; [apply runs_ret|]. call.
  match goal with |- runs _ ?a _ ?b => replace b with a; [apply runs_ret|] end.
  unfold print_to, send_to, set_lines, set_recv, sent_and_printed, chat.
  cbn [n_next n_open n_connect n_recv n_from n_lines n_sent n_out map concat]. by rewrite app_nil_r, <-!app_assoc.
Qed.

Lemma unix_client_runs ls str w :
  Forall good_line ls → length str = 100%nat → n_next w ≠ -1 → n_connect w = [] →
  n_lines w = typed ls → n_recv w = messages ls →
  ∃ w', runs (unix_client str) w (Returned 0) w' ∧ n_sent w' = n_sent w ++ ls ∧
        n_out w' = n_out w ++ ln (text "Trying to connect...") ++ ln (text "Connected.") ++ chat ls ++ text "> ".
Proof.
  intros Hls Hl Hn Hc Hlines Hr.
  assert (∀ s str w, length str = 100%nat → n_lines w = typed ls → n_recv w = messages ls →
    ∃ w', runs (ITree.iter (client_turn s) str) w (Returned tt) w' ∧ n_sent w' = n_sent w ++ ls ∧
          n_out w' = n_out w ++ chat ls ++ text "> ") as Hloop.
  { clear -Hls. induction Hls as [|l ls Hg _ IH]; intros s str w Hl Hlines Hr.
    - eexists. split; [apply runs_iter_done; unfold client_turn; call;
        eapply runs_call; [unfold answer; simpl; rewrite Hlines; reflexivity|]; cbv beta iota; apply runs_ret|].
      simpl. by rewrite app_nil_r.
    - destruct (client_turn_line s l ls str w) as (str' & Hl' & Ht); [done..|].
      destruct (IH s str' (sent_and_printed [l] (chat [l]) (set_recv (messages ls) (set_lines (typed ls) w)))) as (w' & Hw & Hs & Ho); [done..|].
      exists w'. split; [by eapply runs_iter|]. rewrite Hs, Ho. simpl n_sent. simpl n_out.
      change (chat (l :: ls)) with ((text "> " ++ ln (text "echo> " ++ l)) ++ chat ls).
      change (chat [l]) with ((text "> " ++ ln (text "echo> " ++ l)) ++ []). by rewrite app_nil_r, <-!app_assoc. }
  unfold unix_client. set (w1 := print_to (ln (text "Connected.")) (print_to (ln (text "Trying to connect...")) (open_fd w))).
  destruct (Hloop (n_next w) str w1) as (w' & Hw & Hs & Ho); [done..|].
  exists (close_fd (n_next w) w'). split_and!.
  - call. assert ((n_next w =? -1) = false) as -> by by apply Z.eqb_neq. call.
    eapply runs_call; [unfold answer; simpl; rewrite Hc; reflexivity|]. simpl. call.
    eapply runs_bind; [exact Hw|]. call. apply runs_ret.
  - done.
  - simpl n_out. rewrite Ho. simpl n_out. by rewrite <-!app_assoc.
Qed.

(** ** The TCP client *)

(** [n] rounds from the label to the jump back. *)
Fixpoint rounds (msg : chars) (n : nat) (w w' : net) : Prop :=
  match n with
  | O => w' = w
  | S n => ∃ w1, runs (restart_body msg tt) w (Returned (inl tt)) w1 ∧ rounds msg n w1 w'
  end.

(** Descriptors are not used twice. *)
Definition fresh_fds (w : net) : Prop := Forall (λ fd, fd < n_next w) (n_open w).

Lemma restart_failed msg w l :
  n_connect w = false :: l → fresh_fds w →
  ∃ w', runs (restart_body msg tt) w (Returned (inl tt)) w' ∧ fresh_fds w' ∧ n_connect w' = l ∧
        n_open w' = n_next w :: n_open w ∧ n_sent w' = n_sent w.
Proof.
  intros Hc Hf. eexists. split.
  - unfold restart_body. call. eapply runs_call; [unfold answer; simpl; rewrite Hc; reflexivity|]. simpl.
    call. call. call. apply runs_ret.
  - split_and!; try done. constructor; simpl; [lia|]. eapply Forall_impl; [exact Hf|]. simpl. lia.
Qed.

Lemma restart_connected msg w l :
  n_connect w = true :: l → fresh_fds w →
  ∃ w', runs (restart_body msg tt) w (Returned (inl tt)) w' ∧ fresh_fds w' ∧ n_connect w' = l ∧
        n_open w' = n_open w ∧ n_sent w' = n_sent w ++ [msg].
Proof.
  intros Hc Hf.
  assert (filter (λ x, x ≠ n_next w) (n_next w :: n_open w) = n_open w) as Hfilter.
  { rewrite filter_cons_False by naive_solver. apply filter_all. intros x Hx.
    unfold fresh_fds in Hf. rewrite Forall_forall in Hf. apply Hf in Hx. lia. }
  eexists. split.
  - unfold restart_body. call. eapply runs_call; [unfold answer; simpl; rewrite Hc; reflexivity|]. simpl.
    call. call. assert ((Z.of_nat (length msg) <? 0) = false) as -> by (apply Z.ltb_ge; lia).
    eapply runs_bind; [apply runs_ret|]. call. call. call. apply runs_ret.
  - unfold fresh_fds. simpl. rewrite Hfilter. split_and!; try done.
    eapply Forall_impl; [exact Hf|]. simpl. lia.
Qed.

Lemma rounds_spec msg : ∀ l w, n_connect w = l → fresh_fds w →
  ∃ w', rounds msg (length l) w w' ∧
    length (n_open w') = (length (n_open w) + length (filter (λ b, b = false) l))%nat ∧
    n_sent w' = n_sent w ++ replicate (length (filter (λ b, b = true) l)) msg.
Proof.
  induction l as [|[] l IH]; intros w Hc Hf.
  - exists w. split; [done|]. simpl. rewrite app_nil_r. split; [lia|done].
  - destruct (restart_connected msg w l Hc Hf) as (w1 & H1 & Hf1 & Hc1 & Ho1 & Hs1).
    destruct (IH w1 Hc1 Hf1) as (w' & Hr & Ho & Hs). exists w'. split; [by exists w1|].
    rewrite Ho, Hs, Ho1, Hs1. rewrite filter_cons_False, filter_cons_True by done. simpl. by rewrite <-app_assoc.
  - destruct (restart_failed msg w l Hc Hf) as (w1 & H1 & Hf1 & Hc1 & Ho1 & Hs1).
    destruct (IH w1 Hc1 Hf1) as (w' & Hr & Ho & Hs). exists w'. split; [by exists w1|].
    rewrite Ho, Hs, Ho1, Hs1. rewrite filter_cons_True, filter_cons_False by done. simpl. split; [lia|done].
Qed.
