(* ===== verification/PropsRb.v ===== *)
(** * Properties of the intrusive list (list.h) and the red-black tree (rbtree.h, rbtree.c) *)

From stdpp Require Import gmap numbers list.
From S2P Require Import Prelude ListH RbNode RbTree RbZip RbInv RbInsert RbErase RbIter.

Local Open Scope Z_scope.

(** ** The list

    Each property is instantiated on a small heap: a list headed at 1 with the
    elements 2 and 3, a second list headed at 10 with the element 11, and the free
    cell 4. *)

Definition demo_heap : lheap :=
  list_to_map [(1, ListHead 2 3); (2, ListHead 3 1); (3, ListHead 1 2); (4, ListHead 0 0);
               (10, ListHead 11 11); (11, ListHead 10 10)].

Ltac demo_ring := split; [by vm_compute|apply (bool_decide_unpack _); by vm_compute].
Ltac demo_dec := apply (bool_decide_unpack _); by vm_compute.

Lemma demo_ring1 : ring demo_heap 1 [2; 3].
Proof. demo_ring. Qed.

Lemma demo_ring10 : ring demo_heap 10 [11].
Proof. demo_ring. Qed.

Lemma demo_apart z : z ∈ [1; 2; 3] → z ∉ [10; 11].
Proof. set_solver. Qed.

(** Appending an entry with list_add_tail and taking it out again with
    list_del_init leaves the list with the elements it had, in the same order;
    the entry heads an empty list of its own, and no other cell is written. *)
Theorem list_tail_roundtrip (h : lheap) (head : Z) (xs : list Z) (e : Z) :
  ring h head xs → e ∉ head :: xs → is_Some (h !! e) →
  wp (list_add_tail e head)
    (λ _ h1, ring h1 head (xs ++ [e]) ∧
       wp (list_del_init e)
         (λ _ h2, ring h2 head xs ∧ ring h2 e [] ∧ agree_off (e :: head :: xs) h h2) h1) h.
Proof.
  intros Hr He Hl. eapply wp_mono; [by apply list_add_tail_spec|]. intros _ h1 [Hr1 Hf1]. split; [done|].
  eapply wp_mono; [by apply (list_del_init_spec h1 head xs [] e)|]. intros _ h2 (Hr2 & He2 & Hf2).
  rewrite app_nil_r in Hr2. split_and!; [done..|]. eapply agree_off_trans; [done|].
  eapply agree_off_weaken; [done|]. set_solver.
Qed.

Lemma list_tail_roundtrip_witness :
  wp (list_add_tail 4 1)
    (λ _ h1, ring h1 1 [2; 3; 4] ∧
       wp (list_del_init 4)
         (λ _ h2, ring h2 1 [2; 3] ∧ ring h2 4 [] ∧ agree_off [4; 1; 2; 3] demo_heap h2) h1) demo_heap.
Proof. apply (list_tail_roundtrip demo_heap 1 [2; 3] 4); [apply demo_ring1|set_solver|by eexists]. Defined.

(** List_move_tail takes an entry out of the middle of one list and makes it
    the last of another; both stay well formed and keep the order of the rest. *)
Theorem list_move_tail_moves (h : lheap) (head : Z) (ys zs : list Z) (e head2 : Z) (ws : list Z) :
  ring h head (ys ++ e :: zs) → ring h head2 ws →
  (∀ x, x ∈ head2 :: ws → x ∉ head :: ys ++ e :: zs) →
  wp (list_move_tail e head2)
    (λ _ h', ring h' head (ys ++ zs) ∧ ring h' head2 (ws ++ [e]) ∧
             agree_off ((head :: ys ++ e :: zs) ++ head2 :: ws) h h') h.
Proof. apply list_move_tail_spec. Qed.

Lemma list_move_tail_moves_witness :
  wp (list_move_tail 2 10)
    (λ _ h', ring h' 1 [3] ∧ ring h' 10 [11; 2] ∧ agree_off [1; 2; 3; 10; 11] demo_heap h') demo_heap.
Proof.
  apply (list_move_tail_moves demo_heap 1 [] [3] 2 10 [11]); [apply demo_ring1|apply demo_ring10|].
  intros x Hx Hy. by apply (demo_apart x).
Defined.

(** List_splice_init puts all elements of a list, in order, in front of
    those of another and leaves the first list empty but initialised. *)
Theorem list_splice_init_joins (h : lheap) (l : Z) (xs : list Z) (head : Z) (ys : list Z) :
  ring h l xs → ring h head ys → (∀ z, z ∈ l :: xs → z ∉ head :: ys) →
  wp (list_splice_init l head)
    (λ _ h', ring h' head (xs ++ ys) ∧ ring h' l [] ∧ agree_off (l :: xs ++ head :: ys) h h') h.
Proof. apply list_splice_init_spec. Qed.

Lemma list_splice_init_joins_witness :
  wp (list_splice_init 1 10)
    (λ _ h', ring h' 10 [2; 3; 11] ∧ ring h' 1 [] ∧ agree_off [1; 2; 3; 10; 11] demo_heap h') demo_heap.
Proof.
  apply (list_splice_init_joins demo_heap 1 [2; 3] 10 [11]);
    [apply demo_ring1|apply demo_ring10|apply demo_apart].
Defined.

(** List_for_each_entry_safe may unlink every entry it is given: the loop visits
    each entry once, ends, and leaves the list empty and every entry unlinked. *)
Theorem list_safe_drain (h : lheap) (head : Z) (xs : list Z) (member : Z) (fuel : nat) :
  ring h head xs → (length xs < fuel)%nat →
  wp (list_for_each_entry_safe fuel member
        (λ pos cnt, list_del_init (pos + member);; mret (S cnt)) head 0%nat)
    (λ cnt h', cnt = length xs ∧ ring h' head [] ∧ (∀ x, x ∈ xs → ring h' x []) ∧
               agree_off (head :: xs) h h') h.
Proof. apply list_for_each_entry_safe_drains. Qed.

Lemma list_safe_drain_witness :
  wp (list_for_each_entry_safe 3 8 (λ pos cnt, list_del_init (pos + 8);; mret (S cnt)) 1 0%nat)
    (λ cnt h', cnt = 2%nat ∧ ring h' 1 [] ∧ (∀ x, x ∈ [2; 3] → ring h' x []) ∧
               agree_off [1; 2; 3] demo_heap h') demo_heap.
Proof. apply (list_safe_drain demo_heap 1 [2; 3] 8 3); [apply demo_ring1|simpl; lia]. Defined.

(** ** The tree *)

(** A tree of three nodes, its root struct at 4, and a node 64 outside it. *)
Definition demo_tree : tree := T Black (T Red E 16 E) 32 (T Red E 48 E).
Definition demo_rb : rbmem :=
  RbMem (list_to_map [(16, mk_node 32 Red 0 0); (32, mk_node 0 Black 16 48); (48, mk_node 32 Red 0 0);
                      (64, mk_node 0 Red 0 0)])
        {[4 := 32]}.

Lemma demo_rbtree : is_rbtree demo_rb 4 demo_tree.
Proof.
  split; [|split; [done|by exists 1%nat]]. split; [done|]. split; [done|]. split.
  - apply (bool_decide_unpack _). by vm_compute.
  - repeat constructor; done.
Qed.

(** Replacing an address keeps shape, colours and height. *)
Lemma replace_shape k c l x r y n :
  tcolor (plug k (T c l y r)) = tcolor (plug k (T c l x r)) ∧
  (rb n (plug k (T c l y r)) ↔ rb n (plug k (T c l x r))).
Proof.
  assert (∀ t t', tcolor t = tcolor t' → (∀ n, rb n t ↔ rb n t') →
    tcolor (plug k t) = tcolor (plug k t') ∧ ∀ n, rb n (plug k t) ↔ rb n (plug k t')) as H.
  { induction k as [|[d fc p sib] k IH]; [done|]. intros t t' Hc Hn. simpl. apply IH.
    - by destruct d.
    - intros m. destruct d, fc, m; simpl; rewrite ?Hc, ?Hn; done. }
  destruct (H (T c l y r) (T c l x r)) as [H1 H2]; [done|by destruct c|]. by split.
Qed.

Lemma replace_height k c l x r y : height (plug k (T c l y r)) = height (plug k (T c l x r)).
Proof.
  assert (∀ t t', height t = height t' → height (plug k t) = height (plug k t')) as H; [|by apply H].
  induction k as [|[d fc p sib] k IH]; [done|]. intros t t' Ht. simpl. apply IH. destruct d; simpl; lia.
Qed.

(** C3: linking a new node at an empty place of a tree (rb_link_node) and
    rebalancing (rb_insert_color) gives a red-black tree again whose in-order
    sequence has the node exactly at that place; nothing else is written. *)
Theorem rb_insert_correct (s : rbmem) (root : Z) (k : ctx) (x : Z) (fuel : nat) :
  is_rbtree s root (plug k E) → good_addr x → x ∉ inorder (plug k E) → is_Some (rb_nodes s !! x) →
  (length k < fuel)%nat →
  wp (rb_link_node x (ctx_parent k) (link_of root k);; rb_insert_color fuel x root)
    (λ _ s', ∃ t', is_rbtree s' root t' ∧ inorder t' = ctx_pre k ++ x :: ctx_post k ∧
                   same_outside (x :: inorder (plug k E)) root s s') s.
Proof.
  intros [Hz Hv] Hg Hx Hl Hfuel. rewrite <-zip_plug in Hz. apply wp_bind.
  eapply wp_mono; [by apply rb_link_node_spec|]. intros _ s1 [Hz1 Hf1].
  eapply wp_mono; [by apply rb_insert_color_spec|]. intros _ s2 (t' & Ht' & Hi & Hf2).
  exists t'. split; [done|]. assert (inorder t' = ctx_pre k ++ x :: ctx_post k) as Hi'.
  { by rewrite Hi, inorder_plug. }
  split; [done|]. eapply same_outside_trans; [done|]. eapply same_outside_weaken; [done|].
  rewrite Hi', inorder_plug. simpl. set_solver.
Qed.

Lemma rb_insert_correct_witness :
  wp (rb_link_node 64 48 (LinkRight 48);; rb_insert_color 5 64 4)
    (λ _ s', ∃ t', is_rbtree s' 4 t' ∧ inorder t' = [16; 32; 48; 64] ∧
                   same_outside [64; 16; 32; 48] 4 demo_rb s') demo_rb.
Proof.
  apply (rb_insert_correct demo_rb 4 [Frame R Red 48 E; Frame R Black 32 (T Red E 16 E)] 64 5).
  - apply demo_rbtree.
  - split; [done|]. split; [done|reflexivity].
  - set_solver.
  - by eexists.
  - simpl. lia.
Defined.

(** C5: rb_erase takes exactly the given node out: the result is a red-black
    tree with the remaining nodes in the same order, and only those nodes and
    the root pointer are written (the erased node itself is left as it was). *)
Theorem rb_erase_removes (s : rbmem) (root : Z) (t : tree) (l1 : list Z) (x : Z) (l2 : list Z) (fuel : nat) :
  is_rbtree s root t → inorder t = l1 ++ x :: l2 → (height t < fuel)%nat →
  wp (rb_erase fuel x root)
    (λ _ s', ∃ t', is_rbtree s' root t' ∧ inorder t' = l1 ++ l2 ∧
                   same_outside (l1 ++ l2) root s s') s.
Proof. apply rb_erase_correct. Qed.

Lemma rb_erase_removes_witness :
  wp (rb_erase 3 32 4)
    (λ _ s', ∃ t', is_rbtree s' 4 t' ∧ inorder t' = [16; 48] ∧ same_outside [16; 48] 4 demo_rb s') demo_rb.
Proof. apply (rb_erase_removes demo_rb 4 demo_tree [16] 32 [48] 3); [apply demo_rbtree|done|simpl; lia]. Defined.

(** C39: rb_first and rb_last return the ends of the in-order sequence (NULL
    for an empty tree), and from every node rb_next and rb_prev return its
    neighbours in it, NULL past the ends; none of them writes. *)
Theorem rb_traversal (s : rbmem) (root : Z) (t : tree) (fuel : nat) :
  is_rbtree s root t → (height t ≤ fuel)%nat →
  rb_first fuel root s = Done (hd NULL (inorder t), s) ∧
  rb_last fuel root s = Done (default NULL (last (inorder t)), s) ∧
  ∀ l1 x l2, inorder t = l1 ++ x :: l2 →
    rb_next fuel x s = Done (hd NULL l2, s) ∧
    rb_prev fuel x s = Done (default NULL (last l1), s).
Proof.
  intros [Hz _] Hf.
  assert (∀ (m : cmd rbmem Z) a, wp m (λ b s', b = a ∧ s' = s) s → m s = Done (a, s)) as Hrun.
  { by intros m a (b & s' & -> & -> & ->). }
  split; [by apply Hrun; eapply wp_rb_first|]. split; [by apply Hrun; eapply wp_rb_last|].
  intros l1 x l2 Hi. split; apply Hrun; [by eapply wp_rb_next|by eapply wp_rb_prev].
Qed.

Lemma rb_traversal_witness :
  rb_first 2 4 demo_rb = Done (16, demo_rb) ∧ rb_next 2 16 demo_rb = Done (32, demo_rb) ∧
  rb_next 2 48 demo_rb = Done (NULL, demo_rb) ∧ rb_prev 2 48 demo_rb = Done (32, demo_rb).
Proof.
  destruct (rb_traversal demo_rb 4 demo_tree 2 demo_rbtree) as (Hf & _ & Hn); [simpl; lia|].
  destruct (Hn [] 16 [32; 48]) as [H1 _]; [done|]. destruct (Hn [16; 32] 48 []) as [H2 H3]; [done|].
  split_and!; [exact Hf|exact H1|exact H2|exact H3].
Defined.

(** A tree that satisfies the invariant the operations keep is balanced:
    half its height is at most the logarithm of its size, so the fuel the
    operations need is logarithmic. *)
Theorem rb_height_logarithmic (s : rbmem) (root : Z) (t : tree) :
  is_rbtree s root t → (2 ^ (height t / 2) ≤ S (length (inorder t)))%nat.
Proof. intros [_ Hv]. by apply valid_height. Qed.

Lemma rb_height_logarithmic_witness : (2 ^ (height demo_tree / 2) ≤ 4)%nat.
Proof. apply (rb_height_logarithmic demo_rb 4 demo_tree), demo_rbtree. Defined.

(** Rb_replace_node puts a node that is not in the tree in the place of one
    that is: same shape, same colours, the new address at its position. *)
Theorem rb_replace_in_place (s : rbmem) (root : Z) (t : tree) (l1 : list Z) (x : Z) (l2 : list Z) (y : Z) :
  is_rbtree s root t → inorder t = l1 ++ x :: l2 →
  good_addr y → y ∉ inorder t → is_Some (rb_nodes s !! y) →
  wp (rb_replace_node x y root)
    (λ _ s', ∃ t', is_rbtree s' root t' ∧ inorder t' = l1 ++ y :: l2 ∧ height t' = height t ∧
                   same_outside (y :: inorder t) root s s') s.
Proof.
  intros [Hz [Hc [n Hn]]] Hi Hg Hy Hl. destruct (inorder_focus t l1 x l2 Hi) as (k & c & l & r & -> & -> & ->).
  rewrite <-zip_plug in Hz. eapply wp_rb_replace_node; [done..|]. intros s' Hz' Hf.
  exists (plug k (T c l y r)). rewrite zip_plug in Hz'. split_and!; [|by rewrite inorder_plug; simpl; rewrite <-!app_assoc| |done].
  - split; [done|]. clear -Hc Hn. unfold valid. destruct (replace_shape k c l x r y n) as [-> H]. split; [done|]. exists n. tauto.
  - apply replace_height.
Qed.

Lemma rb_replace_in_place_witness :
  wp (rb_replace_node 48 64 4)
    (λ _ s', ∃ t', is_rbtree s' 4 t' ∧ inorder t' = [16; 32; 64] ∧ height t' = 2%nat ∧
                   same_outside [64; 16; 32; 48] 4 demo_rb s') demo_rb.
Proof.
  apply (rb_replace_in_place demo_rb 4 demo_tree [16; 32] 48 [] 64).
  - apply demo_rbtree.
  - done.
  - split; [done|]. split; [done|reflexivity].
  - set_solver.
  - by eexists.
Defined.

(** Rb_augment_path calls the client's function on the nodes from the start
    up to the root, on the sibling of each before its parent (a left child
    without one is visited twice), in the order of [augment_calls]; the tree
    itself is not written. *)
Theorem rb_augment_path_calls (s : rbmem) (root : Z) (k : ctx) (t : tree) (fuel : nat) (log : list Z) :
  is_rbtree s root (plug k t) → t ≠ E → (length k < fuel)%nat →
  rb_augment_path log_call fuel (root_of t) (s, log) = Done ((), (s, log ++ augment_calls k (root_of t))).
Proof.
  intros [Hz _] Ht Hf. rewrite <-zip_plug in Hz.
  destruct (wp_augment_path s root fuel k t log (λ _ s', s' = (s, log ++ augment_calls k (root_of t)))) as ([] & s' & -> & ->); done.
Qed.

Lemma rb_augment_path_calls_witness :
  rb_augment_path log_call 3 16 (demo_rb, []) = Done ((), (demo_rb, [16; 48; 32])).
Proof.
  apply (rb_augment_path_calls demo_rb 4 [Frame L Black 32 (T Red E 48 E)] (T Red E 16 E) 3 []);
    [apply demo_rbtree|done|simpl; lia].
Defined.

(** Rb_augment_erase_begin, run before rb_erase, returns the deepest node
    whose subtree the removal changes: the child that moves up, or the parent
    it leaves when there is none. *)
Theorem rb_augment_erase_deepest (s : rbmem) (root : Z) (t : tree) (l1 : list Z) (x : Z) (l2 : list Z) (fuel : nat) :
  is_rbtree s root t → inorder t = l1 ++ x :: l2 → (height t ≤ fuel)%nat →
  wp (rb_augment_erase_begin fuel x)
    (λ deepest s', s' = s ∧
       wp (rb_erase_unlink fuel x root)
         (λ res _, let '(child, parent, _) := res in
                   deepest = if nonnull child then child else parent) s) s.
Proof.
  intros [Hz _] Hi Hf. destruct (inorder_focus t l1 x l2 Hi) as (k & c & l & r & -> & _ & _).
  rewrite <-zip_plug in Hz. by eapply wp_augment_erase_begin.
Qed.

Lemma rb_augment_erase_deepest_witness :
  wp (rb_augment_erase_begin 2 32)
    (λ deepest s', s' = demo_rb ∧
       wp (rb_erase_unlink 2 32 4)
         (λ res _, let '(child, parent, _) := res in
                   deepest = if nonnull child then child else parent) demo_rb) demo_rb.
Proof. apply (rb_augment_erase_deepest demo_rb 4 demo_tree [16] 32 [48] 2); [apply demo_rbtree|done|simpl; lia]. Defined.

(** Parent and colour share one word: for aligned parents each is read back
    as stored, rb_set_parent keeps the colour and rb_set_red, rb_set_black and
    rb_set_color keep the parent. *)
Theorem rb_packed_word (par q : Z) (c c' : color) :
  aligned par → aligned q →
  let w := Z.lor par (color_bit c) in
  pc_parent w = par ∧ pc_color w = color_bit c ∧
  pc_set_parent w q = Z.lor q (color_bit c) ∧
  pc_set_red w = Z.lor par (color_bit Red) ∧ pc_set_black w = Z.lor par (color_bit Black) ∧
  pc_set_color w (color_bit c') = Z.lor par (color_bit c').
Proof.
  intros Hp Hq w. split_and!; [by apply pc_parent_mk|by apply pc_color_mk|by apply pc_set_parent_mk|
    by apply pc_set_red_mk|by apply pc_set_black_mk|by apply pc_set_color_mk].
Qed.

Lemma rb_packed_word_witness :
  pc_parent (Z.lor 32 (color_bit Black)) = 32 ∧ pc_set_parent (Z.lor 32 (color_bit Black)) 48 = 49.
Proof.
  destruct (rb_packed_word 32 48 Black Red) as (H1 & _ & H2 & _); [by split|by split|].
  split; [exact H1|exact H2].
Defined.
