(* ===== verification/PropsEv.v ===== *)
(** * Properties of the event loop (wba_evloop.c)

    The clock, epoll and the allocator are the parameters [System]; the client's
    callbacks are the parameter [callback] of the loop. *)

From stdpp Require Import gmap numbers functions sorting list.
From S2P Require Import Prelude ListH RbNode RbTree RbZip RbInv EvTime Rings EvLoop EvInv EvOps EvTree EvApi EvRun EvTurn EvAlloc EvSpec EvFree EvClient EvModel.

Local Open Scope Z_scope.

(** The interval wba_event_add refuses. *)
Definition negative (tv : option timeval) : Prop := match tv with Some t => tv_sec t < 0 ∨ tv_usec t < 0 | None => False end.
#[local] Instance negative_dec tv : Decision (negative tv).
Proof. destruct tv; apply _. Defined.

Section props.
Context {W : Type} `{!System W} {client : Client W} `{!ClientOk W}.
Implicit Types (s : evstate W).

(** C1: one turn of wba_event_loop ends, does what [turn] says and keeps the base well
    formed (map slots, active list, timeout tree and counters agree with the flags of the
    events), for callbacks that keep the base, the client's invariant and the active list.
    On a base without registered or active events nothing changes and the loop ends with
    the last result.  Otherwise epoll_wait is called for at most the time to the next
    deadline; if it fails the loop ends with 0; if not, even when nothing was ready, what
    it reported is dispatched, the passed timeouts are taken, every active event is run,
    none is left active, and the loop goes on with the number of ready descriptors. *)
Theorem event_loop_turn `{!ClockOk W} (fuel : nat) (b : Z) (callback : Z → Z → Z → Z → cmd (evstate W) ())
    s (vw : evview) (res0 : Z) :
  callback_ok fuel b callback → rep s b vw → good fuel vw → mine s → (Z.to_nat EVT_NUM_EVENTS < fuel)%nat →
  epoll_wait_ok (W:=W) (cfg_epfd (vw_cfg vw)) →
  wp (wba_event_loop_body callback fuel b res0)
    (λ r s', ∃ vw', turn b callback s vw res0 r s' vw' ∧ rep s' b vw' ∧ good fuel vw' ∧ mine s' ∧
       match r with
       | inr res => vw' = vw ∧ (idle_base vw ∧ res = res0 ∨ ¬ idle_base vw ∧ res = 0)
       | inl res => ¬ idle_base vw ∧ 0 ≤ res ≤ EVT_NUM_EVENTS ∧ vw_lists vw' Active = []
       end) s.
Proof.
  intros Hcb Hr Hg HJ Hf Hep. eapply wp_mono; [by apply refine_loop_body|]. intros r s' (vw' & Ht & Hr' & Hg' & HJ').
  exists vw'. split_and!; [done..|]. inversion Ht; subst; [split; [done|by left]|split; [done|by right]|]. do 2 (split; [done|]). by eapply drained_end.
Qed.

(** C15: wba_event_loop never faults, however many turns it takes and whatever
    events and timeouts occur in them, for callbacks that keep the base, the client's
    invariant and the active list.  What it has done when it returns is a sequence of
    turns as in [turn], the last of which ended it: on a base without registered or active
    events, or because epoll_wait failed, with 0; the base is well formed then. *)
Theorem event_loop_runs `{!ClockOk W} (fuel : nat) (b : Z) (callback : Z → Z → Z → Z → cmd (evstate W) ())
    s (vw : evview) :
  callback_ok fuel b callback → rep s b vw → good fuel vw → mine s → (Z.to_nat EVT_NUM_EVENTS < fuel)%nat →
  (∀ epfd, epoll_wait_ok (W:=W) epfd) →
  match wba_event_loop callback fuel b s with
  | Done (r, s') => ∃ vw', turns b callback s vw 1 r s' vw' ∧ rep s' b vw' ∧ good fuel vw' ∧ mine s' ∧
      0 ≤ r ≤ EVT_NUM_EVENTS ∧ ended r s' vw'
  | Fault => False
  | OutOfFuel => True
  end.
Proof.
  intros Hcb Hr Hg HJ Hf Hep. pose proof (refine_event_loop fuel b callback Hcb s vw Hr Hg HJ Hf Hep) as H.
  destruct (wba_event_loop _ _ _ _) as [[r s']| |]; [|done..]. destruct H as (vw' & Ht & Hr' & Hg' & HJ').
  exists vw'. do 4 (split; [done|]). by eapply turns_ended.
Qed.

(** C16: the loop never faults with the callbacks of the test program, which add,
    delete, assign again or free the event they are called for while the loop is
    running: none of them, in any order, leaves the loop a freed or misplaced event or
    prints past the end of a buffer, as long as the argument of every event is the event
    itself and no read fills the 1024 bytes of a buffer without a zero among them (what
    happens then is [full_read_faults]). *)
Theorem test_program_safe `{!ClockOk W, !TestSystem W, !TestOk W} (fuel : nat) (b : Z) s (vw : evview) :
  reads_terminated W → rep s b vw → good (client:=test_client W b) fuel vw → 0 ∈ static_buf (es_world s) →
  (Z.to_nat EVT_NUM_EVENTS < fuel)%nat → (∀ epfd, epoll_wait_ok (W:=W) epfd) →
  match wba_event_loop (test_callback fuel) fuel b s with
  | Done (r, s') => ∃ vw', rep s' b vw' ∧ good (client:=test_client W b) fuel vw' ∧
      0 ≤ r ≤ EVT_NUM_EVENTS ∧ ended r s' vw'
  | Fault => False
  | OutOfFuel => True
  end.
Proof.
  intros Hpeer Hr Hg HJ Hf Hep.
  pose proof (refine_event_loop (client:=test_client W b) fuel b _ (test_callback_ok fuel b Hpeer) s vw Hr Hg HJ Hf Hep) as H.
  destruct (wba_event_loop _ _ _ _) as [[r s']| |]; [|done..]. destruct H as (vw' & Ht & Hr' & Hg' & _).
  exists vw'. do 2 (split; [done|]). by eapply turns_ended.
Qed.

(** A peer that sends 1024 bytes other than zero makes [io_read_cb01] print past the end
    of its buffer. *)
Theorem full_read_faults `{!TestSystem W} (fuel : nat) (fd arg ret : Z) (data : list Z) (w : W) s :
  sys_read fd (es_world s) = (ret, data, w) → 0 < ret → length data = sizeof_buf → 0 ∉ data →
  io_read_cb01 fuel fd WBA_EVT_READ arg s = Fault.
Proof.
  intros Hread Hret Hlen Hz. unfold io_read_cb01. change (has WBA_EVT_READ WBA_EVT_TIMEOUT) with false.
  change (has WBA_EVT_READ WBA_EVT_READ) with true. cbv iota zeta.
  erewrite bind_done by (unfold syscall; by rewrite Hread). cbv beta iota.
  rewrite !bool_decide_false by lia. apply bind_fault. unfold print_s. apply bind_fault.
  unfold stored. rewrite Hlen, drop_ge, app_nil_r by (by rewrite length_replicate). by rewrite strlen_none.
Qed.

(** C9: wba_event_add refuses a negative interval: it returns 0 and changes nothing.
    Otherwise it does one of four things: nothing for an event that
    is registered already and gets no timeout (1); nothing when epoll refuses
    the descriptor (0); registers it (1, or 0 for an event without descriptor);
    or registers it if needed and puts it at its place among the timeouts (1). *)
Theorem event_add_result s (b : Z) (vw : evview) (e : Z) (evt : wba_evt) (fuel : nat) (tv : option timeval) :
  rep s b vw → vw_evts vw !! e = Some evt → evt_base evt = b → (size (vw_evts vw) < fuel)%nat →
  (∀ t, tv = Some t → 0 ≤ tv_sec t → 0 ≤ tv_usec t → ∀ w, ∃ sec nsec w' d,
     sys_clock_gettime w = (Some (sec, nsec), w') ∧
     event_timeadd (Timeval sec (Z.quot nsec 1000)) t = Some d) →
  wp (wba_event_add fuel e tv)
    (λ res s', if decide (negative tv) then res = 0 ∧ s' = s
               else ∃ vw', add_outcome (W:=W) vw e evt tv false res vw' ∧ rep s' b vw') s.
Proof.
  intros Hr He Hb Hf Hclock. case_decide as Hneg.
  - destruct tv as [t|]; [|done]. unfold wba_event_add.
    rewrite <-bool_decide_or, bool_decide_true by done. by apply wp_ret.
  - assert (∀ t, tv = Some t → 0 ≤ tv_sec t ∧ 0 ≤ tv_usec t) as Hpos.
    { intros t ->. simpl in Hneg. lia. }
    assert (wba_event_add fuel e tv = event_add fuel e tv false) as ->.
    { unfold wba_event_add. destruct tv as [t|]; [|done]. destruct (Hpos t eq_refl). by rewrite !bool_decide_false by lia. }
    eapply refine_event_add; [done..| |].
    + intros t Ht _. destruct (Hpos t Ht). by apply Hclock.
    + intros res s' vw' Ho Hr'. by exists vw'.
Qed.

(** C10: wba_event_del takes an event off every list of its base and out of the timeout
    tree and leaves the others where they are, even when epoll reports an
    error; its flags say so, and the base stays well formed. *)
Theorem event_del_detaches s (b : Z) (vw : evview) (e : Z) (evt : wba_evt) (fuel : nat) :
  rep s b vw → vw_evts vw !! e = Some evt → evt_base evt = b → (size (vw_evts vw) < fuel)%nat →
  wp (wba_event_del fuel e)
    (λ res s', ∃ vw', rep s' b vw' ∧ del_res (W:=W) vw evt res ∧
       vw_evts vw' = <[e:=set_flags idle evt]> (vw_evts vw) ∧
       vw_time vw' = rm e (vw_time vw) ∧
       (∀ k, lid_ok k → vw_lists vw' k = rm e (vw_lists vw k))) s.
Proof.
  intros Hr He Hb Hf. eapply refine_event_del; [done..|]. intros res s' Hr' Hres. exists (a_del e vw).
  split_and!; [done|done| |by eapply a_del_time|by intros; eapply a_del_lists].
  rewrite a_del_evts. by apply alter_as_insert.
Qed.

(** C2: event_process_timeout makes active exactly the events whose deadline has
    passed, in deadline order behind those already active, takes them out of
    the tree, leaves the others waiting, and returns how many there were. *)
Theorem process_timeout_exact s (b : Z) (vw : evview) (fuel : nat) (sec nsec : Z) (w : W) :
  rep s b vw → (size (vw_evts vw) < fuel)%nat →
  sys_clock_gettime (es_world s) = (Some (sec, nsec), w) →
  let now := Timeval sec (Z.quot nsec 1000) in
  let fired := due (vw_evts vw) now (vw_time vw) in
  wp (event_process_timeout fuel b)
    (λ n s', n = Z.of_nat (length fired) ∧ ∃ vw', rep s' b vw' ∧
       vw_time vw' = not_due (vw_evts vw) now (vw_time vw) ∧
       vw_lists vw' Active = filter (λ e, e ∉ fired) (vw_lists vw Active) ++ fired) s.
Proof.
  intros Hr Hf Hclock now fired. eapply refine_process_timeout; [done..|]. intros ts w' s'. rewrite Hclock.
  intros [= <- <-]. pose proof (a_expire_spec fuel s b vw now Hr Hf) as Hsp. fold now.
  destruct (a_expire now (vw_time vw) vw) as [n vw']. destruct Hsp as (-> & Ht & Ha).
  intros Hr'. split; [done|]. by exists vw'.
Qed.

(** C8: event_process_active runs every active event once, in order ([drained]): a
    persistent one is taken off the active list and added again for its next deadline if
    it has an interval, any other is deleted, and then its callback is called once, with
    its descriptor, what happened and its argument.  It returns their number; none is
    active afterwards.  The callbacks have to keep the base, the client's invariant and
    the active list. *)
Theorem process_active_drains `{!ClockOk W} (fuel : nat) (b : Z) (callback : Z → Z → Z → Z → cmd (evstate W) ())
    s (vw : evview) :
  callback_ok fuel b callback → rep s b vw → good fuel vw → mine s →
  wp (event_process_active callback fuel b)
    (λ n s', n = Z.of_nat (length (vw_lists vw Active)) ∧
       ∃ vw', drained callback b (vw_lists vw Active) s vw s' vw' ∧ rep s' b vw' ∧ good fuel vw' ∧ vw_lists vw' Active = []) s.
Proof.
  intros Hcb Hr Hg HJ. eapply refine_process_active; [done..|]. intros s' vw' Hd Hg' _. split; [done|].
  destruct (drained_end _ _ _ _ _ _ _ Hd). by exists vw'.
Qed.

(** Event_map_active makes active, in registration order, the events of the
    descriptor's slot that wait for one of the reported events and are not
    active yet; nothing else changes place. *)
Theorem map_active_slot s (b : Z) (vw : evview) (fd events : Z) (fuel : nat) :
  rep s b vw → (size (vw_evts vw) < fuel)%nat → 0 ≤ fd →
  wp (event_map_active fuel b fd events)
    (λ _ s', ∃ vw', rep s' b vw' ∧
       vw_lists vw' Active = vw_lists vw Active ++
         filter (λ e, wakes (vw_evts vw) events e = true) (vw_lists vw (Slot (slot_of fd)))) s.
Proof.
  intros Hr Hf Hfd. eapply refine_map_active; [done..|]. intros s' Hr'. exists (a_map_active fd events vw).
  split; [done|]. by eapply a_map_active_active.
Qed.

(** C38: event_next_timeout returns one minute without timeouts, 0 when the earliest
    deadline has passed, and otherwise the time until it, rounded up to a
    millisecond, provided that is less than 2^31 - 1 milliseconds away. *)
Theorem next_timeout_wait s (b : Z) (vw : evview) (fuel : nat) (sec nsec : Z) (w : W) :
  rep s b vw → (size (vw_evts vw) ≤ fuel)%nat →
  sys_clock_gettime (es_world s) = (Some (sec, nsec), w) → 0 ≤ sec < 2 ^ 60 → 0 ≤ nsec < 1000000000 →
  let now := Timeval sec (Z.quot nsec 1000) in
  (∀ e, e ∈ vw_time vw → tv_normal (tmo (vw_evts vw) e) ∧ 0 ≤ tv_sec (tmo (vw_evts vw) e) ∧
     tv_us (tmo (vw_evts vw) e) - tv_us now < 1000 * (2 ^ 31 - 1)) →
  wp (event_next_timeout fuel b)
    (λ ms s', same_data s s' ∧
       match vw_time vw with
       | [] => ms = EVT_DEF_WAIT_MS
       | e :: _ =>
           let left := tv_us (tmo (vw_evts vw) e) - tv_us now in
           if decide (left ≤ 0) then ms = 0 else left < 1000 * ms ≤ left + 1000
       end) s.
Proof.
  intros Hr Hf Hclock Hsec Hnsec now Htm. eapply refine_next_timeout; [done..|].
  destruct (vw_time vw) as [|e l]; [done|]. intros ts w' s'. rewrite Hclock. intros [= <- <-] Hsame. fold now.
  destruct (Htm e) as (Hn & He & Hmax); [set_solver|].
  assert (tv_normal now) as Hnow.
  { unfold tv_normal, now. simpl. rewrite Z.quot_div_nonneg by lia.
    split; [apply Z.div_pos; lia|apply Z.div_lt_upper_bound; lia]. }
  destruct (decide (tv_le (tmo (vw_evts vw) e) now)) as [Hle|Hle].
  - exists 0. split.
    + unfold wait_for. rewrite bool_decide_true; [done|].
      assert (¬ event_timecmp (tmo (vw_evts vw) e) now > 0); [|lia]. rewrite event_timecmp_gt. tauto.
    + split; [done|]. rewrite tv_le_us in Hle by done. by rewrite decide_True by lia.
  - assert (is_Some (wait_for (tmo (vw_evts vw) e) now)) as [ms Hms].
    { apply wait_for_defined; [done..| |simpl; lia|done]. unfold tv_us, tv_normal, now in *. simpl in *. lia. }
    exists ms. split; [done|]. split; [done|]. pose proof (wait_for_bounds _ _ _ Hn Hnow Hle Hmax Hms) as Hb.
    rewrite tv_le_us in Hle by done. by rewrite decide_False by lia.
Qed.

(** The next deadline of a persistent event with an interval is never in the past:
    it is one interval after the previous one (after now when it became active
    for another reason), or one interval from now when that has been missed. *)
Theorem next_deadline_periodic `{!ClockOk W} (evt : wba_evt) (now : timeval) :
  times_ok evt → clock_says (W:=W) now → has (evt_flags evt) WBA_EVTLIST_ACTIVE = true →
  ∃ d, next_deadline evt now = Some d ∧ tv_normal d ∧ tv_le now d ∧
    (tv_us d = tv_us (if has (evt_res evt) WBA_EVT_TIMEOUT then evt_timeout evt else now)
               + tv_us (evt_user_timeout evt) ∨
     tv_us d = tv_us now + tv_us (evt_user_timeout evt)).
Proof.
  intros Hok Hnow Ha. destruct (next_deadline_total evt now Hok Hnow Ha) as (d & Hd & Hn & _ & Hle).
  exists d. do 3 (split; [done|]). unfold next_deadline in Hd.
  set (last := if has (evt_res evt) WBA_EVT_TIMEOUT then evt_timeout evt else now) in *. cbv zeta in Hd.
  destruct (event_timeadd last (evt_user_timeout evt)) as [d'|] eqn:Hd'; [|done]. simpl in Hd.
  destruct (bool_decide (event_timecmp d' now < 0)); [right|left].
  - by apply event_timeadd_us.
  - injection Hd as <-. by apply event_timeadd_us.
Qed.

(** The timeout tree is kept in deadline order: event_add_timeout puts the event
    behind all events with the same or an earlier deadline. *)
Theorem timer_order s (b : Z) (vw : evview) (e : Z) (evt : wba_evt) (fuel : nat) :
  rep s b vw → vw_evts vw !! e = Some evt → evt_base evt = b → (size (vw_evts vw) < fuel)%nat →
  has (evt_flags evt) WBA_EVTLIST_REG = true → has (evt_flags evt) WBA_EVTLIST_TIMEOUT = false →
  wp (event_add_timeout fuel e)
    (λ _ s', ∃ vw' l1 l2, rep s' b vw' ∧ vw_time vw = l1 ++ l2 ∧ vw_time vw' = l1 ++ e :: l2 ∧
       (∀ x, x ∈ l1 → tv_le (tmo (vw_evts vw) x) (evt_timeout evt)) ∧
       (∀ x, head l2 = Some x → ¬ tv_le (tmo (vw_evts vw) x) (evt_timeout evt))) s.
Proof.
  intros Hr He Hb Hf Hreg Hno. eapply refine_add_timeout; [done..|]. intros s' Hr' _.
  destruct (time_insert_cut (vw_evts vw) (evt_timeout evt) e (vw_time vw)) as (l1 & l2 & Hl & Hi & H1 & H2).
  exists (a_schedule e vw), l1, l2. split_and!; try done. unfold a_schedule. by rewrite He, Hno.
Qed.

(** Wba_event_new returns an initialised event of the base that is on none of its
    lists (a negative descriptor becomes -1, the self pointer the event), or
    NULL; the base stays well formed. *)
Theorem event_new_detached s (b : Z) (vw : evview) (selfptr fd events fn arg e : Z) (w : W) :
  rep s b vw → fn ≠ NULL → sys_malloc sizeof_wba_evt (es_world s) = (e, w) →
  (e ≠ NULL → fresh_block (vw_evts vw) b (cfg_arr (vw_cfg vw)) e) →
  wp (wba_event_new selfptr b fd events fn arg)
    (λ r s', r = e ∧
       rep s' b (if bool_decide (e = NULL) then vw
                 else vw_with_evts (<[e:=fresh_evt selfptr e b fd events fn arg]> (vw_evts vw)) vw)) s.
Proof. intros Hr Hfn Hm Hfr. by eapply refine_event_new. Qed.

(** Wba_event_free detaches the event and frees it: the base is well formed
    without it, and no list or tree of the base reaches the freed memory. *)
Theorem event_free_forgets s (b : Z) (vw : evview) (e : Z) (evt : wba_evt) (fuel : nat) :
  rep s b vw → vw_evts vw !! e = Some evt → evt_base evt = b → (size (vw_evts vw) < fuel)%nat →
  wp (wba_event_free fuel e)
    (λ _ s', ∃ vw', rep s' b vw' ∧ vw_evts vw' !! e = None ∧ (e ∉ vw_time vw') ∧
       (∀ k, lid_ok k → e ∉ vw_lists vw' k) ∧
       (∀ x, x ≠ e → vw_evts vw' !! x = vw_evts vw !! x)) s.
Proof.
  intros Hr He Hb Hf. eapply refine_event_free; [done..|]. intros s' Hr'.
  eexists. split; [exact Hr'|]. simpl. split_and!.
  - apply lookup_delete_eq.
  - rewrite (a_del_time s b e evt vw) by done. rewrite elem_of_rm. naive_solver.
  - intros k Hk. rewrite (a_del_lists s b e evt vw) by done. rewrite elem_of_rm. naive_solver.
  - intros x Hx. rewrite lookup_delete_ne by done. done.
Qed.

(** Wba_evtbase_new, when epoll and the allocator give it what it asks for, returns a
    well-formed base without events: 32 empty slots, an empty tree, an empty
    active list and counters 0. *)
Theorem evtbase_new_empty s (fuel : nat) (epfd : Z) (w1 : W) (b : Z) (w2 : W) (p : Z) (w3 : W) (arr : Z) (w4 : W) :
  sys_epoll_create EVT_POOL_SIZE (es_world s) = (epfd, w1) → epfd ≠ -1 →
  sys_malloc sizeof_wba_evtbase w1 = (b, w2) → b ≠ NULL →
  sys_malloc (sizeof_epoll_event * EVT_NUM_EVENTS) w2 = (p, w3) → p ≠ NULL →
  sys_malloc (sizeof_list_head * EVT_MAP_SIZE) w3 = (arr, w4) → arr ≠ NULL →
  layout (es_evts s) b arr → (∀ e evt, es_evts s !! e = Some evt → evt_base evt ≠ b) →
  (∀ e, is_Some (es_evts s !! e) → is_Some (es_list s !! evt_next e) ∧
     is_Some (es_list s !! evt_active_next e) ∧ is_Some (rb_nodes (es_rb s) !! evt_time_node e)) →
  (Z.to_nat EVT_MAP_SIZE < fuel)%nat →
  wp (wba_evtbase_new fuel)
    (λ r s', r = b ∧ ∃ buf, rep s' b (empty_view epfd p arr buf (es_evts s))) s.
Proof.
  intros. eapply refine_evtbase_new; [done..|]. intros s' buf Hr. split; [done|]. by exists buf.
Qed.

(** When the base itself cannot be allocated, wba_evtbase_new returns NULL without
    closing the epoll descriptor it has just created: the world is that after
    epoll_create and malloc, no close in between. *)
Theorem evtbase_new_leaks_epfd s (fuel : nat) (epfd : Z) (w1 w2 : W) :
  sys_epoll_create EVT_POOL_SIZE (es_world s) = (epfd, w1) → epfd ≠ -1 →
  sys_malloc sizeof_wba_evtbase w1 = (NULL, w2) →
  wba_evtbase_new fuel s =
  Done (NULL, EvState (es_list s) (es_rb s) (es_evts s) (es_bases s) (es_bufs s) w2).
Proof. apply evtbase_new_no_memory. Qed.

(** C11: Wba_evtbase_free terminates on every well-formed base.  Afterwards the
    events that were in a slot or in the timeout tree have none of the flags that
    say so and all others are as they were; the slot array, the epoll buffer and
    the base have been freed, and the last calls are free of the buffer, close of
    the epoll descriptor and free of the base. *)
Theorem evtbase_free_releases s (b : Z) (vw : evview) (fuel : nat) :
  rep s b vw → (size (vw_evts vw) < fuel)%nat → (Z.to_nat EVT_MAP_SIZE < fuel)%nat →
  wp (wba_evtbase_free fuel b)
    (λ _ s',
       es_evts s' = (λ evt, if bool_decide (evt_base evt = b) &&
                               (has (evt_flags evt) WBA_EVTLIST_REG && wants_map evt || has (evt_flags evt) WBA_EVTLIST_TIMEOUT)
                            then set_flags idle evt else evt) <$> es_evts s ∧
       es_bases s' !! b = None ∧ es_bufs s' !! cfg_events (vw_cfg vw) = None ∧
       (∀ k, lid_ok k → es_list s' !! lid_hdr b (cfg_arr (vw_cfg vw)) k = None) ∧
       rb_roots (es_rb s') !! evt_time_root b = None ∧
       ∃ w, es_world s' = sys_free b (sys_close (cfg_epfd (vw_cfg vw)) (sys_free (cfg_events (vw_cfg vw)) w))) s.
Proof.
  intros Hr H1 H2. eapply wp_mono; [by eapply refine_evtbase_free|]. intros _ s' [G1 G2 G3 G4 G5 G6 G7].
  split_and!; [by rewrite G1, (rep_evts _ _ _ Hr)|done|done| |done|done]. intros [i|] Hk; [by apply G4|done].
Qed.

(** Wba_event_assign refuses a registered event and changes nothing; an event
    that is on no list of the base becomes a fresh, detached event of it, with
    everything else in place.  (An event that is only on the active list must not
    be assigned, see [assign_breaks_active].) *)
Theorem event_assign_result s (b : Z) (vw : evview) (e : Z) (evt : wba_evt) (fd events fn arg : Z) :
  rep s b vw → vw_evts vw !! e = Some evt → fn ≠ NULL →
  (evt_base evt = b → has (evt_flags evt) WBA_EVTLIST_REG = false → has (evt_flags evt) WBA_EVTLIST_ACTIVE = false) →
  wp (wba_event_assign e b fd events fn arg)
    (λ r s', if has (evt_flags evt) WBA_EVTLIST_REG then r = 0 ∧ rep s' b vw
             else r = 1 ∧ rep s' b (vw_with_evts (<[e:=assigned_evt b fd events fn arg]> (vw_evts vw)) vw)) s.
Proof. intros Hr He Hfn Ha. by eapply refine_event_assign. Qed.

End props.

(** On normalised times event_timeadd and event_timesub are exact in microseconds
    and give normalised times, and event_timecmp compares microseconds. *)
Theorem time_arithmetic (a b : timeval) :
  tv_normal a → tv_normal b → - 2 ^ 61 ≤ tv_sec a ≤ 2 ^ 61 → - 2 ^ 61 ≤ tv_sec b ≤ 2 ^ 61 →
  (∃ t, event_timeadd a b = Some t ∧ tv_normal t ∧ tv_us t = tv_us a + tv_us b) ∧
  (∃ t, event_timesub a b = Some t ∧ tv_normal t ∧ tv_us t = tv_us a - tv_us b) ∧
  event_timecmp a b = Z.sgn (tv_us a - tv_us b).
Proof.
  intros Ha Hb Hsa Hsb. split; [|split].
  - destruct (event_timeadd_total a b) as [t Ht]; [done..|unfold in_s64; lia|unfold in_s64; lia|].
    exists t. split; [done|]. split; [exact (event_timeadd_normal _ _ _ Ha Hb Ht)|by apply event_timeadd_us].
  - destruct (event_timesub_total a b) as [t Ht]; [done..|unfold in_s64; lia|unfold in_s64; lia|].
    exists t. split; [done|]. split; [exact (event_timesub_normal _ _ _ Ha Hb Ht)|by apply event_timesub_us].
  - destruct (event_timecmp_spec a b) as [[-> H]|[[-> ->]|[-> H]]].
    + rewrite tv_le_us in H by done. rewrite Z.sgn_neg by lia. done.
    + by rewrite Z.sub_diag.
    + rewrite tv_le_us in H by done. rewrite Z.sgn_pos by lia. done.
Qed.

(** ** What the code does at its limits *)

(** The slot is all event_map_active looks at: a report for descriptor 37 makes the
    event registered for descriptor 5 active, since both hash to slot 5. *)
Theorem map_active_ignores_fd :
  ∃ evt, es_evts (exec (event_map_active 40 4096 37 WBA_EVT_READ) ev_io) !! 5064 = Some evt ∧
    evt_fd evt = 5 ∧ has (evt_flags evt) WBA_EVTLIST_ACTIVE = true ∧ evt_res evt = WBA_EVT_READ.
Proof. eexists. split; [by vm_compute|]. by vm_compute. Qed.

(** A deadline 2147484 seconds away (about 25 days) gives a negative waiting time,
    which makes epoll_wait wait without limit. *)
Theorem wait_overflows : ∃ ms, wait_for (Timeval 2147584 0) (Timeval 100 0) = Some ms ∧ ms < 0.
Proof. eexists. split; by vm_compute. Qed.

(** Wba_event_add accepts an interval of five million microseconds;
    the deadline it computes at 100 s is 105 s, but it is not normalised and compares
    as passed already at 102 s. *)
Theorem unnormalised_interval_fires_early :
  ∃ d, event_timeadd (Timeval 100 0) (Timeval 0 5000000) = Some d ∧ tv_us d = 105 * 1000000 ∧
    event_timecmp d (Timeval 102 0) < 0.
Proof. eexists. split; [by vm_compute|]. by vm_compute. Qed.

(** Two timers have passed and are active, so neither is registered.  The callback of the first
    one assigns the second one again: the call succeeds and zeroes the event while it is linked,
    and the loop over the active list then follows a null pointer. *)
Definition two_timers : evstate demo :=
  exec (event_process_timeout 40 4096)
    (exec (event_add 40 5192 (Some (Timeval 99 0)) true) (exec (event_add 40 5064 (Some (Timeval 98 0)) true) ev_two)).
Definition assigning_callback (fn fd res arg : Z) : cmd (evstate demo) () :=
  if bool_decide (fd = 5) then wba_event_assign 5192 4096 7 1 77 0;; mret () else mret ().

Theorem assign_breaks_active : event_process_active assigning_callback 40 4096 two_timers = Fault.
Proof. by vm_compute. Qed.

(** ** Instances *)

(** A system whose malloc always fails. *)
#[local] Instance poor_system : System () := {|
  sys_epoll_create _ w := (3, w);
  sys_epoll_ctl _ _ _ _ w := (0, w);
  sys_epoll_wait _ _ _ w := (0, [], w);
  sys_close _ w := w;
  sys_clock_gettime w := (Some (100, 500000), w);
  sys_malloc _ w := (NULL, w);
  sys_free _ w := w;
  sys_indet _ := 0;
|}.

(** A peer that sends a full buffer of letters. *)
#[local] Instance long_reads : TestSystem () := {|
  sys_read _ w := (1024, replicate sizeof_buf 65, w);
  sys_write _ data w := (Z.of_nat (length data), w);
  static_buf _ := [];
  set_static_buf _ w := w;
|}.

Lemma evtbase_free_releases_witness :
  wp (wba_evtbase_free 40 4096)
    (λ _ s',
       es_evts s' = (λ evt, if bool_decide (evt_base evt = 4096) &&
                               (has (evt_flags evt) WBA_EVTLIST_REG && wants_map evt || has (evt_flags evt) WBA_EVTLIST_TIMEOUT)
                            then set_flags idle evt else evt) <$> es_evts ev_active ∧
       es_bases s' !! 4096 = None ∧ es_bufs s' !! cfg_events (vw_cfg vw_active) = None ∧
       (∀ k, lid_ok k → es_list s' !! lid_hdr 4096 (cfg_arr (vw_cfg vw_active)) k = None) ∧
       rb_roots (es_rb s') !! evt_time_root 4096 = None ∧
       ∃ w, es_world s' = sys_free 4096 (sys_close (cfg_epfd (vw_cfg vw_active)) (sys_free (cfg_events (vw_cfg vw_active)) w))) ev_active.
Proof. apply (evtbase_free_releases ev_active 4096 vw_active 40); [apply rep_ev_active|by vm_compute; lia|by vm_compute; lia]. Defined.

Lemma event_assign_result_witness :
  wp (wba_event_assign 5192 4096 7 1 77 0)
    (λ r s', r = 1 ∧ rep s' 4096 (vw_with_evts (<[5192:=assigned_evt 4096 7 1 77 0]> (vw_evts vw_two)) vw_two)) ev_two.
Proof. apply (event_assign_result ev_two 4096 vw_two 5192 timer_evt 7 1 77 0); [apply rep_ev_two|by vm_compute|done|done]. Defined.

Lemma event_loop_turn_witness :
  wp (wba_event_loop_body quiet_callback 40 4096 1)
    (λ r s', ∃ vw', turn 4096 quiet_callback ev_active vw_active 1 r s' vw' ∧ rep s' 4096 vw' ∧ good 40 vw' ∧ mine s' ∧
       match r with
       | inr res => vw' = vw_active ∧ (idle_base vw_active ∧ res = 1 ∨ ¬ idle_base vw_active ∧ res = 0)
       | inl res => ¬ idle_base vw_active ∧ 0 ≤ res ≤ EVT_NUM_EVENTS ∧ vw_lists vw' Active = []
       end) ev_active.
Proof.
  apply (event_loop_turn 40 4096 quiet_callback ev_active vw_active 1);
    [apply quiet_callback_ok|apply rep_ev_active|apply good_ev_active|done|vm_compute; lia|apply demo_epoll_ok].
Defined.

Lemma event_loop_runs_witness :
  match wba_event_loop quiet_callback 40 4096 ev_active with
  | Done (r, s') => ∃ vw', turns 4096 quiet_callback ev_active vw_active 1 r s' vw' ∧ rep s' 4096 vw' ∧ good 40 vw' ∧ mine s' ∧
      0 ≤ r ≤ EVT_NUM_EVENTS ∧ ended r s' vw'
  | Fault => False
  | OutOfFuel => True
  end.
Proof.
  apply (event_loop_runs 40 4096 quiet_callback ev_active vw_active);
    [apply quiet_callback_ok|apply rep_ev_active|apply good_ev_active|done|vm_compute; lia|apply demo_epoll_ok].
Defined.

Lemma test_program_safe_witness :
  timeout_test02 40 1 4096 ev_base = Done (tt, ev_test) ∧
  match wba_event_loop (test_callback 40) 40 4096 ev_test with
  | Done (r, s') => 0 ≤ r ≤ EVT_NUM_EVENTS
  | Fault => False
  | OutOfFuel => True
  end.
Proof.
  split; [apply ev_test_run|]. destruct rep_ev_test as (vw & Hr & Hg).
  pose proof (test_program_safe 40 4096 ev_test vw demo_reads Hr Hg) as H.
  assert (Z.to_nat EVT_NUM_EVENTS < 40)%nat as H1 by (vm_compute; lia).
  specialize (H ev_test_buf H1 demo_epoll_ok). destruct (wba_event_loop _ _ _ _) as [[r s']| |]; [|done..].
  by destruct H as (vw' & _ & _ & Hres & _).
Defined.

Lemma event_add_result_witness :
  wp (wba_event_add 40 5064 (Some (Timeval 1 0)))
    (λ res s', ∃ vw', add_outcome (W:=demo) vw_two 5064 io_evt (Some (Timeval 1 0)) false res vw' ∧ rep s' 4096 vw') ev_two ∧
  wp (wba_event_add 40 5064 (Some (Timeval (-1) 0))) (λ res s', res = 0 ∧ s' = ev_two) ev_two.
Proof.
  split.
  - apply (event_add_result ev_two 4096 vw_two 5064 io_evt 40 (Some (Timeval 1 0)));
      [apply rep_ev_two|by vm_compute|done|by vm_compute; lia|].
    intros t [= <-] _ _ w. exists 100, 500000, w, (Timeval 101 500). done.
  - apply (event_add_result ev_two 4096 vw_two 5064 io_evt 40 (Some (Timeval (-1) 0)));
      [apply rep_ev_two|by vm_compute|done|by vm_compute; lia|]. intros t [= <-]. simpl. lia.
Defined.

Lemma full_read_faults_witness :
  io_read_cb01 (W:=()) 40 5 WBA_EVT_READ 5064 (EvState ∅ (RbMem ∅ ∅) ∅ ∅ ∅ ()) = Fault.
Proof. apply (full_read_faults 40 5 5064 1024 (replicate sizeof_buf 65) ()); [done|lia|apply length_replicate|]. rewrite elem_of_replicate. lia. Defined.

Definition timer_added : wba_evt := WbaEvt 77 0 (-1) 4096 11 0 0 (Timeval 0 0) (Timeval 99 0).

Lemma event_del_detaches_witness :
  wp (wba_event_del 40 5192)
    (λ res s', ∃ vw', rep s' 4096 vw' ∧ del_res (W:=demo) vw_timer timer_added res ∧
       vw_evts vw' = <[5192:=set_flags idle timer_added]> (vw_evts vw_timer) ∧
       vw_time vw' = rm 5192 (vw_time vw_timer) ∧
       (∀ k, lid_ok k → vw_lists vw' k = rm 5192 (vw_lists vw_timer k))) ev_timer.
Proof.
  apply (event_del_detaches ev_timer 4096 vw_timer 5192 timer_added 40);
    [apply rep_ev_timer|by vm_compute|done|by vm_compute; lia].
Defined.

Lemma process_timeout_exact_witness :
  let now := Timeval 100 500 in
  let fired := due (vw_evts vw_timer) now (vw_time vw_timer) in
  fired = [5192] ∧
  wp (event_process_timeout 40 4096)
    (λ n s', n = Z.of_nat (length fired) ∧ ∃ vw', rep s' 4096 vw' ∧
       vw_time vw' = not_due (vw_evts vw_timer) now (vw_time vw_timer) ∧
       vw_lists vw' Active = filter (λ e, e ∉ fired) (vw_lists vw_timer Active) ++ fired) ev_timer.
Proof.
  split; [by vm_compute|].
  apply (process_timeout_exact ev_timer 4096 vw_timer 40 100 500000 (es_world ev_timer));
    [apply rep_ev_timer|by vm_compute; lia|done].
Defined.

Lemma process_active_drains_witness :
  vw_lists vw_active Active = [5064] ∧
  wp (event_process_active quiet_callback 40 4096)
    (λ n s', n = Z.of_nat (length (vw_lists vw_active Active)) ∧
       ∃ vw', drained quiet_callback 4096 (vw_lists vw_active Active) ev_active vw_active s' vw' ∧ rep s' 4096 vw' ∧
         good 40 vw' ∧ vw_lists vw' Active = []) ev_active.
Proof.
  split; [by vm_compute|].
  apply (process_active_drains 40 4096 quiet_callback ev_active vw_active);
    [apply quiet_callback_ok|apply rep_ev_active|apply good_ev_active|done].
Defined.

Lemma map_active_slot_witness :
  filter (λ e, wakes (vw_evts vw_io) 1 e = true) (vw_lists vw_io (Slot 5)) = [5064] ∧
  wp (event_map_active 40 4096 5 1)
    (λ _ s', ∃ vw', rep s' 4096 vw' ∧
       vw_lists vw' Active = vw_lists vw_io Active ++
         filter (λ e, wakes (vw_evts vw_io) 1 e = true) (vw_lists vw_io (Slot (slot_of 5)))) ev_io.
Proof.
  split; [by vm_compute|].
  apply (map_active_slot ev_io 4096 vw_io 5 1 40); [apply rep_ev_io|by vm_compute; lia|lia].
Defined.

Lemma next_timeout_wait_witness :
  wp (event_next_timeout 40 4096)
    (λ ms s', same_data ev_timer s' ∧
       match vw_time vw_timer with
       | [] => ms = EVT_DEF_WAIT_MS
       | e :: _ =>
           let left := tv_us (tmo (vw_evts vw_timer) e) - tv_us (Timeval 100 500) in
           if decide (left ≤ 0) then ms = 0 else left < 1000 * ms ≤ left + 1000
       end) ev_timer.
Proof.
  apply (next_timeout_wait ev_timer 4096 vw_timer 40 100 500000 (es_world ev_timer));
    [apply rep_ev_timer|by vm_compute; lia|done|lia|lia|].
  assert (vw_time vw_timer = [5192]) as -> by (by vm_compute). intros e He%list_elem_of_singleton. subst e.
  assert (tmo (vw_evts vw_timer) 5192 = Timeval 99 0) as -> by (by vm_compute). done.
Defined.

Definition late_evt : wba_evt := WbaEvt 77 0 (-1) 4096 7 16 4 (Timeval 2 0) (Timeval 95 0).

Lemma next_deadline_periodic_witness :
  ∃ d, next_deadline late_evt (Timeval 100 500) = Some d ∧ tv_normal d ∧ tv_le (Timeval 100 500) d ∧
    (tv_us d = tv_us (Timeval 95 0) + tv_us (Timeval 2 0) ∨ tv_us d = tv_us (Timeval 100 500) + tv_us (Timeval 2 0)).
Proof.
  apply (next_deadline_periodic (W:=demo) late_evt (Timeval 100 500)); [|by exists (0, []), (0, []), 100, 500000|by vm_compute].
  unfold times_ok, interval_ok, tv_normal. simpl. split_and!; lia.
Defined.

(** The timer registered but not scheduled. *)
Definition ev_reg : evstate demo := exec (event_add 40 5192 None false) ev_two.
Definition timer_reg : wba_evt := WbaEvt 77 0 (-1) 4096 3 0 0 (Timeval 0 0) (Timeval 0 0).

Lemma rep_ev_reg : rep ev_reg 4096 (a_register 5192 vw_two).
Proof.
  destruct (exec_wp (event_add 40 5192 None false) (λ r s', rep s' 4096 (a_register 5192 vw_two)) ev_two) as (_ & H); [|done].
  eapply refine_event_add; [apply rep_ev_two|by vm_compute|done|by vm_compute; lia|done|].
  intros res s' vw' Ho Hr. inversion Ho; simplify_eq; done.
Qed.

Lemma timer_order_witness :
  wp (event_add_timeout 40 5192)
    (λ _ s', ∃ vw' l1 l2, rep s' 4096 vw' ∧ vw_time (a_register 5192 vw_two) = l1 ++ l2 ∧
       vw_time vw' = l1 ++ 5192 :: l2 ∧
       (∀ x, x ∈ l1 → tv_le (tmo (vw_evts (a_register 5192 vw_two)) x) (Timeval 0 0)) ∧
       (∀ x, head l2 = Some x → ¬ tv_le (tmo (vw_evts (a_register 5192 vw_two)) x) (Timeval 0 0))) ev_reg.
Proof.
  apply (timer_order ev_reg 4096 (a_register 5192 vw_two) 5192 timer_reg 40);
    [apply rep_ev_reg|by vm_compute|done|by vm_compute; lia|done|done].
Defined.

Lemma event_new_detached_witness :
  wp (wba_event_new 1 4096 7 1 77 1)
    (λ r s', r = 5064 ∧ rep s' 4096 (vw_with_evts (<[5064:=fresh_evt 1 5064 4096 7 1 77 1]> ∅) vw_base)) ev_base.
Proof.
  apply (event_new_detached ev_base 4096 vw_base 1 7 1 77 1 5064 (5192, zeroed)); [apply rep_ev_base|done|by vm_compute|].
  intros _. constructor; try (intros e' [? [=]]); cbn -[Z.divide]; unfold_sizes; [|lia..].
  split_and!; [lia..|by exists 633].
Defined.

Lemma event_free_forgets_witness :
  wp (wba_event_free 40 5192)
    (λ _ s', ∃ vw', rep s' 4096 vw' ∧ vw_evts vw' !! 5192 = None ∧ (5192 ∉ vw_time vw') ∧
       (∀ k, lid_ok k → 5192 ∉ vw_lists vw' k) ∧
       (∀ x, x ≠ 5192 → vw_evts vw' !! x = vw_evts vw_timer !! x)) ev_timer.
Proof.
  apply (event_free_forgets ev_timer 4096 vw_timer 5192 timer_added 40);
    [apply rep_ev_timer|by vm_compute|done|by vm_compute; lia].
Defined.

Lemma evtbase_new_empty_witness :
  wp (wba_evtbase_new 40) (λ r s', r = 4096 ∧ ∃ buf, rep s' 4096 (empty_view 3 4168 4552 buf ∅)) ev_empty.
Proof.
  apply (evtbase_new_empty ev_empty 40 3 (4096, zeroed) 4096 (4168, zeroed) 4168 (4552, zeroed) 4552 (5064, zeroed)); try done.
  - constructor; try (intros e [? [=]]); try (intros e e' [? [=]]); unfold apart; try done. by left.
  - intros e [? [=]].
  - vm_compute. lia.
Defined.

Lemma evtbase_new_leaks_epfd_witness :
  wba_evtbase_new 40 (EvState ∅ (RbMem ∅ ∅) ∅ ∅ ∅ ()) = Done (NULL, EvState ∅ (RbMem ∅ ∅) ∅ ∅ ∅ ()).
Proof. apply (evtbase_new_leaks_epfd (EvState ∅ (RbMem ∅ ∅) ∅ ∅ ∅ ()) 40 3 () ()); done. Defined.

Lemma time_arithmetic_witness :
  (∃ t, event_timeadd (Timeval 1 900000) (Timeval 2 300000) = Some t ∧ tv_normal t ∧
     tv_us t = tv_us (Timeval 1 900000) + tv_us (Timeval 2 300000)) ∧
  (∃ t, event_timesub (Timeval 1 900000) (Timeval 2 300000) = Some t ∧ tv_normal t ∧
     tv_us t = tv_us (Timeval 1 900000) - tv_us (Timeval 2 300000)) ∧
  event_timecmp (Timeval 1 900000) (Timeval 2 300000) = -1.
Proof. apply (time_arithmetic (Timeval 1 900000) (Timeval 2 300000)); try done; simpl; lia. Defined.
