(* ===== verification/PropsStr.v ===== *)
(** * Properties of the growable strings (wba_str.c)

    Instantiated on a memory with one string, "ab" with capacity 4, and the
    concrete allocator. *)

From stdpp Require Import gmap numbers list.
From S2P Require Import Prelude CAlloc WbaStr WbaStrSpec WbaTok.

Local Open Scope Z_scope.

Definition demo_mem : strmem (gset Z) :=
  StrMem {[1 := WbaStr 2 4 2]} {[2 := [Some 97; Some 98; Some 0; None; None]]} ∅ {[1; 2]}.

Lemma demo_str : str_at demo_mem 1 2 [97; 98] 4.
Proof. constructor; [done| |done|done]. eexists. split; [done|]. split; [done|]. by exists [None; None]. Qed.

Lemma demo_heap_ok : heap_ok demo_mem.
Proof. unfold heap_ok. simpl. split_and!; set_solver. Qed.

Section props.
Context {W : Type} `{!Alloc W}.
Implicit Types (s : strmem W).

(** Wba_strnewlen returns a string of exactly the requested length with the
    bytes of the source (zeros when there is none) and a terminator, or NULL
    with every buffer as it was. *)
Theorem strnewlen_contents s (init : option (list Z)) (initlen : Z) :
  0 ≤ initlen → initlen + 1 < 2 ^ 64 →
  (∀ src, init = Some src → initlen ≤ Z.of_nat (length src)) →
  wp (wba_strnewlen init initlen)
    (λ ws s', sm_tabs s' = sm_tabs s ∧
       (ws = NULL ∧ sm_bufs s' = sm_bufs s ∨
        ∃ buf, str_at s' ws buf (match init with Some src => take (Z.to_nat initlen) src
                                 | None => replicate (Z.to_nat initlen) 0 end) initlen)) s.
Proof.
  intros H0 Hmax Hsrc. apply wp_strnewlen; [done..| |].
  - intros s' Ht Hb. split; [done|]. by left.
  - intros s' ws buf c -> Hs Ht. split; [done|]. right. by exists buf.
Qed.

(** Wba_strncpy with a length that is not zero replaces the contents by that
    many bytes of the source, growing the buffer when needed, and returns the
    string; it returns NULL only when the bytes did not fit the old buffer and
    no larger one was to be had, and then the string is as before. *)
Theorem strncpy_replaces s (ws buf : Z) (c : list Z) (cap : Z) (src : list Z) (len : Z) :
  str_at s ws buf c cap → 0 < len ≤ Z.of_nat (length src) → size_ok len →
  wp (wba_strncpy ws (Some src) len)
    (λ r s', sm_tabs s' = sm_tabs s ∧
       (r = ws ∧ (∃ buf', str_at s' ws buf' (take (Z.to_nat len) src) (reserved cap len)) ∨
        r = NULL ∧ cap < len ∧ str_at s' ws buf c cap)) s.
Proof.
  intros Hs Hlen Hsz. eapply wp_strncpy; [done|lia|done|..].
  - intros s' buf' c' cap' -> -> Hs' Ht. rewrite !decide_False in Hs' by lia. split; [done|]. left. eauto.
  - intros s' Hs' Hcap Ht. split; [done|]. by right.
Qed.

(** Copying zero bytes does not empty the string: wba_strncpy, and
    wba_strcpy of an empty C string, return it with its old contents. *)
Theorem strncpy_zero_keeps s (ws buf : Z) (c : list Z) (cap : Z) (src : list Z) :
  str_at s ws buf c cap →
  wba_strncpy ws (Some src) 0 s = Done (ws, s) ∧ wba_strcpy ws (Some (0 :: src)) s = Done (ws, s).
Proof.
  intros [_ _ [Hn _] _]. unfold wba_strcpy, wba_strncpy. rewrite (bool_decide_false (ws = NULL)) by done. done.
Qed.

(** Wba_strncat appends that many bytes of the source to the contents, or
    returns NULL with the string as before when the longer one did not fit. *)
Theorem strncat_appends s (ws buf : Z) (c : list Z) (cap : Z) (src : list Z) (len : Z) :
  str_at s ws buf c cap → 0 ≤ len ≤ Z.of_nat (length src) →
  (len ≠ 0 → size_ok (Z.of_nat (length c) + len)) →
  wp (wba_strncat ws (Some src) len)
    (λ r s', sm_tabs s' = sm_tabs s ∧
       (r = ws ∧ (∃ buf' cap', str_at s' ws buf' (c ++ take (Z.to_nat len) src) cap') ∨
        r = NULL ∧ cap < Z.of_nat (length c) + len ∧ str_at s' ws buf c cap)) s.
Proof.
  intros Hs Hlen Hsz. eapply wp_strncat; [done..| |].
  - intros s' buf' cap' Hs' Ht. split; [done|]. left. eauto.
  - intros s' Hs' Hcap Ht. split; [done|]. by right.
Qed.

(** Wba_strcat appends a C string up to its terminator, whatever follows it
    in memory. *)
Theorem strcat_c_string s (ws buf : Z) (c : list Z) (cap : Z) (d junk : list Z) :
  str_at s ws buf c cap → 0 ∉ d → size_ok (Z.of_nat (length c) + Z.of_nat (length d)) →
  wp (wba_strcat ws (Some (d ++ 0 :: junk)))
    (λ r s', (r = ws ∧ (∃ buf' cap', str_at s' ws buf' (c ++ d) cap')) ∨
             (r = NULL ∧ str_at s' ws buf c cap)) s.
Proof.
  intros Hs Hd Hsz. unfold wba_strcat. rewrite bool_decide_false by apply Hs.
  apply wp_bind. eapply wp_of_option; [by apply strlen_app|].
  eapply wp_strncat; [done|rewrite length_app; lia|done|..].
  - intros s' buf' cap' Hs' Ht. rewrite Nat2Z.id, take_app_length in Hs'. left. eauto.
  - intros s' Hs' Hcap Ht. by right.
Qed.

(** Wba_strcat_printf appends the formatted text, terminator included in the
    room it reserves, or returns NULL with the string as before. *)
Theorem strcat_printf_appends s (ws buf : Z) (c : list Z) (cap : Z) (text : list Z) :
  str_at s ws buf c cap → size_ok (Z.of_nat (length c) + Z.of_nat (length text)) →
  wp (wba_strcat_printf ws (Some text))
    (λ r s', (r = ws ∧ (∃ buf' cap', str_at s' ws buf' (c ++ text) cap')) ∨
             (r = NULL ∧ str_at s' ws buf c cap)) s.
Proof.
  intros Hs Hsz. unfold wba_strcat_printf. eapply wp_strcat_vprintf; [done..| |].
  - intros s' buf' cap' Hs' Ht. left. eauto.
  - intros s' Hs' Ht. by right.
Qed.

(** Wba_str_reserve keeps the contents and the terminator and leaves room for
    at least the requested length: twice that below 1 MB, 1 MB more above. *)
Theorem str_reserve_keeps s (ws buf : Z) (c : list Z) (cap need : Z) :
  str_at s ws buf c cap → size_ok need →
  wp (wba_str_reserve ws need)
    (λ r s', (r = ws ∧ need ≤ reserved cap need ∧ ∃ buf', str_at s' ws buf' c (reserved cap need)) ∨
             (r = NULL ∧ cap < need ∧ str_at s' ws buf c cap)) s.
Proof.
  intros Hs [Hn Hsz]. eapply wp_str_reserve; [done..| |].
  - intros s' buf' Hs' Hle _. left. eauto.
  - intros s' Hs' Hlt _. by right.
Qed.

Context `{!AllocOk W}.

(** C31: wba_strntok returns the pieces of the text between separators, empty
    pieces dropped, in order, each as a new string, with their number; when
    memory runs out it returns NULL and everything it allocated is freed. *)
Theorem strntok_tokens s (sep : list Z) (seplen : Z) (text extra : list Z) (fuel : nat) :
  heap_ok s → 0 < seplen ≤ Z.of_nat (length sep) → Z.of_nat (length text) < 2 ^ 30 - 1 →
  (length text < fuel)%nat →
  wp (wba_strntok fuel (Some (text ++ extra)) (Z.of_nat (length text)) (Some sep) seplen)
    (λ '(wss, cnt) s', wss = NULL ∧ same_mem s s' ∨
       ∃ ts slots, toks_added s s' ts ∧ tab_at s s' wss slots ts ∧ cnt = Z.of_nat (length ts) ∧
         tok_str <$> ts = tokens (take (Z.to_nat seplen) sep) text) s.
Proof. intros Hh Hsep Hlen Hfuel. apply wp_strntok; [done..|]. by intros [wss cnt] s' Hr. Qed.

(** C32: splitting a C string with wba_strtok and giving the result to
    wba_strfree_tokens with the count leaves the memory as it was before. *)
Theorem strtok_free_roundtrip s (sep text junk junk' : list Z) (fuel : nat) :
  heap_ok s → 0 ∉ sep → sep ≠ [] → 0 ∉ text → Z.of_nat (length text) < 2 ^ 30 - 1 →
  (length text < fuel)%nat →
  wp ('(wss, cnt) ← wba_strtok fuel (Some (text ++ 0 :: junk)) (Some (sep ++ 0 :: junk'));
      wba_strfree_tokens fuel wss cnt) (λ _ s', same_mem s s') s.
Proof.
  intros Hh Hsep Hne Htext Hlen Hfuel. apply wp_bind. unfold wba_strtok.
  apply wp_bind. eapply wp_of_option; [by apply strlen_app|]. apply wp_bind. eapply wp_of_option; [by apply strlen_app|].
  apply wp_strntok; [done| |done|done|].
  { rewrite length_app. destruct sep; simpl; [done|lia]. }
  intros [wss cnt] s' [[Hn Hs]|(ts & slots & Ht & Htab & Hc & Hts)].
  - simpl in Hn. subst wss. unfold wba_strfree_tokens. rewrite bool_decide_true by done. by apply wp_ret.
  - simpl in Hc, Htab. subst cnt. eapply wp_abandon; [done|done| |done].
    rewrite <-(length_fmap tok_str), Hts. eapply Nat.le_lt_trans; [apply tokens_length|done].
Qed.

End props.

Lemma strnewlen_contents_witness :
  wp (wba_strnewlen (Some [104; 105; 0]) 2)
    (λ ws s', sm_tabs s' = sm_tabs demo_mem ∧
       (ws = NULL ∧ sm_bufs s' = sm_bufs demo_mem ∨ ∃ buf, str_at s' ws buf [104; 105] 2)) demo_mem.
Proof. apply (strnewlen_contents demo_mem (Some [104; 105; 0]) 2); [lia|lia|]. intros src [= <-]. simpl. lia. Defined.

Lemma strncpy_replaces_witness :
  wp (wba_strncpy 1 (Some [104; 105; 0]) 2)
    (λ r s', sm_tabs s' = sm_tabs demo_mem ∧
       (r = 1 ∧ (∃ buf', str_at s' 1 buf' [104; 105] 4) ∨ r = NULL ∧ 4 < 2 ∧ str_at s' 1 2 [97; 98] 4)) demo_mem.
Proof. apply (strncpy_replaces demo_mem 1 2 [97; 98] 4 [104; 105; 0] 2 demo_str); [simpl; lia|done]. Defined.

Lemma strncpy_zero_keeps_witness : wba_strcpy 1 (Some [0]) demo_mem = Done (1, demo_mem).
Proof. apply (strncpy_zero_keeps demo_mem 1 2 [97; 98] 4 [] demo_str). Defined.

Lemma strncat_appends_witness :
  wp (wba_strncat 1 (Some [99; 100; 101]) 3)
    (λ r s', sm_tabs s' = sm_tabs demo_mem ∧
       (r = 1 ∧ (∃ buf' cap', str_at s' 1 buf' [97; 98; 99; 100; 101] cap') ∨
        r = NULL ∧ 4 < 2 + 3 ∧ str_at s' 1 2 [97; 98] 4)) demo_mem.
Proof. apply (strncat_appends demo_mem 1 2 [97; 98] 4 [99; 100; 101] 3 demo_str); [simpl; lia|done]. Defined.

Lemma strcat_c_string_witness :
  wp (wba_strcat 1 (Some [99; 0; 7; 0]))
    (λ r s', (r = 1 ∧ (∃ buf' cap', str_at s' 1 buf' [97; 98; 99] cap')) ∨
             (r = NULL ∧ str_at s' 1 2 [97; 98] 4)) demo_mem.
Proof. apply (strcat_c_string demo_mem 1 2 [97; 98] 4 [99] [7; 0] demo_str); [set_solver|done]. Defined.

Lemma strcat_printf_appends_witness :
  wp (wba_strcat_printf 1 (Some [49; 50]))
    (λ r s', (r = 1 ∧ (∃ buf' cap', str_at s' 1 buf' [97; 98; 49; 50] cap')) ∨
             (r = NULL ∧ str_at s' 1 2 [97; 98] 4)) demo_mem.
Proof. apply (strcat_printf_appends demo_mem 1 2 [97; 98] 4 [49; 50] demo_str). done. Defined.

Lemma str_reserve_keeps_witness :
  wp (wba_str_reserve 1 10)
    (λ r s', (r = 1 ∧ 10 ≤ 20 ∧ ∃ buf', str_at s' 1 buf' [97; 98] 20) ∨
             (r = NULL ∧ 4 < 10 ∧ str_at s' 1 2 [97; 98] 4)) demo_mem.
Proof. apply (str_reserve_keeps demo_mem 1 2 [97; 98] 4 10 demo_str). done. Defined.

(** ",ab,,c" split at ','. *)
Lemma strntok_tokens_witness :
  wp (wba_strntok 10 (Some [44; 97; 98; 44; 44; 99]) 6 (Some [44; 0]) 1)
    (λ '(wss, cnt) s', wss = NULL ∧ same_mem demo_mem s' ∨
       ∃ ts slots, toks_added demo_mem s' ts ∧ tab_at demo_mem s' wss slots ts ∧ cnt = Z.of_nat (length ts) ∧
         tok_str <$> ts = [[97; 98]; [99]]) demo_mem.
Proof.
  apply (strntok_tokens demo_mem [44; 0] 1 [44; 97; 98; 44; 44; 99] [] 10 demo_heap_ok); simpl; lia.
Defined.

Lemma strtok_free_roundtrip_witness :
  wp ('(wss, cnt) ← wba_strtok 10 (Some [44; 97; 98; 44; 44; 99; 0]) (Some [44; 0]);
      wba_strfree_tokens 10 wss cnt) (λ _ s', same_mem demo_mem s') demo_mem.
Proof.
  apply (strtok_free_roundtrip demo_mem [44] [44; 97; 98; 44; 44; 99] [] [] 10 demo_heap_ok);
    [set_solver|done|set_solver|simpl; lia|simpl; lia].
Defined.
