(* ===== verification/PropsSkip.v ===== *)
(** * Properties of the skip list (skiplist.c)

    Instantiated on a list of two objects with the keys 10 and 20 (object [o]
    has the key [o - 1000]), the second of them on two levels. *)

From stdpp Require Import gmap numbers functions sorting list.
From S2P Require Import Prelude CAlloc Chain SkipList SkipRep SkipSpec SkipInsert SkipOps SkipDelete SkipFree.

Local Open Scope Z_scope.

Section props.
Context {K W : Type} `{!Alloc W, !Rand W, !AllocOk W, !RandOk W}.
Context (cmp : K → K → Z) `{!KeyOrder cmp} (get_key : Z → K).
Implicit Types (s : skmem K W) (ob : Z → Z) (ls : nat → list Z).
Abbreviation list_rep := (list_rep cmp get_key).
Abbreviation kof := (kof get_key).

(** Search as a function of the levels. *)
Lemma search_found fuel sk L ls ob k s :
  list_rep s sk L ls ob → (length (ls 0%nat) < fuel)%nat →
  sklist_search fuel sk (Some k) s =
  Done (match top_match cmp get_key ob ls k (Z.to_nat (sl_level L)) with Some x => ob x | None => NULL end, s).
Proof.
  intros Hrep Hfuel.
  assert (wp (sklist_search fuel sk (Some k)) (λ r s', s' = s ∧
    r = match top_match cmp get_key ob ls k (Z.to_nat (sl_level L)) with Some x => ob x | None => NULL end) s) as
    (r & s' & -> & -> & ->); [|done].
  unfold sklist_search. apply wp_bind. eapply wp_search_node; [done..|].
  destruct (top_match _ _ _ _ _ _); by apply wp_ret.
Qed.

(** C25: sklist_search changes nothing; it returns an object whose key compares
    equal when the list has one, and NULL exactly when it has none. *)
Theorem sklist_search_correct s (sk : Z) (L : sklist K W) ls ob (k : K) (fuel : nat) :
  list_rep s sk L ls ob → (length (ls 0%nat) < fuel)%nat →
  ∃ r, sklist_search fuel sk (Some k) s = Done (r, s) ∧
    (r = NULL ↔ (∀ x, x ∈ ls 0%nat → cmp k (kof ob x) ≠ 0)) ∧
    (r ≠ NULL → ∃ x, x ∈ ls 0%nat ∧ ob x = r ∧ cmp k (kof ob x) = 0).
Proof.
  intros Hrep Hfuel. eexists. split; [by eapply search_found|].
  pose proof (lr_rep _ _ _ _ _ _ _ Hrep) as R.
  destruct (top_match cmp get_key ob ls k (Z.to_nat (sl_level L))) as [x|] eqn:Hm.
  - apply top_match_some in Hm as [Hx Hk]; [|done|apply R]. destruct (sr_nonnull _ _ _ _ _ _ _ R x Hx) as [Hn _].
    split; [|by exists x]. split; [done|]. intros Hno. by destruct (Hno x Hx).
  - split; [|done]. split; [|done]. intros _ x Hx. eapply (top_match_none cmp); [exact Hm| |done].
    destruct (decide (sl_level L = 0)) as [Hz|]; [|pose proof (lr_level _ _ _ _ _ _ _ Hrep); lia].
    rewrite (lr_top _ _ _ _ _ _ _ Hrep 0%nat) in Hx by lia. by apply not_elem_of_nil in Hx.
Qed.

(** Sklist_search_ext also sets the position: the node of the object it
    returns, which is the first match of the highest level that has one, or,
    when nothing matches, the last node with a smaller key (the head if none). *)
Theorem sklist_search_ext_pos s (sk : Z) (L : sklist K W) ls ob (k : K) (fuel : nat) :
  list_rep s sk L ls ob → (length (ls 0%nat) < fuel)%nat →
  sklist_search_ext fuel sk (Some k) s =
  Done (match top_match cmp get_key ob ls k (Z.to_nat (sl_level L)) with
        | Some x => (ob x, x)
        | None => (NULL, cursor (sl_head L) (below cmp get_key ob k (ls 0%nat)))
        end, s).
Proof.
  intros Hrep Hfuel.
  destruct (wp_search_node cmp get_key fuel sk L ls ob k (λ r s', s' = s ∧
    r = match top_match cmp get_key ob ls k (Z.to_nat (sl_level L)) with
        | Some x => (ob x, x)
        | None => (NULL, cursor (sl_head L) (below cmp get_key ob k (ls 0%nat)))
        end) s) as (r & s' & Heq & -> & ->); [done..| |exact Heq].
  by destruct (top_match _ _ _ _ _ _).
Qed.

(** C24: a successful sklist_insert adds one node holding the object to 1 up to
    max_level levels, on each behind the nodes whose key is not larger; the
    list keeps its invariant (levels sorted, circular and nested, the bottom
    linked backwards, size and level right).  A failed one returns -1 and
    leaves the list as it was, up to a larger value of [level]. *)
Theorem sklist_insert_correct s (sk : Z) (L : sklist K W) ls ob (obj : Z) (fuel : nat) :
  list_rep s sk L ls ob → sk_heap s → obj ≠ NULL → sl_max_level L ≤ 30 →
  (length (ls 0%nat) < fuel)%nat → sl_size L + 1 < 2 ^ 31 →
  wp (sklist_insert fuel sk obj)
    (λ r s', sk_heap s' ∧
       (r = -1 ∧ (∃ lv, sl_level L ≤ lv ∧ list_rep s' sk (with_level lv L) ls ob) ∨
        r = 0 ∧ ∃ new n, (new ∉ ls 0%nat) ∧ 1 ≤ n ≤ sl_max_level L ∧
          list_rep s' sk (with_size (sl_size L + 1) (with_level (Z.max (sl_level L) n) L))
            (inserted cmp get_key (<[new:=obj]> ob) new (Z.to_nat n) ls) (<[new:=obj]> ob))) s.
Proof.
  intros Hrep Hh Hobj Hmax Hfuel Hsz. eapply wp_sklist_insert; [done..| |].
  - intros s' lv Hrep' Hh' Hlv. split; [done|]. left. eauto.
  - intros s' new n Hnew L' Hn Hrep' Hh'. split; [done|]. right. split; [done|]. by exists new, n.
Qed.

(** An object whose key is new to the list is found right after it was
    inserted. *)
Theorem sklist_insert_then_search s (sk : Z) (L : sklist K W) ls ob (obj : Z) (fuel : nat) :
  list_rep s sk L ls ob → sk_heap s → obj ≠ NULL → sl_max_level L ≤ 30 →
  (S (length (ls 0%nat)) < fuel)%nat → sl_size L + 1 < 2 ^ 31 →
  (∀ x, x ∈ ls 0%nat → cmp (get_key obj) (kof ob x) ≠ 0) →
  wp (sklist_insert fuel sk obj)
    (λ r s', r = -1 ∨ r = 0 ∧ sklist_search fuel sk (Some (get_key obj)) s' = Done (obj, s')) s.
Proof.
  intros Hrep Hh Hobj Hmax Hfuel Hsz Hno. pose proof (lr_rep _ _ _ _ _ _ _ Hrep) as R.
  eapply wp_sklist_insert; [done..|lia|done| |]; [by left|].
  intros s' new n Hnew L' Hn Hrep' _. right. split; [done|].
  assert (inserted cmp get_key (<[new:=obj]> ob) new (Z.to_nat n) ls 0%nat ≡ₚ new :: ls 0%nat) as Hperm.
  { unfold inserted. rewrite decide_True by lia. apply ins_perm; [done|].
    eapply (sr_sorted _ _ _ _ _ _ _). eapply (skrep_ext cmp get_key ob); [exact R|].
    intros x Hx. apply fn_lookup_insert_ne. set_solver. }
  erewrite search_found; [|exact Hrep'|rewrite Hperm; simpl; lia]. do 2 f_equal.
  pose proof (lr_rep _ _ _ _ _ _ _ Hrep') as R'.
  destruct (top_match cmp get_key (<[new:=obj]> ob) (inserted cmp get_key (<[new:=obj]> ob) new (Z.to_nat n) ls)
    (get_key obj) (Z.to_nat (sl_level L'))) as [x|] eqn:Hm.
  - apply top_match_some in Hm as [Hx Hk]; [|done|apply R']. rewrite Hperm in Hx. apply elem_of_cons in Hx as [->|Hx].
    + apply fn_lookup_insert.
    + destruct (Hno x Hx). unfold SkipSpec.kof in *. rewrite fn_lookup_insert_ne in Hk by set_solver. done.
  - exfalso. eapply (top_match_none cmp get_key (<[new:=obj]> ob) _ _ _ Hm) with (x := new).
    + simpl. lia.
    + rewrite Hperm. set_solver.
    + unfold SkipSpec.kof. rewrite fn_lookup_insert. apply cmp_refl.
Qed.

(** C4: sklist_delete returns 0.  With no object of that key it changes nothing;
    otherwise it removes exactly one node, the first of the bottom level with
    that key, which it frees after its object was destroyed; the list keeps its
    invariant. *)
Theorem sklist_delete_correct s (sk : Z) (L : sklist K W) ls ob (k : K) (fuel : nat) :
  list_rep s sk L ls ob → sk_heap s → (length (ls 0%nat) < fuel)%nat →
  wp (sklist_delete fuel sk (Some k))
    (λ r s', r = 0 ∧ sk_heap s' ∧
       match head (matching cmp get_key ob k (ls 0%nat)) with
       | None => s' = s
       | Some x => sk_nodes s' !! x = None ∧ ls 0%nat ≡ₚ x :: deleted cmp get_key ob k ls 0%nat ∧
           (∃ n, sk_nodes s !! x = Some n ∧ sk_obj n = ob x ∧ sk_world s' = destroyed L x n (sk_world s)) ∧
           ∃ lv, list_rep s' sk (with_size (sl_size L - 1) (with_level lv L)) (deleted cmp get_key ob k ls) ob
       end) s.
Proof.
  intros Hrep Hh Hfuel. pose proof (lr_rep _ _ _ _ _ _ _ Hrep) as R.
  pose proof (first_match _ _ _ k _ (sr_sorted _ _ _ _ _ _ _ R)) as Hm.
  eapply wp_sklist_delete; [done..| |].
  - intros Hno. rewrite Hno. done.
  - intros x r h' n lv Hf Hk Hn Hob Hperm L' s' Hsame Hrep' Hh'. rewrite Hm, Hf, decide_True by done.
    split_and!; [done..|simpl; apply lookup_delete_eq|done|by exists n|by exists lv].
Qed.

(** Sklist_init returns a list without objects whose levels are the head
    linked to itself, or NULL with nothing allocated; no level, no list. *)
Theorem sklist_init_empty s (max_level : Z) :
  sk_heap s →
  wp (sklist_init max_level)
    (λ sk s', sk_heap s' ∧
       (sk = NULL ∧ sk_lists s' = sk_lists s ∧ sk_nodes s' = sk_nodes s ∧ owned (sk_world s') = owned (sk_world s) ∨
        0 < max_level ∧ ∃ hd, sk_lists s !! sk = None ∧
          sk_lists s' = <[sk:=SkList hd max_level 0 0 None None None]> (sk_lists s) ∧
          skrep cmp get_key id (sk_nodes s') hd (Z.to_nat max_level) (λ _, []))) s.
Proof.
  intros Hh. destruct (decide (0 < max_level)) as [Hml|Hml].
  2: { unfold sklist_init. rewrite bool_decide_true by lia. apply wp_ret. split; [done|]. by left. }
  eapply (wp_sklist_init cmp get_key); [done..| |].
  - intros w Hw. split; [by eapply sk_heap_same|]. by left.
  - intros sk hd arr w Hsk Hl Hn Hhd n s' Hh' Hrep. split; [done|]. right. split; [done|]. by exists hd.
Qed.

(** C40: sklist_free destroys every object once, in key order, and frees every
    node, the head and the header; memory of other lists is not touched. *)
Theorem sklist_free_all s (sk : Z) (L : sklist K W) ls ob (nh : sknode) (fuel : nat) :
  list_rep s sk L ls ob → sk_heap s → (length (ls 0%nat) < fuel)%nat → sk_nodes s !! sl_head L = Some nh →
  wp (sklist_free fuel sk)
    (λ _ s', sk_lists s' = delete sk (sk_lists s) ∧
       (∀ x, x ∈ sl_head L :: ls 0%nat → sk_nodes s' !! x = None) ∧
       (∀ x, x ∉ sl_head L :: ls 0%nat → info <$> sk_nodes s' !! x = info <$> sk_nodes s !! x) ∧
       sk_world s' =
         dealloc sk (destroyed L (sl_head L) nh (wipe L (sk_nodes s) (ls 0%nat) (sk_world s)))) s.
Proof. intros Hrep Hh Hfuel Hnh. eapply wp_sklist_free; [done..|]. intros s' H1 _ H2 H3 H4. done. Qed.

(** Sklist_foreach visits the nodes with their objects in key order, and
    sklist_foreach_reverse the same nodes in the opposite order. *)
Theorem sklist_traversals s (sk : Z) (L : sklist K W) ls ob (fuel : nat) :
  list_rep s sk L ls ob → (length (ls 0%nat) < fuel)%nat →
  ∃ xs, sklist_foreach fuel sk s = Done ((λ x, (x, ob x)) <$> xs, s) ∧
    sklist_foreach_reverse fuel sk s = Done (reverse ((λ x, (x, ob x)) <$> xs), s) ∧
    StronglySorted (key_le cmp get_key ob) xs ∧ Z.of_nat (length xs) = sl_size L.
Proof.
  intros Hrep Hfuel. exists (ls 0%nat).
  assert (∀ (m : cmd (skmem K W) (list (Z * Z))) a, wp m (λ b s', b = a ∧ s' = s) s → m s = Done (a, s)) as Hrun.
  { by intros m a (b & s' & -> & -> & ->). }
  split_and!.
  - apply Hrun. by eapply wp_sklist_foreach.
  - apply Hrun. eapply wp_sklist_foreach_reverse; [done..|]. by rewrite fmap_reverse.
  - apply Hrep.
  - symmetry. apply Hrep.
Qed.

(** Rand_level returns the height [n] with [RAND_MAX / 2^n < t <=
    RAND_MAX / 2^(n-1)] for the random number [t], cut off at max_level, always
    between 1 and max_level, and raises the list's level to it. *)
Theorem rand_level_range s (sk : Z) (L : sklist K W) :
  sk_lists s !! sk = Some L → 0 < sl_max_level L ≤ 30 →
  wp (rand_level sk)
    (λ n s', ∃ t, t = (rand (sk_world s)).1 ∧ 1 ≤ n ≤ sl_max_level L ∧
       (n = sl_max_level L ∨ RAND_MAX / 2 ^ n < t) ∧ (∀ j, 1 ≤ j < n → t ≤ RAND_MAX / 2 ^ j) ∧
       sk_lists s' = <[sk:=with_level (Z.max (sl_level L) n) L]> (sk_lists s)) s.
Proof.
  intros HL Hmax. eapply wp_rand_level; [done..|]. intros n t w Hr Hn Hstop Hlow. exists t. by rewrite Hr.
Qed.

End props.

(** ** The instance *)

Definition demo_cmp (a b : Z) : Z := a - b.
Definition demo_key (o : Z) : Z := o - 1000.

#[global] Instance demo_cmp_order : KeyOrder demo_cmp.
Proof.
  unfold demo_cmp. constructor; intros; [lia| |lia].
  destruct (Z.lt_trichotomy a b) as [H|[->|H]].
  - rewrite (Z.sgn_pos (b - a)), (Z.sgn_neg (a - b)) by lia. done.
  - by rewrite Z.sub_diag.
  - rewrite (Z.sgn_neg (b - a)), (Z.sgn_pos (a - b)) by lia. done.
Qed.

Definition demo_list : sklist Z (gset Z) :=
  SkList 2 3 2 2 (Some demo_cmp) (Some demo_key) (Some (λ _ w, w)).
Definition demo_nodes : gmap Z sknode :=
  list_to_map [(2, SkNode 3 [4; 6; 2] 6 3 0); (4, SkNode 5 [6] 2 1 1010); (6, SkNode 7 [2; 2] 4 2 1020)].
Definition demo_sk : skmem Z (gset Z) := SkMem {[1 := demo_list]} demo_nodes {[1; 2; 3; 4; 5; 6; 7]}.
Definition demo_ls (i : nat) : list Z := match i with 0%nat => [4; 6] | 1%nat => [6] | _ => [] end.
Definition demo_ob (x : Z) : Z := if decide (x = 4) then 1010 else if decide (x = 6) then 1020 else 0.

Lemma demo_rep : list_rep demo_cmp demo_key demo_sk 1 demo_list demo_ls demo_ob.
Proof.
  constructor; try done; simpl; try lia.
  - constructor; try done.
    + intros [|[|[|i]]] Hi; simpl in Hi; [by vm_compute..|lia].
    + intros [|[|i]] Hi; simpl in Hi; (lia || done).
    + intros [|[|i]]; [by do 2 constructor|by do 2 constructor|constructor].
    + apply (bool_decide_unpack _). by vm_compute.
    + simpl. apply SSorted_cons; [apply SSorted_cons; constructor|].
      apply Forall_cons. split; [by vm_compute|constructor].
    + intros x Hx. unfold demo_ls in Hx. rewrite !elem_of_cons in Hx.
      destruct Hx as [->|[->|Hx]]; [by eexists..|by apply not_elem_of_nil in Hx].
    + intros x Hx. unfold demo_ls in Hx. rewrite !elem_of_cons in Hx.
      destruct Hx as [->|[->|Hx]]; [done..|by apply not_elem_of_nil in Hx].
  - intros [|[|i]] Hi; simpl in Hi; (lia || done).
  - by intros d o w [= <-].
Qed.

Lemma demo_sk_heap : sk_heap demo_sk.
Proof.
  assert (∀ x n, demo_nodes !! x = Some n → x = 2 ∧ sk_arr n = 3 ∨ x = 4 ∧ sk_arr n = 5 ∨ x = 6 ∧ sk_arr n = 7) as Hn.
  { intros x n Hx. apply elem_of_list_to_map_2 in Hx. rewrite !elem_of_cons in Hx.
    destruct Hx as [[= -> ->]|[[= -> ->]|[[= -> ->]|Hx]]]; [tauto..|by apply not_elem_of_nil in Hx]. }
  assert (dom demo_nodes = {[2; 4; 6]}) as Hd by (by apply (bool_decide_unpack _); vm_compute).
  constructor; simpl; rewrite ?Hd, ?dom_singleton_L.
  - set_solver.
  - set_solver.
  - set_solver.
  - intros x n Hx. destruct (Hn x n Hx) as [[_ ->]|[[_ ->]|[_ ->]]]; set_solver.
  - intros x y n m Hx Hy. destruct (Hn x n Hx) as [[-> ->]|[[-> ->]|[-> ->]]], (Hn y m Hy) as [[-> ->]|[[-> ->]|[-> ->]]]; done.
Qed.

Lemma sklist_search_correct_witness :
  ∃ r, sklist_search 3 1 (Some 20) demo_sk = Done (r, demo_sk) ∧
    (r = NULL ↔ (∀ x, x ∈ [4; 6] → demo_cmp 20 (kof demo_key demo_ob x) ≠ 0)) ∧
    (r ≠ NULL → ∃ x, x ∈ [4; 6] ∧ demo_ob x = r ∧ demo_cmp 20 (kof demo_key demo_ob x) = 0).
Proof.
  apply (sklist_search_correct demo_cmp demo_key demo_sk 1 demo_list demo_ls demo_ob 20 3 demo_rep). simpl. lia.
Defined.

Lemma sklist_search_ext_pos_witness : sklist_search_ext 3 1 (Some 15) demo_sk = Done ((NULL, 4), demo_sk).
Proof.
  apply (sklist_search_ext_pos demo_cmp demo_key demo_sk 1 demo_list demo_ls demo_ob 15 3 demo_rep). simpl. lia.
Defined.

Lemma sklist_insert_correct_witness :
  wp (sklist_insert 3 1 1015)
    (λ r s', sk_heap s' ∧
       (r = -1 ∧ (∃ lv, 2 ≤ lv ∧ list_rep demo_cmp demo_key s' 1 (with_level lv demo_list) demo_ls demo_ob) ∨
        r = 0 ∧ ∃ new n, (new ∉ [4; 6]) ∧ 1 ≤ n ≤ 3 ∧
          list_rep demo_cmp demo_key s' 1 (with_size 3 (with_level (Z.max 2 n) demo_list))
            (inserted demo_cmp demo_key (<[new:=1015]> demo_ob) new (Z.to_nat n) demo_ls)
            (<[new:=1015]> demo_ob))) demo_sk.
Proof.
  apply (sklist_insert_correct demo_cmp demo_key demo_sk 1 demo_list demo_ls demo_ob 1015 3 demo_rep demo_sk_heap);
    simpl; (lia || done).
Defined.

Lemma sklist_insert_then_search_witness :
  wp (sklist_insert 5 1 1015)
    (λ r s', r = -1 ∨ r = 0 ∧ sklist_search 5 1 (Some 15) s' = Done (1015, s')) demo_sk.
Proof.
  apply (sklist_insert_then_search demo_cmp demo_key demo_sk 1 demo_list demo_ls demo_ob 1015 5 demo_rep demo_sk_heap);
    simpl; try (lia || done).
  intros x Hx. rewrite !elem_of_cons in Hx. destruct Hx as [->|[->|Hx]]; [done..|by apply not_elem_of_nil in Hx].
Defined.

Lemma sklist_delete_correct_witness :
  wp (sklist_delete 3 1 (Some 20))
    (λ r s', r = 0 ∧ sk_heap s' ∧ sk_nodes s' !! 6 = None ∧ [4; 6] ≡ₚ [6; 4] ∧
       (∃ n, demo_nodes !! 6 = Some n ∧ sk_obj n = 1020 ∧ sk_world s' = destroyed demo_list 6 n (sk_world demo_sk)) ∧
       ∃ lv, list_rep demo_cmp demo_key s' 1 (with_size 1 (with_level lv demo_list))
               (deleted demo_cmp demo_key demo_ob 20 demo_ls) demo_ob) demo_sk.
Proof.
  apply (sklist_delete_correct demo_cmp demo_key demo_sk 1 demo_list demo_ls demo_ob 20 3 demo_rep demo_sk_heap).
  simpl. lia.
Defined.

Lemma sklist_init_empty_witness :
  wp (sklist_init 4)
    (λ sk s', sk_heap s' ∧
       (sk = NULL ∧ sk_lists s' = sk_lists demo_sk ∧ sk_nodes s' = sk_nodes demo_sk ∧
        owned (sk_world s') = owned (sk_world demo_sk) ∨
        0 < 4 ∧ ∃ hd, sk_lists demo_sk !! sk = None ∧
          sk_lists s' = <[sk:=SkList hd 4 0 0 None None None]> (sk_lists demo_sk) ∧
          skrep demo_cmp demo_key id (sk_nodes s') hd 4 (λ _, []))) demo_sk.
Proof. apply (sklist_init_empty demo_cmp demo_key demo_sk 4 demo_sk_heap). Defined.

Lemma sklist_free_all_witness :
  wp (sklist_free 3 1)
    (λ _ s', sk_lists s' = delete 1 (sk_lists demo_sk) ∧
       (∀ x, x ∈ [2; 4; 6] → sk_nodes s' !! x = None) ∧
       (∀ x, x ∉ [2; 4; 6] → info <$> sk_nodes s' !! x = info <$> sk_nodes demo_sk !! x) ∧
       sk_world s' = dealloc 1 (destroyed demo_list 2 (SkNode 3 [4; 6; 2] 6 3 0)
                       (wipe demo_list demo_nodes [4; 6] (sk_world demo_sk)))) demo_sk.
Proof.
  apply (sklist_free_all demo_cmp demo_key demo_sk 1 demo_list demo_ls demo_ob (SkNode 3 [4; 6; 2] 6 3 0) 3 demo_rep demo_sk_heap);
    [simpl; lia|done].
Defined.

Lemma sklist_traversals_witness :
  ∃ xs, sklist_foreach 3 1 demo_sk = Done ((λ x, (x, demo_ob x)) <$> xs, demo_sk) ∧
    sklist_foreach_reverse 3 1 demo_sk = Done (reverse ((λ x, (x, demo_ob x)) <$> xs), demo_sk) ∧
    StronglySorted (key_le demo_cmp demo_key demo_ob) xs ∧ Z.of_nat (length xs) = 2.
Proof.
  apply (sklist_traversals demo_cmp demo_key demo_sk 1 demo_list demo_ls demo_ob 3 demo_rep). simpl. lia.
Defined.

Lemma rand_level_range_witness :
  wp (rand_level 1)
    (λ n s', ∃ t, t = 1000000000 ∧ 1 ≤ n ≤ 3 ∧
       (n = 3 ∨ 2147483647 / 2 ^ n < t) ∧ (∀ j, 1 ≤ j < n → t ≤ 2147483647 / 2 ^ j) ∧
       sk_lists s' = <[1:=with_level (Z.max 2 n) demo_list]> (sk_lists demo_sk)) demo_sk.
Proof.
  eapply wp_mono; [apply (rand_level_range demo_sk 1 demo_list); [done|simpl; lia]|].
  intros n s' (t & Ht & Hn & Hstop & Hlow & Hl). exists t. split_and!; try done; apply Hn.
Defined.
