(* ===== verification/PropsSkipR.v ===== *)
(** * Properties of the recursive skip list (skiplist.r.c)

    Instantiated on a list of the keys 10 and 20, the second on two levels. *)

From stdpp Require Import gmap numbers functions sorting list.
From S2P Require Import Prelude CAlloc Chain SkipSpec SkipOps SkipFree SkipListR SkipRSpec SkipROps.

Local Open Scope Z_scope.

Section props.
Context {W : Type} `{!Alloc W, !Rand W, !AllocOk W, !RandOk W}.
Implicit Types (s : rmem W) (ls : nat → list Z) (kf : Z → Z).

(** Sklist_search of the recursive list changes nothing but its counter of
    comparisons; it returns a node with the key exactly when the list has one,
    and NULL otherwise.  (The key -1 is the head's own.) *)
Theorem r_search_correct s (sk : Z) (L : rlist) ls kf (k : Z) (fuel : nat) :
  r_list_rep s sk L ls kf → 0 < rl_level L → k ≠ -1 →
  (Z.to_nat (rl_level L) * (length (ls 0%nat) + 2) ≤ fuel)%nat → 0 ≤ rm_COUNT s → rm_COUNT s + 2 * Z.of_nat fuel < 2 ^ 31 →
  ∃ r s', r_sklist_search fuel sk k s = Done (r, s') ∧ counted (2 * Z.of_nat fuel) s s' ∧
    (r = NULL ↔ ∀ x, x ∈ ls 0%nat → kf x ≠ k) ∧ (r ≠ NULL → r ∈ ls 0%nat ∧ kf r = k).
Proof.
  intros Hrep Hlv Hk Hf Hc Hcf.
  assert (wp (r_sklist_search fuel sk k) (λ r s', counted (2 * Z.of_nat fuel) s s' ∧
    r = default NULL (top_match int_cmp id kf ls k (Z.to_nat (rl_level L)))) s) as (r & s' & Heq & Hcnt & ->).
  { eapply wp_r_sklist_search; [done..|lia|done|done]. }
  pose proof (rl_rep _ _ _ _ _ Hrep) as R. pose proof (rr_nodup _ _ _ _ _ R) as Hnd. rewrite !NoDup_cons in Hnd.
  do 2 eexists. split; [exact Heq|]. split; [done|].
  destruct (top_match int_cmp id kf ls k (Z.to_nat (rl_level L))) as [x|] eqn:Hm; simpl.
  - apply top_match_some in Hm as [Hx Hkx]; [|apply _|apply R]. assert (kf x = k) by (unfold int_cmp, kof, id in Hkx; lia).
    split; [|done]. split; [intros ->; set_solver|]. intros Hno. by destruct (Hno x Hx).
  - split; [|done]. split; [|done]. intros _ x Hx Hkx.
    apply (top_match_none int_cmp _ _ _ _ _ Hm ltac:(lia) x Hx). unfold int_cmp, kof, id. lia.
Qed.

(** C29: sklist_insert chooses a height between 1 and the maximal level.  If malloc serves the
    node and its array, a node with the key is added to the levels below that height, at its
    key's place, all other nodes stay where they were, the node is counted and the list stays
    well formed; if malloc fails, the function dereferences NULL: new_node's result is not
    tested.  Nothing is assumed about when malloc fails. *)
Theorem r_insert_correct s (sk : Z) (L : rlist) ls kf (key : Z) (fuel : nat) :
  r_list_rep s sk L ls kf →
  (Z.to_nat (rl_max_level L) * (length (ls 0%nat) + 1) ≤ fuel)%nat → 0 ≤ rl_size L < 2 ^ 31 - 1 →
  ∃ n, 1 ≤ n ≤ rl_max_level L ∧
    if node_memory n (rand (rm_world s)).2 then
      ∃ s' new, r_sklist_insert fuel sk key s = Done ((), s') ∧ (new ∉ ls 0%nat) ∧
        let kf' := <[new:=key]> kf in
        r_list_rep s' sk (r_with_size (rl_size L + 1) (r_with_level (Z.max (rl_level L) n) L))
          (inserted int_cmp id kf' new (Z.to_nat n) ls) kf'
    else r_sklist_insert fuel sk key s = Fault.
Proof.
  intros Hrep Hf Hsz. pose proof (rl_max _ _ _ _ _ Hrep) as Hmax.
  destruct (r_level_chosen s sk L (rl_hdr _ _ _ _ _ Hrep) Hmax) as (n & t & w & Hr & Hn & Hlv).
  exists n. split; [done|]. rewrite Hr. simpl. assert (owned w = owned (rm_world s)) as Hw by (by destruct (rand_ok _ _ _ Hr)).
  destruct (node_memory n w) eqn:Hmem; [|eapply r_insert_no_memory; [done| |done..]; nia].
  assert (wp (r_sklist_insert fuel sk key) (λ _ s', ∃ new, (new ∉ ls 0%nat) ∧
    r_list_rep s' sk (r_with_size (rl_size L + 1) (r_with_level (Z.max (rl_level L) n) L))
      (inserted int_cmp id (<[new:=key]> kf) new (Z.to_nat n) ls) (<[new:=key]> kf)) s)
    as ([] & s' & Heq & new & H1 & H2); [|by exists s', new].
  eapply wp_r_sklist_insert; [done|done|lia|done..|]. intros s' new H1 kf' H2. by exists new.
Qed.


(** sklist_init makes an empty list. *)
Theorem r_init_empty s (max_level : Z) :
  r_heap (rm_nodes s) (rm_world s) → (∀ m w, m ≤ 240 → (alloc m w).1 ≠ NULL) → 0 < max_level ≤ 30 →
  ∃ sk s' hd, r_sklist_init max_level s = Done (sk, s') ∧ sk ≠ NULL ∧
    r_list_rep s' sk (RList hd max_level 0 0) (λ _, []) (λ _, 0).
Proof.
  intros Hh HA Hm.
  assert (wp (r_sklist_init max_level) (λ sk s', ∃ hd, sk ≠ NULL ∧ r_list_rep s' sk (RList hd max_level 0 0) (λ _, []) (λ _, 0)) s)
    as (sk & s' & Heq & hd & H1 & H2); [|by exists sk, s', hd].
  eapply wp_r_sklist_init; [done..|]. intros s' sk hd H1 H2. by exists hd.
Qed.

End props.

(** ** Instances *)

Definition demo_r : rmem (gset Z) :=
  RMem {[1 := RList 2 3 2 2]}
    {[2 := RNode 3 [4; 6; 0] 3 (-1); 4 := RNode 5 [6] 1 10; 6 := RNode 7 [0; 0] 2 20]} 0 {[1; 2; 3; 4; 5; 6; 7]}.
Definition demo_r_levels (i : nat) : list Z := match i with 0%nat => [4; 6] | 1%nat => [6] | _ => [] end.
Definition demo_r_keys (x : Z) : Z := if decide (x = 4) then 10 else 20.

Lemma demo_r_rep : r_list_rep demo_r 1 (RList 2 3 2 2) demo_r_levels demo_r_keys.
Proof.
  constructor; simpl; [done| |lia|lia| | |].
  - constructor.
    + intros [|[|[|i]]] Hi; simpl in *; try lia; by vm_compute.
    + intros [|[|[|i]]] Hi; simpl in *; (done || lia).
    + intros [|[|i]]; simpl; repeat constructor.
    + apply (bool_decide_unpack _). by vm_compute.
    + repeat constructor; unfold key_le, int_cmp, kof; vm_compute; done.
    + intros x Hx. simpl in Hx. rewrite !elem_of_cons, elem_of_nil in Hx. destruct Hx as [->|[->|[]]]; eexists; by vm_compute.
  - intros [|[|i]] Hi; simpl in *; (done || lia).
  - eexists. by vm_compute.
  - assert (∀ x n, rm_nodes demo_r !! x = Some n → x = 2 ∧ rn_arr n = 3 ∨ x = 4 ∧ rn_arr n = 5 ∨ x = 6 ∧ rn_arr n = 7) as Hin.
    { intros x n. simpl. rewrite !lookup_insert_Some, lookup_singleton_Some. naive_solver. }
    constructor; simpl.
    + rewrite !dom_insert_L, dom_singleton_L. set_solver.
    + intros x n Hx%Hin. simpl. rewrite !dom_insert_L, dom_singleton_L. set_solver by lia.
    + intros x y n m Hx%Hin Hy%Hin Heq. lia.
    + done.
Qed.

Lemma demo_alloc_serves m (w : gset Z) : m ≤ 240 → (alloc m w).1 ≠ NULL.
Proof.
  intros Hm. simpl. rewrite bool_decide_true by lia. simpl. pose proof (above_all_pos w). unfold NULL. lia.
Qed.

Theorem r_search_correct_witness :
  ∃ r s', r_sklist_search 8 1 20 demo_r = Done (r, s') ∧ counted (2 * Z.of_nat 8) demo_r s' ∧
    (r = NULL ↔ ∀ x, x ∈ demo_r_levels 0 → demo_r_keys x ≠ 20) ∧ (r ≠ NULL → r ∈ demo_r_levels 0 ∧ demo_r_keys r = 20).
Proof. apply (r_search_correct demo_r 1 (RList 2 3 2 2) demo_r_levels demo_r_keys 20 8); simpl; try lia. apply demo_r_rep. Defined.

Theorem r_insert_correct_witness :
  (∃ n, 1 ≤ n ≤ 3 ∧
    if node_memory n (rand (rm_world demo_r)).2 then
      ∃ s' new, r_sklist_insert 9 1 15 demo_r = Done ((), s') ∧ (new ∉ demo_r_levels 0) ∧
        let kf' := <[new:=15]> demo_r_keys in
        r_list_rep s' 1 (r_with_size 3 (r_with_level (Z.max 2 n) (RList 2 3 2 2)))
          (inserted int_cmp id kf' new (Z.to_nat n) demo_r_levels) kf'
    else r_sklist_insert 9 1 15 demo_r = Fault) ∧
  ∃ s', r_sklist_insert 9 1 15 demo_r = Done ((), s').
Proof.
  split; [|eexists; vm_compute; reflexivity].
  apply (r_insert_correct demo_r 1 (RList 2 3 2 2) demo_r_levels demo_r_keys 15 9); simpl; [apply demo_r_rep|lia|lia].
Defined.


Theorem r_init_empty_witness :
  ∃ sk s' hd, r_sklist_init 5 (RMem ∅ ∅ 0 (∅ : gset Z)) = Done (sk, s') ∧ sk ≠ NULL ∧
    r_list_rep s' sk (RList hd 5 0 0) (λ _, []) (λ _, 0).
Proof.
  apply (r_init_empty (RMem ∅ ∅ 0 (∅ : gset Z)) 5); [|apply demo_alloc_serves|lia].
  constructor; simpl; [set_solver|by intros x n|by intros x y n m|done].
Defined.

(** The key of the head is found in every list that was used. *)
Theorem head_key_found : ∃ s', r_sklist_search 8 1 (-1) demo_r = Done (2, s') ∧ 2 ∉ demo_r_levels 0.
Proof. eexists. split; [by vm_compute|]. apply (bool_decide_unpack _). by vm_compute. Qed.
