(* ===== verification/PropsCpp.v ===== *)
(** * Properties of the text and time helpers (cpp_console, preprocess)

    Splitting, trimming and number conversion of sstring.h, the times of
    stime.h, the accumulator of time_accumulator.h and the word files of
    preprocess/, with concrete instances. *)

From Stdlib Require Import Ascii String.
From stdpp Require Import gmap numbers sets list.
From S2P Require Import Prelude StdText StdMap SString STime SrcFile.

Local Open Scope Z_scope.

(** ** sstring.h *)

(** Split cuts a non-empty string at every delimiter: the parts contain no
    delimiter, and the string is the parts with the delimiters between them;
    [remove_empty] drops exactly the empty parts. *)
Theorem split_parts (str delims : chars) :
  (str = [] → split str delims false = []) ∧
  (str ≠ [] → ∃ seps, length (split str delims false) = S (length seps) ∧ Forall (λ c, c ∈ delims) seps ∧
     str = interleave (split str delims false) seps) ∧
  Forall (Forall (λ c, c ∉ delims)) (split str delims false) ∧
  split str delims true = filter (λ p, p ≠ []) (split str delims false).
Proof.
  rewrite split_nonempty. split_and!.
  - by intros ->.
  - intros Hne. rewrite split_all. destruct str as [|c str]; [done|]. simpl is_empty. cbn match.
    destruct (all_parts_interleave delims (c :: str) []) as (seps & H1 & H2 & H3). by exists seps.
  - rewrite split_all. destruct (is_empty str); [constructor|]. apply all_parts_clean. constructor.
  - apply list_filter_iff. intros [|c p]; unfold nonempty; simpl; naive_solver.
Qed.

(** trim returns the one part of the string that has only white space in
    front of it and behind it and neither begins nor ends with white space. *)
Theorem trim_ends (src t : chars) :
  trim src = t ↔ ∃ l r, src = l ++ t ++ r ∧ Forall isspace l ∧ Forall isspace r ∧ trimmed t.
Proof.
  split.
  - intros <-. apply trim_split.
  - intros (l & r & -> & Hl & Hr & Ht). by apply trim_unique.
Qed.

(** C30: str_to_int and str_to_ll accept exactly the texts of integers in range and return
    their value; everything else is (false, 0).  Such a text is white space, a sign or none, the
    digits and white space.  The digits are hexadecimal, after 0x or not, for base 16, octal for
    base 8, decimal for any other base but 0; for base 0 they are hexadecimal after 0x, octal
    behind a leading 0, and decimal otherwise. *)
Theorem str_to_int_exact (s : chars) (base : Z) :
  (∀ v, str_to_int s base = (true, v) ↔ int_text base s v ∧ - 2 ^ 31 ≤ v < 2 ^ 31) ∧
  (∀ v, str_to_int s base = (false, v) → v = 0) ∧
  (∀ v, str_to_ll s base = (true, v) ↔ int_text base s v ∧ - 2 ^ 63 ≤ v < 2 ^ 63) ∧
  (∀ v, str_to_ll s base = (false, v) → v = 0).
Proof.
  unfold str_to_int, str_to_ll. split_and!.
  - intros v. rewrite str_to_integer_iff, numeral_int_text by done. unfold in_type. simpl. intuition lia.
  - intros v. destruct (str_to_integer_spec int_t s base) as [(w & -> & _)|[-> _]]; by try intros [= <-].
  - intros v. rewrite str_to_integer_iff, numeral_int_text by done. unfold in_type. simpl. intuition lia.
  - intros v. destruct (str_to_integer_spec long_t s base) as [(w & -> & _)|[-> _]]; by try intros [= <-].
Qed.

(** The grammar on concrete texts. *)
Example int_text_octal : int_text 0 (text " -017 ") (-15).
Proof.
  exists (text " "), (text " "), (text "-"), true, (text "017"), 15. split_and!; [done|by repeat constructor|by repeat constructor|constructor| |done].
  apply (dt_auto_oct (text "17")); [done|repeat constructor].
Qed.

(** C35: to_string of an int fits its buffer, and str_to_int reads the text back,
    both with the base given and with the base detected. *)
Theorem int_text_roundtrip (n : Z) :
  - 2 ^ 31 ≤ n < 2 ^ 31 →
  ∃ txt, to_string n_int n = Some txt ∧ str_to_int txt 0 = (true, n) ∧ str_to_int txt 10 = (true, n).
Proof.
  intros Hn. assert (in_type int_t n) as Hin by (unfold in_type; simpl; lia).
  exists (print_int n). split; [by eapply (to_string_total n_int int_t)|].
  unfold str_to_int. by rewrite !str_to_integer_print by (done || auto).
Qed.

Theorem int_text_roundtrip_witness :
  ∃ txt, to_string n_int (-2147483648) = Some txt ∧ str_to_int txt 0 = (true, -2147483648) ∧
    str_to_int txt 10 = (true, -2147483648).
Proof. apply (int_text_roundtrip (-2147483648)). lia. Defined.

(** The English suffix of a number. *)
Definition ordinal_suffix (n : Z) : chars :=
  if decide (n mod 100 ∈ [11; 12; 13]) then text "th"
  else if decide (n mod 10 = 1) then text "st"
  else if decide (n mod 10 = 2) then text "nd"
  else if decide (n mod 10 = 3) then text "rd"
  else text "th".

Lemma mod_digits n : 0 ≤ n → n mod 100 = n / 10 mod 10 * 10 + n mod 10.
Proof.
  intros Hn. change 100 with (10 * 10). rewrite Z.rem_mul_r by lia. lia.
Qed.

(** to_ordinal puts the English suffix behind every unsigned number: th for
    11, 12 and 13 in the last two places, st, nd, rd after 1, 2, 3 otherwise. *)
Theorem to_ordinal_suffix (n : Z) : 0 ≤ n < 2 ^ 32 → to_ordinal n = Some (print_int n ++ ordinal_suffix n).
Proof.
  intros Hn. unfold to_ordinal. rewrite (to_string_total n_unsigned uint_t) by (done || unfold in_type; simpl; lia). simpl.
  unfold ordinal_suffix. pose proof (mod_digits n ltac:(lia)) as Hd. pose proof (Z.mod_pos_bound n 10 ltac:(lia)) as Hu.
  pose proof (Z.mod_pos_bound (n / 10) 10 ltac:(lia)) as Ht.
  assert (n mod 100 / 10 = n / 10 mod 10) as ->.
  { rewrite Hd. symmetry. apply (Z.div_unique _ _ _ (n mod 10)); lia. }
  set (t := n / 10 mod 10) in *. rewrite Hd. set (u := n mod 10) in *. clearbody t u.
  assert (u ∈ seqZ 0 10) as Hin by (apply elem_of_seqZ; lia). destruct (decide (t = 1)) as [->|Hne].
  - rewrite bool_decide_true by done. by repeat (apply elem_of_cons in Hin as [->|Hin]; [done|]); apply elem_of_nil in Hin.
  - rewrite bool_decide_false by done. rewrite (decide_False (P := _ ∈ _)) by (rewrite !elem_of_cons, elem_of_nil; lia).
    by repeat (apply elem_of_cons in Hin as [->|Hin]; [done|]); apply elem_of_nil in Hin.
Qed.

Theorem to_ordinal_suffix_witness : to_ordinal 4000000112 = Some (print_int 4000000112 ++ ordinal_suffix 4000000112).
Proof. apply (to_ordinal_suffix 4000000112). lia. Defined.

(** ** stime.h *)

(** A time of day prints as hh:mm:ss.fff without overrunning its buffer of 16
    bytes, and parsing the text gives the time back. *)
Theorem time_roundtrip (t : stime) :
  valid_time t → ∃ txt, stime_to_string t = Some txt ∧ length txt = 12%nat ∧ parse txt = Some t.
Proof.
  intros (H1 & H2 & H3 & H4). exists (format_time t). apply format_parse; lia.
Qed.

Theorem time_roundtrip_witness :
  ∃ txt, stime_to_string (Stime 23 5 9 7) = Some txt ∧ length txt = 12%nat ∧ parse txt = Some (Stime 23 5 9 7).
Proof. apply (time_roundtrip (Stime 23 5 9 7)). by unfold valid_time; simpl; lia. Defined.

(** The difference of two times of day is their distance in milliseconds,
    negative when the first is earlier, and its hours, minutes, seconds and
    milliseconds add up to it. *)
Theorem time_difference (a b : stime) :
  valid_time a → valid_time b →
  ∃ d, stime_sub a b = Some d ∧ _milliseconds d = day_ms a - day_ms b ∧
    total_ms (hours d) (minutes d) (seconds d) (milliseconds d) = day_ms a - day_ms b ∧
    Z.abs (minutes d) < 60 ∧ Z.abs (seconds d) < 60 ∧ Z.abs (milliseconds d) < 1000.
Proof.
  intros Ha Hb. rewrite stime_sub_valid by done. eexists. split; [done|]. split; [done|].
  pose proof (day_ms_range a Ha). pose proof (day_ms_range b Hb).
  apply (duration_split (StimeDuration (day_ms a - day_ms b))). simpl. lia.
Qed.

Theorem time_difference_witness :
  ∃ d, stime_sub (Stime 0 30 0 0) (Stime 23 5 9 7) = Some d ∧
    _milliseconds d = day_ms (Stime 0 30 0 0) - day_ms (Stime 23 5 9 7) ∧
    total_ms (hours d) (minutes d) (seconds d) (milliseconds d) = day_ms (Stime 0 30 0 0) - day_ms (Stime 23 5 9 7) ∧
    Z.abs (minutes d) < 60 ∧ Z.abs (seconds d) < 60 ∧ Z.abs (milliseconds d) < 1000.
Proof. apply (time_difference (Stime 0 30 0 0) (Stime 23 5 9 7)); by unfold valid_time; simpl; lia. Defined.

(** ** time_accumulator.h *)

(** C36: After any additions, accumulate gives every group and item that was added
    the number of its records and the sum of their durations, and nothing to
    the others. *)
Theorem accumulate_totals (recs : list (key_type * data_type)) :
  Forall (λ r, valid_record r.2) recs → 86400000 * Z.of_nat (length recs) < 2 ^ 63 →
  ∃ acc, accumulate (add_all recs (TimeAccumulator [] [])) = Some acc ∧
    ∀ g i, result_find g i (_result acc) =
      if decide (records_of (g, i) recs = []) then None else Some (summary (records_of (g, i) recs)).
Proof.
  intros Hv Hl. pose proof (add_all_ok recs Hv Hl) as Hok.
  destruct (accumulate_loop_spec _ [] Hok ltac:(split; constructor)) as (result & Heq & _ & Hf).
  eexists. split; [unfold accumulate; rewrite Heq; done|]. intros g i. simpl. rewrite Hf.
  destruct (add_all_find recs (TimeAccumulator [] []) (g, i) ltac:(constructor)) as [_ ->]. simpl.
  destruct (records_of (g, i) recs) as [|x l]; [by rewrite decide_True|by rewrite decide_False].
Qed.

Theorem accumulate_totals_witness :
  let recs := [((text "db", text "read"), (Stime 1 0 0 0, Stime 1 0 2 5)); ((text "db", text "write"), (Stime 2 0 0 0, Stime 2 1 0 0));
               ((text "db", text "read"), (Stime 3 0 0 0, Stime 3 0 1 0))] in
  ∃ acc, accumulate (add_all recs (TimeAccumulator [] [])) = Some acc ∧
    ∀ g i, result_find g i (_result acc) =
      if decide (records_of (g, i) recs = []) then None else Some (summary (records_of (g, i) recs)).
Proof.
  intros recs. apply (accumulate_totals recs); [|simpl; lia].
  repeat constructor; unfold valid_record, valid_time; simpl; lia.
Defined.

(** The report of a group: a head line, the column names, one line per item
    with its number of records and its time, and a last line with the sums
    (modulo 2^64, so a negative total prints as a huge number). *)
Theorem report_lines (group : chars) (result : list (chars * result_type)) :
  Forall small_item result →
  do_print group result =
  Some (dashes ++ group ++ dashes ++ [LF] ++
        setw 30 (text "Item Name") ++ setw 20 (text "Record Num") ++ setw 10 (text "Time") ++ [LF] ++
        concat (item_line <$> result) ++
        setw 50 (print_int (sum_of (λ e, e.2.1) result mod 2 ^ 64)) ++
        setw 10 (print_int (sum_of (λ e, _milliseconds e.2.2) result mod 2 ^ 64)) ++ [LF]).
Proof. intros Hsm. unfold do_print. by rewrite print_items_spec. Qed.

Theorem report_lines_witness :
  let result := [(text "read", (2, StimeDuration 3005)); (text "write", (1, StimeDuration (-60000)))] in
  do_print (text "db") result =
  Some (dashes ++ text "db" ++ dashes ++ [LF] ++
        setw 30 (text "Item Name") ++ setw 20 (text "Record Num") ++ setw 10 (text "Time") ++ [LF] ++
        concat (item_line <$> result) ++
        setw 50 (print_int (sum_of (λ e, e.2.1) result mod 2 ^ 64)) ++
        setw 10 (print_int (sum_of (λ e, _milliseconds e.2.2) result mod 2 ^ 64)) ++ [LF]).
Proof. intros result. apply (report_lines (text "db") result). repeat constructor; unfold small_item; simpl; lia. Defined.

(** ** preprocess/ *)

(** C37: Reading a file whose lines are shorter than the buffer and walking it with
    the iterator visits exactly the words of the text, in order, each with its
    length; the walk ends. *)
Theorem src_words (l : chars) (p : Z) (fuel : nat) :
  short_lines 0 l → (length (split l delims_ws true) < fuel)%nat →
  main fuel (Some l) p = Done ((λ w, (w, length w)) <$> split l delims_ws true).
Proof.
  intros Hs Hf. unfold main, read.
  destruct (read_loop_spec (length l + 2) (text "Main.cc") l 0 src_file Hs ltac:(lia) eq_refl) as (f & -> & Hok & Hw).
  simpl in Hw. rewrite <-Hw in *. apply (main_loop_spec (length (words f)) _ p f 0 fuel []); [by simpl_map|done|by rewrite Hok|done].
Qed.

Theorem src_words_witness :
  let l := text "int  main ()" ++ [LF; LF] ++ text " {}" in
  main 5 (Some l) 16 = Done ((λ w, (w, length w)) <$> split l delims_ws true) ∧
  split l delims_ws true = text <$> ["int"; "main"; "()"; "{}"]%string.
Proof.
  intros l. split; [|done]. apply (src_words l 16 5); [|vm_compute; lia]. apply (bool_decide_unpack _). by vm_compute.
Defined.

(** Assigning to a word of a file changes that word and no other, and keeps
    the number of words right. *)
Theorem src_assign (f : SrcFile) (i : nat) (w : chars) :
  file_ok f → (i < _size f)%nat →
  ∃ f', set_word f i w = Some f' ∧ file_ok f' ∧ file_size f' = file_size f ∧ index_word f' i = Some w ∧
    ∀ j, j ≠ i → index_word f' j = index_word f j.
Proof.
  intros Hok Hi. destruct (set_word_spec f i w Hok Hi) as (f' & Heq & Hok' & Hw). exists f'. split; [done|]. split; [done|].
  unfold file_ok in *. split.
  - unfold file_size. by rewrite Hok', Hok, Hw, length_insert.
  - rewrite !index_word_lookup, Hw. split.
    + apply list_lookup_insert_eq. lia.
    + intros j Hj. rewrite !index_word_lookup, Hw. by rewrite list_lookup_insert_ne.
Qed.

Theorem src_assign_witness :
  let f := MkSrcFile 3 [src_line (text "a b") [] 1; src_line [] [] 2; src_line (text " c") [] 3] in
  ∃ f', set_word f 2 (text "d") = Some f' ∧ file_ok f' ∧ file_size f' = file_size f ∧ index_word f' 2 = Some (text "d") ∧
    ∀ j, j ≠ 2%nat → index_word f' j = index_word f j.
Proof. intros f. apply (src_assign f 2 (text "d")); [done|simpl; lia]. Defined.

(** A line that does not fit the buffer ends the reading: the words of the
    line and of everything behind it are missing. *)
Theorem read_drops_long_line :
  ∃ f, read (text "f") (Some (text "a" ++ [LF] ++ replicate 300 "b"%char ++ [LF] ++ text "c")) src_file = Done f ∧ words f = [text "a"].
Proof. eexists. split; [by vm_compute|]. by vm_compute. Qed.
