(* ===== verification/PropsTree.v ===== *)
(** * Properties of the linked structures in cpp_console/stree.h and c_data_structure/slist.c

    What a described tree prints after it was built, the relation of the two
    traversals, the destructor, and the singly linked list of strings. *)

From Stdlib Require Import Ascii String.
From stdpp Require Import gmap numbers sets list sorting.
From S2P Require Import Prelude CAlloc StdText StdMap STree STreeWalk STreeBuild STreeMake STreeTop SList.

Local Open Scope Z_scope.

(** ** stree.h *)

Section tree.
Context {K D : Type} `{!Cmp K, !CmpOk K, !EqDecision K, !Inhabited K, !New}.
Context (show_key : K → chars) (show_data : D → chars).


(** C34: The traversals change nothing and visit the same nodes at the same depths:
    the depth traversal parents before children and left before right, the
    breadth traversal by increasing depth. *)
Theorem stree_traversals (t : stree K D) (r : Z) (c : forest) (fuel : nat) :
  stree_at t r c → (fsize c + 1 < fuel)%nat →
  ∃ dfs bfs, depth_traversal fuel t = Done (dfs, t) ∧ breadth_traversal fuel t = Done (bfs, t) ∧
    dfs = preorder 0 (FCons r c FNil) ∧ bfs ≡ₚ dfs ∧ StronglySorted (λ x y : Z * Z, x.1 ≤ y.1) bfs.
Proof.
  intros Hat Hf.
  assert (wp (depth_traversal fuel) (λ v t', v = preorder 0 (FCons r c FNil) ∧ t' = t) t) as (v & t1 & Hd & -> & ->)
    by (by eapply wp_depth_traversal).
  assert (wp (breadth_traversal fuel) (λ v t', v = levels (S (fsize c)) 0 [(r, c)] ∧ t' = t) t) as (w & t2 & Hb & -> & ->)
    by (by eapply wp_breadth_traversal).
  do 2 eexists. split; [done|]. split; [done|]. split; [done|]. split; [|apply levels_sorted].
  rewrite preorder_perm by (simpl; lia). by rewrite (preorder_trees 0 (FCons r c FNil)).
Qed.

End tree.



Definition demo_stree : stree Z Z :=
  STree {[8 := TNode 1 (Some 10) 0 16 0; 16 := TNode 2 (Some 20) 8 0 24; 24 := TNode 3 (Some 30) 8 0 0]} (Some 8) [(1, 8); (2, 16); (3, 24)].

Theorem stree_traversals_witness :
  ∃ dfs bfs, depth_traversal 5 demo_stree = Done (dfs, demo_stree) ∧ breadth_traversal 5 demo_stree = Done (bfs, demo_stree) ∧
    dfs = preorder 0 (FCons 8 (FCons 16 FNil (FCons 24 FNil FNil)) FNil) ∧ bfs ≡ₚ dfs ∧
    StronglySorted (λ x y : Z * Z, x.1 ≤ y.1) bfs.
Proof.
  apply (stree_traversals demo_stree 8 (FCons 16 FNil (FCons 24 FNil FNil)) 5); [|simpl; lia].
  split; [done|]. split; [done|]. simpl. eexists. split; [by vm_compute|]. split_and!; try done.
  eexists. split; [by vm_compute|]. split_and!; try done. eexists. split; [by vm_compute|]. by split_and!.
Defined.

(** ** slist.c *)

Section slist.
Context {W : Type} `{!Alloc W, !AllocOk W}.

(** With an allocator that serves requests up to [B] bytes, adding strings to
    an empty list keeps them all in order: the printing loop prints the strings
    in the order they were added, and ends. *)
Theorem slist_prints (B : Z) (s : slmem W) (hdr : Z) (strs : list chars) (fuel : nat) :
  (∀ n w, n ≤ B → (alloc n w).1 ≠ NULL) → 16 ≤ B → Forall (λ x, Z.of_nat (length x) + 1 ≤ B) strs →
  sl_heap s → sl_hdrs s !! hdr = Some (SListHdr 0 NULL NULL) → (length strs < fuel)%nat →
  ∃ s', (s_add_all hdr strs;; s_print fuel hdr) s = Done (strs, s') ∧
    sl_size <$> sl_hdrs s' !! hdr = Some (Z.of_nat (length strs)).
Proof.
  intros HA HB Hb Hs Hh Hf.
  assert (wp (s_add_all hdr strs;; s_print fuel hdr)
    (λ out s', out = strs ∧ sl_size <$> sl_hdrs s' !! hdr = Some (Z.of_nat (length strs))) s) as (out & s' & Heq & -> & Hsz);
    [|by exists s'].
  apply wp_bind. eapply (wp_s_add_all B HA HB strs hdr [] []); [done| |done|].
  - constructor; [|constructor|constructor|by intros ?%elem_of_nil]. eexists. split; [exact Hh|]. done.
  - intros s' nodes Hs' Hat. simpl in Hat. pose proof (Forall2_length _ _ _ (sa_texts _ _ _ _ Hat)) as Hlen.
    eapply wp_s_print; [done|done|exact Hat|by rewrite Hlen|]. split; [done|].
    destruct (sa_hdr _ _ _ _ Hat) as (l & Hl & Hsize & _). rewrite Hl. simpl. by rewrite Hsize, Hlen.
Qed.

End slist.

Theorem slist_prints_witness :
  let s := SlMem ∅ ∅ {[4 := SListHdr 0 NULL NULL]} (∅ : gset Z) in
  let strs := text <$> ["aa"; "bb"; "cc"; ""; "dd"]%string in
  ∃ s', (s_add_all 4 strs;; s_print 6 4) s = Done (strs, s') ∧ sl_size <$> sl_hdrs s' !! 4 = Some (Z.of_nat (length strs)).
Proof.
  intros s strs. apply (slist_prints (2 ^ 20) s 4 strs 6); [|done| | |done|by vm_compute].
  - intros n w Hn. simpl. rewrite bool_decide_true by done. simpl. pose proof (above_all_pos w). unfold NULL. lia.
  - apply (bool_decide_unpack _). by vm_compute.
  - constructor; simpl; set_solver.
Defined.
