(* ===== verification/PropsHttp.v ===== *)
(** * Properties of the HTTP client (my_lib/http_client)

    The report the client gives, for every behaviour of the network and the
    timer, and the decoding of chunked responses; then executions in which the
    result is not what the protocol means. *)

From Stdlib Require Import Ascii String.
From stdpp Require Import numbers sets list.
From S2P Require Import Prelude StdText EvTime SString Http HttpSpec.

Local Open Scope Z_scope.

Section props.
Context (endpoints : list ServerInfo) (build_request : chars → chars * Z → chars) (status_code0 : Z).

(** C12: In every state the client can reach after start, whatever the network and
    the timer do, it is either running with exactly one operation pending and
    nothing reported, or stopped with exactly one report and nothing pending;
    and a report, once given, is the last. *)
Theorem http_one_report (now : Z) (s : client) :
  steps endpoints build_request status_code0 (start endpoints now new_client) s →
  client_ok endpoints s ∧
  (stopped_ s = true → ∀ s', step endpoints build_request status_code0 s s' → stopped_ s' = true ∧ results s' = results s).
Proof.
  intros Hs. pose proof (reach_ok _ _ _ _ _ Hs) as Hok. split; [done|]. intros Hst s' Hstep.
  unfold client_ok in Hok. rewrite Hst in Hok. destruct Hok as [Hp _].
  by destruct (step_stopped _ _ _ _ _ Hstep Hp Hst) as (H1 & H2 & _).
Qed.

(** C6: A client of a server that accepts the connection and sends a chunked
    response of less than 2 GB, with any reason phrase and any other header lines
    before and behind Transfer-Encoding: however the network cuts the response up, the
    client can go on until it has stopped, it needs at most two operations per
    chunk and five more, and then it has reported exactly the chunks that were
    sent, their total length and no error. *)
Theorem http_chunked (srv : ServerInfo) (rest : list ServerInfo) (now : Z) (rh : head) (chunks : list chars) (tail : chars) (n : nat) (y : client * chars) :
  endpoints = srv :: rest → head_ok rh → body_ok chunks tail →
  delivers endpoints build_request status_code0 n (start endpoints now new_client, message rh chunks tail) y →
  (n ≤ 2 * length chunks + 5)%nat ∧
  (stopped_ y.1 = true → results y.1 = [MkResult chunks (Z.of_nat (length (concat chunks))) []]) ∧
  (stopped_ y.1 = false → ∃ z, deliver endpoints build_request status_code0 y z).
Proof.
  intros He Hok Hb Hd. pose proof (stage_start endpoints rh chunks tail srv rest now He) as H0.
  destruct (delivers_stage _ _ _ _ _ _ _ _ _ _ Hok Hb H0 Hd) as (k & Hk & Hst). split; [lia|]. split.
  - intros Hs. inversion Hst as [ep sv s0 ? Hrun|d s0 Hrun|s0 net Hrun|s0 net Hrun|s0 net dn todo Hrun|s0 net dn c todo m Hrun|s0 net _ _ Hr]; subst;
      try (destruct Hrun as [Hn _]; simpl in Hs; congruence). exact Hr.
  - intros Hs. destruct y as [s net]. destruct (stage_progress endpoints build_request status_code0 rh chunks tail k s net Hb Hst) as [->|H]; [|done].
    destruct (stage_zero _ _ _ _ _ Hst) as [Ht _]. simpl in *. congruence.
Qed.

End props.

(** The program of Source.cpp, whatever the network and the timer do: it
    connects only to its server, and what it writes is always the same request,
    built once.  While the client runs nothing is printed; when it has stopped,
    exactly the message of its only report is, as one line, if there is one. *)
Theorem http_main_program (status_code0 now : Z) (s : client) :
  http_main status_code0 now s →
  (∀ h o, pending s = Some (h, o) → main_io o) ∧
  (stopped_ s = false → is_Some (pending s) ∧ main_output s = []) ∧
  (stopped_ s = true → ∃ r, results s = [r] ∧ main_output s = if decide (res_error r = []) then [] else res_error r ++ [LF]).
Proof.
  intros Hs. pose proof (main_steps_request _ _ _ Hs) as Hr. pose proof (reach_ok _ _ _ _ _ Hs) as Hok.
  unfold request_ok, client_ok in *. split_and!.
  - intros h o Hp. rewrite Hp in Hr. apply Hr.
  - intros Hst. rewrite Hst in Hok. destruct Hok as [(h & o & Hp & _) Hn]. split; [by exists (h, o)|]. unfold main_output. by rewrite Hn.
  - intros Hst. rewrite Hst in Hok. destruct Hok as [_ Hn]. destruct (results s) as [|r [|]] eqn:Hrs; try done. exists r.
    split; [done|]. rewrite (main_output_one s r Hrs). unfold handle_result. destruct (decide (res_error r = [])) as [He|He].
    + by rewrite bool_decide_true.
    + by rewrite bool_decide_false.
Qed.

(** ** Instances *)

Definition demo_server : ServerInfo := MkServerInfo (text "10.0.0.1", 80) 5 30.
Definition demo_request (old : chars) (ep : chars * Z) : chars := old ++ text "GET / HTTP/1.1".

Abbreviation demo_start := (start [demo_server] 0 new_client).
Abbreviation demo_complete := (complete [demo_server] demo_request 0).
Abbreviation demo_step := (step [demo_server] demo_request 0).
Abbreviation demo_steps := (steps [demo_server] demo_request 0).

(** The completion of the pending operation. *)
Definition next (ec : error_code) (data : chars) (s : client) : client :=
  match pending s with
  | Some (h, _) => demo_complete h ec 1 (set_response (response_ s ++ data) (set_pending None s))
  | None => s
  end.

Lemma step_next ec data s :
  match pending s with Some (_, o) => io_ok o (response_ s) ec data | None => False end → demo_step s (next ec data s).
Proof. unfold next. destruct (pending s) as [[h o]|] eqn:Hp; [|done]. intros Hio. by eapply step_io. Qed.

(** A run as a list of completions. *)
Fixpoint run (l : list (error_code * chars)) (s : client) : client :=
  match l with [] => s | (ec, data) :: l => run l (next ec data s) end.

Fixpoint run_ok (l : list (error_code * chars)) (s : client) : Prop :=
  match l with
  | [] => True
  | (ec, data) :: l =>
      match pending s with Some (_, o) => io_ok o (response_ s) ec data | None => False end ∧ run_ok l (next ec data s)
  end.

Lemma run_steps l s s0 : demo_steps s0 s → run_ok l s → demo_steps s0 (run l s).
Proof.
  revert s. induction l as [|[ec data] l IH]; intros s Hs Hok; [done|]. destruct Hok as [H1 H2]. simpl.
  apply IH; [|done]. eapply steps_one; [exact Hs|]. by apply step_next.
Qed.

Theorem http_one_report_witness :
  let l := [(None, []); (Some (other_error (text "reset")), [])] in
  let s := run l demo_start in
  client_ok [demo_server] s ∧
  (stopped_ s = true → ∀ s', demo_step s s' → stopped_ s' = true ∧ results s' = results s).
Proof.
  intros l s. apply (http_one_report [demo_server] demo_request 0 0 s).
  apply run_steps; [constructor|]. by repeat split.
Defined.

Definition demo_head : head := Head (text "OK") [text "Date: today"; text "Content-Length: 12"] [text "Connection: close"].
Definition demo_chunks : list chars := [text "Hello, "; text "world"].

Theorem http_chunked_witness :
  ∃ y, (stopped_ y.1 = true → results y.1 = [MkResult demo_chunks (Z.of_nat (length (concat demo_chunks))) []]) ∧
       (stopped_ y.1 = false → ∃ z, deliver [demo_server] demo_request 0 y z).
Proof.
  exists (demo_start, message demo_head demo_chunks []).
  destruct (http_chunked [demo_server] demo_request 0 demo_server [] 0 demo_head demo_chunks [] 0 (demo_start, message demo_head demo_chunks []))
    as (_ & H1 & H2); [done|by repeat constructor| |constructor|by split].
  split; [repeat constructor; done|vm_compute; done].
Defined.

(** ** Responses that are reported wrongly *)

(** A connection that ends before Content-Length bytes have arrived is
    reported as a complete result without an error. *)
Theorem short_content_accepted :
  ∃ s, demo_steps demo_start s ∧ stopped_ s = true ∧ results s = [MkResult [text "abc"] 3 []] ∧
    response_ s = [] ∧ remote_endpoint_ s = Some (text "10.0.0.1", 80).
Proof.
  set (l := [(None, []); (None, []); (None, text "HTTP/1.1 200 OK" ++ crlf);
             (None, text "Content-Length: 1000" ++ crlf ++ crlf ++ text "abc"); (Some eof, [])] : list (error_code * chars)).
  exists (run l demo_start). split; [|by vm_compute]. apply run_steps; [constructor|]. by repeat split.
Qed.

(** A header name in lower case is not recognised: the response is reported
    as empty. *)
Theorem lower_case_header_ignored :
  ∃ s, demo_steps demo_start s ∧ results s = [MkResult [] 0 (text "handle_read_headers: empty content")].
Proof.
  set (l := [(None, []); (None, []); (None, text "HTTP/1.1 200 OK" ++ crlf);
             (None, text "content-length: 3" ++ crlf ++ crlf ++ text "abc")] : list (error_code * chars)).
  exists (run l demo_start). split; [|by vm_compute]. apply run_steps; [constructor|]. by repeat split.
Qed.

(** The server refuses the connection. *)
Definition refused : client := complete main_servers main_builder 0 (handle_connect_ 0) (Some (other_error [])) 1
  (set_response [] (set_pending None (start main_servers 0 new_client))).

Theorem http_main_program_witness :
  stopped_ refused = true ∧ main_output refused = text "fail to connect to server" ++ [LF] ∧
  ∃ r, results refused = [r] ∧ main_output refused = if decide (res_error r = []) then [] else res_error r ++ [LF].
Proof.
  split; [reflexivity|]. split; [reflexivity|]. apply (http_main_program 0 0 refused); [|reflexivity].
  unfold http_main. eapply steps_one; [apply steps_refl|]. unfold refused. 
  by apply (step_io main_servers main_builder 0 (start main_servers 0 new_client) (handle_connect_ 0) (async_connect (text "192.168.1.129", 8080)) (Some (other_error [])) [] 1).
Defined.
