(* ===== verification/PropsMre.v ===== *)
(** * Properties of the manual reset event (my_lib/ManualResetEvent)

    For any number of threads and any interleaving of their calls; then runs of
    concrete threads, one of which is forgotten by [set]. *)

From stdpp Require Import numbers functions sets list relations.
From S2P Require Import Prelude StdText Mre MreMain.

(** C27: At any time at most one thread is inside a critical section; a wait that
    is about to return finds the event signaled, and a timed wait returns true
    exactly if the event is signaled when it returns. *)
Theorem mre_returns (allowed : nat → pc → Prop) (b : bool) (s : mre) :
  reachable allowed b s →
  (∀ t u, holds (pcs s t) = true → holds (pcs s u) = true → t = u) ∧
  (∀ t, pcs s t = in_wait wait_unlock → signaled_ s = true) ∧
  (∀ t r, pcs s t = in_timed (timed_unlock r) → signaled_ s = r).
Proof.
  intros Hok%reachable_ok. split_and!.
  - intros t u Ht Hu. apply (ok_owner _ Hok) in Ht, Hu. congruence.
  - intros t Ht. apply (ok_knows _ Hok t). by rewrite Ht.
  - intros t r Ht. apply (ok_knows _ Hok t). by rewrite Ht.
Qed.

(** No deadlock: if a thread is inside a call and not waiting on the condition
    variable, then it or the owner of the mutex can go on. *)
Theorem mre_progress (allowed : nat → pc → Prop) (b : bool) (s : mre) (t : nat) :
  reachable allowed b s → pcs s t ≠ idle → blocked (pcs s t) = false →
  ∃ t' target s', action t' target s = Some s' ∧ (t' = t ∨ mtx_ s = Some t').
Proof.
  intros Hok%reachable_ok. by apply someone_goes_on.
Qed.

(** C26: No notification is lost when only one thread waits: as long as it is
    blocked and the event is signaled, some set has still to notify; so once all
    other calls have ended a blocked waiter means the event is not signaled. *)
Theorem mre_one_waiter (w : nat) (b : bool) (s : mre) :
  reachable (one_waiter w) b s → blocked (pcs s w) = true →
  (signaled_ s = true → ∃ t, notifying (pcs s t) = true) ∧
  ((∀ t, t ≠ w → pcs s t = idle) → signaled_ s = false).
Proof.
  intros Hr Hb. pose proof (one_notified _ _ (reachable_one _ _ _ Hr) Hb) as Hn. split; [done|].
  intros Hidle. destruct (signaled_ s) eqn:Hs; [|done]. destruct (Hn eq_refl) as [t Ht].
  destruct (decide (t = w)) as [->|Hne]; [by destruct (pcs s w) as [|[]|[]|[]|[]]|]. by rewrite Hidle in Ht.
Qed.

(** ** Runs *)

Inductive event := Call (t : nat) (p : pc) | Act (t : nat) (target : option nat).

Definition exec1 (e : event) (s : mre) : option mre :=
  match e with
  | Call t p =>
      match pcs s t, p with
      | idle, (in_set set_lock | in_reset reset_lock | in_wait wait_lock | in_timed timed_lock) => Some (goto t p s)
      | _, _ => None
      end
  | Act t target => action t target s
  end.

Fixpoint exec (l : list event) (s : mre) : option mre :=
  match l with [] => Some s | e :: l => s' ← exec1 e s; exec l s' end.

Definition event_allowed (allowed : nat → pc → Prop) (e : event) : Prop :=
  match e with Call t p => allowed t p | Act _ _ => True end.

Lemma exec_reachable allowed b l s s' :
  reachable allowed b s → Forall (event_allowed allowed) l → exec l s = Some s' → reachable allowed b s'.
Proof.
  revert s. induction l as [|e l IH]; intros s Hr Hal He; simpl in He; [by simplify_eq|].
  apply bind_Some in He as (s1 & H1 & He). apply Forall_cons in Hal as [Ha Hal]. eapply IH; [|done|exact He].
  eapply reach_step; [exact Hr|]. destruct e as [t p|t target]; simpl in *.
  - destruct (pcs s t) eqn:Hp; [|done..]. assert (p ∈ calls ∧ s1 = goto t p s) as [Hc ->].
    { unfold calls. rewrite !elem_of_cons. destruct p as [|[]|[]|[]|[]]; naive_solver. }
    by constructor.
  - by eapply step_action.
Qed.

(** A thread waits, another one sets the event and has not notified yet. *)
Definition run_one : list event :=
  [Call 0 (in_wait wait_lock); Act 0 None; Act 0 None; Call 1 (in_set set_lock); Act 1 None; Act 1 None].

Lemma run_one_state : ∃ s, exec run_one (new_event false) = Some s ∧ blocked (pcs s 0) = true ∧ signaled_ s = true.
Proof. eexists. split; [reflexivity|]. by vm_compute. Defined.

Lemma run_one_reachable s : exec run_one (new_event false) = Some s → reachable (one_waiter 0) false s.
Proof. apply exec_reachable; [constructor|]. by repeat constructor. Qed.

Theorem mre_returns_witness :
  ∃ s, exec run_one (new_event false) = Some s ∧
  (∀ t u, holds (pcs s t) = true → holds (pcs s u) = true → t = u) ∧
  (∀ t, pcs s t = in_wait wait_unlock → signaled_ s = true) ∧
  (∀ t r, pcs s t = in_timed (timed_unlock r) → signaled_ s = r).
Proof.
  destruct run_one_state as (s & Hs & _). exists s. split; [done|]. apply (mre_returns (one_waiter 0) false s).
  by apply run_one_reachable.
Defined.

Theorem mre_progress_witness :
  ∃ s, exec run_one (new_event false) = Some s ∧ ∃ t' target s', action t' target s = Some s' ∧ (t' = 1 ∨ mtx_ s = Some t').
Proof.
  eexists. split; [reflexivity|]. apply (mre_progress (one_waiter 0) false _ 1); [by apply run_one_reachable|done|done].
Defined.

Theorem mre_one_waiter_witness :
  ∃ s, exec run_one (new_event false) = Some s ∧ (signaled_ s = true → ∃ t, notifying (pcs s t) = true) ∧
    ((∀ t, t ≠ 0 → pcs s t = idle) → signaled_ s = false).
Proof.
  destruct run_one_state as (s & Hs & Hb & _). exists s. split; [done|].
  apply (mre_one_waiter 0 false s); [by apply run_one_reachable|done].
Defined.

(** With two waiting threads one call of set releases only one of them: the
    other stays blocked on a signaled event with nobody left to notify it. *)
Theorem mre_waiter_forgotten :
  ∃ s, reachable (λ _ _, True) false s ∧ signaled_ s = true ∧ blocked (pcs s 1) = true ∧ (∀ t, t ≠ 1 → pcs s t = idle).
Proof.
  set (l := [Call 0 (in_wait wait_lock); Act 0 None; Act 0 None; Call 1 (in_wait wait_lock); Act 1 None; Act 1 None;
             Call 2 (in_set set_lock); Act 2 None; Act 2 None; Act 2 None; Act 2 (Some 0);
             Act 0 None; Act 0 None; Act 0 None]).
  assert (∃ s, exec l (new_event false) = Some s ∧ signaled_ s = true ∧ blocked (pcs s 1) = true ∧ ∀ t, t ≠ 1 → pcs s t = idle)
    as (s & Hs & H); [|exists s; split; [eapply exec_reachable; [constructor| |exact Hs]; by repeat constructor|done]].
  eexists. split; [reflexivity|]. split; [by vm_compute|]. split; [by vm_compute|].
  intros [|[|[|t]]] Ht; by vm_compute.
Qed.

(** ** The program *)

(** C33: In the program of Source.cpp, however its two threads are interleaved and
    however often a wait is woken without reason, main prints nothing before it
    returns and then exactly the line the other thread stored; and until main has
    printed some thread can act, at most 89 times without a wake-up of that kind. *)
Theorem mre_main_prints (s : program) :
  runs_to s →
  cout_ s = (match main_ s with main_done => set_text ++ [LF] | _ => [] end) ∧
  (∀ n s', nsteps acts n s s' → n ≤ 89 ∧ (main_ s' = main_done ∨ ∃ s'', acts s' s'')).
Proof.
  intros Hok%runs_ok. split; [apply (po_cout _ Hok)|]. intros n s' Hn. destruct (acts_bound _ _ _ Hok Hn) as [Hok' Hle].
  split; [pose proof (program_rank_bound s); lia|]. destruct (main_ s') eqn:Hm; [right..|by left]; apply program_goes_on; by rewrite ?Hm.
Qed.

(** A schedule: [None] is an action of main, [Some target] one of the other thread. *)
Fixpoint schedule (l : list (option (option nat))) (s : program) : option program :=
  match l with
  | [] => Some s
  | a :: l => s' ← match a with None => mre_main s | Some target => set_string target s end; schedule l s'
  end.

Lemma schedule_runs l s s' : runs_to s → schedule l s = Some s' → runs_to s'.
Proof.
  revert s. induction l as [|a l IH]; intros s Hs Hl; simpl in Hl; [by simplify_eq|]. apply bind_Some in Hl as (s1 & H1 & Hl).
  apply (IH s1); [|done]. eapply runs_act; [exact Hs|]. destruct a as [target|]; [by eapply acts_setter|by apply acts_main].
Qed.

(** Main waits, is notified and prints. *)
Definition notified : list (option (option nat)) :=
  replicate 4 None ++ replicate 5 (Some None) ++ [Some (Some 0)] ++ replicate 4 None.

Definition ends_with (P : program → bool) (l : list (option (option nat))) : bool :=
  match schedule l program_start with Some s => P s | None => false end.

Lemma ends_with_spec P l : ends_with P l = true → ∃ s, schedule l program_start = Some s ∧ P s = true.
Proof. unfold ends_with. destruct (schedule l program_start) as [s|]; [|done]. intros H. by exists s. Qed.

Definition main_returned (s : program) : bool := match main_ s with main_done => true | _ => false end.

Theorem mre_main_prints_witness :
  ∃ s, schedule notified program_start = Some s ∧ main_returned s = true ∧
    cout_ s = (match main_ s with main_done => set_text ++ [LF] | _ => [] end) ∧
    (∀ n s', nsteps acts n s s' → n ≤ 89 ∧ (main_ s' = main_done ∨ ∃ s'', acts s' s'')).
Proof.
  destruct (ends_with_spec main_returned notified) as (s & Hs & Hm); [by vm_compute|]. exists s. split; [done|]. split; [done|].
  apply mre_main_prints. by apply (schedule_runs notified program_start); [constructor|].
Defined.

(** Main can return, and destroy the event, while set has still to notify through it. *)
Theorem mre_main_destroys_early :
  ∃ s, runs_to s ∧ main_ s = main_done ∧ pcs (mre_ s) setter_id = in_set set_notify.
Proof.
  set (l := replicate 2 None ++ replicate 5 (Some None) ++ replicate 4 None : list (option (option nat))).
  set (P := λ s, main_returned s && match pcs (mre_ s) setter_id with in_set set_notify => true | _ => false end).
  destruct (ends_with_spec P l) as (s & Hs & Hm); [by vm_compute|].
  exists s. split; [by apply (schedule_runs l program_start); [constructor|]|]. unfold P, main_returned in Hm.
  by destruct (main_ s), (pcs (mre_ s) setter_id) as [|[]| | |].
Qed.
