(* ===== verification/PropsText.v ===== *)
(** * Properties of the logs, the stop watch and the text encodings

    src/cpp_console/{stop_watch,slog,log_printer}.h, src/my_lib/boost_log and
    src/my_lib/icu_encoding. *)

From Stdlib Require Import Ascii String.
From stdpp Require Import numbers sorting sets list.
From S2P Require Import Prelude StdText StdMap EvTime SString STime Console Logger Icu ProgOpt.

Local Open Scope Z_scope.

(** ** stop_watch *)

(** C22: After any calls a stop watch is running exactly if an interval is open,
    and elapsed is the sum of the intervals ended since the last reset or restart; with a
    clock that does not go back it lies between 0 and the time from the first to the last
    reading. *)
Theorem watch_elapsed cs :
  Forall valid_time (readings cs) → Z.of_nat (length cs) < 2 ^ 24 →
  ∃ w, watch_run cs new_watch = Some w ∧
    is_running w = bool_decide (is_Some (measured cs).2) ∧
    elapsed w = Some (sum_of interval_ms (measured cs).1) ∧
    (∀ t0, head (readings cs) = Some t0 → ascending (readings cs) →
       0 ≤ sum_of interval_ms (measured cs).1 ≤ last_reading (day_ms t0) cs - day_ms t0).
Proof.
  intros Hv Hlen. destruct (watch_run_shows cs ([], None) new_watch) as (w & Hw & Hs); [apply shows_new|done|simpl; lia|].
  fold (measured cs) in Hs. exists w. split; [done|]. destruct Hs as (Hd & Hr & _ & HF & _). split_and!.
  - unfold is_running. case_bool_decide; destruct (_running w); naive_solver.
  - pose proof (sum_intervals_bound _ HF). pose proof (measured_length cs).
    unfold elapsed. rewrite total_milliseconds_exact, Hd by lia. apply ck_long_some. unfold in_type; simpl; lia.
  - intros t0 Ht0 Ha. destruct (within_run (day_ms t0) cs (day_ms t0) ([], None)) as (H0 & Hle & _).
    + split_and!; simpl; unfold sum_of; simpl; lia || done.
    + destruct (readings cs) as [|t l]; simplify_eq/=. apply StronglySorted_inv in Ha as [_ ?]. by constructor.
    + done.
    + fold (measured cs) in *. lia.
Qed.

(** ** Logs *)

(** Appending records to a log file keeps what was in it and adds one line per
    record, numbered from 1, with the time of the record. *)
Theorem slog_lines existing recs :
  Forall (λ r, valid_time r.1.1) recs → Z.of_nat (length recs) < 2 ^ 31 →
  append_all recs (open_log (Some existing) new_logger) =
  Some (SimpleLogger (OFStream (Some (existing ++ log_lines 0 recs)) false) (Z.of_nat (length recs))).
Proof. intros Hv Hlen. apply (append_all_lines recs existing 0); [done|lia..]. Qed.

(** C19: format replaces the single percent signs of the format string by the
    arguments in order and the doubled ones by one; it throws logic_error exactly for more
    arguments than places and runtime_error exactly for fewer. *)
Theorem format_exact {T} (lexical_cast : T → option chars) (fmt : chars) args texts :
  Forall2 (λ a t, lexical_cast a = Some t) args texts →
  format lexical_cast fmt args =
  match Nat.compare (holes fmt) (length args) with
  | Eq => inr (fill (pieces fmt) texts)
  | Lt => inl extra_arguments
  | Gt => inl missing_arguments
  end.
Proof. intros H. by apply format_spec. Qed.

(** Texts with the percent signs doubled and one percent sign for each
    argument format to the texts with the arguments in between, if no text between two places
    is empty and none behind a place starts with a percent sign. *)
Theorem format_template {T} (lexical_cast : T → option chars) t0 ts args texts :
  separated ts → length args = length ts →
  Forall2 (λ a t, lexical_cast a = Some t) args texts →
  format lexical_cast (template t0 ts) args = inr (expansion t0 ts texts).
Proof.
  intros Hs Hl H. rewrite (format_spec lexical_cast args texts) by done.
  rewrite holes_template, <-Hl, Nat.compare_refl, pieces_template by done.
  rewrite fill_template; [done|]. apply Forall2_length in H. lia.
Qed.

(** A percent sign right behind an argument cannot be written: it is taken with the mark. *)
Example format_percent_behind :
  format (@Some chars) (text "%%%") [text "99"] = inr (text "%99").
Proof. done. Qed.

(** ** Text encodings *)

Section encodings.
Context `{IC : !Icu, HIC : !IcuOk, NA : !NewArrays}.

(** C21: Encoding::convert is defined for every text of less than 16 MiB: it gives ICU no
    capacity above the size of the array it allocated and reads no element behind one.  Null
    objects are an argument error and an empty text converts to an empty one.  Otherwise the
    result is decided by the two allocations, of twice the number of characters the text can
    have and of ten characters more than the text has: if one fails, that is the error and
    the destination is left alone; if both succeed the destination is the text in the other
    encoding up to its first terminator, so both arrays are large enough. *)
Theorem convert_outcomes p_src p_dst src dst err :
  Z.of_nat (length src) < 2 ^ 24 →
  ∃ r, convert p_src p_dst src dst err = Some r ∧
  match p_src, p_dst with
  | Some e_src, Some e_dst =>
      if decide (src = []) then is_error (r_err r) = false ∧ r_text r = []
      else
        match new_wchars (Z.to_nat (wbuf_elements e_src src)), new_chars (Z.to_nat (buf_elements e_src e_dst src)) with
        | Some _, Some _ =>
            is_error (r_err r) = false ∧
            r_text r = before_nul (encode (cnv_of e_dst) (decode (cnv_of e_src) src)) ∧
            ∃ e e', r_src r = Some e ∧ r_dst r = Some e' ∧ same_encoding e_src e ∧ same_encoding e_dst e'
        | _, _ => r_err r = EncErr U_MEMORY_ALLOCATION_ERROR ∧ r_text r = dst
        end
  | _, _ => r_err r = EncErr U_ILLEGAL_ARGUMENT_ERROR ∧ r_text r = dst
  end.
Proof.
  intros Hlen. destruct p_src as [e_src|], p_dst as [e_dst|]; try by eexists.
  destruct (decide (src = [])) as [->|Hne]; [by eexists|]. by apply convert_spec.
Qed.

(** The program prints a valid GBK text, the same text in UTF-8 and
    the original again, if both contain no terminator. *)
Theorem encoding_main_roundtrip g u src :
  gbk_new = Some g → utf8_new = Some u →
  (∀ n, is_Some (new_wchars n)) → (∀ n, is_Some (new_chars n)) →
  src ≠ [] → Z.of_nat (length src) < 2 ^ 24 →
  encode g (decode g src) = src → NUL ∉ src →
  let mid := encode u (decode g src) in
  decode u mid = decode g src → mid ≠ [] → Z.of_nat (length mid) < 2 ^ 24 → NUL ∉ mid →
  encoding_main src =
  Some (text "gbk string: " ++ src ++ [LF] ++ text "utf-8 string: " ++ mid ++ [LF] ++ text "gbk string: " ++ src ++ [LF]).
Proof.
  intros Hg Hu Hnw Hnc Hne Hlen Hsrc Hnul mid Hmid Hne2 Hlen2 Hnul2.
  unfold encoding_main. rewrite Hg, Hu. cbn [mbind option_bind].
  destruct (convert_spec (GBKEncoding g) (UTF8Encoding u) src [] (EncErr 0)) as (r & -> & Hr); [done..|].
  destruct (Hnw (Z.to_nat (wbuf_elements (GBKEncoding g) src))) as [wb Hwb].
  destruct (Hnc (Z.to_nat (buf_elements (GBKEncoding g) (UTF8Encoding u) src))) as [cb Hcb]. rewrite Hwb, Hcb in Hr.
  destruct Hr as (He & Ht & e & e' & Hs & Hd & Hse & Hse').
  cbn [mbind option_bind]. rewrite He, Hs, Hd. simpl cnv_of in Ht. fold mid in Ht. rewrite (before_nul_id mid) in Ht by done.
  rewrite Ht.
  destruct (convert_spec e' e mid src (r_err r)) as (r' & -> & Hr'); [done..|].
  destruct (Hnw (Z.to_nat (wbuf_elements e' mid))) as [wb' Hwb'].
  destruct (Hnc (Z.to_nat (buf_elements e' e mid))) as [cb' Hcb']. rewrite Hwb', Hcb' in Hr'.
  destruct Hr' as (He' & Ht' & _).
  cbn [mbind option_bind]. rewrite He', Ht'.
  destruct Hse as (_ & _ & -> & _), Hse' as (_ & -> & _). simpl cnv_of. rewrite Hmid, Hsrc, before_nul_id by done.
  by rewrite <-!app_assoc.
Qed.

End encodings.

(** ** Instances *)

Lemma watch_elapsed_witness :
  let cs := [WStart (Stime 10 0 0 0); WStop (Stime 10 0 2 0); WStart (Stime 10 1 0 0); WStop (Stime 10 1 0 500)] in
  (∃ w, watch_run cs new_watch = Some w ∧
    is_running w = bool_decide (is_Some (measured cs).2) ∧
    elapsed w = Some (sum_of interval_ms (measured cs).1) ∧
    (∀ t0, head (readings cs) = Some t0 → ascending (readings cs) →
       0 ≤ sum_of interval_ms (measured cs).1 ≤ last_reading (day_ms t0) cs - day_ms t0)) ∧
  sum_of interval_ms (measured cs).1 = 2500.
Proof.
  intros cs. split; [|done]. apply (watch_elapsed cs); [|done].
  unfold cs, readings; simpl. repeat constructor; done.
Defined.

Lemma slog_lines_witness :
  append_all [(Stime 9 5 0 7, text "up", 12)] (open_log (Some (text "old;")) new_logger) =
  Some (SimpleLogger (OFStream (Some (text "old;[1][09:05:00.007][12] -> up" ++ [LF])) false) 1).
Proof.
  pose proof (slog_lines (text "old;") [(Stime 9 5 0 7, text "up", 12)]) as H.
  rewrite H; [done| |done]. repeat constructor; done.
Defined.

Lemma format_exact_witness :
  format (@Some chars) (text "% of %%, %") [text "3"; text "x"] = inr (text "3 of %, x") ∧
  format (@Some chars) (text "%") [text "3"; text "x"] = inl extra_arguments ∧
  format (@Some chars) (text "% %") [text "3"] = inl missing_arguments.
Proof.
  split_and!; [rewrite (format_exact Some _ _ [text "3"; text "x"])|
               rewrite (format_exact Some _ _ [text "3"; text "x"])|
               rewrite (format_exact Some _ _ [text "3"])]; solve [done|repeat constructor].
Defined.

Lemma format_template_witness :
  format (@Some chars) (template (text "100% of ") [text " in "; text " s"]) [text "a"; text "7"] = inr (text "100% of a in 7 s").
Proof.
  rewrite (format_template Some (text "100% of ") [text " in "; text " s"] _ [text "a"; text "7"]);
    [done|done|done|repeat constructor].
Defined.

Lemma convert_outcomes_witness :
  ∃ r, convert (IC := demo_icu) (NA := demo_arrays) (Some (GBKEncoding (IC := demo_icu) false)) (Some (UTF8Encoding (IC := demo_icu) true))
         (text "Az") [] (EncErr 0) = Some r ∧
  is_error (r_err r) = false ∧ r_text r = text "417a" ∧
  ∃ e e', r_src r = Some e ∧ r_dst r = Some e' ∧
    same_encoding (IC := demo_icu) (GBKEncoding (IC := demo_icu) false) e ∧
    same_encoding (IC := demo_icu) (UTF8Encoding (IC := demo_icu) true) e'.
Proof.
  exact (convert_outcomes (IC := demo_icu) (NA := demo_arrays) (Some (GBKEncoding (IC := demo_icu) false))
    (Some (UTF8Encoding (IC := demo_icu) true)) (text "Az") [] (EncErr 0) eq_refl).
Defined.

(** Arrays that are always new. *)
Definition endless_arrays : NewArrays.
Proof.
  refine {| new_wchars n := Some (replicate n 63); new_chars n := Some (replicate n "?"%char) |};
    intros n a [= <-]; by rewrite length_replicate.
Defined.

Lemma encoding_main_roundtrip_witness :
  encoding_main (IC := demo_icu) (NA := endless_arrays) (text "Az") =
  Some (text "gbk string: Az" ++ [LF] ++ text "utf-8 string: 417a" ++ [LF] ++ text "gbk string: Az" ++ [LF]).
Proof.
  rewrite (encoding_main_roundtrip (IC := demo_icu) (NA := endless_arrays) false true (text "Az")); try done.
  - apply (bool_decide_unpack (_ ∉ _)). by vm_compute.
  - apply (bool_decide_unpack (_ ∉ _)). by vm_compute.
Defined.

(** ** Program options *)

(** After store every value get_int or get_string returns belongs to an option
    of that type in the table, and if store returned true every option of the table has a value:
    the entry of the file or the default. *)
Theorem options_stored `{PL : !ProgramOptionsLib, HPL : !ProgramOptionsOk} cfg ok po :
  store cfg (add_options new_options) = (ok, po) →
  (∀ key z, get_int key po = Some z → ∃ d, d ∈ option_table ∧ o_name d = key ∧ o_type d = t_int) ∧
  (∀ key s, get_string key po = Some s → ∃ d, d ∈ option_table ∧ o_name d = key ∧ o_type d = t_string) ∧
  (ok = true → ∀ d, d ∈ option_table →
     match o_type d with
     | t_int => is_Some (get_int (o_name d) po) ∧ get_string (o_name d) po = None
     | t_string => is_Some (get_string (o_name d) po) ∧ get_int (o_name d) po = None
     end).
Proof.
  intros Hs. split_and!.
  - intros key z Hz%get_int_spec. by apply (store_typed cfg ok po key) in Hz.
  - intros key s Hz%get_string_spec. by apply (store_typed cfg ok po key) in Hz.
  - intros -> d Hd. destruct (store_complete cfg po d Hs Hd) as [v Hv].
    destruct (store_typed cfg true po _ _ Hs Hv) as (d' & Hd' & Hn & Ht).
    rewrite (option_table_unique d' d) in Ht by done. rewrite Ht.
    unfold get_int, get_string, m_count. rewrite Hv. destruct v; simpl; eauto.
Qed.

(** A library whose configuration file has the required options. *)
Definition demo_parsed : list (chars * any) :=
  map (λ n, (text n, any_string (text "x")))
    ["datasource.database"; "datasource.username"; "datasource.password"; "http_server.ip"; "http_server.path"]%string ++
  [(text "http_server.port", any_int 8080)].

Fixpoint demo_build (f : chars → option any) (ks : list chars) : variables_map :=
  match ks with
  | [] => []
  | k :: ks => match f k with Some v => m_insert k v (demo_build f ks) | None => demo_build f ks end
  end.

#[global] Instance demo_options : ProgramOptionsLib := {|
  parse_config_file _ ds := if bool_decide (ds = option_table) then Some demo_parsed else None;
  po_store parsed ds m := Some (demo_build (stored parsed ds m) (m.*1 ++ parsed.*1 ++ map o_name ds));
  po_notify ds m := forallb (λ d, negb (o_required d) || bool_decide (is_Some (m_find (o_name d) m))) ds;
|}.

Lemma demo_build_find f ks k :
  m_sorted (demo_build f ks) ∧ m_find k (demo_build f ks) = if bool_decide (k ∈ ks) then f k else None.
Proof.
  induction ks as [|k' ks [IHs IH]]; [split; [constructor|done]|]. simpl. destruct (f k') as [v|] eqn:Hf.
  - split; [by apply m_insert_sorted|]. destruct (decide (k = k')) as [->|Hne].
    + rewrite m_find_insert_eq, bool_decide_true by set_solver. done.
    + rewrite m_find_insert_ne, IH by done. do 2 case_bool_decide; set_solver.
  - split; [done|]. rewrite IH. destruct (decide (k = k')) as [->|Hne].
    + rewrite (bool_decide_true (k' ∈ k' :: ks)) by set_solver. by case_bool_decide; rewrite ?Hf.
    + do 2 case_bool_decide; set_solver.
Qed.

Lemma m_find_key (m : variables_map) k v : m_find k m = Some v → k ∈ m.*1.
Proof.
  induction m as [|[k' v'] m IH]; [done|]. simpl. destruct (kcmp k k') eqn:Hc; [|done|].
  - apply kcmp_eq in Hc as ->. set_solver.
  - intros ?%IH. set_solver.
Qed.

Lemma described_table k v :
  Is_true (existsb (λ d, bool_decide (o_name d = k ∧ o_type d = type_of v)) option_table) → described option_table k v.
Proof.
  intros (d & Hd & H%bool_decide_eq_true)%Is_true_true%existsb_exists. exists d. split; [by apply list_elem_of_In|done].
Qed.

#[global] Instance demo_options_ok : ProgramOptionsOk.
Proof.
  split.
  - intros cfg ds parsed. simpl. case_bool_decide as Hds; [|done]. subst. intros [= <-].
    apply Forall_forall. intros e He. apply described_table. revert e He. apply Forall_forall.
    unfold demo_parsed. cbn [map app]. repeat (constructor; [by vm_compute|]). constructor.
  - intros parsed ds m m' [= <-] k. destruct (demo_build_find (stored parsed ds m) (m.*1 ++ parsed.*1 ++ map o_name ds) k) as [_ ->].
    case_bool_decide as Hk; [done|]. unfold stored. rewrite !elem_of_app in Hk.
    destruct (m_find k m) eqn:Hm; [by apply m_find_key in Hm; destruct Hk; auto|].
    destruct (list_find (λ e, e.1 = k) parsed) as [[i e]|] eqn:Hp.
    { apply list_find_Some in Hp as (Hi%list_elem_of_lookup_2 & <- & _). destruct Hk. right. left. by apply list_elem_of_fmap_2. }
    destruct (list_find (λ d, o_name d = k) ds) as [[i d]|] eqn:Hd; [|done].
    apply list_find_Some in Hd as (Hi%list_elem_of_lookup_2 & <- & _). destruct Hk. right. right.
    apply (list_elem_of_fmap_2 o_name). done.
  - intros ds m. simpl. rewrite <-Is_true_true, forallb_True, Forall_forall. split.
    + intros H d Hd Hr. specialize (H d Hd). rewrite Hr in H. simpl in H. by apply bool_decide_unpack in H.
    + intros H d Hd. destruct (o_required d) eqn:Hr; [|done]. simpl. by apply bool_decide_pack, H.
Defined.

Lemma options_stored_witness :
  let '(ok, po) := store (PL := demo_options) (text "config.txt") (add_options new_options) in
  ok = true ∧ get_int (text "num_threads") po = Some 4 ∧ get_int (text "http_server.port") po = Some 8080 ∧
  (∀ key z, get_int key po = Some z → ∃ d, d ∈ option_table ∧ o_name d = key ∧ o_type d = t_int).
Proof.
  destruct (store (PL := demo_options) (text "config.txt") (add_options new_options)) as [ok po] eqn:Hs.
  destruct (options_stored (PL := demo_options) (HPL := demo_options_ok) (text "config.txt") ok po Hs) as (H & _).
  vm_compute in Hs. injection Hs as <- <-. split_and!; [done|by vm_compute|by vm_compute|done].
Defined.
