(* ===== verification/PropsMaze.v ===== *)
(** * Properties of the creational patterns (src/design_patterns/creational)

    The maze every factory makes, the life of the singleton factory, and the
    builder's missing rooms. *)

From Stdlib Require Import Ascii String.
From stdpp Require Import gmap numbers sets list.
From S2P Require Import Prelude CAlloc StdText StdMap Maze MazeSpec.

Local Open Scope Z_scope.

Section maze.
Context `{NW : !New}.

(** C18: With any factory that makes its products, CreateMaze returns a maze of
    the rooms 1 and 2, which share one closed door as east and west side and have six
    different walls on their other sides; all of it is new and of the factory's classes, and
    nothing that existed is changed. *)
Theorem maze_created F is_room is_wall is_door :
  MazeFactoryOk F is_room is_wall is_door → ∀ w,
  wp (CreateMaze F) (λ m w', objs w ⊆ objs w' ∧ out w' = out w ∧
    ∃ r1 r2 d ws, maze_layout is_room is_wall is_door (objs w') m r1 r2 d ws ∧
                  Forall (λ p, objs w !! p = None) (m :: r1 :: r2 :: d :: ws)) w.
Proof. intros HF w. by apply CreateMaze_spec. Qed.

(** The static initialisation makes the enchanted factory the one the
    singleton game uses, and once it was used the factory stays whatever is registered later,
    under the same name too. *)
Theorem singleton_mazes w regs :
  wp singleton_CreateMaze (λ m '(w', s'),
    (∃ r1 r2 d ws, maze_layout is_enchanted (.= PlainWall) (.= DoorNeedingSpell) (objs w') m r1 r2 d ws) ∧
    ∀ w1, wp singleton_CreateMaze (λ m' '(w2, s2),
      s2 = register_all regs s' ∧
      ∃ r1 r2 d ws, maze_layout is_enchanted (.= PlainWall) (.= DoorNeedingSpell) (objs w2) m' r1 r2 d ws)
      (w1, register_all regs s')) (w, static_init).
Proof.
  eapply wp_mono; [apply (singleton_CreateMaze_spec EnchantedMazeFactory is_enchanted (.= PlainWall) (.= DoorNeedingSpell)), Instance_static|].
  intros m [w' s'] (-> & _ & _ & Hm). split; [done|]. intros w1.
  eapply wp_mono; [apply (singleton_CreateMaze_spec EnchantedMazeFactory is_enchanted (.= PlainWall) (.= DoorNeedingSpell))|].
  - apply Instance_set. by rewrite register_all_instance.
  - intros m' [w2 s2] (-> & _ & _ & ?). done.
Qed.

(** StandardMazeBuilder never builds a maze: the search for the room in
    BuildRoom dereferences the end iterator of the map, so MazeGame::CreateMaze is undefined
    from every state. *)
Theorem builder_undefined this m0 w :
  objs w !! this = Some (OBuilder m0) → build_CreateMaze (StandardMazeBuilder this) w = Fault.
Proof.
  intros Ht. destruct (BuildMaze_spec w this m0 Ht) as ([] & w' & Hb & m & Ht' & Hm).
  unfold build_CreateMaze, mbind, cmd_bind. simpl. rewrite Hb.
  by rewrite (BuildRoom_spec w' this m [] 1 Ht' Hm).
Qed.

End maze.

(** The programs of abstract_factory and factory_method print the same line, the one of
    singleton its own; the one of builder is undefined. *)
Definition empty_world : world := World ∅ [].

Definition printed (r : outcome (Z * world)) : option chars :=
  match r with Done (_, w) => Some (out w) | _ => None end.

Example mains_print :
  printed (factory_main empty_world) = Some (text "Enter Room With A Bomb" ++ [LF]) ∧
  printed (method_main empty_world) = Some (text "Enter Room With A Bomb" ++ [LF]) ∧
  printed (singleton_main empty_world) = Some (text "Enter Enchanted Room" ++ [LF]) ∧
  printed (builder_main empty_world) = None.
Proof. vm_compute. done. Qed.

Lemma maze_created_witness :
  MazeFactoryOk BombedMazeFactory (.= RoomWithABomb) (.= BombedWall) (.= PlainDoor) ∧
  wp (CreateMaze BombedMazeFactory) (λ m w', objs empty_world ⊆ objs w' ∧ out w' = out empty_world ∧
    ∃ r1 r2 d ws, maze_layout (.= RoomWithABomb) (.= BombedWall) (.= PlainDoor) (objs w') m r1 r2 d ws ∧
                  Forall (λ p, objs empty_world !! p = None) (m :: r1 :: r2 :: d :: ws)) empty_world.
Proof.
  split; [apply bombed_factory_ok|].
  apply (maze_created BombedMazeFactory (.= RoomWithABomb) (.= BombedWall) (.= PlainDoor)).
  apply bombed_factory_ok.
Defined.

Lemma builder_undefined_witness :
  build_CreateMaze (StandardMazeBuilder 1) (World {[1 := OBuilder NULL]} []) = Fault.
Proof. apply (builder_undefined 1 NULL). apply lookup_singleton_eq. Defined.
