(* ===== verification/PropsNet.v ===== *)
(** * Properties of the network programs

    src/network/tcp, src/network/udp, src/network/unixsock and
    src/network/libevent. *)

From Stdlib Require Import Ascii String.
From stdpp Require Import gmap numbers sets list.
From S2P Require Import Prelude StdText InetServer InetSpec Echo.

Local Open Scope Z_scope.

(** ** The TCP server *)

(** C13: Under every interleaving of the accepting, reading and sweeping
    threads no array is accessed out of bounds, every open connection is in the table with a
    time not before its acceptance or is the one just accepted, only connections older than
    FD_AGE are ever swept, and a sweep never tries to close a descriptor that is not open. *)
Theorem inet_server_connections now acts s :
  0 < now → run acts (server0 now) = Some s →
  bad s = false ∧
  (∀ i b, open_fds s !! i = Some b → recorded s i b ∨ in_flight s i) ∧
  Forall (λ e, e.1 + FD_AGE < e.2) (swept s) ∧
  (∀ k i t, handlers s !! k = Some (HLoop i t) → 0 ≤ i ≤ MAX_FD → 0 < get_tm i s → is_Some (open_fds s !! i)).
Proof.
  intros Hnow Hrun. pose proof (run_inv acts _ _ (Inv_start now Hnow) Hrun) as HI. split_and!.
  - apply (inv_bad s HI).
  - intros i b Hb. by apply (inv_open s HI).
  - apply (inv_swept s HI).
  - intros k i t Hk Hi Ht. destruct (overdue_open s k i t) as (b & Hb & _); [done..|]. eauto.
Qed.

(** C14: In every reachable state in which the mutex is free, timer_handler run by
    itself ends after at most 2053 actions with the mutex free again; it has closed exactly the
    recorded connections older than FD_AGE, cleared their entries and left the others. *)
Theorem inet_sweep now acts s k t :
  0 < now → run acts (server0 now) = Some s → mtx s = None → handlers s !! k = Some (HLock t) →
  ∃ n s', (n ≤ 2053)%nat ∧ run (replicate n (AHandle k)) s = Some s' ∧
    handlers s' !! k = Some HDone ∧ mtx s' = None ∧
    (∀ j, 0 ≤ j → get_tm j s' = if overdue s t j then 0 else get_tm j s) ∧
    (∀ j, open_fds s' !! j = if overdue s t j then None else open_fds s !! j).
Proof.
  intros Hnow Hrun Hm Hk. pose proof (run_inv acts _ _ (Inv_start now Hnow) Hrun) as HI.
  destruct (sweep_run k t s HI Hk Hm) as (n & s' & Hn & Hr & Hk' & Hm' & Ht & Ho).
  exists n, s'. split_and!; [done..| |].
  - intros j Hj. rewrite Ht by done. by rewrite (bool_decide_true (0 ≤ j)).
  - intros j. rewrite Ho. destruct (overdue s t j) eqn:Hov; [|by rewrite andb_false_r].
    apply bool_decide_eq_true in Hov as [? _]. by rewrite bool_decide_true by lia.
Qed.

(** ** The libevent echo server *)

(** C23: read_cb terminates, empties the input buffer of the connection and appends
    exactly its bytes to the output buffer; it prints them in pieces of at most MAX_LINE bytes,
    each up to its first terminator. *)
Theorem echo_read_cb `{LE : !Libevent, HLE : !LibeventOk} bev fuel s :
  (length (input bev (p_lib s)) < fuel)%nat →
  wp (read_cb fuel bev) (λ _ s',
    input bev (p_lib s') = [] ∧ output bev (p_lib s') = output bev (p_lib s) ++ input bev (p_lib s) ∧
    ∃ ps, concat ps = input bev (p_lib s) ∧ Forall (λ p, Z.of_nat (length p) ≤ MAX_LINE) ps ∧
          p_out s' = p_out s ++ concat (map (piece_line (bufferevent_getfd bev (p_lib s))) ps)) s.
Proof.
  intros Hf. unfold read_cb. apply wp_bind. eapply wp_done; [done|]. cbv beta.
  eapply wp_mono; [by apply echo_loop_spec|]. cbn [p_lib p_out]. intros _ s' (Hi & Ho & Hp). split_and!; [done..|].
  exists (pieces_of fuel (input bev (p_lib s))). split_and!; [apply pieces_of_concat; lia|apply pieces_of_short|done].
Qed.

(** ** Instances *)

(** A connection accepted at time 100, swept at time 130. *)
Definition demo_acts : list action := [AMain 5; AMain 0; AMain 0; AMain 0; AMain 0; ATick 30; AExpire].

Definition demo_server : server := default (server0 100) (run demo_acts (server0 100)).

Lemma demo_run : run demo_acts (server0 100) = Some demo_server.
Proof. by vm_compute. Qed.

Lemma inet_server_connections_witness :
  bad demo_server = false ∧
  (∀ i b, open_fds demo_server !! i = Some b → recorded demo_server i b ∨ in_flight demo_server i) ∧
  Forall (λ e, e.1 + FD_AGE < e.2) (swept demo_server) ∧
  (∀ k i t, handlers demo_server !! k = Some (HLoop i t) → 0 ≤ i ≤ MAX_FD → 0 < get_tm i demo_server →
     is_Some (open_fds demo_server !! i)).
Proof. apply (inet_server_connections 100 demo_acts); [done|apply demo_run]. Defined.

Lemma inet_sweep_witness :
  ∃ n s', (n ≤ 2053)%nat ∧ run (replicate n (AHandle 0)) demo_server = Some s' ∧
    handlers s' !! 0%nat = Some HDone ∧ mtx s' = None ∧
    (∀ j, 0 ≤ j → get_tm j s' = if overdue demo_server 130 j then 0 else get_tm j demo_server) ∧
    (∀ j, open_fds s' !! j = if overdue demo_server 130 j then None else open_fds demo_server !! j).
Proof.
  apply (inet_sweep 100 demo_acts demo_server 0 130); [done|apply demo_run|by vm_compute|by vm_compute].
Defined.

(** A library that keeps the two buffers of one connection. *)
#[global] Instance demo_libevent : Libevent := {|
  lib := chars * chars;
  bufferevent_socket_new fd _ l := (1, l);
  bufferevent_setcb _ l := l;
  bufferevent_enable _ _ l := l;
  bufferevent_getfd _ _ := 7;
  bufferevent_read _ size '(i, o) :=
    (Z.of_nat (length (take (Z.to_nat size) i)), take (Z.to_nat size) i, (drop (Z.to_nat size) i, o));
  bufferevent_write _ data '(i, o) := (i, o ++ data);
  bufferevent_free _ l := l;
|}.

#[global] Instance demo_libevent_ok : LibeventOk.
Proof.
  refine {| input _ (l : lib) := fst (l : chars * chars); output _ (l : lib) := snd (l : chars * chars) |}.
  - intros bev size [i o] _. simpl. by eexists.
  - by intros bev data [i o].
Defined.

Lemma echo_read_cb_witness :
  wp (read_cb (LE := demo_libevent) 9 1) (λ _ s',
    fst (p_lib s') = [] ∧ snd (p_lib s') = text "old,hello" ∧
    ∃ ps, concat ps = text "hello" ∧ Forall (λ p, Z.of_nat (length p) ≤ MAX_LINE) ps ∧
          p_out s' = concat (map (piece_line 7) ps)) (Prog (LE := demo_libevent) (text "hello", text "old,") []).
Proof.
  exact (echo_read_cb (LE := demo_libevent) (HLE := demo_libevent_ok) 1 9
    (Prog (LE := demo_libevent) (text "hello", text "old,") []) ltac:(simpl; lia)).
Defined.
