(* ===== verification/PropsSock.v ===== *)
(** * Properties of the socket programs

    src/network/udp, src/network/unixsock and src/network/tcp/inet_client.c, run
    against scripted systems. *)

From Stdlib Require Import Ascii String.
From stdpp Require Import numbers list.
From ITree Require Import ITree.
From S2P Require Import Prelude StdText Sock SockSpec.

Local Open Scope Z_scope.

(** C20: The UDP client returns 0 after sending ten datagrams of 512 bytes, and the
    server, given these datagrams, returns 0 and prints the sender and the text of each packet
    in order, whatever the two arrays held before. *)
Theorem udp_transfer cbuf sbuf from wc ws :
  length cbuf = 512%nat → length sbuf = 512%nat → n_next wc ≠ -1 → n_next ws ≠ -1 → n_sent wc = [] →
  ∃ wc', runs (udp_client cbuf) wc (Returned 0) wc' ∧
    length (n_sent wc') = NPACK ∧
    (n_from ws = arrivals from (n_sent wc') →
     ∃ ws', runs (udp_server sbuf) ws (Returned 0) ws' ∧ n_out ws' = n_out ws ++ received from 0 NPACK).
Proof.
  intros Hc Hs Hnc Hns Hsent. eexists. split; [by apply udp_client_runs|]. simpl. rewrite Hsent. split; [done|].
  intros Hfrom. eexists. split; [by eapply (udp_server_runs cbuf)|]. done.
Qed.


(** A message of 100 bytes without a terminator makes the child of the
    Unix server read behind its array before anything is sent back. *)
Theorem unix_server_overread s2 str m ms w :
  length m = 100%nat → NUL ∉ m → length str = 100%nat → n_recv w = messages (m :: ms) →
  ∃ w', runs (serve_child (A := void) s2 str) w Crashed w' ∧ n_sent w' = n_sent w.
Proof. apply serve_child_crash. Qed.

(** The TCP client never stops: after any number of attempts it has sent its
    message once for each connection that was made, and one descriptor is left open for each
    attempt that failed. *)
Theorem inet_client_leaks arg w :
  fresh_fds w →
  ∃ w', rounds (message arg) (length (n_connect w)) w w' ∧
    length (n_open w') = (length (n_open w) + length (filter (λ b, b = false) (n_connect w)))%nat ∧
    n_sent w' = n_sent w ++ replicate (length (filter (λ b, b = true) (n_connect w))) (message arg) ∧
    (length (message arg) ≤ 31)%nat.
Proof.
  intros Hf. destruct (rounds_spec (message arg) (n_connect w) w eq_refl Hf) as (w' & Hr & Ho & Hs).
  exists w'. split_and!; [done..|]. unfold message. destruct arg as [a|]; [|simpl; lia].
  rewrite firstn_length. lia.
Qed.

(** ** Instances *)

Definition net0 : net := Net 3 [] [] [] [] [] [] [].

Lemma udp_transfer_witness :
  let cbuf := replicate 512 "x"%char in
  ∃ wc', runs (udp_client cbuf) net0 (Returned 0) wc' ∧ length (n_sent wc') = NPACK ∧
    (n_from (set_from (arrivals (text "10.0.0.1:4") (datagrams 0 NPACK cbuf)) net0) = arrivals (text "10.0.0.1:4") (n_sent wc') →
     ∃ ws', runs (udp_server cbuf) (set_from (arrivals (text "10.0.0.1:4") (datagrams 0 NPACK cbuf)) net0) (Returned 0) ws' ∧
            n_out ws' = n_out net0 ++ received (text "10.0.0.1:4") 0 NPACK).
Proof.
  intros cbuf. apply (udp_transfer cbuf cbuf (text "10.0.0.1:4") net0
    (set_from (arrivals (text "10.0.0.1:4") (datagrams 0 NPACK cbuf)) net0)); done.
Defined.

Definition demo_array : chars := replicate 99 "?"%char ++ [NUL].


Lemma unix_server_overread_witness :
  let m := replicate 100 "m"%char in
  ∃ w', runs (serve_child (A := void) 4 demo_array) (set_recv (messages [m]) net0) Crashed w' ∧ n_sent w' = [].
Proof.
  intros m. apply (unix_server_overread 4 demo_array m []); try done.
  intros H. apply elem_of_replicate in H as [? _]. done.
Defined.

Lemma inet_client_leaks_witness :
  let w := set_connect [false; true; false] net0 in
  ∃ w', rounds (message None) 3 w w' ∧ length (n_open w') = 2%nat ∧ n_sent w' = [MSG_TO_SVR] ∧
    (length (message None) ≤ 31)%nat.
Proof. intros w. apply (inet_client_leaks None w). constructor. Defined.
